(* ===== verification/_CoqProject ===== *)
-Q . S2P
Prelude.v
GoLib.v
Profiling.v
ProfilingIO.v
GpuProfile.v
Channel.v
StreamIO.v
Types.v
Checks.v
Adapters.v
Criu.v
Swrk.v
Compression.v
Files.v
Plugins.v
Overlay.v
Containerd.v
Rootfs.v
EventStream.v
CheckpointHandler.v
PodQuery.v
Storage.v
CedanaStorage.v
Vm.v
Job.v
Db.v
DbPropagator.v
JobManager.v
ExitWatcher.v
Endpoints.v
Streamer.v
StreamerStart.v
StreamerAdapters.v
Gpu.v
GpuCallback.v
ProcessTree.v
Slurm.v
ProcState.v
Query.v
MountSources.v
Inherit.v
Pipeline.v
DumpSpec.v
RunChain.v
RunSpec.v
RestoreChain.v
RestoreSpec.v
Server.v
Config.v
Client.v
Command.v
CommandSpec.v
