(* ===== verification/Prelude.v ===== *)
(** * A verification development for the cedana daemon

    cedana checkpoints and restores processes: a daemon drives CRIU over a
    socket, checkpoints GPU state through a separate controller process, packs
    the images into a tarball on a local or remote storage, and keeps a
    database of jobs and their checkpoints.  Requests run through a chain of
    adapters around a handler.  This library models the parts of the Go code
    that carry this logic and proves what makes them correct; where the code
    does something else than it means to, the theorem says what it does.

    ** The files, in dependency order

    Foundations.
    - [Prelude]: machine integers, errors, the monad [Go] of stateful code,
      the order of ranging over a sync.Map, shared lemmas and tactics.
    - [GoLib]: what the code uses of strings, path/filepath, strconv, fmt.

    Profiling and handlers.
    - [Profiling]: pkg/profiling/data.go and timing.go.  The tree of timings
      lives behind pointers kept in the context: a store of nodes.
    - [ProfilingIO]: pkg/profiling/io.go, the readers and writers that account
      for their bytes and time, pkg/utils/reflect.go, [SimplifyFuncName], and
      the totals of [Print].
    - [GpuProfile]: internal/cedana/gpu/profiling.go: phases, workers, merged
      intervals and the rows they become.
    - [Types]: pkg/types: adapters, [Handler.With] with and without profiling,
      the Timer adapter, running health checks.
    - [Checks]: the health checks of CRIU, CUDA and the streamer and
      internal/cedana/healthcheck.go.
    - [Adapters]: how chains of adapters are verified: the shape [before] and
      weakest preconditions, which hold with and without profiling.

    Channels and streams.
    - [Channel]: pkg/channel/broadcaster.go as a transition system.
    - [StreamIO]: pkg/io/grpc.go: the pipes over channels of byte slices, the
      slave and its masters, attaching, the adapter [SetupIO].

    CRIU.
    - [Criu]: pkg/criu/notify*.go: the eighteen hooks of [Notify], callbacks
      whose hooks may be nil, and the list of callbacks.
    - [Swrk]: pkg/criu/criu.go: the exchange with the criu swrk process, the
      dump, restore and version calls.

    Files, plugins and storage.
    - [Compression]: pkg/io/compression.go and the extensions of pkg/io/misc.go.
      The compressors are the class [Codecs].
    - [Files]: a file system as a finite map from paths; pkg/io/misc.go, [Tar]
      and [Untar], over the class [TarFormat] of the archive format.
    - [Plugins]: pkg/plugins: the local and the propagator manager, the
      registry, features, over the file system of [Files].
    - [Overlay]: pkg/overlay/restore.go: the writable layer of a container, as
      delimited messages and as inodes.
    - [Storage]: the storage interface with its class of laws [StorageOk], the
      file system and S3 implementations as instances, and
      internal/cedana/filesystem: the adapters of dump and restore.
    - [CedanaStorage]: plugins/storage-cedana as another instance, over the class
      of what Cedana's service answers, and the listings of the storages.

    Virtual machines.
    - [Vm]: dump_vm.go and restore_vm.go of internal/cedana with
      plugins/cloud-hypervisor: handlers, client, copy of the sandbox.

    Containers.
    - [Containerd]: plugins/containerd: the adapters of its chains, its handlers,
      queries and the names of runtimes, over the class [Daemon] of what
      containerd answers; the writable layer is restored with [Overlay].
    - [Rootfs]: its dump of a root file system as an image, over the class of
      containerd's stores.

    Kubernetes.
    - [EventStream]: plugins/k8s/internal/eventstream/rmq.go: the connection,
      the publisher and the consumer, started and closed concurrently.
    - [CheckpointHandler]: the same file: what a checkpoint request does.
    - [PodQuery]: plugins/k8s/pkg/kube: the query that finds the containers of
      pods, over the query of [Containerd].

    Jobs.
    - [Job]: the messages of a job and internal/cedana/job/job.go.
    - [Db]: internal/db/db.go as the classes [DB] and [DBLaws], and the SQLite
      implementation over tables with their constraints, which is an instance.
    - [DbPropagator]: internal/db/db_propagator.go, over the class [Service] of
      what the propagator answers.
    - [JobManager]: internal/cedana/job/manager_lazy.go, proved against [DBLaws].
      Each method is a program of atomic steps and channel sends; a transition
      system runs any number of them beside the routine that mirrors the state
      into the database, with failures and retries.
    - [ExitWatcher]: the goroutines of the manager that wait for the exit of jobs,
      and the dumps that wait for them, as a transition system.
    - [Endpoints]: internal/cedana/job.go, over the manager.

    Streamed checkpoints.
    - [Streamer]: internal/cedana/streamer/fs.go and file.go: the shards of a
      streamed checkpoint, the goroutines that transfer them as a transition
      system, the request protocol, files and listings.
    - [StreamerStart]: the start of the streamer in the same file: the function,
      its goroutines and the process as a transition system.
    - [StreamerAdapters]: the adapters of streamed dumps and restores and the
      background upload, over the storages of [Storage].

    GPU.
    - [Gpu]: internal/cedana/gpu/controller.go, manager_simple.go and
      manager_pool.go: controllers, the pool, booking, spawning, termination,
      keeping the pool at its size.
    - [GpuCallback]: the callback through which dumps and restores include the
      GPU, run under the exchange of [Swrk].

    Processes and requests.
    - [ProcessTree]: the saved state of a process tree, [WalkTree] and the keys
      of the external files that a dump gives to CRIU.
    - [Slurm]: plugins/slurm: the cgroup of a job, the adapters of its chains with
      their callbacks, the freeze handlers.
    - [ProcState]: pkg/utils/process.go: reading that state from /proc.
    - [Query]: internal/cedana/query.go and process/query.go, with the slice
      that is cut while it is ranged over.
    - [MountSources]: the paths of the host that stand for the external mounts of
      a restored GPU container.
    - [Inherit]: the files that a restored process inherits, process and GPU.
    - [Pipeline], [DumpSpec]: dump.go, freeze.go and unfreeze.go of
      internal/cedana with every adapter they compose, and their theorems.
    - [RunChain], [RunSpec]: run.go and manage.go in the same way.
    - [RestoreChain], [RestoreSpec]: restore.go in the same way.
    - [Server]: server.go, attach.go of internal/cedana and pkg/utils/host.go:
      creating the server, its listener, its life.
    - [Config]: pkg/config and the reflection of pkg/utils/reflect.go that finds
      the settings: keys, defaults, variables, loading, the early arguments.
    - [Client]: pkg/client/client.go: connecting and calling the daemon.
    - [Command], [CommandSpec]: cmd/dump.go, restore.go, run.go, manage.go,
      freeze.go, unfreeze.go, job.go and attach.go: the hooks of the commands
      over the client, and their theorems, also over the chain of [Pipeline].

    ** How the code is modelled

    A function is a Rocq function on the state it reads and writes; a call that
    never returns or stops the daemon (a lock nobody releases, a receive nobody
    serves, a nil dereference, a slice out of range) has the result [None].
    Interleaving is explicit where a claim depends on it: the transition systems
    of [Channel], [StreamIO], [JobManager], [ExitWatcher], [Streamer],
    [StreamerStart], [Server], [EventStream] and [CheckpointHandler] and the
    schedules of [Gpu].  Elsewhere goroutines that
    work on disjoint data and are waited for run one after the other.  Integers
    are [Z] with explicit wrap-around.  Logging, tracing and the texts of log
    messages are left out, and so are contexts: a timeout or a cancellation
    shows as the error of the call it bounds.

    What is outside the repository is a parameter: what CRIU, the GPU
    controller, the broker, the propagator and the operating system answer,
    the hypervisor, the cgroup manager, viper, cobra, gRPC, Cedana's storage service, compressors
    and the tar format (with their round-trip laws), protobuf and JSON, [SecureJoin], the S3 client, file locks (flock(2)), the process
    table.  The chains of requests take the storage adapters, the managers of
    jobs and GPUs and the late plugins as parameters of the interfaces [DumpFs]
    and [RestoreFs] and of their environments.  The parameters with laws are
    type classes, and each has an instance, used by the witnesses.

    ** What the theorems show

    - Requests: a dump or a restore calls CRIU at most once, with the options
      that the request, the process and the configuration determine; a restore
      finds the files that the dump put aside; jobs are registered, updated or
      cleaned up.
    - Jobs: the database catches up with memory in every reachable state once
      nothing is in flight; deletion removes a job and its checkpoints and
      nothing else, and the delete endpoint only what neither runs nor is
      remote; PIDs stay unique; rows read back as they were written; the remote
      database is a table for IDs that need no escaping in a URL.  The
      consumer of the channel can block on itself, and a synchronisation can
      bring a deleted checkpoint back.  A dump that waits for a job returns after
      its exit and the detachment of its GPU; a restore that comes before the
      goroutine of the last process is through stops the daemon.
    - Kubernetes: nothing leaks however the stream is started and closed; a
      request is always acknowledged, what is frozen is unfrozen, and the
      answers are those of the dumps, as long as the containers agree on being
      freezable; otherwise the shared error variable can lose a failure.  A
      query of pods partitions the matching containers; which pod comes first
      is open, so a request can reach a pod whose name only begins like its own.
    - Storage: a checkpoint that was dumped is what a restore sees, for every
      storage that satisfies [StorageOk]; extraction stays inside its
      destination; a failed dump leaves no images behind.  With leave-running
      a failure to store is not reported, and S3 lists what is below
      subdirectories.
    - Virtual machines: a dump pauses, copies, takes the snapshot and asks to
      resume, in this order, and resumes whatever it paused; that resuming
      failed is not reported.  A restore can take the descriptors of another
      request, and closes its own twice.
    - Slurm: the cgroup that is found belongs to the job; CRIU is put into it
      before it is sent anything; freezing without CRIU options panics.
    - Layers: restoring a writable layer returns for every input, stays inside
      the upper directory and gives back what was encoded, but for permissions
      that the umask and the wrong test of a mode bit change; a truncated batch
      is accepted.
    - Containers: the image, snapshot and runtime that a dump records are those
      a restore asks containerd for; a failed restore removes its container, a
      failed run does not; the wait for an upcoming container has no limit, and
      a snapshotter other than the default has no effect.  A root file system
      is committed as an image that extends the one of its container; when CRIU
      fails early its finalizer waits forever.
    - Streaming: the shards written are the shards read; waiting for them ends
      if and only if no transfer fails; descriptors are not leaked; a streamed
      dump reports errors and cleans up, but its background upload can lose the
      checkpoint.  A streamer that announces itself after the start was given up
      stops the daemon.
    - Standard streams: readers get what writers sent, in order; attached
      clients see a session to its exit code; the table of slaves stays
      well-formed.
    - CRIU: the callbacks are finalised iff they were initialised, every
      notification is acknowledged, the exchange terminates, an error of a hook
      aborts the operation (with one exception in the code), callbacks run in
      reverse order.
    - GPU: whatever CRIU does, the termination lock is released, success is
      never reported for a failed GPU dump or restore, and a process whose
      restore failed is killed; a failed freeze leaks the lock and a failure
      before pre-dump leaves the GPU frozen.  Booking gives free controllers,
      exclusively unless calls overlap; a synchronisation brings the pool to its
      size; a failed spawn leaves nothing behind.
    - Processes: the walk over /proc builds the tree of the readable
      descendants; the lines it parses read back; a query panics when two
      processes cannot be read and the last is one of them.
    - The server returns once its calls and routines have ended, and can do so
      after an interrupt; when serving fails it waits forever, and a listener that
      could not listen on vsock makes it panic.
    - Plugins: installing brings a plugin up to date and copies only its files.
    - Configuration: every setting has a key, a default and variables of its own;
      [--config-dir] and [--config=...] stop the program.
    - Commands: the client connects where the server listens; a dump from the
      command line calls CRIU at most once, with what the flags ask for; an
      attached run ends with the exit code of the process; killing everything
      needs a confirmation.  Dumping a job without a server always fails.
    - Profiling: transparency of profiling and of the wrapped streams, and
      reports that account for every recorded duration and byte.

    ** Bounds

    Recursion is structural except for four loops that run on fuel: the walk
    over /proc ([ProcState.bfs]), for which the number of entries below the root
    is enough ([FillProcessState_tree] gives a result), the search of the arguments
    ([Config.parse_args]), for which their number is enough
    ([parse_args_enough]), and the two loops over the
    messages of a batch ([Overlay]), for which the length of the input is
    enough, since every round reads at least four bytes ([restore_confined]
    gives a result for every input).  The exchange of [Swrk] recurses on the
    answers of CRIU (and the wait of [Containerd] on the rounds of its select),
    so a conversation that CRIU does not end has no result,
    and its termination theorem asks for an answer that ends it.  [Flatten]
    recurses on the tree, paths on their components.

    ** Not modelled

    Of the command line the commands that print tables, the plugin commands and
    the parsing of flags; logging and metrics; generated SQL, whose meaning is in the
    tables of [Db]; the CRI-O and Kata plugins, which export commands only; the
    GCS storage, whose package is empty. *)

From Stdlib Require Export ssreflect.
From stdpp Require Export base tactics option list gmap strings numbers.

#[global] Open Scope general_if_scope.
#[export] Set Warnings "-rewrite-rw,-register-all,-clear-no-such-hyp".

#[global] Set Default Goal Selector "!".

(** ** Machine integers

    Go's fixed-width integers are [Z] kept in range by an explicit wrap. *)
Definition wrap (bits : Z) (z : Z) : Z := (z mod 2 ^ bits)%Z.

Definition swrap (bits : Z) (z : Z) : Z :=
  let m := (z mod 2 ^ bits)%Z in
  if decide (m < 2 ^ (bits - 1))%Z then m else (m - 2 ^ bits)%Z.

Definition uint32 (z : Z) : Z := wrap 32 z.
Definition int32 (z : Z) : Z := swrap 32 z.
Definition int64 (z : Z) : Z := swrap 64 z.
Definition uint64 (z : Z) : Z := wrap 64 z.

Definition in_uint32 (z : Z) : Prop := (0 <= z < 2 ^ 32)%Z.
Definition in_int64 (z : Z) : Prop := (- 2 ^ 63 <= z < 2 ^ 63)%Z.

Lemma int64_mod z : (int64 z mod 2 ^ 64 = z mod 2 ^ 64)%Z.
Proof.
  rewrite /int64 /swrap. case_decide; [by rewrite Zmod_mod|].
  rewrite Zminus_mod Zmod_mod Z_mod_same_full Z.sub_0_r Zmod_mod //.
Qed.

(** The value of [int64] depends on the argument modulo 2^64 only. *)
Lemma int64_cong a b : (a mod 2 ^ 64 = b mod 2 ^ 64)%Z → int64 a = int64 b.
Proof. rewrite /int64 /swrap. by intros ->. Qed.

Lemma swrap_id bits z :
  (0 < bits)%Z → (- 2 ^ (bits - 1) <= z < 2 ^ (bits - 1))%Z → swrap bits z = z.
Proof.
  intros Hb Hz. rewrite /swrap.
  assert (2 ^ bits = 2 * 2 ^ (bits - 1))%Z as Hp.
  { rewrite -Z.pow_succ_r; [lia|]. f_equal. lia. }
  destruct (decide (0 <= z)%Z) as [?|Hn].
  - rewrite Z.mod_small; [lia|]. rewrite decide_True; lia.
  - assert (z mod 2 ^ bits = z + 2 ^ bits)%Z as ->.
    { rewrite -(Z_mod_plus_full z 1) Z.mul_1_l Z.mod_small; lia. }
    rewrite decide_False; lia.
Qed.

Lemma int64_id z : in_int64 z → int64 z = z.
Proof. intros Hz. by apply swrap_id. Qed.

Lemma int64_in_range z : in_int64 (int64 z).
Proof.
  rewrite /in_int64 /int64 /swrap.
  pose proof (Z.mod_pos_bound z (2 ^ 64) ltac:(lia)).
  case_decide; lia.
Qed.

Lemma int32_id z : (- 2 ^ 31 <= z < 2 ^ 31)%Z → int32 z = z.
Proof. intros Hz. by apply swrap_id. Qed.

Lemma uint32_id z : in_uint32 z → uint32 z = z.
Proof. rewrite /in_uint32 /uint32 /wrap => Hz. by apply Z.mod_small. Qed.

Lemma uint32_in_range z : in_uint32 (uint32 z).
Proof. rewrite /in_uint32 /uint32 /wrap. by apply Z.mod_pos_bound. Qed.

(** ** Errors

    An [error] value of Go that is not nil.  [Errorf] is [fmt.Errorf] or
    [errors.New], [Status] a gRPC status error, [Join] what [errors.Join]
    builds out of at least one non-nil error.  A nil error is [None]. *)
Inductive code :=
| Canceled | InvalidArgument | NotFound | FailedPrecondition
| Unimplemented | Internal | Unavailable | DeadlineExceeded.

#[global] Instance code_eq_dec : EqDecision code.
Proof. solve_decision. Defined.

Inductive error :=
| Errorf (msg : string)
| Status (c : code) (msg : string)
| Join (es : list error).

Definition code_String (c : code) : string :=
  match c with
  | Canceled => "Canceled" | InvalidArgument => "InvalidArgument"
  | NotFound => "NotFound" | FailedPrecondition => "FailedPrecondition"
  | Unimplemented => "Unimplemented" | Internal => "Internal"
  | Unavailable => "Unavailable"
  | DeadlineExceeded => "DeadlineExceeded"
  end.

(** The newline character as a string. *)
Definition nl : string := String (Ascii.ascii_of_nat 10) EmptyString.

(** [err.Error()], which is what the verbs %v, %s and %w print. *)
Fixpoint Error (e : error) : string :=
  match e with
  | Errorf m => m
  | Status c m => "rpc error: code = " +:+ code_String c +:+ " desc = " +:+ m
  | Join es => String.concat nl (map Error es)
  end.

(** [errors.Join]: nil errors are dropped, and joining only nils is nil. *)
Definition errors_Join (es : list (option error)) : option error :=
  match omap id es with
  | [] => None
  | es' => Some (Join es')
  end.

Lemma errors_Join_None es : errors_Join es = None ↔ Forall (λ e, e = None) es.
Proof.
  rewrite /errors_Join. induction es as [|[e|] es IH]; csimpl.
  - by split.
  - split; [done|]. by intros [? _]%Forall_cons_1.
  - rewrite IH. split; [by constructor|]. by intros [_ ?]%Forall_cons_1.
Qed.

(** ** Results of functions returning [(T, error)] *)
Inductive gores (A : Type) :=
| Ok (a : A)
| Err (e : error).
Arguments Ok {_} _.
Arguments Err {_} _.

#[global] Instance gores_ret : MRet gores := λ _ a, Ok a.
#[global] Instance gores_bind : MBind gores := λ _ _ f m,
  match m with Ok a => f a | Err e => Err e end.

Definition is_ok {A} (r : gores A) : bool :=
  match r with Ok _ => true | Err _ => false end.

Definition err_of {A} (r : gores A) : option error :=
  match r with Ok _ => None | Err e => Some e end.

(** ** Stateful code

    [Go W A] is a computation of a goroutine over the shared state [W].
    [None] means that the goroutine does not return: it blocks forever (a
    mutex that is never released, a channel nobody serves) or, where a file
    says so, it panics. *)
Definition Go (W A : Type) : Type := W → option (A * W).

#[global] Instance Go_ret W : MRet (Go W) := λ _ a w, Some (a, w).
#[global] Instance Go_bind W : MBind (Go W) := λ _ _ f m w,
  match m w with Some (a, w') => f a w' | None => None end.

Definition get {W} : Go W W := λ w, Some (w, w).
Definition put {W} (w : W) : Go W unit := λ _, Some ((), w).
Definition modify {W} (f : W → W) : Go W unit := λ w, Some ((), f w).
Definition block {W A} : Go W A := λ _, None.

(** Runs [m], then [k] unless [m] returned an error: the idiom
    [if err != nil { return err }]. *)
Definition unless_err {W} (m k : Go W (option error)) : Go W (option error) :=
  e ← m; match e with Some e => mret (Some e) | None => k end.

(** The same for a computation that also returns a value. *)
Definition try {W A B} (m : Go W (gores A)) (k : A → Go W (gores B)) : Go W (gores B) :=
  r ← m; match r with Err e => mret (Err e) | Ok a => k a end.
Definition fail {W A} (c : code) (msg : string) : Go W (gores A) := mret (Err (Status c msg)).
Definition failed {W A} (msg : string) (e : error) : Go W (gores A) := fail Internal (msg +:+ ": " +:+ Error e).

Definition returns {W A} (m : Go W A) : Prop := ∀ w, is_Some (m w).

Lemma Go_bind_Some {W A B} (m : Go W A) (f : A → Go W B) w b w'' :
  mbind f m w = Some (b, w'') ↔
  ∃ a w', m w = Some (a, w') ∧ f a w' = Some (b, w'').
Proof.
  rewrite /mbind /Go_bind. destruct (m w) as [[a w']|]; naive_solver.
Qed.

Lemma try_Some {W A B} (m : Go W (gores A)) (k : A → Go W (gores B)) w r w' :
  try m k w = Some (r, w') →
  (∃ e, r = Err e ∧ m w = Some (Err e, w')) ∨ (∃ a w1, m w = Some (Ok a, w1) ∧ k a w1 = Some (r, w')).
Proof.
  unfold try. rewrite Go_bind_Some. intros ([a|e] & w1 & Hm & H); [right; eauto|left].
  injection H as <- <-. eauto.
Qed.

Lemma try_Ok {W A B} (m : Go W (gores A)) (k : A → Go W (gores B)) w b w' :
  try m k w = Some (Ok b, w') → ∃ a w1, m w = Some (Ok a, w1) ∧ k a w1 = Some (Ok b, w').
Proof. by intros [(? & ? & _)|?]%try_Some. Qed.

Lemma try_step {W A B} (m : Go W (gores A)) (k : A → Go W (gores B)) w a w1 :
  m w = Some (Ok a, w1) → try m k w = k a w1.
Proof. intros H. by rewrite /try /mbind /Go_bind H. Qed.

Lemma returns_ret {W A} (a : A) : returns (mret a : Go W A).
Proof. intros w. by eexists. Qed.

Lemma returns_bind {W A B} (m : Go W A) (f : A → Go W B) :
  returns m → (∀ a, returns (f a)) → returns (mbind f m).
Proof.
  intros Hm Hf w. rewrite /mbind /Go_bind.
  destruct (Hm w) as [[a w'] ->]. apply Hf.
Qed.

(** ** The order in which a [sync.Map] is ranged over

    Go leaves it open; a [MapRange] instance is one choice of it. *)
Class MapRange := {
  Range : ∀ {A}, gmap string A → list (string * A);
  Range_perm : ∀ {A} (m : gmap string A), Range m ≡ₚ map_to_list m;
}.

#[global] Instance default_MapRange : MapRange | 100 := {
  Range A m := map_to_list m;
  Range_perm A m := reflexivity _;
}.

Section map_range.
Context `{MR : MapRange} {A : Type}.
Implicit Types m : gmap string A.

Lemma elem_of_Range m k x : (k, x) ∈ Range m ↔ m !! k = Some x.
Proof. rewrite Range_perm. apply elem_of_map_to_list. Qed.

Lemma NoDup_Range m : NoDup (Range m).
Proof. rewrite Range_perm. apply NoDup_map_to_list. Qed.

Lemma NoDup_Range_fst m : NoDup (Range m).*1.
Proof. rewrite Range_perm. apply NoDup_fst_map_to_list. Qed.

Lemma length_Range m : length (Range m) = size m.
Proof. by rewrite Range_perm length_map_to_list. Qed.
End map_range.

(** ** Lists *)

Lemma filter_all {A} (P : A → Prop) `{!∀ x, Decision (P x)} (l : list A) :
  Forall P l → filter P l = l.
Proof. induction 1 as [|x l Hx Hl IH]; [done|]. by rewrite filter_cons_True // IH. Qed.

Lemma list_alter_as_insert {A} (f : A → A) (l : list A) i x :
  l !! i = Some x → alter f i l = <[i := f x]> l.
Proof.
  intros Hx. apply list_eq. intros j. destruct (decide (i = j)) as [<-|Hj].
  - rewrite list_lookup_alter_eq Hx list_lookup_insert_eq //. by eapply lookup_lt_Some.
  - by rewrite list_lookup_alter_ne // list_lookup_insert_ne.
Qed.

Lemma omap_ext_in {A B} (f g : A → option B) (l : list A) : (∀ x, x ∈ l → f x = g x) → omap f l = omap g l.
Proof.
  induction l as [|x l IH]; intros Hl; csimpl; [done|].
  rewrite (Hl x); [set_solver|]. rewrite IH; [set_solver|done].
Qed.

(** Selecting by a key that occurs at most once. *)
Lemma filter_key {A K} `{EqDecision K} (g : A → K) (l : list A) x :
  NoDup (g <$> l) → x ∈ l → filter (λ y, g y = g x) l = [x].
Proof.
  induction l as [|y l IH]; csimpl; [by intros _ ?%elem_of_nil|].
  intros [Hy Hl]%list.NoDup_cons [->|Hx]%elem_of_cons.
  - rewrite filter_cons_True //. f_equal. apply elem_of_nil_inv. intros z Hz.
    apply list_elem_of_filter in Hz as [Heq Hz]. apply Hy. rewrite -Heq. by apply list_elem_of_fmap_2.
  - rewrite filter_cons_False; [|by apply IH]. intros Heq. apply Hy. rewrite Heq.
    by apply list_elem_of_fmap_2.
Qed.

(** ** A concrete serialisation, for formats that are parameters *)

Fixpoint bits (p : positive) : string :=
  match p with
  | xH => ""
  | xO p => String (Ascii.ascii_of_nat 48) (bits p)
  | xI p => String (Ascii.ascii_of_nat 49) (bits p)
  end.

Fixpoint unbits (s : string) : positive :=
  match s with
  | EmptyString => xH
  | String x s => if bool_decide (x = Ascii.ascii_of_nat 48) then xO (unbits s) else xI (unbits s)
  end.

Definition serialize {A} `{Countable A} (a : A) : string := bits (encode a).
Definition deserialize {A} `{Countable A} (s : string) : option A := decode (unbits s).

#[global] Arguments serialize : simpl never.
#[global] Arguments deserialize : simpl never.

Lemma deserialize_serialize {A} `{Countable A} (a : A) : deserialize (serialize a) = Some a.
Proof.
  rewrite /deserialize /serialize. assert (∀ p, unbits (bits p) = p) as ->; [|apply decode_encode].
  induction p as [p IH|p IH|]; simpl; by rewrite ?IH.
Qed.

(** ** Automation *)
Create HintDb cedana.
#[export] Hint Resolve returns_ret returns_bind : cedana.
#[export] Hint Resolve int64_in_range uint32_in_range : cedana.

(** Splits every [match] and [if] of the goal, closing the trivial cases. *)
Ltac split_matches := repeat (case_match; simplify_eq/=; try done).

(** Decomposes an execution [m w = Some (r, w')] of a [Go] computation. *)
Ltac inv_go :=
  repeat match goal with
  | H : mbind _ _ _ = Some (_, _) |- _ =>
      apply Go_bind_Some in H as (? & ? & ? & ?)
  | H : mret _ _ = Some (_, _) |- _ => rewrite /mret /Go_ret in H
  | _ => progress simplify_eq/=
  end.


(** Evaluates a decidable proposition without variables. *)
Ltac by_decide := apply (bool_decide_unpack _); vm_compute; exact I.

(** ** Looking for a key by a property of its value *)

Lemma map_find_Some {V B} `{EqDecision B} (f : V → B) (b : B) (m : gmap string V) k :
  head (omap (λ kv, if decide (f kv.2 = b) then Some kv.1 else None) (map_to_list m)) = Some k →
  ∃ v, m !! k = Some v ∧ f v = b.
Proof.
  set (l := omap _ _). destruct l as [|x l'] eqn:Hl; [done|]. intros [= <-].
  assert (x ∈ l) as Hx by (rewrite Hl; left). apply list_elem_of_omap in Hx. destruct Hx as ([k v] & Hin & Hx).
  apply elem_of_map_to_list in Hin. simpl in Hx. case_decide; [|done]. injection Hx as <-. by exists v.
Qed.

Lemma map_find_None {V B} `{EqDecision B} (f : V → B) (b : B) (m : gmap string V) k v :
  head (omap (λ kv, if decide (f kv.2 = b) then Some kv.1 else None) (map_to_list m)) = None →
  m !! k = Some v → f v ≠ b.
Proof.
  set (l := omap _ _). destruct l as [|x l'] eqn:Hl; [|done]. intros _ Hk Hf.
  assert (k ∈ l) as Hx; [|by rewrite Hl in Hx; apply not_elem_of_nil in Hx].
  apply list_elem_of_omap. exists (k, v). split; [by apply elem_of_map_to_list|]. simpl. by rewrite decide_True.
Qed.
