(* ===== verification/GoLib.v ===== *)
(** * What the daemon uses of Go's strings, path/filepath, strconv and fmt

    Strings are sequences of bytes ([string]); only the functions the
    modelled code calls are here, each as its documentation defines it. *)

From S2P Require Import Prelude.
From Stdlib Require Import Ascii DecimalString DecimalN DecimalFacts.

#[export] Set Warnings "-rewrite-rw,-register-all".

Module GoLib.

#[local] Arguments String.append : simpl nomatch.

Definition slash : Ascii.ascii := "/"%char.
Definition dot : Ascii.ascii := "."%char.
Definition comma : Ascii.ascii := ","%char.

(** [strings.HasPrefix] *)
Definition HasPrefix (s pre : string) : bool := String.prefix pre s.

(** [strings.Contains] *)
Fixpoint Contains (s sub : string) : bool :=
  String.prefix sub s ||
  match s with EmptyString => false | String _ s' => Contains s' sub end.

(** Whether a byte occurs in a string. *)
Fixpoint has_byte (c : Ascii.ascii) (s : string) : bool :=
  match s with
  | EmptyString => false
  | String x s' => bool_decide (x = c) || has_byte c s'
  end.

(** [strings.Split] with a one-byte separator: always at least one piece. *)
Fixpoint Split (s : string) (sep : Ascii.ascii) : list string :=
  match s with
  | EmptyString => [EmptyString]
  | String x s' =>
      if bool_decide (x = sep) then EmptyString :: Split s' sep
      else match Split s' sep with
           | [] => [String x EmptyString]
           | p :: ps => String x p :: ps
           end
  end.

(** The characters [strings.TrimSpace] removes (of ASCII). *)
Definition is_space (x : Ascii.ascii) : bool :=
  bool_decide (Ascii.nat_of_ascii x = 32%nat) ||
  bool_decide (9 ≤ Ascii.nat_of_ascii x ≤ 13)%nat.

Fixpoint TrimLeft (s : string) : string :=
  match s with
  | EmptyString => s
  | String x s' => if is_space x then TrimLeft s' else s
  end.

Fixpoint TrimRight (s : string) : string :=
  match s with
  | EmptyString => EmptyString
  | String x s' =>
      match TrimRight s' with
      | EmptyString => if is_space x then EmptyString else String x EmptyString
      | t => String x t
      end
  end.

Definition TrimSpace (s : string) : string := TrimRight (TrimLeft s).

(** [strings.TrimPrefix] *)
Fixpoint TrimPrefix (s pre : string) : string :=
  match pre, s with
  | EmptyString, _ => s
  | String x pre', String y s' =>
      if HasPrefix s pre then TrimPrefix s' pre' else s
  | String _ _, EmptyString => s
  end.

(** [strings.CutPrefix] *)
Definition CutPrefix (s pre : string) : option string :=
  if HasPrefix s pre then Some (TrimPrefix s pre) else None.

(** [strings.HasSuffix] *)
Definition HasSuffix (s suf : string) : bool :=
  bool_decide (String.substring (String.length s - String.length suf) (String.length suf) s = suf) &&
  bool_decide (String.length suf ≤ String.length s).

(** [strings.Index] and [strings.LastIndex] of one byte; [None] is -1. *)
Fixpoint Index (s : string) (c : Ascii.ascii) : option nat :=
  match s with
  | EmptyString => None
  | String x s' => if bool_decide (x = c) then Some 0 else S <$> Index s' c
  end.

Fixpoint LastIndex (s : string) (c : Ascii.ascii) : option nat :=
  match s with
  | EmptyString => None
  | String x s' =>
      match LastIndex s' c with
      | Some i => Some (S i)
      | None => if bool_decide (x = c) then Some 0 else None
      end
  end.

(** [s\[:i\]] and [s\[i:\]], in range. *)
Fixpoint str_take (n : nat) (s : string) : string :=
  match n, s with S n', String x s' => String x (str_take n' s') | _, _ => EmptyString end.
Fixpoint str_drop (n : nat) (s : string) : string :=
  match n, s with S n', String _ s' => str_drop n' s' | _, _ => s end.

(** [strings.Join] *)
Definition StrJoin (l : list string) (sep : string) : string := String.concat sep l.

(** [filepath.Ext]: the suffix from the last dot of the last path element. *)
Fixpoint Ext_go (s : string) (cur : string) : string :=
  match s with
  | EmptyString => cur
  | String x s' =>
      if bool_decide (x = slash) then Ext_go s' EmptyString
      else if bool_decide (x = dot) then Ext_go s' s
      else Ext_go s' cur
  end.
Definition Ext (path : string) : string := Ext_go path EmptyString.

(** [filepath.Base]: the last element, trailing slashes removed. *)
Fixpoint strip_slashes (s : string) : string :=
  match s with
  | EmptyString => EmptyString
  | String x s' =>
      match strip_slashes s' with
      | EmptyString => if bool_decide (x = slash) then EmptyString else String x EmptyString
      | t => String x t
      end
  end.

Fixpoint after_last_slash (s cur : string) : string :=
  match s with
  | EmptyString => cur
  | String x s' => if bool_decide (x = slash) then after_last_slash s' s' else after_last_slash s' cur
  end.

Definition Base (path : string) : string :=
  if bool_decide (path = EmptyString) then "."
  else
    let p := strip_slashes path in
    let b := after_last_slash p p in
    if bool_decide (b = EmptyString) then "/" else b.

(** [fmt.Sprintf("%d", n)] for an unsigned integer. *)
Definition itoa (n : N) : string := NilEmpty.string_of_uint (N.to_uint n).

(** [fmt.Sprintf("%d", z)] *)
Definition itoaZ (z : Z) : string :=
  if decide (z < 0)%Z then String "-" (itoa (Z.to_N (- z))) else itoa (Z.to_N z).

(** ** Lexical paths *)

(** One element of [filepath.Clean]: empty elements and [.] vanish, [..]
    drops the element before it, if there is one that is not itself [..];
    at the root it vanishes, in a relative path it stays.  The stack holds the
    elements kept so far, last one first. *)
Definition clean_step (rooted : bool) (stack : list string) (c : string) : list string :=
  if decide (c = "" ∨ c = ".") then stack
  else if decide (c = "..") then
    match stack with
    | [] => if rooted then [] else [c]
    | top :: below => if decide (top = "..") then c :: stack else below
    end
  else c :: stack.

Definition clean_elems (rooted : bool) (l : list string) : list string :=
  reverse (foldl (clean_step rooted) [] l).

Definition Clean (path : string) : string :=
  let rooted := HasPrefix path "/" in
  let elems := StrJoin (clean_elems rooted (Split path slash)) "/" in
  if rooted then "/" +:+ elems
  else if decide (elems = "") then "." else elems.

(** [filepath.Dir] *)
Definition FilepathDir (p : string) : string :=
  match LastIndex p slash with None => "." | Some i => Clean (str_take (S i) p) end.

(** [filepath.Join] of two elements. *)
Definition Join2 (a b : string) : string :=
  match filter (λ s, s ≠ "") [a; b] with
  | [] => ""
  | l => Clean (StrJoin l "/")
  end.

Lemma append_assoc (s1 s2 s3 : string) : (s1 +:+ s2) +:+ s3 = s1 +:+ (s2 +:+ s3).
Proof. induction s1 as [|x s1 IH]; [done|]. by rewrite /= IH. Qed.

Lemma append_nil_r (s : string) : s +:+ "" = s.
Proof. induction s as [|x s IH]; [done|]. by rewrite /= IH. Qed.

Lemma length_append (s1 s2 : string) :
  String.length (s1 +:+ s2) = String.length s1 + String.length s2.
Proof. induction s1 as [|x s1 IH]; [done|]. by rewrite /= IH. Qed.

Lemma has_byte_append c s1 s2 : has_byte c (s1 +:+ s2) = has_byte c s1 || has_byte c s2.
Proof. induction s1 as [|x s1 IH]; [done|]. by rewrite /= IH orb_assoc. Qed.

Lemma prefix_append s1 s2 : String.prefix s1 (s1 +:+ s2) = true.
Proof. induction s1 as [|x s1 IH]; simpl; [by destruct s2|]. by destruct (Ascii.ascii_dec x x). Qed.

Lemma HasPrefix_true s pre : HasPrefix s pre = true ↔ ∃ s', s = pre +:+ s'.
Proof.
  rewrite /HasPrefix. split; [|intros [s' ->]; apply prefix_append].
  revert s. induction pre as [|x pre IH]; intros s; simpl; [intros _; by exists s|].
  destruct s as [|y s]; simpl; [by intros|]. destruct (Ascii.ascii_dec x y) as [->|]; [|by intros].
  intros [s' ->]%IH. by exists s'.
Qed.

Lemma HasPrefix_append s pre t : HasPrefix s pre = true → HasPrefix (s +:+ t) pre = true.
Proof.
  intros [s' ->]%HasPrefix_true. rewrite append_assoc. apply prefix_append.
Qed.

Lemma TrimPrefix_append pre s : TrimPrefix (pre +:+ s) pre = s.
Proof.
  induction pre as [|x pre IH]; [by destruct s|]. simpl. rewrite /HasPrefix /= prefix_append.
  by destruct (Ascii.ascii_dec x x).
Qed.

Lemma CutPrefix_Some s pre s' : CutPrefix s pre = Some s' ↔ s = pre +:+ s'.
Proof.
  rewrite /CutPrefix. split.
  - destruct (HasPrefix s pre) eqn:H; [|done]. apply HasPrefix_true in H as [t ->].
    by rewrite TrimPrefix_append => [= ->].
  - intros ->. by rewrite /HasPrefix prefix_append TrimPrefix_append.
Qed.

(** An extension without dots and slashes after its own dot is found again. *)
Lemma Ext_append s e :
  has_byte slash e = false → has_byte dot e = false → Ext (s +:+ String dot e) = String dot e.
Proof.
  rewrite /Ext. intros Hs Hd.
  assert (∀ t cur, has_byte slash t = false → has_byte dot t = false → Ext_go t cur = cur) as Hplain.
  { induction t as [|x t IH]; intros cur; simpl; [done|].
    intros [Hx ?]%orb_false_elim [Hx' ?]%orb_false_elim. rewrite Hx Hx'. by apply IH. }
  generalize (EmptyString). induction s as [|x s IH]; intros cur; simpl; [by apply Hplain|].
  by repeat case_bool_decide.
Qed.

Lemma Split_nonempty s sep : Split s sep ≠ [].
Proof. destruct s as [|x s]; simpl; [done|]. case_bool_decide; [done|]. by destruct (Split s sep). Qed.

Lemma Split_nosep s sep : has_byte sep s = false → Split s sep = [s].
Proof.
  induction s as [|x s IH]; simpl; [done|]. intros [Hx Hs]%orb_false_elim.
  rewrite Hx IH //.
Qed.

Lemma Split_append s t sep :
  has_byte sep s = false → Split (s +:+ String sep t) sep = s :: Split t sep.
Proof.
  induction s as [|x s IH]; simpl; [by rewrite bool_decide_true|].
  intros [Hx Hs]%orb_false_elim. by rewrite Hx (IH Hs).
Qed.

Lemma Split_app s t sep : Split (s +:+ String sep t) sep = Split s sep ++ Split t sep.
Proof.
  induction s as [|x s IH]; simpl; [by rewrite bool_decide_true|].
  case_bool_decide; [by rewrite IH|]. rewrite IH.
  pose proof (Split_nonempty s sep). by destruct (Split s sep).
Qed.

(** Splitting a joined list of pieces that do not contain the separator. *)
Lemma Split_Join sep l :
  l ≠ [] → Forall (λ s, has_byte sep s = false) l →
  Split (StrJoin l (String sep EmptyString)) sep = l.
Proof.
  intros Hne Hl. induction Hl as [|s l Hs Hl IH]; [done|].
  destruct l as [|s' l]; [by apply Split_nosep|].
  change (StrJoin (s :: s' :: l) (String sep EmptyString))
    with (s +:+ String sep (StrJoin (s' :: l) (String sep EmptyString))).
  rewrite Split_append //. f_equal. by apply IH.
Qed.

(** Decimal numbers have neither dots nor slashes. *)
Lemma has_byte_uint c u :
  bool_decide (c ∈ ["0"; "1"; "2"; "3"; "4"; "5"; "6"; "7"; "8"; "9"]%char) = false →
  has_byte c (NilEmpty.string_of_uint u) = false.
Proof.
  rewrite bool_decide_eq_false => Hc.
  induction u; cbn [NilEmpty.string_of_uint has_byte]; [done|..];
    (rewrite bool_decide_false; [intros <-; apply Hc; by_decide|done]).
Qed.

Lemma has_byte_itoaZ c z :
  bool_decide (c ∈ ["-"; "0"; "1"; "2"; "3"; "4"; "5"; "6"; "7"; "8"; "9"]%char) = false →
  has_byte c (itoaZ z) = false.
Proof.
  intros Hc. assert (has_byte c (itoa (Z.to_N z)) = false ∧ has_byte c (itoa (Z.to_N (- z))) = false)
    as [H1 H2].
  { split; apply has_byte_uint; rewrite !bool_decide_eq_false in Hc |- *;
      intros ?; apply Hc; by right. }
  apply bool_decide_eq_false in Hc. rewrite /itoaZ. case_decide; [|exact H1]. cbn [has_byte].
  rewrite H2 bool_decide_false; [|done]. intros <-. apply Hc. by_decide.
Qed.

Lemma Contains_no_dot s : has_byte dot s = false → Contains s ".." = false.
Proof.
  induction s as [|x s IH]; [done|]. cbn [has_byte Contains String.prefix].
  intros [Hx Hs]%orb_false_elim. rewrite (IH Hs) orb_false_r.
  destruct (Ascii.ascii_dec _ x) as [<-|]; [|done]. by vm_compute in Hx.
Qed.

End GoLib.
