(* ===== verification/Profiling.v ===== *)
(** * Profiling data (pkg/profiling)

    [Data] is the profiling tree of [data.go], with [Flatten] and [Clean].
    [Store] and the [Start.../Add...] operations are [timing.go]: the
    contexts carry a pointer to the node being timed, so the nodes live in a
    store and the context holds a location. *)

From S2P Require Import Prelude.

Module Profiling.

#[local] Open Scope Z_scope.

(** ** The profiling tree *)

#[local] Unset Elimination Schemes.
Inductive Data := mkData {
  Name : string;
  Components : list Data;
  Duration : Z;
  IO : Z;
  Parallel : bool;
  Redundant : bool;
  IORedundant : bool;
}.
#[local] Set Elimination Schemes.

(** Induction over the tree: the hypothesis holds of every component. *)
Lemma Data_ind' (P : Data → Prop) :
  (∀ n cs d io p r ior, Forall P cs → P (mkData n cs d io p r ior)) →
  ∀ d, P d.
Proof.
  intros H. fix IH 1. intros [n cs d io p r ior]. apply H.
  induction cs as [|c cs IHcs]; constructor; [apply IH|apply IHcs].
Qed.

Definition set_Components (cs : list Data) (d : Data) : Data :=
  mkData (Name d) cs (Duration d) (IO d) (Parallel d) (Redundant d) (IORedundant d).
Definition set_Duration (z : Z) (d : Data) : Data :=
  mkData (Name d) (Components d) z (IO d) (Parallel d) (Redundant d) (IORedundant d).
Definition set_Name (n : string) (d : Data) : Data :=
  mkData n (Components d) (Duration d) (IO d) (Parallel d) (Redundant d) (IORedundant d).

Definition overlapped (d : Data) : bool := Parallel d || Redundant d.

Definition prefix_name (pre : string) (c : Data) : Data :=
  set_Name (pre +:+ ":" +:+ Name c) c.

(** [Flatten]: the loop subtracts the duration of every serial component
    before flattening it, and appends the component (its own components
    cleared) followed by what it flattened to. *)
Fixpoint Flatten (data : Data) : Data :=
  let loop :=
    fix loop (cs : list Data) (dur : Z) (acc : list Data) : Z * list Data :=
      match cs with
      | [] => (dur, acc)
      | c :: cs' =>
          let dur' := if negb (overlapped c) then int64 (dur - Duration c) else dur in
          let c' := Flatten c in
          loop cs' dur' (acc ++ [set_Components [] c'] ++ Components c')
      end in
  let '(dur, comps) := loop (Components data) (Duration data) [] in
  let comps' :=
    if bool_decide (dur = 0) && negb (bool_decide (Name data = ""))
    then map (prefix_name (Name data)) comps else comps in
  set_Components comps' (set_Duration dur data).

(** An empty wrapper: no duration, no IO and no name. *)
Definition is_wrapper (c : Data) : bool :=
  bool_decide (Duration c = 0) && bool_decide (IO c = 0) &&
  bool_decide (Name c = "").

Fixpoint Clean (data : Data) : Data :=
  match Components data with
  | [] => data
  | cs =>
      let clean1 c :=
        let c' := Clean c in
        if is_wrapper c' then Components c' else [c'] in
      set_Components (concat (map clean1 cs)) data
  end.

(** *** Sums over components *)

(** The duration [Print] counts for a component of the flattened list. *)
Definition counted (c : Data) : Z := (if overlapped c then 0 else Duration c).

Definition sum_with (f : Data → Z) (l : list Data) : Z :=
  foldr (λ c acc, (f c + acc)) 0 l.

Definition total (d : Data) : Z := (Duration d + sum_with counted (Components d)).

(** What the overlapped nodes below [d] hide: for every parallel or redundant
    node, the part of its duration that its own serial components carry. *)
Fixpoint hidden (d : Data) : Z :=
  (fix go (cs : list Data) : Z :=
     match cs with
     | [] => 0
     | c :: cs' =>
         (hidden c +
          (if overlapped c then Duration c - Duration (Flatten c) else 0) +
          go cs')
     end) (Components d).

Definition hidden_in (cs : list Data) : Z :=
  sum_with (λ c, (hidden c +
    (if overlapped c then Duration c - Duration (Flatten c) else 0))) cs.

Definition flatten_step (c : Data) : list Data :=
  set_Components [] (Flatten c) :: Components (Flatten c).

Definition serial_sum (cs : list Data) : Z := sum_with counted cs.

Fixpoint subtract_all (dur : Z) (cs : list Data) : Z :=
  match cs with
  | [] => dur
  | c :: cs' =>
      subtract_all (if negb (overlapped c) then int64 (dur - Duration c) else dur) cs'
  end.

(** Number of strict descendants. *)
Fixpoint descendants (d : Data) : nat :=
  (fix go (cs : list Data) : nat :=
     match cs with [] => 0%nat | c :: cs' => S (descendants c + go cs')%nat end) (Components d).

Lemma hidden_eq d : hidden d = hidden_in (Components d).
Proof.
  destruct d as [n cs dd io p r ior]; simpl. rewrite /hidden_in.
  induction cs as [|c cs IH]; simpl; [done|]. by rewrite IH.
Qed.

Lemma Flatten_eq d :
  Flatten d =
    let dur := subtract_all (Duration d) (Components d) in
    let comps := concat (map flatten_step (Components d)) in
    set_Components
      (if bool_decide (dur = 0) && negb (bool_decide (Name d = ""))
       then map (prefix_name (Name d)) comps else comps)
      (set_Duration dur d).
Proof.
  destruct d as [n cs dd io p r ior]. cbn [Flatten Components Duration Name].
  match goal with |- context [?f cs dd []] => set (loop := f) end.
  assert (∀ l dur acc, loop l dur acc =
    (subtract_all dur l, acc ++ concat (map flatten_step l))) as Hloop.
  { induction l as [|c l IH]; intros dur acc; simpl; [by rewrite app_nil_r|].
    rewrite IH. by rewrite -app_assoc. }
  by rewrite Hloop.
Qed.

Lemma sum_with_app f l1 l2 :
  sum_with f (l1 ++ l2) = (sum_with f l1 + sum_with f l2).
Proof. induction l1 as [|x l1 IH]; simpl; lia. Qed.

Lemma sum_counted_prefix pre l :
  sum_with counted (map (prefix_name pre) l) = sum_with counted l.
Proof. induction l as [|x l IH]; simpl; [done|]. by rewrite IH. Qed.

Lemma Flatten_Duration d : Duration (Flatten d) = subtract_all (Duration d) (Components d).
Proof. by rewrite Flatten_eq. Qed.

Lemma overlapped_Flatten d : overlapped (Flatten d) = overlapped d.
Proof. by rewrite Flatten_eq. Qed.

Lemma Flatten_counted d :
  sum_with counted (Components (Flatten d)) =
  sum_with counted (concat (map flatten_step (Components d))).
Proof. rewrite Flatten_eq /=. case_match; [by rewrite sum_counted_prefix|done]. Qed.

Lemma counted_head c :
  counted (set_Components [] (Flatten c)) =
  if overlapped c then 0 else Duration (Flatten c).
Proof. rewrite -(overlapped_Flatten c). done. Qed.

Lemma subtract_all_mod dur cs :
  (subtract_all dur cs mod 2 ^ 64 = (dur - serial_sum cs) mod 2 ^ 64).
Proof.
  revert dur. induction cs as [|c cs IH]; intros dur; simpl.
  { f_equal. rewrite /serial_sum /=. lia. }
  rewrite IH /serial_sum /= /counted. destruct (overlapped c); simpl; [f_equal; lia|].
  rewrite Zminus_mod int64_mod -Zminus_mod. f_equal. lia.
Qed.

(** Two integers equal as 64-bit words. *)
Definition eqm64 (x y : Z) : Prop := (x mod 2 ^ 64 = y mod 2 ^ 64).

#[global] Instance eqm64_equiv : Equivalence eqm64.
Proof.
  rewrite /eqm64. split.
  - by intros x.
  - by intros x y ->.
  - by intros x y z -> ->.
Qed.

#[global] Instance eqm64_add : Proper (eqm64 ==> eqm64 ==> eqm64) Z.add.
Proof. intros x x' Hx y y' Hy. rewrite /eqm64 Zplus_mod Hx Hy -Zplus_mod //. Qed.

#[global] Instance eqm64_sub : Proper (eqm64 ==> eqm64 ==> eqm64) Z.sub.
Proof. intros x x' Hx y y' Hy. rewrite /eqm64 Zminus_mod Hx Hy -Zminus_mod //. Qed.

Lemma eq_eqm64 x y : x = y → eqm64 x y.
Proof. by intros ->. Qed.

Ltac eqm64_lia := apply eq_eqm64; lia.

Lemma Flatten_total_aux d : eqm64 (total (Flatten d)) (Duration d + hidden d).
Proof.
  induction d as [n cs dd io p r ior IH] using Data_ind'.
  rewrite /total Flatten_Duration Flatten_counted hidden_eq.
  cbn [Components Duration].
  transitivity (dd - serial_sum cs + sum_with counted (concat (map flatten_step cs))).
  { apply eqm64_add; [apply subtract_all_mod|done]. }
  assert (eqm64 (sum_with counted (concat (map flatten_step cs)))
                (serial_sum cs + hidden_in cs)) as Hsum.
  2: { setoid_rewrite Hsum. eqm64_lia. }
  induction IH as [|c cs Hc _ IHcs]; [done|].
  rewrite /serial_sum /hidden_in /= sum_with_app.
  setoid_rewrite IHcs. rewrite Z.add_assoc.
  assert (eqm64 (counted (set_Components [] (Flatten c)) +
                 sum_with counted (Components (Flatten c)))
            (counted c + (hidden c +
              (if overlapped c then Duration c - Duration (Flatten c) else 0)))) as Hhead.
  { rewrite /total in Hc. rewrite counted_head {2}/counted.
    destruct (overlapped c); simpl.
    - transitivity ((Duration (Flatten c) + sum_with counted (Components (Flatten c)))
        - Duration (Flatten c)); [eqm64_lia|]. setoid_rewrite Hc. eqm64_lia.
    - setoid_rewrite Hc. eqm64_lia. }
  setoid_rewrite Hhead. rewrite /serial_sum /hidden_in. eqm64_lia.
Qed.

Lemma length_flatten d : length (Components (Flatten d)) = descendants d.
Proof.
  induction d as [n cs dd io p r ior IH] using Data_ind'. rewrite Flatten_eq /=.
  transitivity (length (concat (map flatten_step cs))).
  { case_match; by rewrite ?length_map. }
  induction IH as [|c cs Hc _ IHcs]; simpl; [done|].
  by rewrite length_app Hc IHcs.
Qed.

Lemma Flatten_leaves d :
  Forall (λ c, Components c = []) (Components (Flatten d)).
Proof.
  induction d as [n cs dd io p r ior IH] using Data_ind'. rewrite Flatten_eq /=.
  assert (Forall (λ c, Components c = []) (concat (map flatten_step cs))) as Hl.
  { induction IH as [|c cs Hc _ IHcs]; simpl; constructor; [done|].
    by apply Forall_app. }
  case_match; [|done]. by apply Forall_map.
Qed.

(** Parallel and redundant components are leaves, as in the trees the daemon
    builds for storage IO and GPU profiles. *)
Fixpoint overlaps_are_leaves (d : Data) : bool :=
  (fix go (cs : list Data) : bool :=
     match cs with
     | [] => true
     | c :: cs' =>
         (if overlapped c then bool_decide (Components c = []) else true) &&
         overlaps_are_leaves c && go cs'
     end) (Components d).

Lemma hidden_zero d : overlaps_are_leaves d = true → hidden d = 0.
Proof.
  induction d as [n cs dd io p r ior IH] using Data_ind'. simpl.
  induction IH as [|c cs Hc _ IHcs]; [done|].
  intros [[Ho Hl]%andb_prop Hcs]%andb_prop. rewrite (Hc Hl) (IHcs Hcs).
  destruct (overlapped c); [|lia]. case_bool_decide as Hnil; [|done].
  rewrite Flatten_Duration Hnil /=. lia.
Qed.

(** ** Clean *)

Fixpoint wrapper_free (d : Data) : bool :=
  (fix go (cs : list Data) : bool :=
     match cs with
     | [] => true
     | c :: cs' => negb (is_wrapper c) && wrapper_free c && go cs'
     end) (Components d).

(** The node without its components. *)
Definition label (d : Data) : Data := set_Components [] d.

(** Labels of the strict descendants that are not empty wrappers, in preorder. *)
Fixpoint labels (d : Data) : list Data :=
  (fix go (cs : list Data) : list Data :=
     match cs with
     | [] => []
     | c :: cs' => (if is_wrapper c then [] else [label c]) ++ labels c ++ go cs'
     end) (Components d).

Definition clean1 (c : Data) : list Data :=
  if is_wrapper (Clean c) then Components (Clean c) else [Clean c].

Definition node_labels (c : Data) : list Data :=
  (if is_wrapper c then [] else [label c]) ++ labels c.

Definition node_ok (c : Data) : bool := negb (is_wrapper c) && wrapper_free c.

Lemma Clean_eq d : Clean d = set_Components (concat (map clean1 (Components d))) d.
Proof. by destruct d as [n [|c cs] dd io p r ior]. Qed.

Lemma labels_eq d : labels d = concat (map node_labels (Components d)).
Proof.
  destruct d as [n cs dd io p r ior]; simpl.
  induction cs as [|c cs IH]; simpl; [done|].
  by rewrite IH /node_labels -app_assoc.
Qed.

Lemma wrapper_free_eq d : wrapper_free d = forallb node_ok (Components d).
Proof.
  destruct d as [n cs dd io p r ior]; simpl.
  induction cs as [|c cs IH]; simpl; [done|]. by rewrite IH.
Qed.

Lemma is_wrapper_Clean c : is_wrapper (Clean c) = is_wrapper c.
Proof. by rewrite Clean_eq. Qed.

Lemma label_Clean c : label (Clean c) = label c.
Proof. by rewrite Clean_eq. Qed.

Lemma labels_Clean d : labels (Clean d) = labels d.
Proof.
  induction d as [n cs dd io p r ior IH] using Data_ind'. rewrite Clean_eq !labels_eq /=.
  induction IH as [|c cs Hc _ IHcs]; simpl; [done|].
  rewrite map_app concat_app IHcs. f_equal.
  rewrite /clean1 /node_labels is_wrapper_Clean. destruct (is_wrapper c) eqn:Hw; simpl.
  - by rewrite -labels_eq.
  - by rewrite /node_labels is_wrapper_Clean Hw label_Clean Hc app_nil_r.
Qed.

Lemma wrapper_free_Clean d : wrapper_free (Clean d) = true.
Proof.
  induction d as [n cs dd io p r ior IH] using Data_ind'. rewrite Clean_eq wrapper_free_eq /=.
  induction IH as [|c cs Hc _ IHcs]; simpl; [done|].
  rewrite forallb_app IHcs andb_true_r /clean1 is_wrapper_Clean.
  destruct (is_wrapper c) eqn:Hw; simpl; [by rewrite -wrapper_free_eq|].
  by rewrite /node_ok is_wrapper_Clean Hw Hc.
Qed.

Lemma Clean_id d : wrapper_free d = true → Clean d = d.
Proof.
  induction d as [n cs dd io p r ior IH] using Data_ind'. rewrite wrapper_free_eq Clean_eq /= => Hw.
  rewrite /set_Components /=. f_equal.
  induction IH as [|c cs Hc _ IHcs]; simpl in *; [done|].
  apply andb_prop in Hw as [[Hn Hf]%andb_prop Hcs].
  rewrite (IHcs Hcs) /clean1 is_wrapper_Clean (Hc Hf).
  by destruct (is_wrapper c).
Qed.

(** ** Timing: the nodes as the running daemon shares them

    A context carries the location of the node being timed
    ([keys.PROFILING_CONTEXT_KEY]), or none when the caller is not profiled.
    Wall-clock time enters as the nanoseconds the [end] function measures;
    spans and trace logging are left out. *)
Record Node := mkFullNode {
  nName : string;
  nComponents : list nat;
  nDuration : Z;
  nIO : Z;
  nParallel : bool;
  nRedundant : bool;
  nIORedundant : bool;
}.

(** [&Data{Name, Duration, Parallel}]; the other fields are zero. *)
Definition mkNode (name : string) (cs : list nat) (duration : Z) (parallel : bool) : Node :=
  mkFullNode name cs duration 0 parallel false false.

Definition map_Components (f : list nat → list nat) (n : Node) : Node :=
  mkFullNode (nName n) (f (nComponents n)) (nDuration n) (nIO n) (nParallel n) (nRedundant n) (nIORedundant n).
Definition map_Duration (f : Z → Z) (n : Node) : Node :=
  mkFullNode (nName n) (nComponents n) (f (nDuration n)) (nIO n) (nParallel n) (nRedundant n) (nIORedundant n).
Definition rename (name : string) (n : Node) : Node :=
  mkFullNode name (nComponents n) (nDuration n) (nIO n) (nParallel n) (nRedundant n) (nIORedundant n).

Abbreviation Store := (gmap nat Node).
Definition Ctx : Type := option nat.

(** What the returned [end] function will write. *)
Inductive End :=
| EndNoop
| EndNode (component : nat)
| EndCategory (category child : nat).

Definition alloc (n : Node) (s : Store) : nat * Store :=
  let l := fresh (dom s) in (l, <[l := n]> s).

Definition append_component (data component : nat) (s : Store) : Store :=
  alter (map_Components (λ cs, cs ++ [component])) data s.

Definition set_nDuration (l : nat) (z : Z) (s : Store) : Store :=
  alter (map_Duration (λ _, z)) l s.

Definition add_nDuration (l : nat) (z : Z) (s : Store) : Store :=
  alter (map_Duration (λ d, int64 (d + z))) l s.

Definition StartTiming (ctx : Ctx) (name : string) (s : Store) : Ctx * End * Store :=
  let '(data, s1) :=
    match ctx with
    | Some data => (data, s)
    | None => alloc (mkNode "" [] 0 false) s
    end in
  let s2 := alter (rename name) data s1 in
  (Some data, EndNode data, s2).

Definition StartTimingComponent (ctx : Ctx) (name : string) (s : Store) : Ctx * End * Store :=
  match ctx with
  | None => (ctx, EndNoop, s)
  | Some data =>
      let '(component, s1) := alloc (mkNode name [] 0 false) s in
      (Some component, EndNode component, append_component data component s1)
  end.

Definition StartTimingParallelComponent (ctx : Ctx) (name : string) (s : Store)
    : Ctx * End * Store :=
  match ctx with
  | None => (ctx, EndNoop, s)
  | Some data =>
      let '(component, s1) := alloc (mkNode name [] 0 true) s in
      (Some component, EndNode component, append_component data component s1)
  end.

(** The first component of [data] whose name is [category]. *)
Definition find_category (data : nat) (category : string) (s : Store) : option nat :=
  n ← (s !! data);
  snd <$> list_find (λ c, (nName <$> (s !! c)) = Some category) (nComponents n).

Definition get_category (data : nat) (category : string) (s : Store) : nat * Store :=
  match find_category data category s with
  | Some c => (c, s)
  | None =>
      let '(c, s1) := alloc (mkNode category [] 0 false) s in
      (c, append_component data c s1)
  end.

Definition StartTimingCategory (ctx : Ctx) (category name : string) (s : Store)
    : Ctx * End * Store :=
  match ctx with
  | None => (ctx, EndNoop, s)
  | Some data =>
      let '(cat, s1) := get_category data category s in
      let '(child, s2) := alloc (mkNode name [] 0 false) s1 in
      (Some child, EndCategory cat child, append_component cat child s2)
  end.

Definition StartTimingParallelCategory (ctx : Ctx) (category name : string) (s : Store)
    : Ctx * End * Store :=
  match ctx with
  | None => (ctx, EndNoop, s)
  | Some data =>
      let '(cat, s1) := get_category data category s in
      let '(child, s2) := alloc (mkNode name [] 0 true) s1 in
      (Some child, EndNode child, append_component cat child s2)
  end.

Definition AddTimingComponent (ctx : Ctx) (duration : Z) (name : string) (s : Store)
    : Ctx * Store :=
  match ctx with
  | None => (ctx, s)
  | Some data =>
      let '(component, s1) := alloc (mkNode name [] duration false) s in
      (Some component, append_component data component s1)
  end.

Definition AddTimingParallelComponent (ctx : Ctx) (duration : Z) (name : string) (s : Store)
    : Ctx * Store :=
  match ctx with
  | None => (ctx, s)
  | Some data =>
      let '(component, s1) := alloc (mkNode name [] duration true) s in
      (Some component, append_component data component s1)
  end.

(** Calling the [end] function [e] when it measures [ns] nanoseconds. *)
Definition run_end (e : End) (ns : Z) (s : Store) : Store :=
  match e with
  | EndNoop => s
  | EndNode component => set_nDuration component ns s
  | EndCategory cat child => set_nDuration child ns (add_nDuration cat ns s)
  end.

Lemma alloc_fresh n s l s' : alloc n s = (l, s') → s !! l = None ∧ s' = <[l := n]> s.
Proof.
  intros [= <- <-]. split; [|done]. apply not_elem_of_dom, is_fresh.
Qed.

(** The durations of the serial components of a node. *)
Definition serial_duration (s : Store) (l : nat) : Z :=
  match s !! l with
  | Some n => if nParallel n then 0 else nDuration n
  | None => 0
  end.

Definition children_duration (s : Store) (ls : list nat) : Z :=
  foldr (λ l acc, serial_duration s l + acc) 0 ls.

Lemma children_duration_app s l1 l2 :
  children_duration s (l1 ++ l2) = children_duration s l1 + children_duration s l2.
Proof. induction l1 as [|l l1 IH]; simpl; lia. Qed.

Lemma children_duration_ext s s' ls :
  (∀ l, l ∈ ls → serial_duration s l = serial_duration s' l) →
  children_duration s ls = children_duration s' ls.
Proof.
  induction ls as [|l ls IH]; intros H; simpl; [done|].
  rewrite (H l); [set_solver|]. rewrite IH; [set_solver|done].
Qed.

(** A category node whose duration is the total of its serial components. *)
Definition category_balanced (s : Store) (cat : nat) : Prop :=
  ∃ n, s !! cat = Some n ∧ (cat ∉ nComponents n) ∧
    Forall (λ l, is_Some (s !! l)) (nComponents n) ∧
    eqm64 (nDuration n) (children_duration s (nComponents n)).

(** Running a timed category block to completion: start, then end after [ns]. *)
Definition timed_category (ctx : Ctx) (category name : string) (ns : Z) (s : Store) : Store :=
  let '(_, e, s1) := StartTimingCategory ctx category name s in run_end e ns s1.

Lemma eqm64_int64 z : eqm64 (int64 z) z.
Proof. apply int64_mod. Qed.

Lemma category_balanced_child s cat name ns l s1 :
  category_balanced s cat → alloc (mkNode name [] 0 false) s = (l, s1) →
  category_balanced
    (run_end (EndCategory cat l) ns (append_component cat l s1)) cat.
Proof.
  intros (n & Hcat & Hself & Hall & Hbal) [Hl ->]%alloc_fresh.
  assert (cat ≠ l) as Hne by congruence.
  assert (l ∉ nComponents n) as Hnl.
  { intros [i Hi]%list_elem_of_lookup. eapply Forall_lookup_1 in Hall as [? ?]; [|done]. congruence. }
  rewrite /run_end /set_nDuration /add_nDuration /append_component.
  eexists. split; [by rewrite lookup_alter_ne // !lookup_alter_eq lookup_insert_ne // Hcat|].
  simpl. split; [set_solver|]. split.
  - apply Forall_app. split.
    + eapply Forall_impl; [|exact Hall]. intros x Hx. simpl.
      rewrite !lookup_alter_is_Some lookup_insert_is_Some'. auto.
    + repeat constructor. rewrite !lookup_alter_is_Some lookup_insert_eq. eauto.
  - rewrite children_duration_app. transitivity (nDuration n + ns); [apply eqm64_int64|].
    apply eqm64_add.
    + setoid_rewrite Hbal. erewrite children_duration_ext; [reflexivity|].
      intros x Hx. rewrite /serial_duration.
      assert (x ≠ cat) by (intros ->; done). assert (x ≠ l) by (intros ->; done).
      by rewrite !lookup_alter_ne // lookup_insert_ne.
    + simpl. rewrite /serial_duration lookup_alter_eq !lookup_alter_ne //
        lookup_insert_eq /=. eqm64_lia.
Qed.

Lemma get_category_balanced data category s :
  is_Some (s !! data) →
  (∀ c, find_category data category s = Some c → category_balanced s c) →
  category_balanced (get_category data category s).2 (get_category data category s).1.
Proof.
  intros [d Hd] Hold. rewrite /get_category.
  destruct (find_category data category s) as [c|] eqn:Hf; [by apply Hold|].
  destruct (alloc (mkNode category [] 0 false) s) as [c s1] eqn:Ha.
  apply alloc_fresh in Ha as [Hc ->]. assert (c ≠ data) by congruence. simpl.
  exists (mkNode category [] 0 false).
  rewrite /append_component lookup_alter_ne // lookup_insert_eq. simpl.
  split; [done|]. split; [set_solver|]. by split.
Qed.

(** ** Properties of the tree operations *)

(** [Flatten] neither loses nor invents time.  For every profiling tree
    the remainder left on the root plus the durations of the flattened
    components that count (those neither parallel nor redundant) is, as a
    64-bit integer, the duration of the root plus what the serial components
    of overlapped nodes carry. *)
Theorem Flatten_accounts_for_time (d : Data) :
  eqm64 (total (Flatten d)) (Duration d + hidden d).
Proof. apply Flatten_total_aux. Qed.

(** When parallel and redundant components are leaves, the durations shown
    after [Flatten] add up to exactly the measured duration of the root. *)
Theorem Flatten_conserves_duration (d : Data) :
  overlaps_are_leaves d = true →
  eqm64 (total (Flatten d)) (Duration d).
Proof.
  intros Hl. rewrite -{1}(Z.add_0_r (Duration d)) -(hidden_zero d Hl).
  apply Flatten_total_aux.
Qed.

(** The tree of a dump: a serial child with two serial leaves, one of which
    did parallel IO. *)
Definition sample_tree : Data :=
  mkData "Dump" [
    mkData "criu" [
      mkData "freeze" [] 10 0 false false false;
      mkData "storage" [] 25 4096 true false false] 40 0 false false false;
    mkData "fs" [] 20 0 false false false] 100 0 false false false.

Lemma Flatten_conserves_duration_witness :
  overlaps_are_leaves sample_tree = true ∧ eqm64 (total (Flatten sample_tree)) 100.
Proof. split; [reflexivity|]. by apply (Flatten_conserves_duration sample_tree). Defined.

(** [Flatten] really flattens: no component of the result has components
    of its own, and every node of the tree below the root appears once. *)
Theorem Flatten_flat (d : Data) :
  Forall (λ c, Components c = []) (Components (Flatten d)) ∧
  length (Components (Flatten d)) = descendants d.
Proof. split; [apply Flatten_leaves|apply length_flatten]. Qed.

(** [Clean] removes every empty wrapper at every depth, keeps all other
    nodes in preorder with their data, and a second run changes nothing. *)
Theorem Clean_collapses_wrappers (d : Data) :
  wrapper_free (Clean d) = true ∧ labels (Clean d) = labels d ∧
  Clean (Clean d) = Clean d.
Proof.
  split; [apply wrapper_free_Clean|]. split; [apply labels_Clean|].
  apply Clean_id, wrapper_free_Clean.
Qed.

(** A category keeps the total of its serial components.  Timing one more
    block under [StartTimingCategory] and ending it leaves the category node
    (found among the components of the current node or created there) with a
    duration equal, as a 64-bit integer, to the sum over its components. *)
Theorem timed_category_balanced data category name ns s :
  is_Some (s !! data) →
  (∀ c, find_category data category s = Some c → category_balanced s c) →
  category_balanced (timed_category (Some data) category name ns s)
    (get_category data category s).1.
Proof.
  intros Hd Hold. pose proof (get_category_balanced _ _ _ Hd Hold) as Hbal.
  rewrite /timed_category /StartTimingCategory.
  destruct (get_category data category s) as [c s1].
  destruct (alloc (mkNode name [] 0 false) s1) as [l s2] eqn:Ha.
  by eapply category_balanced_child.
Qed.

(** A root node that is being timed and has no category yet. *)
Definition sample_store : Store := {[ 0%nat := mkNode "Dump" [] 0 false ]}.

Lemma timed_category_balanced_witness :
  category_balanced (timed_category (Some 0%nat) "criu" "Dump" 7 sample_store)
    (get_category 0%nat "criu" sample_store).1.
Proof.
  apply (timed_category_balanced 0%nat "criu" "Dump" 7 sample_store).
  - by eexists.
  - intros c Hc. vm_compute in Hc. discriminate Hc.
Defined.

End Profiling.
