(* ===== verification/ProfilingIO.v ===== *)
(** * Profiled input and output (pkg/profiling/io.go, data.go)

    The wrappers that count the bytes and the time of a stream into the
    profiling tree, on the store of [Profiling]; the names shown for functions
    and the totals of the printed report. *)

From S2P Require Import Prelude GoLib Profiling.
From Stdlib Require Import Ascii.

Module ProfilingIO.
Import GoLib Profiling.

#[local] Open Scope Z_scope.

(** ** The wrappers *)

(** Which of the interfaces of package io a value has, in the order in which
    the type switch tries them. *)
Inductive iface := IsReadWriteCloser | IsReadCloser | IsWriteCloser | Unsupported.

(** What the closure [end] of a wrapper updates after a call. *)
Inductive EndIO :=
| AddTo (data : nat)
| AddToCategory (category child : nat)
| LastIn (child : nat).

Definition map_IO (f : Z → Z) (n : Node) : Node :=
  mkFullNode (nName n) (nComponents n) (nDuration n) (f (nIO n)) (nParallel n) (nRedundant n) (nIORedundant n).
Definition mark (r ior : bool) (n : Node) : Node :=
  mkFullNode (nName n) (nComponents n) (nDuration n) (nIO n) (nParallel n) (nRedundant n || r) (nIORedundant n || ior).

Definition add_nIO (l : nat) (z : Z) (s : Store) : Store := alter (map_IO (λ io, int64 (io + z))) l s.

(** Calling [end] after [ns] nanoseconds with the number [n] of bytes. *)
Definition run_endIO (e : EndIO) (ns n : Z) (s : Store) : Store :=
  match e with
  | AddTo l => add_nIO l n (add_nDuration l ns s)
  | AddToCategory cat child => add_nIO child n (add_nDuration child ns (add_nDuration cat ns s))
  | LastIn child => add_nIO child n (set_nDuration child ns s)
  end.

(** The type switch: a value of another type is returned as it is. *)
Definition wrapper (i : iface) (e : EndIO) : option EndIO :=
  match i with Unsupported => None | _ => Some e end.

(** [&Data{Name, Parallel, Redundant}], appended to the components of a node. *)
Definition new_component (data : nat) (name : string) (parallel redundant : bool) (s : Store) : nat * Store :=
  let '(component, s1) := alloc (mkFullNode name [] 0 0 parallel redundant false) s in
  (component, append_component data component s1).

Definition IO (ctx : Ctx) (i : iface) (name : string) (s : Store) : option EndIO * Store :=
  let '(data, s1) :=
    match ctx with Some data => (data, s) | None => alloc (mkNode "" [] 0 false) s end in
  (wrapper i (AddTo data), alter (rename name) data s1).

Definition IOComponent (ctx : Ctx) (i : iface) (name : string) (s : Store) : option EndIO * Store :=
  match ctx with
  | None => (None, s)
  | Some data =>
      let '(component, s1) := new_component data name false false s in
      (wrapper i (AddTo component), s1)
  end.

Definition IOParallelComponent (ctx : Ctx) (i : iface) (name : string) (s : Store) : option EndIO * Store :=
  match ctx with
  | None => (None, s)
  | Some data =>
      let '(component, s1) := new_component data name true false s in
      (wrapper i (AddTo component), s1)
  end.

Definition IORedundantComponent (ctx : Ctx) (i : iface) (name : string) (s : Store) : option EndIO * Store :=
  match ctx with
  | None => (None, s)
  | Some data =>
      let '(component, s1) := new_component data name false true s in
      (wrapper i (AddTo component), s1)
  end.

Definition IOCategory (ctx : Ctx) (i : iface) (category name : string) (s : Store) : option EndIO * Store :=
  match ctx with
  | None => (None, s)
  | Some data =>
      let '(cat, s1) := get_category data category s in
      let '(child, s2) := new_component cat name false false s1 in
      (wrapper i (AddToCategory cat child), s2)
  end.

Definition IOParallelCategory (ctx : Ctx) (i : iface) (category name : string) (s : Store) : option EndIO * Store :=
  match ctx with
  | None => (None, s)
  | Some data =>
      let '(cat, s1) := get_category data category s in
      let '(child, s2) := new_component cat name true false s1 in
      (wrapper i (LastIn child), s2)
  end.

Definition IORedundantCategory (ctx : Ctx) (i : iface) (category name : string) (s : Store) : option EndIO * Store :=
  match ctx with
  | None => (None, s)
  | Some data =>
      let '(cat, s1) := get_category data category s in
      let '(child, s2) := new_component cat name false true s1 in
      (wrapper i (LastIn child), s2)
  end.

(** ** Recording without a stream *)

Definition AddIO (ctx : Ctx) (n : Z) (s : Store) : Store :=
  match ctx with None => s | Some data => add_nIO data n s end.

Definition MarkRedundant (ctx : Ctx) (s : Store) : Store :=
  match ctx with None => s | Some data => alter (mark true false) data s end.

Definition MarkIORedundant (ctx : Ctx) (s : Store) : Store :=
  match ctx with None => s | Some data => alter (mark false true) data s end.

Definition AddIOComponent (ctx : Ctx) (n : Z) (name : string) (s : Store) : Store :=
  match ctx with
  | None => s
  | Some data => let '(component, s1) := new_component data name false false s in add_nIO component n s1
  end.

Definition AddIOCategory (ctx : Ctx) (n : Z) (category name : string) (s : Store) : Store :=
  match ctx with
  | None => s
  | Some data =>
      let '(cat, s1) := get_category data category s in
      let '(child, s2) := new_component cat name false false s1 in
      add_nIO child n s2
  end.

(** ** Using a wrapped stream

    [exec] is the stream: what a read or write returns, and closing it. *)
Section stream.
Context {W Op : Type} (exec : Op → W → (Z * option error) * W) (close : W → option error * W).

Inductive call := Transfer (o : Op) (ns : Z) | Closes.

(** The methods Read, Write and Close of the three wrapper types. *)
Definition wrapped_call (e : option EndIO) (c : call) (st : W * Store) : (Z * option error) * (W * Store) :=
  match c with
  | Transfer o ns =>
      let '(r, w) := exec o st.1 in
      (r, (w, match e with Some e => run_endIO e ns r.1 st.2 | None => st.2 end))
  | Closes => let '(err, w) := close st.1 in ((0, err), (w, st.2))
  end.

Fixpoint run_calls (e : option EndIO) (cs : list call) (st : W * Store)
    : list (Z * option error) * (W * Store) :=
  match cs with
  | [] => ([], st)
  | c :: cs =>
      let '(r, st1) := wrapped_call e c st in
      let '(rs, st2) := run_calls e cs st1 in
      (r :: rs, st2)
  end.

(** The calls that transfer, with the time they took and the bytes they moved. *)
Fixpoint transfers (cs : list call) (rs : list (Z * option error)) : list (Z * Z) :=
  match cs, rs with
  | Transfer _ ns :: cs, r :: rs => (ns, r.1) :: transfers cs rs
  | Closes :: cs, _ :: rs => transfers cs rs
  | _, _ => []
  end.

Definition sum (l : list Z) : Z := foldr Z.add 0 l.
End stream.
Arguments call : clear implicits.

(** ** The printed report *)

(** [\.func\d+(\.\d+)?$] at the beginning of a string. *)
Definition is_digit (x : ascii) : bool := bool_decide (48 ≤ nat_of_ascii x ≤ 57)%nat.

Fixpoint skip_digits (s : string) : string :=
  match s with
  | String x s' => if is_digit x then skip_digits s' else s
  | EmptyString => s
  end.

Definition starts_digit (s : string) : bool := match s with String x _ => is_digit x | _ => false end.

Definition is_trail (s : string) : bool :=
  HasPrefix s ".func" &&
  let d := TrimPrefix s ".func" in
  starts_digit d &&
  match skip_digits d with
  | EmptyString => true
  | String x r => bool_decide (x = dot) && starts_digit r && bool_decide (skip_digits r = "")
  end.

Fixpoint remove_trail (s : string) : string :=
  if is_trail s then ""
  else match s with EmptyString => "" | String x s' => String x (remove_trail s') end.

(** [path/plugins/(\[a-zA-Z0-9_\]+)(/|\.)]: the dots of [path] match any byte. *)
Definition is_word (x : ascii) : bool :=
  let n := nat_of_ascii x in
  is_digit x || bool_decide (65 ≤ n ≤ 90)%nat || bool_decide (97 ≤ n ≤ 122)%nat || bool_decide (n = 95)%nat.

Fixpoint after_pattern (p s : string) : option string :=
  match p, s with
  | EmptyString, _ => Some s
  | String x p', String y s' =>
      if (bool_decide (x = dot) && negb (bool_decide (nat_of_ascii y = 10%nat))) || bool_decide (x = y)
      then after_pattern p' s' else None
  | _, EmptyString => None
  end.

Fixpoint word (s : string) : string * string :=
  match s with
  | String x s' => if is_word x then let '(w, r) := word s' in (String x w, r) else ("", s)
  | EmptyString => ("", s)
  end.

Fixpoint plugin_of (path s : string) : option string :=
  let here :=
    match after_pattern (path +:+ "/plugins/") s with
    | Some r =>
        match word r with
        | (String x w, String y _) => if bool_decide (y = slash ∨ y = dot) then Some (String x w) else None
        | _ => None
        end
    | None => None
    end in
  match here with
  | Some w => Some w
  | None => match s with EmptyString => None | String _ s' => plugin_of path s' end
  end.

Definition colon : ascii := ":"%char.

(** [path] is the main module of the build information. *)
Definition SimplifyFuncName (path : option string) (f : string) : string * string :=
  match path with
  | None => ("", f)
  | Some path =>
      match reverse (Split f colon) with
      | f' :: category :: _ => (category, remove_trail (Base f'))
      | _ => (default "" (plugin_of path f), remove_trail (Base f))
      end
  end.

Record Report := mkReport {
  totalDuration : Z; totalIO : Z;
  categoryDuration : gmap string Z; categoryIO : gmap string Z; categoryIORedundant : gmap string bool;
  rows : list (Z * string * Z * string);
}.

Definition plus (k : string) (z : Z) (m : gmap string Z) : gmap string Z :=
  <[k := int64 (default 0 (m !! k) + z)]> m.

(** One round of the loop of [Print]; [color] and [other] are the coloured
    names of a category and of the rest. *)
Definition print_component (path : option string) (color : string → string) (other : string)
    (t : Report) (p : Data) : Report :=
  if bool_decide (Duration p = 0) && bool_decide (Profiling.IO p = 0) then t
  else
    let '(categoryName, name) := SimplifyFuncName path (Name p) in
    let duration := if Parallel p || Redundant p then 0 else Duration p in
    let io := if Redundant p || IORedundant p then 0 else Profiling.IO p in
    let category := if bool_decide (categoryName = "") then other else color categoryName in
    let cio := plus category io (categoryIO t) in
    let red := (Redundant p || IORedundant p) && bool_decide (cio !! category = Some 0) in
    mkReport (int64 (totalDuration t + duration)) (int64 (totalIO t + io))
      (plus category duration (categoryDuration t)) cio (<[category := red]> (categoryIORedundant t))
      (rows t ++ [(Duration p, color categoryName, Profiling.IO p, name)]).

Definition Print (path : option string) (color : string → string) (other : string) (data : Data) : Report :=
  foldl (print_component path color other) (mkReport 0 0 ∅ ∅ ∅ []) (Components data).

(** ** Lemmas on the store *)

(** The bytes and the time of a list of transfers, applied to [e]. *)
Definition account (e : EndIO) (ts : list (Z * Z)) (s : Store) : Store :=
  foldl (λ s t, run_endIO e t.1 t.2 s) s ts.

Lemma run_calls_store {W Op} (exec : Op → W → (Z * option error) * W) close e cs w s rs w' s' :
  run_calls exec close (Some e) cs (w, s) = (rs, (w', s')) → s' = account e (transfers cs rs) s.
Proof.
  revert w s rs w' s'. induction cs as [|[o ns|] cs IH]; intros w s rs w' s'; cbn [run_calls wrapped_call].
  - by intros [= <- <- <-].
  - destruct (exec o (w, s).1) as [r w1]. destruct (run_calls _ _ _ _ (w1, _)) as [rs1 [w2 s2]] eqn:Hr.
    intros [= <- <- <-]. by apply IH in Hr as ->.
  - destruct (close (w, s).1) as [r w1]. destruct (run_calls _ _ _ _ (w1, _)) as [rs1 [w2 s2]] eqn:Hr.
    intros [= <- <- <-]. by apply IH in Hr as ->.
Qed.

(** A wrapper hands on what the stream answers. *)
Lemma run_calls_transparent {W Op} (exec : Op → W → (Z * option error) * W) close e cs w s s0 :
  let r := run_calls exec close e cs (w, s) in
  let r0 := run_calls exec close None cs (w, s0) in
  r.1 = r0.1 ∧ r.2.1 = r0.2.1.
Proof.
  revert w s. induction cs as [|[o ns|] cs IH]; intros w s; cbn [run_calls wrapped_call]; [done| |].
  - simpl. destruct (exec o w) as [r w1]. set (s1 := match e with Some _ => _ | None => _ end).
    specialize (IH w1 s1) as [IH1 IH2].
    destruct (run_calls _ _ e cs _) as [rs1 [w2 s2]], (run_calls _ _ None cs _) as [rs2 [w3 s3]]. by simpl in *; subst.
  - simpl. destruct (close w) as [r w1]. specialize (IH w1 s) as [IH1 IH2].
    destruct (run_calls _ _ e cs _) as [rs1 [w2 s2]], (run_calls _ _ None cs _) as [rs2 [w3 s3]]. by simpl in *; subst.
Qed.

(** The fields of a node that no transfer changes. *)
Definition same_node (n n' : Node) : Prop :=
  nName n' = nName n ∧ nComponents n' = nComponents n ∧ nParallel n' = nParallel n ∧
  nRedundant n' = nRedundant n ∧ nIORedundant n' = nIORedundant n.

Lemma same_node_trans n1 n2 n3 : same_node n1 n2 → same_node n2 n3 → same_node n1 n3.
Proof. rewrite /same_node. intuition congruence. Qed.

Lemma run_endIO_other e ns n s l :
  (match e with AddTo x => x ≠ l | AddToCategory c x => c ≠ l ∧ x ≠ l | LastIn x => x ≠ l end) →
  run_endIO e ns n s !! l = s !! l.
Proof.
  destruct e; simpl; rewrite /add_nIO /add_nDuration /set_nDuration.
  - intros. by rewrite !lookup_alter_ne.
  - intros [??]. by rewrite !lookup_alter_ne.
  - intros. by rewrite !lookup_alter_ne.
Qed.

Lemma account_other e ts s l :
  (match e with AddTo x => x ≠ l | AddToCategory c x => c ≠ l ∧ x ≠ l | LastIn x => x ≠ l end) →
  account e ts s !! l = s !! l.
Proof.
  intros He. revert s. induction ts as [|t ts IH]; intros s; [done|].
  rewrite /account /= -/(account _ _ _) IH. by apply run_endIO_other.
Qed.

(** One transfer, as seen by the node that counts its bytes. *)
Definition child_of (e : EndIO) : nat :=
  match e with AddTo l => l | AddToCategory _ l => l | LastIn l => l end.

Definition adds_time (e : EndIO) : bool := match e with LastIn _ => false | _ => true end.

Definition proper_end (e : EndIO) : Prop := match e with AddToCategory c l => c ≠ l | _ => True end.

Lemma run_endIO_child e ns b s n :
  proper_end e → s !! child_of e = Some n →
  ∃ n', run_endIO e ns b s !! child_of e = Some n' ∧ same_node n n' ∧
    eqm64 (nIO n') (nIO n + b) ∧ eqm64 (nDuration n') (if adds_time e then nDuration n + ns else ns).
Proof.
  destruct e as [l|c l|l]; simpl; rewrite /add_nIO /add_nDuration /set_nDuration => Hp Hn.
  - rewrite !lookup_alter_eq Hn. eexists. split; [done|]. split; [done|]. split; apply eqm64_int64.
  - rewrite !lookup_alter_eq lookup_alter_ne // Hn. eexists. split; [done|]. split; [done|]. split; apply eqm64_int64.
  - rewrite !lookup_alter_eq Hn. eexists. split; [done|]. split; [done|]. split; [apply eqm64_int64|done].
Qed.

Lemma account_child e ts s n :
  proper_end e → s !! child_of e = Some n →
  ∃ n', account e ts s !! child_of e = Some n' ∧ same_node n n' ∧
    eqm64 (nIO n') (nIO n + sum ts.*2) ∧
    eqm64 (nDuration n') (if adds_time e then nDuration n + sum ts.*1 else default (nDuration n) (list.last ts.*1)).
Proof.
  intros Hp. revert s n. induction ts as [|[ns b] ts IH]; intros s n Hn.
  - exists n. split; [done|]. split; [done|]. rewrite /= !Z.add_0_r. by destruct (adds_time e).
  - destruct (run_endIO_child e ns b s n Hp Hn) as (n1 & Hn1 & Hs1 & Hio1 & Hd1).
    destruct (IH _ _ Hn1) as (n2 & Hn2 & Hs2 & Hio2 & Hd2).
    exists n2. split; [done|]. split; [by eapply same_node_trans|]. csimpl. split.
    + rewrite Hio2. setoid_rewrite Hio1. apply eq_eqm64. lia.
    + rewrite Hd2. destruct (adds_time e); simpl.
      * setoid_rewrite Hd1. apply eq_eqm64. lia.
      * destruct (list.last ts.*1) as [x|] eqn:Hx; rewrite last_cons Hx //=.
Qed.

Lemma account_category c l ts s n :
  c ≠ l → s !! c = Some n →
  ∃ n', account (AddToCategory c l) ts s !! c = Some n' ∧ same_node n n' ∧ nIO n' = nIO n ∧
    eqm64 (nDuration n') (nDuration n + sum ts.*1).
Proof.
  intros Hc. revert s n. induction ts as [|[ns b] ts IH]; intros s n Hn.
  - exists n. by rewrite /= Z.add_0_r.
  - edestruct (IH (run_endIO (AddToCategory c l) ns b s)) as (n2 & Hn2 & Hs2 & Hio2 & Hd2).
    { rewrite /= /add_nIO /add_nDuration. by rewrite lookup_alter_ne // lookup_alter_ne // lookup_alter_eq Hn. }
    exists n2. split; [done|]. split; [done|]. split; [done|]. csimpl. rewrite Hd2 /=.
    transitivity (nDuration n + ns + sum ts.*1); [|apply eq_eqm64; lia].
    apply eqm64_add; [apply eqm64_int64|done].
Qed.

(** ** The six ways to profile a stream below a node *)

Inductive place := InNode | InCategory (category : string).
Inductive flavour := Serial | ParallelF | RedundantF.

Definition open_stream (p : place) (f : flavour) : Ctx → iface → string → Store → option EndIO * Store :=
  λ ctx i name, match p, f with
  | InNode, Serial => IOComponent ctx i name
  | InNode, ParallelF => IOParallelComponent ctx i name
  | InNode, RedundantF => IORedundantComponent ctx i name
  | InCategory c, Serial => IOCategory ctx i c name
  | InCategory c, ParallelF => IOParallelCategory ctx i c name
  | InCategory c, RedundantF => IORedundantCategory ctx i c name
  end.

(** The node the stream's component is added to. *)
Definition parent (p : place) (data : nat) (s : Store) : nat * Store :=
  match p with InNode => (data, s) | InCategory c => get_category data c s end.

Definition end_of (p : place) (f : flavour) (par child : nat) : EndIO :=
  match p, f with
  | InNode, _ => AddTo child
  | InCategory _, Serial => AddToCategory par child
  | InCategory _, _ => LastIn child
  end.

Definition is_ParallelF (f : flavour) : bool := match f with ParallelF => true | _ => false end.
Definition is_RedundantF (f : flavour) : bool := match f with RedundantF => true | _ => false end.

Lemma open_stream_eq p f data i name s :
  i ≠ Unsupported →
  open_stream p f (Some data) i name s =
    let '(par, s1) := parent p data s in
    let '(child, s2) := new_component par name (is_ParallelF f) (is_RedundantF f) s1 in
    (Some (end_of p f par child), s2).
Proof.
  intros Hi. assert (∀ e, wrapper i e = Some e) as Hw by by destruct i.
  destruct p as [|c]; [destruct f; cbn -[new_component]; by case: new_component => ? ?; rewrite Hw|].
  destruct f; cbn -[new_component get_category]; case: get_category => par s1;
    by case: new_component => ? ?; rewrite Hw.
Qed.

Lemma parent_spec p data s :
  is_Some (s !! data) →
  let '(par, s1) := parent p data s in
  is_Some (s1 !! par) ∧ ∀ l, is_Some (s !! l) → is_Some (s1 !! l).
Proof.
  intros Hd. destruct p as [|c]; [by split|]. cbn [parent]. rewrite /get_category /find_category.
  destruct (s !! data) as [d|] eqn:Hdd; [|by destruct Hd]. cbn -[alloc].
  destruct (list_find _ (nComponents d)) as [[j x]|] eqn:Hf; cbn -[alloc].
  - apply list_find_Some in Hf as (_ & Hx & _). split; [|done]. by destruct (s !! x).
  - destruct (alloc _ _) as [l s1] eqn:Ha. apply alloc_fresh in Ha as [Hl ->].
    assert (data ≠ l) by congruence.
    split; [by rewrite /append_component lookup_alter_ne // lookup_insert_eq|].
    intros x Hx. rewrite /append_component lookup_alter_is_Some. by apply lookup_insert_is_Some'; right.
Qed.

Lemma new_component_spec par name pl rd s child s' :
  new_component par name pl rd s = (child, s') → is_Some (s !! par) →
  s !! child = None ∧ par ≠ child ∧
  s' !! child = Some (mkFullNode name [] 0 0 pl rd false) ∧
  s' !! par = map_Components (λ cs, cs ++ [child]) <$> s !! par.
Proof.
  rewrite /new_component. destruct (alloc _ _) as [l s1] eqn:Ha. apply alloc_fresh in Ha as [Hl ->].
  intros [= <- <-] [n Hn]. assert (par ≠ l) by congruence. split; [done|]. split; [done|].
  rewrite /append_component lookup_alter_ne // lookup_insert_eq. split; [done|].
  by rewrite lookup_alter_eq lookup_insert_ne.
Qed.

(** A profiled stream behaves as the stream itself and its profile adds up.
    Wrap a stream in any of the six ways below a node and make any sequence of
    calls: every call returns what the stream returns, and a new component with
    the right flags hangs below the node or its category, whose bytes are, as
    64-bit integers, those of all the transfers.  Its time is the sum of their
    times, and is added to the category of a serial one as well; but a parallel
    or redundant stream in a category only keeps the time of its last transfer. *)
Theorem profiled_stream_accounts {W Op} (exec : Op → W → (Z * option error) * W) close
    p f data i name s cs w e s1 rs w' s' :
  is_Some (s !! data) → i ≠ Unsupported →
  open_stream p f (Some data) i name s = (e, s1) →
  run_calls exec close e cs (w, s1) = (rs, (w', s')) →
  (∀ s0, ∃ s0', run_calls exec close None cs (w, s0) = (rs, (w', s0'))) ∧
  let ts := transfers cs rs in
  let '(par, s2) := parent p data s in
  ∃ child c q q', s2 !! child = None ∧ s' !! child = Some c ∧ nName c = name ∧
    nParallel c = is_ParallelF f ∧ nRedundant c = is_RedundantF f ∧ nIORedundant c = false ∧
    s2 !! par = Some q ∧ s' !! par = Some q' ∧ nComponents q' = nComponents q ++ [child] ∧
    nIO q' = nIO q ∧ eqm64 (nIO c) (sum ts.*2) ∧
    match p, f with
    | InNode, _ => eqm64 (nDuration c) (sum ts.*1) ∧ nDuration q' = nDuration q
    | InCategory _, Serial =>
        eqm64 (nDuration c) (sum ts.*1) ∧ eqm64 (nDuration q') (nDuration q + sum ts.*1)
    | InCategory _, _ => eqm64 (nDuration c) (default 0 (list.last ts.*1)) ∧ nDuration q' = nDuration q
    end.
Proof.
  intros Hd Hi Ho Hr. split.
  { intros s0. pose proof (run_calls_transparent exec close e cs w s1 s0) as [H1 H2]. rewrite Hr in H1 H2.
    destruct (run_calls exec close None cs (w, s0)) as [rs0 [w0 s0']]. simpl in *. subst. by eexists. }
  rewrite (open_stream_eq _ _ _ _ _ _ Hi) in Ho. pose proof (parent_spec p data s Hd) as Hpar.
  destruct (parent p data s) as [par s2]. destruct Hpar as [[q Hq] _].
  destruct (new_component _ _ _ _ _) as [child s3] eqn:Hn. injection Ho as <- <-.
  apply new_component_spec in Hn as (Hfresh & Hne & Hc & Hp); [|by eexists]. rewrite Hq in Hp.
  apply run_calls_store in Hr as ->. set (ts := transfers cs rs).
  assert (proper_end (end_of p f par child)) as Hprop by by destruct p, f.
  assert (child_of (end_of p f par child) = child) as Hchild by by destruct p, f.
  destruct (account_child (end_of p f par child) ts s3 _ Hprop ltac:(by rewrite Hchild)) as (c & Hc' & Hs & Hio & Hdur).
  rewrite Hchild in Hc'. destruct Hs as (Hnm & _ & Hpl & Hrd & Hir).
  assert (∃ q', account (end_of p f par child) ts s3 !! par = Some q' ∧ nComponents q' = nComponents q ++ [child] ∧
    nIO q' = nIO q ∧ match p, f with InCategory _, Serial => eqm64 (nDuration q') (nDuration q + sum ts.*1)
                      | _, _ => nDuration q' = nDuration q end) as (q' & Hq' & Hcs & Hqio & Hqd).
  { destruct p as [|cat]; [|destruct f];
      try (eexists; split; [by rewrite account_other // Hp|]; by split).
    edestruct (account_category par child ts s3) as (q' & Hq' & (_ & Hcs & _) & Hqio & Hqd); [done|done|].
    eexists. split; [done|]. by rewrite Hcs Hqio. }
  exists child, c, q, q'. split_and!; try done. by destruct p, f.
Qed.

(** A root node, and a stream of which every transfer moves the bytes asked. *)
Definition plain_stream (n : Z) (w : Z) : (Z * option error) * Z := ((n, None), w + n).

Definition sample_calls : list (call Z) := [Transfer 100 7; Transfer 28 5; Closes].

Lemma profiled_stream_accounts_witness :
  ∃ e s1 rs w' s',
    open_stream (InCategory "storage") Serial (Some 0%nat) IsWriteCloser "Tar" sample_store = (e, s1) ∧
    run_calls plain_stream (λ w, (None, w)) e sample_calls (0, s1) = (rs, (w', s')) ∧
    ∃ child c, s' !! child = Some c ∧ eqm64 (nIO c) 128 ∧ eqm64 (nDuration c) 12.
Proof.
  do 5 eexists. split; [vm_compute; reflexivity|]. split; [vm_compute; reflexivity|].
  pose proof (profiled_stream_accounts plain_stream (λ w, (None, w)) (InCategory "storage") Serial 0%nat
    IsWriteCloser "Tar" sample_store sample_calls 0 _ _ _ _ _ ltac:(by eexists) ltac:(done) eq_refl eq_refl) as [_ H].
  destruct (parent (InCategory "storage") 0%nat sample_store) as [par s2].
  destruct H as (child & c & q & q' & _ & Hc & _ & _ & _ & _ & _ & _ & _ & _ & Hio & Hd & _).
  exists child, c. split; [exact Hc|]. split; [exact Hio|exact Hd].
Defined.

(** ** The totals of the report *)

Definition counted_io (c : Data) : Z := if Redundant c || IORedundant c then 0 else Profiling.IO c.

(** The bytes of all the nodes strictly below a node, redundant ones excepted. *)
Fixpoint io_below (d : Data) : Z :=
  (fix go (cs : list Data) : Z :=
     match cs with [] => 0 | c :: cs' => counted_io c + io_below c + go cs' end) (Components d).

Definition map_sum (m : gmap string Z) : Z := map_fold (λ _ z acc, z + acc) 0 m.

Lemma map_sum_plus k z m : eqm64 (map_sum (plus k z m)) (map_sum m + z).
Proof.
  assert (∀ x, map_sum (<[k := x]> m) = x + map_sum (delete k m)) as Hins.
  { intros x. rewrite -insert_delete_eq /map_sum map_fold_insert_L //; [lia|apply lookup_delete_eq]. }
  rewrite /plus Hins.
  assert (map_sum m = default 0 (m !! k) + map_sum (delete k m)) as ->.
  { destruct (m !! k) as [x|] eqn:Hx; simpl.
    - by rewrite -(Hins x) insert_id.
    - by rewrite delete_id. }
  transitivity (default 0 (m !! k) + z + map_sum (delete k m)); [|apply eq_eqm64; lia].
  apply eqm64_add; [apply eqm64_int64|done].
Qed.

Definition balanced (t : Report) : Prop :=
  eqm64 (map_sum (categoryDuration t)) (totalDuration t) ∧ eqm64 (map_sum (categoryIO t)) (totalIO t).

Lemma print_component_totals path color other t p :
  balanced t →
  balanced (print_component path color other t p) ∧
  eqm64 (totalDuration (print_component path color other t p)) (totalDuration t + counted p) ∧
  eqm64 (totalIO (print_component path color other t p)) (totalIO t + counted_io p).
Proof.
  intros [Hd Hio]. rewrite /print_component /counted /counted_io /overlapped.
  destruct (bool_decide (Duration p = 0) && bool_decide (Profiling.IO p = 0)) eqn:Hz.
  { apply andb_prop in Hz as [->%bool_decide_eq_true ->%bool_decide_eq_true]. split; [done|].
    split; apply eq_eqm64; case_match; lia. }
  destruct (SimplifyFuncName path (Name p)) as [cn nm]. cbn [totalDuration totalIO categoryDuration categoryIO].
  split; [|split; apply eqm64_int64]. split; cbn [totalDuration totalIO categoryDuration categoryIO].
  - rewrite map_sum_plus. transitivity (totalDuration t + (if Parallel p || Redundant p then 0 else Duration p)).
    + by apply eqm64_add.
    + symmetry. apply eqm64_int64.
  - rewrite map_sum_plus. transitivity (totalIO t + (if Redundant p || IORedundant p then 0 else Profiling.IO p)).
    + by apply eqm64_add.
    + symmetry. apply eqm64_int64.
Qed.

Lemma print_components_totals path color other l t :
  balanced t →
  let t' := foldl (print_component path color other) t l in
  balanced t' ∧ eqm64 (totalDuration t') (totalDuration t + sum_with counted l) ∧
  eqm64 (totalIO t') (totalIO t + sum_with counted_io l).
Proof.
  revert t. induction l as [|p l IH]; intros t Ht; simpl.
  { split; [done|]. split; apply eq_eqm64; lia. }
  destruct (print_component_totals path color other t p Ht) as (Ht1 & Hd1 & Hi1).
  destruct (IH _ Ht1) as (Ht2 & Hd2 & Hi2). split; [done|]. split.
  - rewrite Hd2. setoid_rewrite Hd1. apply eq_eqm64. lia.
  - rewrite Hi2. setoid_rewrite Hi1. apply eq_eqm64. lia.
Qed.

Lemma io_below_eq d : io_below d = sum_with (λ c, counted_io c + io_below c) (Components d).
Proof.
  destruct d as [n cs dd io p r ior]; simpl. induction cs as [|c cs IH]; simpl; [done|]. by rewrite IH.
Qed.

Lemma Flatten_io d : sum_with counted_io (Components (Flatten d)) = io_below d.
Proof.
  induction d as [n cs dd io p r ior IH] using Data_ind'. rewrite io_below_eq Flatten_eq /=.
  transitivity (sum_with counted_io (concat (map flatten_step cs))).
  { case_match; [|done]. induction (concat _) as [|x l IHl]; simpl; [done|]. by rewrite IHl. }
  induction IH as [|c cs Hc _ IHcs]; simpl; [done|].
  rewrite sum_with_app IHcs Hc.
  assert (counted_io (set_Components [] (Flatten c)) = counted_io c) as -> by by rewrite Flatten_eq.
  lia.
Qed.


Example SimplifyFuncName_plugin :
  SimplifyFuncName (Some "github.com/cedana/cedana") "github.com/cedana/cedana/plugins/runc/internal/x.Dump.func1.2"
    = ("runc", "x.Dump") ∧
  SimplifyFuncName (Some "github.com/cedana/cedana") "Dump:criu:pkg/criu.Freeze" = ("criu", "criu.Freeze").
Proof. by vm_compute. Qed.

End ProfilingIO.
