(* ===== verification/GpuProfile.v ===== *)
(** * The profile of the GPU controller (internal/cedana/gpu/profiling.go)

    The controller reports, for every worker, phases with their durations,
    bytes and intervals.  They become components of the profiling tree, one per
    worker and phase, and one for the time of a worker that no phase covers. *)

From S2P Require Import Prelude GoLib Profiling ProfilingIO.
From stdpp Require Import sorting.

Module GpuProfile.
Import GoLib Profiling ProfilingIO.

#[local] Open Scope Z_scope.

(** ** Data *)

Record Interval := mkInterval { startNs : Z; endNs : Z }.

Record Phase := mkPhase {
  phName : string; phDurationNs : Z; phBytes : Z;
  phIntervals : list Interval; phIntervalsTruncated : bool;
}.

Record Worker := mkWorker {
  WorkerIndex : Z; wPID : Z; wDurationNs : Z; wBytes : Z; Phases : list Phase;
}.

(** The names of the functions, and the workers. *)
Record GpuProfile := mkProfile { Functions : list string; Workers : list Worker }.

Definition gpuFunctionPhaseNames : gmap string string := list_to_map [
  ("dumpShareableHandleMetadata", "shareable_handles");
  ("dumpContextlessCalls", "contextless_calls");
  ("dumpVirtualCudaMemory", "virtual_memory");
  ("dumpCudaMemory", "gpu_memory");
  ("dumpCudaCalls", "cuda_calls");
  ("dumpHostGpuMemory", "host_memory");
  ("restoreShareableHandles", "shareable_handles");
  ("replayContextlessCalls", "contextless_calls");
  ("restoreVirtualMemory", "virtual_memory");
  ("restoreMemory", "gpu_memory");
  ("restoreCalls", "cuda_calls");
  ("readHostMemory", "host_memory")].

Record gpuDurationStats := mkStats { count : Z; min : Z; max : Z }.

Record gpuWorkerTimingRow := mkRow {
  rWorker : Worker; workerPosition : nat; rName : string; durationNs : Z; bytes : Z;
}.

(** ** Sorting *)

Section sorting.
Context {A : Type} (less : A → A → bool).

(** Insertion keeps elements that compare equal in their order. *)
Fixpoint insert_sorted (x : A) (l : list A) : list A :=
  match l with
  | [] => [x]
  | y :: l' => if less y x || negb (less x y) then y :: insert_sorted x l' else x :: l
  end.

Definition sort_by (l : list A) : list A := foldl (λ acc x, insert_sorted x acc) [] l.
End sorting.

Definition gpuSortedWorkers (p : GpuProfile) : list Worker :=
  sort_by (λ a b, bool_decide (WorkerIndex a < WorkerIndex b)) (Workers p).

Definition interval_less (a b : Interval) : bool :=
  if decide (startNs a = startNs b) then bool_decide (endNs a < endNs b)
  else bool_decide (startNs a < startNs b).

(** ** Phases *)

Definition gpuPhaseDisplayNames (p : GpuProfile) : gmap string string :=
  foldl (λ m f, match gpuFunctionPhaseNames !! f with Some ph => <[ph := f]> m | None => m end)
    ∅ (Functions p).

(** [seen] and [phaseOrder] of the two loops. *)
Definition add_phase (acc : list string) (name : string) : list string :=
  if decide (name ∈ acc) then acc else acc ++ [name].

Definition gpuProfilePhaseOrder (p : GpuProfile) (workers : list Worker) : list string :=
  let order := foldl add_phase [] (omap (λ f, gpuFunctionPhaseNames !! f) (Functions p)) in
  foldl add_phase order (filter (λ n, n ≠ "") (workers ≫= λ w, phName <$> Phases w)).

Definition gpuWorkerLabel (w : Worker) (position : nat) : string :=
  if decide (0 <= WorkerIndex w) then "w" +:+ itoaZ (int32 (WorkerIndex w + 1))
  else "w" +:+ itoaZ (Z.of_nat position + 1).

Definition gpuWorkerPhase (w : Worker) (phaseName : string) : option Phase :=
  snd <$> list_find (λ ph, phName ph = phaseName) (Phases w).

Definition phase_row (phaseName displayName : string) (i : nat) (w : Worker) : option gpuWorkerTimingRow :=
  match gpuWorkerPhase w phaseName with
  | None => None
  | Some ph =>
      if bool_decide (phDurationNs ph = 0) && bool_decide (phBytes ph = 0) then None
      else Some (mkRow w i displayName (phDurationNs ph) (phBytes ph))
  end.

(** [for i, worker := range workers] with a body that appends at most one row. *)
Definition rows_of (f : nat → Worker → option gpuWorkerTimingRow) (workers : list Worker) : list gpuWorkerTimingRow :=
  omap id (imap f workers).

Definition gpuPhaseRows (workers : list Worker) (phaseName displayName : string) : list gpuWorkerTimingRow :=
  rows_of (phase_row phaseName displayName) workers.

(** ** The time no phase covers *)

Fixpoint merge_loop (total currentStart currentEnd : Z) (l : list Interval) : Z :=
  match l with
  | [] => int64 (total + currentEnd - currentStart)
  | iv :: l' =>
      if decide (endNs iv <= startNs iv) then merge_loop total currentStart currentEnd l'
      else if decide (startNs iv <= currentEnd) then
        merge_loop total currentStart (if decide (endNs iv > currentEnd) then endNs iv else currentEnd) l'
      else merge_loop (int64 (total + (currentEnd - currentStart))) (startNs iv) (endNs iv) l'
  end.

Definition gpuMergedIntervalDurationNs (intervals : list Interval) : Z :=
  match sort_by interval_less intervals with
  | [] => 0
  | iv :: l => merge_loop 0 (startNs iv) (endNs iv) l
  end.

(** An interval cut to the time of the worker, if anything is left of it. *)
Definition clamp (w : Worker) (iv : Interval) : option Interval :=
  let s := if decide (startNs iv < 0) then 0 else startNs iv in
  let e := if decide (endNs iv > wDurationNs w) then wDurationNs w else endNs iv in
  if decide (e > s) then Some (mkInterval s e) else None.

Definition phase_complete (ph : Phase) : bool :=
  negb (phIntervalsTruncated ph || (bool_decide (phDurationNs ph > 0) && bool_decide (length (phIntervals ph) = 0%nat))).

Definition coveredIntervals (w : Worker) : list Interval :=
  omap (clamp w) (Phases w ≫= phIntervals).

Definition namedBytes (w : Worker) : Z := foldl (λ n ph, uint64 (n + phBytes ph)) 0 (Phases w).

Definition other_row (i : nat) (w : Worker) : option gpuWorkerTimingRow :=
  if forallb phase_complete (Phases w) then
    let d := int64 (wDurationNs w - gpuMergedIntervalDurationNs (coveredIntervals w)) in
    let otherDurationNs := if decide (d < 0) then 0 else d in
    let otherBytes :=
      if decide (otherDurationNs > 0) then
        if decide (wBytes w > namedBytes w) then uint64 (wBytes w - namedBytes w) else 0
      else 0 in
    if bool_decide (otherDurationNs = 0) && bool_decide (otherBytes = 0) then None
    else Some (mkRow w i "other" otherDurationNs otherBytes)
  else None.

Definition gpuOtherRows (workers : list Worker) : list gpuWorkerTimingRow := rows_of other_row workers.

(** ** Into the profiling tree *)

Definition stats_step (s : gpuDurationStats) (r : gpuWorkerTimingRow) : gpuDurationStats :=
  mkStats (count s + 1)
    (if bool_decide (count s = 0) || bool_decide (durationNs r < min s) then durationNs r else min s)
    (if bool_decide (count s = 0) || bool_decide (durationNs r > max s) then durationNs r else max s).

Definition gpuWorkerDurationStats (rows : list gpuWorkerTimingRow) : gpuDurationStats :=
  foldl stats_step (mkStats 0 0 0) rows.

Definition gpuWorkerProfileTags (r : gpuWorkerTimingRow) (stats : gpuDurationStats) : list string :=
  [gpuWorkerLabel (rWorker r) (workerPosition r) +:+ " " +:+ rName r] ++
  (if bool_decide (wPID (rWorker r) = 0) then [] else ["pid=" +:+ itoaZ (wPID (rWorker r))]) ++
  (if bool_decide (count stats > 1) && negb (bool_decide (min stats = max stats)) then
     (if bool_decide (durationNs r = min stats) then ["fastest"] else []) ++
     (if bool_decide (durationNs r = max stats) then ["slowest"] else [])
   else []).

(** [getName] of strings. *)
Definition getName (tags : list string) : string :=
  match tags with
  | [] => ""
  | [name] => name
  | name :: rest => name +:+ " (" +:+ StrJoin rest ", " +:+ ")"
  end.

Definition addGPUFunctionProfileToProfiling (ctx : Ctx) (duration : Z) (tags : list string) (s : Store) : Ctx * Store :=
  let '(functionCtx, s1) := AddTimingParallelComponent ctx duration (getName tags) s in
  (functionCtx, MarkRedundant functionCtx s1).

Definition addGPUWorkerTimingRowToProfiling (ctx : Ctx) (stats : gpuDurationStats) (s : Store) (r : gpuWorkerTimingRow) : Store :=
  let '(functionCtx, s1) := addGPUFunctionProfileToProfiling ctx (durationNs r) (gpuWorkerProfileTags r stats) s in
  MarkIORedundant functionCtx (AddIO functionCtx (int64 (bytes r)) s1).

Definition addGPUWorkerTimingRowsToProfiling (ctx : Ctx) (rows : list gpuWorkerTimingRow) (s : Store) : Store :=
  foldl (addGPUWorkerTimingRowToProfiling ctx (gpuWorkerDurationStats rows)) s rows.

(** The rows in the order in which they are added. *)
Definition profile_rows (p : GpuProfile) : list (list gpuWorkerTimingRow) :=
  let workers := gpuSortedWorkers p in
  let displayNames := gpuPhaseDisplayNames p in
  ((λ phaseName,
      let d := default "" (displayNames !! phaseName) in
      gpuPhaseRows workers phaseName (if decide (d = "") then phaseName else d))
   <$> gpuProfilePhaseOrder p workers) ++ [gpuOtherRows workers].

Definition addGPUProfileToProfiling (ctx : Ctx) (profile : option GpuProfile) (s : Store) : Store :=
  match profile with
  | None => s
  | Some p => foldl (λ s rows, addGPUWorkerTimingRowsToProfiling ctx rows s) s (profile_rows p)
  end.

(** ** Sorting, proved *)

Section sorting_lemmas.
Context {A : Type} (less : A → A → bool) (R : A → A → Prop).
Hypothesis before_R : ∀ x y, less y x || negb (less x y) = true → R y x.
Hypothesis after_R : ∀ x y, less y x || negb (less x y) = false → R x y.

Lemma insert_sorted_perm x l : insert_sorted less x l ≡ₚ x :: l.
Proof.
  induction l as [|y l IH]; simpl; [done|]. case_match; [|done].
  rewrite IH. apply Permutation_swap.
Qed.

Lemma insert_sorted_Sorted x l : Sorted R l → Sorted R (insert_sorted less x l).
Proof.
  induction 1 as [|y l Hl IH Hy]; simpl; [by repeat constructor|].
  destruct (less y x || negb (less x y)) eqn:Hc.
  - constructor; [done|]. apply before_R in Hc. destruct Hy as [|z l Hz]; simpl; [by constructor|].
    case_match; by constructor.
  - constructor; [by constructor|]. constructor. by apply after_R.
Qed.

Lemma sort_by_perm l : sort_by less l ≡ₚ l.
Proof.
  rewrite /sort_by -{2}(app_nil_r l). generalize (@nil A). induction l as [|x l IH]; intros acc; simpl; [done|].
  rewrite IH insert_sorted_perm. by rewrite Permutation_middle.
Qed.

Lemma sort_by_Sorted l : Sorted R (sort_by less l).
Proof.
  rewrite /sort_by. assert (Sorted R (@nil A)) as H by constructor. revert H. generalize (@nil A).
  induction l as [|x l IH]; intros acc Hacc; simpl; [done|]. by apply IH, insert_sorted_Sorted.
Qed.
End sorting_lemmas.

(** ** The measure of a union of intervals *)

Definition inside (t : Z) (iv : Interval) : bool := bool_decide (startNs iv <= t < endNs iv).

(** The nanoseconds below [D] of which [f] holds. *)
Definition measure (D : Z) (f : Z → bool) : Z := Z.of_nat (length (filter (λ t, f t = true) (seqZ 0 D))).

(** The nanoseconds below [D] that some interval covers: the reference. *)
Definition covered (ivs : list Interval) (t : Z) : bool := existsb (inside t) ivs.

Lemma filter_length_ext {A} (f g : A → bool) l :
  (∀ x, x ∈ l → f x = g x) → length (filter (λ x, f x = true) l) = length (filter (λ x, g x = true) l).
Proof.
  induction l as [|x l IH]; intros H; [done|]. rewrite !filter_cons H; [set_solver|].
  case_decide; simpl; rewrite IH //; set_solver.
Qed.

Lemma measure_ext D f g : (∀ t, 0 <= t < D → f t = g t) → measure D f = measure D g.
Proof.
  intros H. rewrite /measure. f_equal. apply filter_length_ext. intros t Ht%elem_of_seqZ. apply H. lia.
Qed.

Lemma filter_length_disjoint {A} (f g : A → bool) l :
  (∀ x, x ∈ l → f x && g x = false) →
  (length (filter (λ x, (f x || g x) = true) l) =
   length (filter (λ x, f x = true) l) + length (filter (λ x, g x = true) l))%nat.
Proof.
  induction l as [|x l IH]; intros H; [done|]. rewrite !filter_cons.
  assert (f x && g x = false) as Hx by (apply H; set_solver).
  specialize (IH ltac:(intros; apply H; set_solver)).
  destruct (f x), (g x); simpl in Hx; try done; repeat case_decide; simpl in *; try done; lia.
Qed.

Lemma measure_disjoint D f g :
  (∀ t, f t && g t = false) → measure D (λ t, f t || g t) = measure D f + measure D g.
Proof. intros H. rewrite /measure filter_length_disjoint; [by intros|lia]. Qed.

Lemma measure_none D : measure D (λ _, false) = 0.
Proof. rewrite /measure. induction (seqZ 0 D) as [|t l IH]; [done|]. by rewrite filter_cons. Qed.

Lemma measure_all D : measure D (λ _, true) = Z.max 0 D.
Proof.
  rewrite /measure (filter_all (λ _ : Z, true = true)); [by apply Forall_true|]. rewrite length_seqZ. lia.
Qed.

Lemma measure_nonneg D f : 0 <= measure D f.
Proof. rewrite /measure. lia. Qed.

Lemma measure_compl D f : measure D (λ t, negb (f t)) = Z.max 0 D - measure D f.
Proof.
  rewrite -measure_all. rewrite (measure_ext D (λ _, true) (λ t, f t || negb (f t))).
  { intros t _. by destruct (f t). }
  rewrite measure_disjoint; [|lia]. intros t. by destruct (f t).
Qed.

Lemma measure_le D f : measure D f <= Z.max 0 D.
Proof. pose proof (measure_compl D f). pose proof (measure_nonneg D (λ t, negb (f t))). lia. Qed.

Lemma measure_interval D s e : 0 <= s <= e → e <= D → measure D (λ t, bool_decide (s <= t < e)) = e - s.
Proof.
  intros Hs He. rewrite /measure.
  replace D with (s + ((e - s) + (D - e))) by lia.
  rewrite (seqZ_app 0 s) ?(seqZ_app (0 + s) (e - s)); [lia..|]. rewrite !list.filter_app.
  assert (∀ m n, (∀ t, m <= t < m + n → ¬ (s <= t < e)) →
    filter (λ t, bool_decide (s <= t < e) = true) (seqZ m n) = []) as Hout.
  { intros m n H. apply elem_of_nil_inv. intros t [Ht Hin]%list_elem_of_filter.
    apply bool_decide_eq_true in Ht. apply elem_of_seqZ in Hin. by apply (H t). }
  rewrite (Hout 0 s) ?(Hout (0 + s + (e - s))); [lia..|]. rewrite app_nil_r /= filter_all ?length_seqZ; [|lia].
  apply Forall_forall. intros t Ht. rewrite bool_decide_eq_true. apply elem_of_seqZ in Ht. lia.
Qed.

(** Sorted by the beginning of the intervals. *)
Definition starts_before (a b : Interval) : Prop := startNs a <= startNs b.

Lemma intervals_sorted ivs : StronglySorted starts_before (sort_by interval_less ivs).
Proof.
  apply Sorted_StronglySorted; [intros x y z; rewrite /starts_before; lia|].
  apply sort_by_Sorted; intros x y; rewrite /interval_less /starts_before;
    repeat case_decide; repeat case_bool_decide; simpl; (done || lia).
Qed.

Definition proper (D : Z) (iv : Interval) : Prop := 0 <= startNs iv < endNs iv ∧ endNs iv <= D.

Lemma covered_later l t s :
  Forall (λ iv, s <= startNs iv) l → t < s → covered l t = false.
Proof.
  intros Hl Ht. induction Hl as [|iv l Hiv _ IH]; [done|]. simpl. rewrite IH orb_false_r /inside.
  rewrite bool_decide_eq_false. lia.
Qed.

(** The loop adds the measure of the current interval and of those to come. *)
Lemma merge_loop_measure D total s e l :
  D < 2 ^ 63 → 0 <= total → total + measure D (λ t, bool_decide (s <= t < e) || covered l t) <= D →
  0 <= s <= e → e <= D → Forall (proper D) l → StronglySorted starts_before l →
  Forall (λ iv, s <= startNs iv) l →
  merge_loop total s e l = total + measure D (λ t, bool_decide (s <= t < e) || covered l t).
Proof.
  intros HD. revert total s e. induction l as [|iv l IH]; intros total s e Ht Hm Hs He Hp Hsort Hs'; simpl.
  { rewrite (measure_ext D _ (λ t, bool_decide (s <= t < e))) in Hm |- *; [by intros; rewrite orb_false_r..|].
    rewrite -> measure_interval in Hm |- * by done. rewrite int64_id /in_int64; [|lia]. lia. }
  inversion_clear Hp as [|? ? Hiv Hp']. inversion_clear Hsort as [|? ? Hsort' Hall]. inversion_clear Hs' as [|? ? Hsi Hs''].
  destruct Hiv as [Hiv1 Hiv2]. rewrite decide_False; [lia|]. case_decide as Hc.
  - set (e' := if decide (endNs iv > e) then endNs iv else e).
    assert (e' = Z.max e (endNs iv)) as He' by (rewrite /e'; case_decide; lia).
    assert (measure D (λ t, bool_decide (s <= t < e) || (inside t iv || covered l t)) =
            measure D (λ t, bool_decide (s <= t < e') || covered l t)) as Hmeq.
    { apply measure_ext. intros t _. rewrite orb_assoc. f_equal. rewrite /inside.
      repeat case_bool_decide; simpl; (done || lia). }
    rewrite /covered /= -/(covered l _) in Hm |- *. setoid_rewrite Hmeq. rewrite Hmeq in Hm.
    apply IH; try done; lia.
  - assert (measure D (λ t, bool_decide (s <= t < e) || (inside t iv || covered l t)) =
            (e - s) + measure D (λ t, bool_decide (startNs iv <= t < endNs iv) || covered l t)) as Hmeq.
    { rewrite measure_disjoint; [|by rewrite measure_interval]. intros t.
      case_bool_decide as Hin; [|done]. simpl. rewrite /inside bool_decide_eq_false_2; [lia|]. simpl.
      eapply (covered_later _ _ (startNs iv)); [done|lia]. }
    rewrite Hmeq in Hm |- *. pose proof (measure_nonneg D (λ t, bool_decide (startNs iv <= t < endNs iv) || covered l t)).
    assert (int64 (total + (e - s)) = total + (e - s)) as -> by (apply int64_id; rewrite /in_int64; lia).
    rewrite IH; try done; lia.
Qed.

Lemma merged_measure D ivs :
  0 <= D < 2 ^ 63 → Forall (proper D) ivs →
  gpuMergedIntervalDurationNs ivs = measure D (covered ivs).
Proof.
  intros HD Hp. rewrite /gpuMergedIntervalDurationNs.
  pose proof (intervals_sorted ivs) as Hsort. pose proof (sort_by_perm interval_less ivs) as Hperm.
  assert (∀ t, covered ivs t = covered (sort_by interval_less ivs) t) as Hcov.
  { intros t. apply Bool.eq_iff_eq_true. rewrite /covered !existsb_exists.
    setoid_rewrite <-list_elem_of_In. by setoid_rewrite Hperm. }
  rewrite -Hperm in Hp. rewrite (measure_ext D _ (covered (sort_by interval_less ivs))); [done|].
  destruct (sort_by interval_less ivs) as [|iv l].
  { symmetry. apply measure_none. }
  inversion_clear Hp as [|? ? [Hiv1 Hiv2] Hp']. inversion_clear Hsort as [|? ? Hsort' Hall].
  rewrite (merge_loop_measure D); try done; try lia.
  match goal with |- context [measure D ?f] => pose proof (measure_le D f) end. lia.
Qed.

(** ** What the rows say *)

Lemma clamp_proper w iv iv' : clamp w iv = Some iv' → proper (wDurationNs w) iv'.
Proof.
  rewrite /clamp /proper. set (s := if decide (startNs iv < 0) then _ else _).
  set (e := if decide (endNs iv > _) then _ else _).
  case_decide; [|done]. intros [= <-]. simpl.
  assert (0 <= s) by (rewrite /s; case_decide; lia).
  assert (e <= wDurationNs w) by (rewrite /e; case_decide; lia). lia.
Qed.

Lemma inside_clamp w iv t :
  0 <= t < wDurationNs w → inside t iv = match clamp w iv with Some iv' => inside t iv' | None => false end.
Proof.
  intros Ht. rewrite /clamp /inside.
  destruct (decide (startNs iv < 0)), (decide (endNs iv > wDurationNs w)); case_decide; simpl;
    repeat case_bool_decide; (done || lia).
Qed.

Lemma covered_coveredIntervals w t :
  0 <= t < wDurationNs w → covered (coveredIntervals w) t = covered (Phases w ≫= phIntervals) t.
Proof.
  intros Ht. rewrite /coveredIntervals. induction (Phases w ≫= phIntervals) as [|iv l IH]; [done|]. csimpl.
  rewrite (inside_clamp w iv t Ht). destruct (clamp w iv) as [iv'|]; simpl; by rewrite IH.
Qed.

(** The time of a worker that none of the intervals of its phases covers. *)
Definition uncovered (w : Worker) : Z :=
  measure (wDurationNs w) (λ t, negb (covered (Phases w ≫= phIntervals) t)).

Lemma other_duration w :
  in_int64 (wDurationNs w) →
  let d := int64 (wDurationNs w - gpuMergedIntervalDurationNs (coveredIntervals w)) in
  (if decide (d < 0) then 0 else d) = uncovered w.
Proof.
  intros HD. rewrite /uncovered measure_compl.
  rewrite -(measure_ext _ (covered (coveredIntervals w))); [intros t Ht; by apply covered_coveredIntervals|].
  assert (Forall (proper (wDurationNs w)) (coveredIntervals w)) as Hp.
  { rewrite /coveredIntervals. induction (Phases w ≫= phIntervals) as [|iv l IH]; csimpl; [done|].
    destruct (clamp w iv) as [iv'|] eqn:Hc; [|done]. constructor; [by eapply clamp_proper|done]. }
  rewrite /in_int64 in HD. destruct (decide (0 <= wDurationNs w)) as [Hpos|Hneg].
  - rewrite (merged_measure (wDurationNs w)); [lia|done|].
    pose proof (measure_le (wDurationNs w) (covered (coveredIntervals w))).
    pose proof (measure_nonneg (wDurationNs w) (covered (coveredIntervals w))).
    rewrite int64_id /in_int64; [lia|]. case_decide; lia.
  - assert (coveredIntervals w = []) as ->.
    { destruct (coveredIntervals w) as [|iv l]; [done|]. inversion_clear Hp as [|? ? [? ?] ?]. lia. }
    rewrite measure_none /gpuMergedIntervalDurationNs /= int64_id /in_int64; [lia|].
    rewrite decide_True; lia.
Qed.

(** C31: What a worker did outside its phases.  A worker gets a row for the rest
    of its time iff the intervals of its phases are complete and there is time
    or, with time left, a surplus of bytes; the duration of the row is the
    number of nanoseconds of the worker that lie in none of the intervals, which
    may overlap, come in any order and lie outside the time of the worker. *)
Theorem other_row_uncovered i w :
  in_int64 (wDurationNs w) → 0 <= wBytes w < 2 ^ 64 →
  other_row i w =
    if forallb phase_complete (Phases w) && bool_decide (0 < uncovered w)
    then Some (mkRow w i "other" (uncovered w) (Z.max 0 (wBytes w - namedBytes w)))
    else None.
Proof.
  intros HD HB. pose proof (other_duration w HD) as Hd. rewrite /other_row. cbv zeta in Hd |- *. rewrite Hd. clear Hd.
  destruct (forallb phase_complete (Phases w)); [|done]. simpl.
  assert (0 <= namedBytes w < 2 ^ 64) as HN.
  { rewrite /namedBytes. assert (∀ l n, 0 <= n < 2 ^ 64 → 0 <= foldl (λ n ph, uint64 (n + phBytes ph)) n l < 2 ^ 64) as H.
    { induction l as [|ph l IH]; intros n Hn; [done|]. simpl. apply IH. apply Z.mod_pos_bound. lia. }
    by apply H. }
  pose proof (measure_nonneg (wDurationNs w) (λ t, negb (covered (Phases w ≫= phIntervals) t))).
  rewrite -/(uncovered w) in H. destruct (decide (0 < uncovered w)) as [Hpos|Hpos].
  - destruct (decide (uncovered w > 0)); [|lia]. rewrite (bool_decide_eq_true_2 (0 < uncovered w)) //.
    rewrite (bool_decide_eq_false_2 (uncovered w = 0)); [lia|].
    simpl. assert ((if decide (wBytes w > namedBytes w) then uint64 (wBytes w - namedBytes w) else 0) =
      Z.max 0 (wBytes w - namedBytes w)) as ->; [|done].
    case_decide; [|lia]. rewrite /uint64 /wrap Z.mod_small; lia.
  - destruct (decide (uncovered w > 0)); [lia|]. rewrite (bool_decide_eq_false_2 (0 < uncovered w)) //.
    by rewrite (bool_decide_eq_true_2 (uncovered w = 0)); [lia|].
Qed.

(** A worker of which two overlapping intervals, one out of range, leave 40 of
    100 nanoseconds. *)
Definition sample_worker : Worker :=
  mkWorker 0 17 100 64 [
    mkPhase "gpu_memory" 50 40 [mkInterval 20 60; mkInterval (-5) 10] false;
    mkPhase "cuda_calls" 20 4 [mkInterval 50 70] false].

Lemma other_row_uncovered_witness : other_row 0 sample_worker = Some (mkRow sample_worker 0 "other" 40 20).
Proof.
  etransitivity; [apply (other_row_uncovered 0 sample_worker); by vm_compute|]. by vm_compute.
Defined.

(** ** The components that are added *)

Definition row_node (stats : gpuDurationStats) (r : gpuWorkerTimingRow) : Node :=
  mkFullNode (getName (gpuWorkerProfileTags r stats)) [] (durationNs r) (int64 (bytes r)) true true true.

Lemma int64_idemp z : int64 (int64 z) = int64 z.
Proof. apply int64_id, int64_in_range. Qed.

Lemma add_row data stats s r q :
  s !! data = Some q →
  ∃ l, s !! l = None ∧
    addGPUWorkerTimingRowToProfiling (Some data) stats s r =
    <[l := row_node stats r]> (<[data := map_Components (λ cs, cs ++ [l]) q]> s).
Proof.
  intros Hq. rewrite /addGPUWorkerTimingRowToProfiling /addGPUFunctionProfileToProfiling /AddTimingParallelComponent.
  destruct (alloc _ s) as [l s1] eqn:Ha. apply alloc_fresh in Ha as [Hl ->]. exists l. split; [done|].
  assert (data ≠ l) by congruence.
  rewrite /MarkIORedundant /MarkRedundant /AddIO /add_nIO /append_component. apply map_eq. intros x.
  destruct (decide (x = l)) as [->|Hx].
  - rewrite !lookup_alter_eq lookup_alter_ne // !lookup_insert_eq /row_node /mark /map_IO /=.
    by rewrite int64_idemp.
  - rewrite lookup_insert_ne // !(lookup_alter_ne _ _ l) //. destruct (decide (x = data)) as [->|Hxd].
    + by rewrite lookup_alter_eq lookup_insert_ne // Hq lookup_insert_eq.
    + by rewrite lookup_alter_ne // !lookup_insert_ne.
Qed.

(** [s'] is [s] with the nodes [ns] appended to the components of [data]. *)
Definition appended (data : nat) (ns : list Node) (s s' : Store) : Prop :=
  ∃ q ls, s !! data = Some q ∧ s' !! data = Some (map_Components (λ cs, cs ++ ls) q) ∧
    Forall2 (λ l n, s !! l = None ∧ s' !! l = Some n) ls ns ∧
    ∀ l, is_Some (s !! l) → l ≠ data → s' !! l = s !! l.

Lemma appended_nil data s : is_Some (s !! data) → appended data [] s s.
Proof.
  intros [q Hq]. exists q, []. split; [done|]. split; [|by split].
  rewrite Hq. f_equal. destruct q. by rewrite /map_Components /= app_nil_r.
Qed.

Lemma appended_trans data ns1 ns2 s1 s2 s3 :
  appended data ns1 s1 s2 → appended data ns2 s2 s3 → appended data (ns1 ++ ns2) s1 s3.
Proof.
  intros (q & ls1 & Hq & Hq2 & Hf1 & Ho1) (q' & ls2 & Hq' & Hq3 & Hf2 & Ho2). simplify_eq.
  exists q, (ls1 ++ ls2). split; [done|]. split.
  { rewrite Hq3. f_equal. by rewrite /map_Components /= app_assoc. }
  split; [|intros l Hl Hd; rewrite Ho2 //; [by rewrite Ho1|by rewrite Ho1]].
  apply Forall2_app.
  - eapply Forall2_impl; [exact Hf1|]. intros l n [Hn Hs]. simpl. split; [done|]. rewrite Ho2 //; congruence.
  - eapply Forall2_impl; [exact Hf2|]. intros l n [Hn Hs]. simpl. split; [|done].
    destruct (s1 !! l) as [x|] eqn:Hx; [|done]. destruct (decide (l = data)) as [->|Hd]; [congruence|].
    rewrite Ho1 // in Hn; congruence.
Qed.

Lemma add_row_appended data stats s r :
  is_Some (s !! data) →
  appended data [row_node stats r] s (addGPUWorkerTimingRowToProfiling (Some data) stats s r).
Proof.
  intros [q Hq]. destruct (add_row data stats s r q Hq) as (l & Hl & ->). assert (data ≠ l) by congruence.
  exists q, [l]. split; [done|]. rewrite lookup_insert_ne // lookup_insert_eq. split; [done|].
  split; [by repeat constructor; rewrite ?lookup_insert_eq|].
  intros x [y Hy] Hd. assert (x ≠ l) by congruence. by rewrite !lookup_insert_ne.
Qed.

Lemma appended_is_Some data ns s s' : appended data ns s s' → is_Some (s' !! data).
Proof. intros (q & ls & _ & -> & _). by eexists. Qed.

Lemma add_rows_appended data rows s :
  is_Some (s !! data) →
  appended data (row_node (gpuWorkerDurationStats rows) <$> rows) s
    (addGPUWorkerTimingRowsToProfiling (Some data) rows s).
Proof.
  rewrite /addGPUWorkerTimingRowsToProfiling. generalize (gpuWorkerDurationStats rows) => stats.
  revert s. induction rows as [|r rows IH]; intros s Hs; csimpl; [by apply appended_nil|].
  pose proof (add_row_appended data stats s r Hs) as H1.
  apply (appended_trans data [_] _ _ _ _ H1). by eapply IH, appended_is_Some.
Qed.

(** The profile of the GPU is for display only.  Adding a profile to a node
    appends one component per row, with the name, the duration and the bytes of
    the row, and changes no other node; all of them are parallel, redundant and
    redundant in their bytes, so that no total of a report counts them. *)
Theorem GPU_profile_display_only data p s :
  is_Some (s !! data) →
  let rows := profile_rows p in
  let nodes := rows ≫= λ rs, row_node (gpuWorkerDurationStats rs) <$> rs in
  appended data nodes s (addGPUProfileToProfiling (Some data) (Some p) s) ∧
  Forall (λ n, nParallel n = true ∧ nRedundant n = true ∧ nIORedundant n = true) nodes.
Proof.
  intros Hs rows nodes. split.
  - rewrite /nodes /addGPUProfileToProfiling -/rows. clear nodes. revert s Hs. generalize rows.
    induction rows0 as [|rs l IH]; intros s Hs; csimpl; [by apply appended_nil|].
    pose proof (add_rows_appended data rs s Hs) as H1.
    apply (appended_trans _ _ _ _ _ _ H1). by eapply IH, appended_is_Some.
  - rewrite /nodes. induction rows as [|rs l IH]; csimpl; [done|]. apply Forall_app. split; [|done].
    apply Forall_fmap. apply Forall_true. by intros r.
Qed.

Lemma GPU_profile_display_only_witness :
  ∃ s', addGPUProfileToProfiling (Some 0%nat) (Some (mkProfile ["dumpCudaMemory"] [sample_worker])) sample_store = s' ∧
    ∃ nodes, length nodes = 3%nat ∧ appended 0 nodes sample_store s'.
Proof.
  eexists. split; [reflexivity|].
  pose proof (GPU_profile_display_only 0 (mkProfile ["dumpCudaMemory"] [sample_worker]) sample_store
    ltac:(by eexists)) as [H _].
  eexists. split; [|exact H]. by vm_compute.
Defined.

(** Each phase is listed once: those of the functions first. *)
Lemma add_phase_elem acc l x : x ∈ foldl add_phase acc l ↔ x ∈ acc ∨ x ∈ l.
Proof.
  revert acc. induction l as [|y l IH]; intros acc; simpl; [set_solver|]. rewrite IH /add_phase.
  case_decide; set_solver.
Qed.

Lemma add_phase_NoDup acc l : NoDup acc → NoDup (foldl add_phase acc l).
Proof.
  revert acc. induction l as [|y l IH]; intros acc Ha; simpl; [done|]. apply IH. rewrite /add_phase.
  case_decide; [done|]. apply NoDup_app. split; [done|]. split; [set_solver|]. apply NoDup_singleton.
Qed.

Theorem phase_order_complete p workers :
  NoDup (gpuProfilePhaseOrder p workers) ∧
  ∀ x, x ∈ gpuProfilePhaseOrder p workers ↔
    (∃ f, f ∈ Functions p ∧ gpuFunctionPhaseNames !! f = Some x) ∨
    (x ≠ "" ∧ ∃ w ph, w ∈ workers ∧ ph ∈ Phases w ∧ phName ph = x).
Proof.
  split; [apply add_phase_NoDup, add_phase_NoDup, NoDup_nil_2|]. intros x.
  rewrite /gpuProfilePhaseOrder !add_phase_elem list_elem_of_omap list_elem_of_filter list_elem_of_bind.
  setoid_rewrite list_elem_of_fmap. set_solver.
Qed.

End GpuProfile.
