(* ===== verification/Channel.v ===== *)
(** * Broadcasting over channels (pkg/channel/broadcaster.go)

    [Broadcaster] hands out receiver channels of capacity one.  Its goroutine
    and any number of subscribers work under one mutex; the transition system
    below runs them beside the receivers, which take no lock.  The daemon uses
    it for exit codes, that is with at most one value. *)

From S2P Require Import Prelude.

Module Channel.

(** [ch := make(chan T, 1)] *)
Definition receiver_cap : nat := 1.

Section broadcaster.
Context {T : Type}.

Record chan := mkChan { queue : list T; chClosed : bool }.

(** [ch <- v], or [None] when it blocks. *)
Definition send (v : T) (c : chan) : option chan :=
  if decide (length (queue c) < receiver_cap)
  then Some (mkChan (queue c ++ [v]) (chClosed c)) else None.

(** [select { case ch <- val: default: }] *)
Definition try_send (v : T) (c : chan) : chan := default c (send v c).

(** The fields of the struct; [receivers] are indices into the channels. *)
Record broadcaster := mkBroadcaster {
  receivers : list nat;
  buffer : list T;
  closed : bool;
}.

(** All receiver channels, what each receiver has taken out of its channel so
    far, and whether a goroutine that cannot go on holds the mutex. *)
Record State := mkState {
  bc : broadcaster;
  chans : list chan;
  got : list (list T);
  stuck : bool;
}.

Definition init : State := mkState (mkBroadcaster [] [] false) [] [] false.

(** The body of [for val := range in]. *)
Definition broadcast (v : T) (s : State) : State :=
  let b := bc s in
  mkState (mkBroadcaster (receivers b) (buffer b ++ [v]) (closed b))
    (foldl (λ cs i, alter (try_send v) i cs) (chans s) (receivers b)) (got s) (stuck s).

(** What the goroutine does once [in] is closed. *)
Definition finish (s : State) : State :=
  let b := bc s in
  mkState (mkBroadcaster (receivers b) (buffer b) true)
    (foldl (λ cs i, alter (λ c, mkChan (queue c) true) i cs) (chans s) (receivers b))
    (got s) (stuck s).

(** [for _, v := range bc.buffer { ch <- v }]: nobody else has the channel yet. *)
Fixpoint replay (vs : list T) (c : chan) : option chan :=
  match vs with
  | [] => Some c
  | v :: vs => match send v c with Some c => replay vs c | None => None end
  end.

(** The function [Broadcaster] returns.  A replay that blocks keeps the mutex. *)
Definition subscribe (s : State) : State :=
  let b := bc s in
  match replay (buffer b) (mkChan [] false) with
  | None => mkState b (chans s) (got s) true
  | Some ch =>
      if closed b then mkState b (chans s ++ [mkChan (queue ch) true]) (got s ++ [[]]) (stuck s)
      else mkState (mkBroadcaster (receivers b ++ [length (chans s)]) (buffer b) (closed b))
             (chans s ++ [ch]) (got s ++ [[]]) (stuck s)
  end.

(** A receiver takes the next value of its channel. *)
Definition receive (i : nat) (s : State) : option (T * State) :=
  match chans s !! i with
  | Some (mkChan (v :: q) cl) =>
      Some (v, mkState (bc s) (<[i := mkChan q cl]> (chans s)) (alter (λ l, l ++ [v]) i (got s)) (stuck s))
  | _ => None
  end.

Inductive step : State → State → Prop :=
| step_broadcast v s : stuck s = false → closed (bc s) = false → step s (broadcast v s)
| step_finish s : stuck s = false → closed (bc s) = false → step s (finish s)
| step_subscribe s : stuck s = false → step s (subscribe s)
| step_receive i v s s' : receive i s = Some (v, s') → step s s'.

Definition reachable (s : State) : Prop := rtc step init s.

(** ** What every channel holds *)

(** Everything receiver [i] was given: taken already, or still queued. *)
Definition given (s : State) (i : nat) : option (list T) :=
  l ← got s !! i; c ← chans s !! i; Some (l ++ queue c).

(** The receivers are channels, each once; the others were made after the end. *)
Record wf (s : State) : Prop := {
  wf_len : length (got s) = length (chans s);
  wf_recv : NoDup (receivers (bc s));
  wf_in i : i ∈ receivers (bc s) → i < length (chans s);
  wf_closed i c : chans s !! i = Some c → chClosed c = closed (bc s);
  wf_open i : closed (bc s) = false → i < length (chans s) → i ∈ receivers (bc s);
}.

Lemma alter_all_length (f : chan → chan) ids (cs : list chan) :
  length (foldl (λ cs i, alter f i cs) cs ids) = length cs.
Proof. revert cs. induction ids as [|i ids IH]; intros cs; [done|]. by rewrite /= IH length_alter. Qed.

Lemma alter_all_lookup (f : chan → chan) ids (cs : list chan) j :
  NoDup ids →
  foldl (λ cs i, alter f i cs) cs ids !! j = if decide (j ∈ ids) then f <$> (cs !! j) else cs !! j.
Proof.
  revert cs. induction ids as [|i ids IH]; intros cs; [done|].
  intros [Hi His]%list.NoDup_cons. rewrite /= IH //.
  destruct (decide (j ∈ ids)) as [Hj|Hj].
  - destruct (decide (j ∈ i :: ids)) as [_|?]; [|set_solver].
    rewrite list_lookup_alter_ne //. by intros ->.
  - destruct (decide (j ∈ i :: ids)) as [[->|?]%elem_of_cons|?]; [|done|].
    + by rewrite list_lookup_alter_eq.
    + rewrite list_lookup_alter_ne //. set_solver.
Qed.

Lemma try_send_closed v c : chClosed (try_send v c) = chClosed c.
Proof. rewrite /try_send /send. by case_decide. Qed.

Lemma replay_closed vs c c' : replay vs c = Some c' → chClosed c' = chClosed c.
Proof.
  revert c. induction vs as [|v vs IH]; intros c; simpl; [by intros [= ->]|].
  rewrite /send. case_decide; [|done]. by intros ->%IH.
Qed.

Lemma replay_queue vs c c' : replay vs c = Some c' → queue c' = queue c ++ vs.
Proof.
  revert c. induction vs as [|v vs IH]; intros c; simpl; [intros [= ->]; by rewrite app_nil_r|].
  rewrite /send. case_decide; [|done]. intros ->%IH. by rewrite /= -app_assoc.
Qed.

Lemma replay_blocks vs c :
  replay vs c = None ↔ vs ≠ [] ∧ receiver_cap < length (queue c) + length vs.
Proof.
  revert c. induction vs as [|v vs IH]; intros c; simpl; [naive_solver|].
  rewrite /send. case_decide as Hc; [|naive_solver lia].
  rewrite IH /= length_app /=. destruct vs; simpl; [|naive_solver lia].
  rewrite /receiver_cap in Hc |- *. naive_solver lia.
Qed.

Lemma init_wf : wf init.
Proof. split; simpl; [done|constructor|set_solver|done|lia]. Qed.

Lemma wf_app s c b :
  wf s → chClosed c = closed (bc s) → closed b = closed (bc s) →
  receivers b = receivers (bc s) ++ (if closed (bc s) then [] else [length (chans s)]) →
  wf (mkState b (chans s ++ [c]) (got s ++ [[]]) (stuck s)).
Proof.
  intros [Hl Hn Hi Hc Ho] Hcc Hb Hr. split; simpl; rewrite ?Hb ?Hr.
  - rewrite !length_app /=. lia.
  - destruct (closed (bc s)); [by rewrite app_nil_r|]. apply list.NoDup_app. repeat split; [done| |by apply NoDup_singleton].
    intros x Hx%Hi ->%list_elem_of_singleton. lia.
  - intros i. rewrite length_app /= elem_of_app. intros [?%Hi|Hin]; [lia|].
    destruct (closed (bc s)); [by apply elem_of_nil in Hin|]. apply list_elem_of_singleton in Hin. lia.
  - intros i c' [?|[_ Hx]]%lookup_app_Some; [by eapply Hc|].
    apply list_lookup_singleton_Some in Hx as [_ <-]. done.
  - intros i Hopen Hlt. rewrite length_app /= in Hlt. rewrite Hopen.
    destruct (decide (i = length (chans s))) as [->|?]; [set_solver|].
    apply elem_of_app. left. apply Ho; [done|lia].
Qed.

Lemma step_wf s s' : step s s' → wf s → wf s'.
Proof.
  intros [v s0 _ Hcl|s0 _ Hcl|s0 _|i v s0 s1 Hr] Hwf.
  - destruct Hwf as [Hl Hn Hi Hc Ho]. split; simpl.
    + by rewrite alter_all_length.
    + done.
    + intros i. rewrite alter_all_length. apply Hi.
    + intros i c. rewrite alter_all_lookup //. case_decide; [|apply Hc].
      intros (c0 & Hc0 & ->)%fmap_Some. rewrite try_send_closed. by eapply Hc.
    + intros i. rewrite alter_all_length. apply Ho.
  - destruct Hwf as [Hl Hn Hi Hc Ho]. split; simpl.
    + by rewrite alter_all_length.
    + done.
    + intros i. rewrite alter_all_length. apply Hi.
    + intros i c. rewrite alter_all_lookup //. case_decide as Hin.
      * by intros (c0 & _ & ->)%fmap_Some.
      * intros Hlk. destruct Hin. apply Ho; [done|]. by eapply lookup_lt_Some.
    + done.
  - rewrite /subscribe. destruct (replay _ _) as [ch|] eqn:Hch.
    + apply replay_closed in Hch. destruct (closed (bc s0)) eqn:Hcl; apply wf_app; simpl;
        rewrite ?Hcl ?app_nil_r //.
    + by destruct Hwf.
  - rewrite /receive in Hr. destruct (chans s0 !! i) as [[[|x q] cl]|] eqn:Hlk; [done| |done].
    injection Hr as -> <-. destruct Hwf as [Hl Hn Hi Hc Ho]. split; simpl.
    + by rewrite length_alter length_insert.
    + done.
    + intros j. rewrite length_insert. apply Hi.
    + intros j c [(<- & <- & _)|[_ ?]]%list_lookup_insert_Some; [|by eapply Hc].
      apply (Hc _ _ Hlk).
    + intros j. rewrite length_insert. apply Ho.
Qed.

(** What a step does to what a channel was given. *)
Lemma given_lookup s i l :
  given s i = Some l ↔ ∃ g c, got s !! i = Some g ∧ chans s !! i = Some c ∧ l = g ++ queue c.
Proof.
  rewrite /given. destruct (got s !! i), (chans s !! i); simpl; naive_solver.
Qed.

Lemma given_broadcast v s i l' :
  wf s → given (broadcast v s) i = Some l' →
  ∃ l, given s i = Some l ∧
    (l' = l ++ [v] ∨ l' = l ∧ (i ∉ receivers (bc s) ∨ l ≠ [])).
Proof.
  intros Hwf (g & c & Hg & Hc & ->)%given_lookup. simpl in Hg, Hc.
  rewrite alter_all_lookup in Hc; [by apply Hwf|]. case_decide as Hin.
  - apply fmap_Some in Hc as (c0 & Hc0 & ->). exists (g ++ queue c0).
    split; [apply given_lookup; by eauto|]. rewrite /try_send /send.
    case_decide as Hq; simpl; [left; by rewrite app_assoc|]. right. split; [done|right].
    destruct g, (queue c0); simpl in *; try done. rewrite /receiver_cap in Hq. lia.
  - exists (g ++ queue c). split; [apply given_lookup; by eauto|]. right. by split; [|left].
Qed.

Lemma given_finish s i l' : wf s → given (finish s) i = Some l' → given s i = Some l'.
Proof.
  intros Hwf (g & c & Hg & Hc & ->)%given_lookup. simpl in Hg, Hc.
  rewrite alter_all_lookup in Hc; [by apply Hwf|]. apply given_lookup. case_decide.
  - apply fmap_Some in Hc as (c0 & Hc0 & ->). by eauto.
  - by eauto.
Qed.

Lemma given_app s b c i l' :
  wf s → given (mkState b (chans s ++ [c]) (got s ++ [[]]) (stuck s)) i = Some l' →
  given s i = Some l' ∨ l' = queue c.
Proof.
  intros Hwf (g & c' & Hg & Hc & ->)%given_lookup. simpl in Hg, Hc.
  apply lookup_app_Some in Hg as [Hg|[Hi Hg]].
  - left. apply given_lookup. exists g, c'. rewrite lookup_app_l in Hc; [|done].
    rewrite -(wf_len _ Hwf). by eapply lookup_lt_Some.
  - apply list_lookup_singleton_Some in Hg as [Hi0 <-].
    rewrite lookup_app_r in Hc; [rewrite -(wf_len _ Hwf); lia|].
    apply list_lookup_singleton_Some in Hc as [_ <-]. by right.
Qed.

Lemma given_receive s s' i j v l' :
  receive j s = Some (v, s') → given s' i = Some l' → given s i = Some l'.
Proof.
  rewrite /receive. destruct (chans s !! j) as [[[|x q] cl]|] eqn:Hj; [done| |done].
  intros [= -> <-] (g & c & Hg & Hc & ->)%given_lookup. simpl in Hg, Hc. apply given_lookup.
  apply list_lookup_insert_Some in Hc as [[-> [<- _]]|[Hne Hc]].
  - rewrite list_lookup_alter_eq in Hg. apply fmap_Some in Hg as (g0 & Hg & ->).
    exists g0, (mkChan (v :: q) cl). by rewrite /= -app_assoc.
  - rewrite list_lookup_alter_ne // in Hg. by eauto.
Qed.

(** The invariant: receivers get part of the history, in its order; while the
    history has at most one value they get all of it and nobody is stuck. *)
Record inv (s : State) : Prop := {
  inv_wf : wf s;
  inv_sub i l : given s i = Some l → l `sublist_of` buffer (bc s);
  inv_all i l : length (buffer (bc s)) ≤ receiver_cap → given s i = Some l → l = buffer (bc s);
  inv_stuck : length (buffer (bc s)) ≤ receiver_cap → stuck s = false;
}.

Lemma step_inv s s' : step s s' → inv s → inv s'.
Proof.
  intros Hst Hinv. split; [by eapply step_wf, Hinv|..]; revert Hinv.
  - destruct Hst as [v s0 _ Hcl|s0 _ Hcl|s0 _|j v s0 s1 Hr]; intros [Hwf Hs Ha Hk] i l'.
    + intros (l & Hl & Hcase)%given_broadcast; [|done]. simpl. apply Hs in Hl.
      destruct Hcase as [->|[-> _]]; [by apply sublist_app|by apply sublist_inserts_r].
    + intros Hl%given_finish; [|done]. by eapply Hs.
    + rewrite /subscribe. destruct (replay _ _) as [ch|] eqn:Hch; [|apply Hs].
      apply replay_queue in Hch. destruct (closed (bc s0)); simpl;
        intros [?| ->]%given_app; simpl; try done; [by eapply Hs| |by eapply Hs|]; by rewrite Hch.
    + intros Hl. assert (bc s1 = bc s0) as ->; [|by eapply Hs, given_receive].
      rewrite /receive in Hr. by split_matches.
  - destruct Hst as [v s0 _ Hcl|s0 _ Hcl|s0 _|j v s0 s1 Hr]; intros [Hwf Hs Ha Hk] i l'.
    + simpl. rewrite length_app /= /receiver_cap. intros Hlen.
      assert (buffer (bc s0) = []) as Hb by (apply nil_length_inv; lia). rewrite Hb.
      intros (l & Hl & Hcase)%given_broadcast; [|done].
      pose proof (Ha i l ltac:(rewrite Hb /=; lia) Hl) as ->. rewrite Hb in Hcase.
      destruct Hcase as [->|[-> [Hni|?]]]; [done| |done]. exfalso. apply Hni, Hwf; [done|].
      apply given_lookup in Hl as (? & ? & _ & Hc & _). by eapply lookup_lt_Some.
    + intros Hlen Hl%given_finish; [|done]. by eapply Ha.
    + rewrite /subscribe. destruct (replay _ _) as [ch|] eqn:Hch; [|apply Ha].
      apply replay_queue in Hch. destruct (closed (bc s0)); simpl; intros Hlen;
        intros [?| ->]%given_app; simpl; try done; by eapply Ha.
    + intros Hlen Hl. assert (bc s1 = bc s0) as Hb; [rewrite /receive in Hr; by split_matches|].
      rewrite Hb in Hlen |- *. by eapply Ha, given_receive.
  - destruct Hst as [v s0 Hn _|s0 Hn _|s0 Hn|j v s0 s1 Hr]; intros [Hwf Hs Ha Hk] Hlen; try done.
    + rewrite /subscribe in Hlen |- *. destruct (replay _ _) as [ch|] eqn:Hch.
      * by destruct (closed (bc s0)).
      * apply replay_blocks in Hch as [_ Hch]. simpl in *. lia.
    + assert (bc s1 = bc s0 ∧ stuck s1 = stuck s0) as [Hb ->]; [rewrite /receive in Hr; by split_matches|].
      rewrite Hb in Hlen. by apply Hk.
Qed.

Lemma init_inv : inv init.
Proof.
  split; simpl; [apply init_wf|..].
  - intros i l (g & c & Hg & _)%given_lookup. by rewrite lookup_nil in Hg.
  - intros i l _ (g & c & Hg & _)%given_lookup. by rewrite lookup_nil in Hg.
  - done.
Qed.

Lemma reachable_inv s : reachable s → inv s.
Proof.
  intros Hr. unshelve eapply (rtc_ind_r inv init _ _ s Hr); [apply init_inv|].
  intros s1 s2 _ Hst Hi. by eapply step_inv.
Qed.

(** ** Properties *)

(** C28: Whatever the interleaving of the goroutine, subscribers and receivers:
    as long as at most one value was sent (an exit code), no goroutine is
    stuck, and every receiver, whether it subscribed before the value, after it
    or after the close, is given exactly the values sent, in its channel or
    taken already, and finds its channel closed iff the broadcaster is.  In
    general a receiver is given a subsequence of the values sent. *)
Theorem exit_code_reaches_every_subscriber s :
  reachable s →
  (∀ i l, given s i = Some l → l `sublist_of` buffer (bc s)) ∧
  (length (buffer (bc s)) ≤ 1 →
    stuck s = false ∧ (∀ i l, given s i = Some l → l = buffer (bc s)) ∧
    ∀ i c, chans s !! i = Some c → chClosed c = closed (bc s)).
Proof.
  intros [Hwf Hs Ha Hk]%reachable_inv. split; [done|]. intros Hlen. split; [by apply Hk|].
  split; [|apply Hwf]. intros i l. by apply Ha.
Qed.

(** The history is not replayed when it is longer than one value: the
    subscriber blocks on its own channel while it holds the mutex, and from
    then on nothing is broadcast, closed or subscribed any more, whatever the
    receivers do. *)
Theorem replay_of_two_deadlocks s s' :
  2 ≤ length (buffer (bc s)) → rtc step (subscribe s) s' →
  stuck (subscribe s) = true ∧ stuck s' = true ∧ bc s' = bc s ∧ length (chans s') = length (chans s).
Proof.
  intros Hlen. assert (subscribe s = mkState (bc s) (chans s) (got s) true) as ->.
  { rewrite /subscribe. destruct (replay _ _) as [c|] eqn:Hr; [|done].
    assert (replay (buffer (bc s)) (mkChan [] false) = None) as Hn; [|congruence].
    apply replay_blocks. rewrite /receiver_cap /=. split; [intros Hb; rewrite Hb /= in Hlen; lia|lia]. }
  intros Hrtc. split; [done|].
  unshelve eapply (rtc_ind_r (λ t, stuck t = true ∧ bc t = bc s ∧ length (chans t) = length (chans s))
    _ _ _ s' Hrtc); [done|]. clear s' Hrtc.
  intros s1 s2 _ Hst (Hk & Hb & Hc). destruct Hst as [v t Hn _|t Hn _|t Hn|j v t t' Hr]; try congruence.
  rewrite /receive in Hr. split_matches. by rewrite length_insert.
Qed.

End broadcaster.
Arguments chan : clear implicits.
Arguments broadcaster : clear implicits.
Arguments State : clear implicits.

(** Two subscribers, one before and one after the exit code 7 and the close. *)
Definition sample : State nat :=
  subscribe (finish (broadcast 7 (subscribe init))).

Lemma sample_reachable : reachable sample.
Proof.
  eapply rtc_l; [by apply step_subscribe|]. eapply rtc_l; [by apply (step_broadcast 7)|].
  eapply rtc_l; [by apply step_finish|]. by apply rtc_once, step_subscribe.
Qed.

Lemma exit_code_reaches_every_subscriber_witness :
  given sample 0 = Some [7] ∧ given sample 1 = Some [7] ∧ stuck sample = false.
Proof.
  destruct (exit_code_reaches_every_subscriber sample sample_reachable) as [_ H].
  destruct H as (H1 & H2 & _); [vm_compute; lia|]. split; [reflexivity|]. by split.
Defined.

Lemma replay_of_two_deadlocks_witness :
  stuck (subscribe (broadcast 2 (broadcast 1 (init : State nat)))) = true.
Proof.
  by destruct (replay_of_two_deadlocks (broadcast 2 (broadcast 1 (init : State nat))) _
    ltac:(vm_compute; lia) (rtc_refl _ _)) as [H _].
Defined.
End Channel.
