(* ===== verification/StreamIO.v ===== *)
(** * Standard streams over gRPC (pkg/io/grpc.go)

    A client attached to a process (the master) exchanges the bytes of its
    standard streams with the daemon's side (the slave).  [Module Pipe] is the
    reader and the writer at the two ends of a channel of byte slices: slices
    point into arrays, so that what a channel carries may still change.
    [Module Slave] is the slave's goroutine with its masters, the table of
    slaves, [Attach], and the adapter [SetupIO] that connects a process to it;
    [Module Master] is the client's side. *)

From Stdlib Require Import Ascii.
From S2P Require Import Prelude GoLib.
Import GoLib.

(** What a step of a goroutine can do instead of going on. *)
Inductive outcome (A : Type) :=
| Goes (a : A)
| Blocks
| Panics.
Arguments Goes {_} _.
Arguments Blocks {_}.
Arguments Panics {_}.

#[global] Instance outcome_ret : MRet outcome := λ _ a, Goes a.
#[global] Instance outcome_bind : MBind outcome := λ _ _ f m,
  match m with Goes a => f a | Blocks => Blocks | Panics => Panics end.

Lemma outcome_bind_Goes {A B} (m : outcome A) (f : A → outcome B) b :
  mbind f m = Goes b ↔ ∃ a, m = Goes a ∧ f a = Goes b.
Proof. rewrite /mbind /outcome_bind. destruct m; naive_solver. Qed.

Definition channelBufLen : nat := 32.
Definition readFromBufLen : nat := 512.
Definition streamDoneExitCode : Z := 254.

(** An error of [io.Reader]: [io.EOF] or another. *)
Inductive ioerr := EOF | ReadErr (e : error).

Module Pipe.

(** ** Slices *)

Definition heap : Type := list (list ascii).

(** [arr\[off : off + len\]] *)
Record slice := mkSlice { arr : nat; off : nat; len : nat }.

Definition nil_slice : slice := mkSlice 0 0 0.

Definition contents (h : heap) (s : slice) : list ascii :=
  take (len s) (drop (off s) (h !!! arr s)).

(** [b\[n:\]] *)
Definition advance (n : nat) (s : slice) : slice := mkSlice (arr s) (off s + n) (len s - n).

(** [copy] of [data] to the front of array [a]. *)
Definition overwrite (a : nat) (data : list ascii) (h : heap) : heap :=
  alter (λ old, data ++ drop (length data) old) a h.

(** A channel of capacity [channelBufLen] with the [StreamIOReader] that
    receives from it; [buffer] is the reader's field. *)
Record Pipe := mkPipe {
  mem : heap;
  chunks : list slice;
  isClosed : bool;
  buffer : slice;
}.

Definition send (b : slice) (p : Pipe) : outcome Pipe :=
  if isClosed p then Panics
  else if decide (length (chunks p) < channelBufLen)
  then Goes (mkPipe (mem p) (chunks p ++ [b]) false (buffer p)) else Blocks.

Definition close (p : Pipe) : outcome Pipe :=
  if isClosed p then Panics else Goes (mkPipe (mem p) (chunks p) true (buffer p)).

(** [StreamIOReader.Read] into a buffer of [n] bytes: the bytes copied and
    whether the error is [io.EOF]. *)
Definition Read (n : nat) (p : Pipe) : outcome (list ascii * bool * Pipe) :=
  let finish b ok q :=
    let data := take n (contents (mem p) b) in
    let buffer' := if decide (length data < len b) then advance (length data) b else nil_slice in
    Goes (data, negb ok, mkPipe (mem p) q (isClosed p) buffer') in
  if decide (0 < len (buffer p)) then finish (buffer p) true (chunks p)
  else match chunks p with
       | b :: q => finish b true q
       | [] => if isClosed p then finish nil_slice false [] else Blocks
       end.

(** [StreamIOReader.WriteTo], given how each [w.Write] ends: how many bytes it
    wrote and its error; one that is not listed writes everything.  Returns the
    bytes written and the error. *)
Fixpoint WriteTo_loop (h : heap) (bs : list slice) (ws : list (nat * option error))
    : list ascii * option error * list slice :=
  match bs with
  | [] => ([], None, [])
  | b :: bs =>
      match ws with
      | (nb, Some e) :: _ => (take nb (contents h b), Some e, bs)
      | (nb, None) :: ws =>
          let '(l, e, r) := WriteTo_loop h bs ws in (take nb (contents h b) ++ l, e, r)
      | [] => let '(l, e, r) := WriteTo_loop h bs [] in (contents h b ++ l, e, r)
      end
  end.

(** On a closed channel; on an open one [WriteTo] waits for more. *)
Definition WriteTo (ws : list (nat * option error)) (p : Pipe)
    : outcome (list ascii * option error * Pipe) :=
  let '(l, e, r) := WriteTo_loop (mem p) (chunks p) ws in
  if isClosed p || bool_decide (is_Some e)
  then Goes (l, e, mkPipe (mem p) r (isClosed p) (buffer p)) else Blocks.

(** [StreamIOWriter.Write]: the slice itself goes into the channel. *)
Definition Write (s : slice) (p : Pipe) : outcome (nat * Pipe) :=
  p' ← send s p; mret (len s, p').

(** [StreamIOWriter.Close] *)
Definition Close (p : Pipe) : outcome Pipe := close p.

(** [StreamIOWriter.ReadFrom]: the array [buf], what is left of the results of
    [r.Read], and the count [n]. *)
Record Copying := mkCopying {
  buf : nat;
  source : list (list ascii * option ioerr);
  count : Z;
}.

Inductive writer :=
| Running (c : Copying)
| Returned (n : Z) (err : option error).

(** [buf := make(\[\]byte, readFromBufLen)] *)
Definition ReadFrom_start (src : list (list ascii * option ioerr)) (p : Pipe) : writer * Pipe :=
  (Running (mkCopying (length (mem p)) src 0),
   mkPipe (mem p ++ [replicate readFromBufLen zero]) (chunks p) (isClosed p) (buffer p)).

(** One iteration of its loop; the deferred [close] runs when it returns. *)
Definition ReadFrom_iter (c : Copying) (p : Pipe) : outcome (writer * Pipe) :=
  match source c with
  | [] => Blocks
  | (data, err) :: src =>
      let nr := length data in
      let h := overwrite (buf c) data (mem p) in
      p1 ← (if decide (0 < nr) then
              let chunk := mkSlice (length h) 0 nr in
              send chunk (mkPipe (h ++ [take nr (h !!! buf c)]) (chunks p) (isClosed p) (buffer p))
            else Goes (mkPipe h (chunks p) (isClosed p) (buffer p)));
      let n := int64 (count c + Z.of_nat nr) in
      match err with
      | None => mret (Running (mkCopying (buf c) src n), p1)
      | Some EOF => p2 ← close p1; mret (Returned n None, p2)
      | Some (ReadErr e) => p2 ← close p1; mret (Returned n (Some e), p2)
      end
  end.

(** ** Writer and reader side by side *)

Record Sys := mkSys { pipe : Pipe; wr : writer; taken : list ascii; eof : bool }.

Inductive step : Sys → Sys → Prop :=
| step_write c s w p :
    wr s = Running c → ReadFrom_iter c (pipe s) = Goes (w, p) →
    step s (mkSys p w (taken s) (eof s))
| step_read n s data e p :
    0 < n → eof s = false → Read n (pipe s) = Goes (data, e, p) →
    step s (mkSys p (wr s) (taken s ++ data) e).

Definition start (h : heap) (src : list (list ascii * option ioerr)) : Sys :=
  let '(w, p) := ReadFrom_start src (mkPipe h [] false nil_slice) in mkSys p w [] false.

(** What the source delivers up to its first error, and how that is reported. *)
Fixpoint source_bytes (src : list (list ascii * option ioerr)) : list ascii :=
  match src with
  | [] => []
  | (d, Some _) :: _ => d
  | (d, None) :: src => d ++ source_bytes src
  end.

Fixpoint source_err (src : list (list ascii * option ioerr)) : option (option error) :=
  match src with
  | [] => None
  | (_, Some EOF) :: _ => Some None
  | (_, Some (ReadErr e)) :: _ => Some (Some e)
  | (_, None) :: src => source_err src
  end.

(** ** Invariant *)

Definition pending (p : Pipe) : list ascii :=
  contents (mem p) (buffer p) ++ concat (contents (mem p) <$> chunks p).

Definition unread (w : writer) : list ascii :=
  match w with Running c => source_bytes (source c) | Returned _ _ => [] end.

(** A slice that lies in an array other than [b]. *)
Definition valid (h : heap) (b : nat) (s : slice) : Prop :=
  arr s < length h ∧ arr s ≠ b ∧ off s + len s = length (h !!! arr s).

Definition valid_or_empty (h : heap) (b : nat) (s : slice) : Prop :=
  len s = 0 ∨ valid h b s.

Lemma contents_length h b s : valid_or_empty h b s → length (contents h s) = len s.
Proof.
  rewrite /contents /valid_or_empty /valid => Hv. rewrite length_take length_drop. lia.
Qed.

Lemma contents_app h b s x : valid h b s → contents (h ++ [x]) s = contents h s.
Proof.
  intros (Ha & _ & _). rewrite /contents. do 2 f_equal. by apply lookup_total_app_l.
Qed.

Lemma contents_overwrite h b s d : arr s ≠ b → contents (overwrite b d h) s = contents h s.
Proof.
  intros Hb. rewrite /contents /overwrite. do 2 f_equal. by apply list_lookup_total_alter_ne.
Qed.

Lemma contents_empty h s : len s = 0 → contents h s = [].
Proof. rewrite /contents => ->. by rewrite take_0. Qed.

Lemma contents_advance h n s :
  contents h s = take n (contents h s) ++ contents h (advance n s).
Proof.
  rewrite /contents /advance /= -{1}(take_drop n (take _ _)). f_equal.
  by rewrite skipn_firstn_comm drop_drop.
Qed.

(** The heap changes at [b] only, and grows. *)
Definition evolves (b : nat) (h h' : heap) : Prop :=
  ∀ s, valid h b s → valid h' b s ∧ contents h' s = contents h s.

Lemma evolves_overwrite b d h : evolves b h (overwrite b d h).
Proof.
  intros s (Ha & Hb & Hl). split; [|by apply contents_overwrite]. split; [|split; [done|]].
  - by rewrite /overwrite length_alter.
  - by rewrite /overwrite list_lookup_total_alter_ne.
Qed.

Lemma evolves_app b h x : evolves b h (h ++ [x]).
Proof.
  intros s Hv. split; [|by eapply contents_app]. destruct Hv as (Ha & Hb & Hl).
  split; [|split; [done|]].
  - rewrite length_app. lia.
  - by rewrite lookup_total_app_l.
Qed.

Lemma evolves_trans b h1 h2 h3 : evolves b h1 h2 → evolves b h2 h3 → evolves b h1 h3.
Proof. intros H12 H23 s [Hv <-]%H12. by apply H23. Qed.

Lemma evolves_pending b h h' q cl bf :
  evolves b h h' → valid_or_empty h b bf → Forall (valid h b) q →
  valid_or_empty h' b bf ∧ Forall (valid h' b) q ∧
  pending (mkPipe h' q cl bf) = pending (mkPipe h q cl bf).
Proof.
  intros He Hbf Hq. split; [|split].
  - destruct Hbf as [?|[? _]%He]; [by left|by right].
  - eapply list.Forall_impl; [done|]. by intros s [? _]%He.
  - rewrite /pending /=. f_equal.
    + destruct Hbf as [?|[_ ?]%He]; [by rewrite !contents_empty|done].
    + f_equal. apply list_fmap_ext. intros i s Hs. apply He.
      by eapply Forall_lookup_1.
Qed.

Section fifo.
Context (h0 : heap) (src : list (list ascii * option ioerr)).

(** The array [buf] of [ReadFrom]. *)
Local Definition b0 : nat := length h0.

Definition writer_ok (p : Pipe) (w : writer) : Prop :=
  match w with
  | Running c =>
      buf c = b0 ∧ isClosed p = false ∧ source_err (source c) = source_err src ∧
      ∃ k, count c = int64 k ∧
        (k + Z.of_nat (length (source_bytes (source c))) = Z.of_nat (length (source_bytes src)))%Z
  | Returned n e =>
      isClosed p = true ∧ source_err src = Some e ∧ n = int64 (Z.of_nat (length (source_bytes src)))
  end.

Record inv (s : Sys) : Prop := {
  i_eq : taken s ++ pending (pipe s) ++ unread (wr s) = source_bytes src;
  i_mem : b0 < length (mem (pipe s));
  i_buffer : valid_or_empty (mem (pipe s)) b0 (buffer (pipe s));
  i_chunks : Forall (valid (mem (pipe s)) b0) (chunks (pipe s));
  i_nonempty : Forall (λ c, 0 < len c) (chunks (pipe s));
  i_writer : writer_ok (pipe s) (wr s);
  i_eof : eof s = true → pending (pipe s) = [] ∧ isClosed (pipe s) = true;
}.

Definition measure (s : Sys) : nat :=
  length (pending (pipe s)) + length (unread (wr s)) +
  match wr s with Running c => length (source c) | Returned _ _ => 0 end +
  (if eof s then 0 else 1).

Lemma start_inv : inv (start h0 src).
Proof.
  split; simpl; rewrite ?app_nil_r //.
  - rewrite length_app /= /b0. lia.
  - by left.
  - repeat split. exists 0%Z. done.
Qed.

(** What the iteration puts into the channel. *)
Lemma sent_chunk data q cl bf h p1 :
  b0 < length h → valid_or_empty h b0 bf → Forall (valid h b0) q → Forall (λ c, 0 < len c) q →
  (let h' := overwrite b0 data h in
   if decide (0 < length data) then
     send (mkSlice (length h') 0 (length data))
       (mkPipe (h' ++ [take (length data) (h' !!! b0)]) q cl bf)
   else Goes (mkPipe h' q cl bf)) = Goes p1 →
  b0 < length (mem p1) ∧ valid_or_empty (mem p1) b0 (buffer p1) ∧
  Forall (valid (mem p1) b0) (chunks p1) ∧ Forall (λ c, 0 < len c) (chunks p1) ∧
  isClosed p1 = cl ∧ pending p1 = pending (mkPipe h q cl bf) ++ data.
Proof.
  intros Hb Hbf Hq Hne. cbv zeta.
  assert (take (length data) (overwrite b0 data h !!! b0) = data) as ->.
  { rewrite /overwrite list_lookup_total_alter_eq //. by rewrite take_app_length. }
  destruct (decide _) as [Hd|Hd].
  - set (h' := overwrite b0 data h). rewrite /send /=. destruct cl; [done|]. case_decide; [|done].
    intros [= <-]. simpl.
    destruct (evolves_pending b0 h (h' ++ [data]) q false bf) as (Hbf' & Hq' & Hp); [|done..|].
    { eapply evolves_trans; [apply evolves_overwrite|apply evolves_app]. }
    assert (length h' = length h) as Hlen by by rewrite /h' /overwrite length_alter.
    assert (contents (h' ++ [data]) (mkSlice (length h') 0 (length data)) = data) as Hc.
    { rewrite /contents /= drop_0 lookup_total_app_r // Nat.sub_diag /=. by rewrite firstn_all. }
    split_and!; [rewrite length_app; lia|done| | |done|].
    + apply list.Forall_app. split; [done|]. apply Forall_singleton.
      split_and!; simpl; [rewrite length_app /=; lia|lia|].
      by rewrite lookup_total_app_r // Nat.sub_diag.
    + apply list.Forall_app. split; [done|]. by apply Forall_singleton.
    + rewrite -Hp /pending /= fmap_app concat_app /= Hc app_nil_r. by rewrite app_assoc.
  - intros [= <-]. simpl. assert (data = []) as -> by (apply nil_length_inv; lia).
    destruct (evolves_pending b0 h (overwrite b0 [] h) q cl bf) as (Hbf' & Hq' & Hp);
      [apply evolves_overwrite|done..|].
    split_and!; try done; [by rewrite /overwrite length_alter|by rewrite app_nil_r].
Qed.

Lemma int64_sum k n : int64 (int64 k + n) = int64 (k + n).
Proof. apply int64_cong. by rewrite Zplus_mod int64_mod -Zplus_mod. Qed.

Lemma step_write_inv c s w p :
  wr s = Running c → ReadFrom_iter c (pipe s) = Goes (w, p) → inv s →
  inv (mkSys p w (taken s) (eof s)) ∧ measure (mkSys p w (taken s) (eof s)) < measure s.
Proof.
  intros Hw Hit [Heq Hm Hbf Hq Hne Hwr He]. rewrite /measure Hw /=. rewrite Hw /= in Heq Hwr.
  destruct Hwr as (Hb & Hcl & Hse & k & Hk & Hlen). rewrite /ReadFrom_iter in Hit.
  destruct (source c) as [|[data err] rest] eqn:Hsrc; [done|].
  rewrite Hb in Hit. apply outcome_bind_Goes in Hit as (p1 & Hp1 & Hit).
  destruct (sent_chunk data (chunks (pipe s)) (isClosed (pipe s)) (buffer (pipe s))
    (mem (pipe s)) p1) as (Hm1 & Hbf1 & Hq1 & Hne1 & Hcl1 & Hpend); [done..|]. clear Hp1.
  assert (pending (pipe s) = pending (mkPipe (mem (pipe s)) (chunks (pipe s)) (isClosed (pipe s))
    (buffer (pipe s)))) as Hp0 by done. rewrite -Hp0 in Hpend. clear Hp0.
  assert (eof s = false) as Heof.
  { destruct (eof s); [|done]. destruct He as [_ ?]; congruence. }
  set (n := int64 (count c + Z.of_nat (length data))) in Hit.
  assert ((err = None ∧ w = Running (mkCopying (buf c) rest n) ∧ p = p1) ∨
    ∃ e o, err = Some e ∧ source_err src = Some o ∧ w = Returned n o ∧
      p = mkPipe (mem p1) (chunks p1) true (buffer p1)) as Hcase.
  { rewrite /close Hcl1 Hcl in Hit. destruct err as [[|e]|]; simpl in Hse; injection Hit as <- <-.
    - right. by exists EOF, None.
    - right. by exists (ReadErr e), (Some e).
    - left. by rewrite Hb. }
  clear Hit. assert (n = int64 (k + Z.of_nat (length data))) as Hn by by rewrite /n Hk int64_sum.
  destruct Hcase as [(-> & -> & ->)|(e & o & -> & Ho & -> & ->)]; cbn [source_bytes unread] in *.
  - rewrite length_app Nat2Z.inj_add in Hlen. split.
    + split; simpl; try done.
      * by rewrite Hpend -app_assoc.
      * split_and!; [done|congruence|done|]. exists (k + Z.of_nat (length data))%Z. split; [done|lia].
      * by rewrite Heof.
    + rewrite /= Hpend !length_app. lia.
  - assert (pending (mkPipe (mem p1) (chunks p1) true (buffer p1)) = pending p1) as -> by done.
    split.
    + split; simpl; try done.
      * rewrite app_nil_r. change (pending (mkPipe _ _ _ _)) with (pending p1). by rewrite Hpend.
      * split_and!; [done|done|]. rewrite Hn. by f_equal.
      * by rewrite Heof.
    + rewrite /= Hpend length_app. lia.
Qed.

Lemma step_read_inv n s data e p :
  0 < n → eof s = false → Read n (pipe s) = Goes (data, e, p) → inv s →
  inv (mkSys p (wr s) (taken s ++ data) e) ∧
  measure (mkSys p (wr s) (taken s ++ data) e) < measure s.
Proof.
  intros Hn Heof Hr [Heq Hm Hbf Hq Hne Hwr He]. rewrite /Read in Hr.
  assert (∀ b q, (0 < len b) → valid (mem (pipe s)) b0 b →
    pending (pipe s) = contents (mem (pipe s)) b ++ concat (contents (mem (pipe s)) <$> q) →
    Forall (valid (mem (pipe s)) b0) q → Forall (λ c, 0 < len c) q →
    let data := take n (contents (mem (pipe s)) b) in
    let s' := mkSys (mkPipe (mem (pipe s)) q (isClosed (pipe s))
      (if decide (length data < len b) then advance (length data) b else nil_slice)) (wr s)
      (taken s ++ data) false in
    inv s' ∧ measure s' < measure s) as Hmain.
  { clear Hr data p. intros b q Hb Hv Hpend Hq' Hne' data.
    pose proof (contents_length _ _ _ (or_intror Hv)) as Hlen.
    assert (0 < length data) as Hd by (rewrite /data length_take; lia).
    assert (contents (mem (pipe s)) b = data ++ contents (mem (pipe s))
      (if decide (length data < len b) then advance (length data) b else nil_slice)) as Hsplit.
    { case_decide as Hlt.
      - rewrite {1}(contents_advance _ (length data) b). f_equal.
        rewrite /data length_take in Hlt |- *. by rewrite Nat.min_l //; lia.
      - rewrite (contents_empty _ nil_slice) // app_nil_r /data take_ge //. rewrite /data length_take in Hlt. lia. }
    set (buffer' := if decide (length data < len b) then advance (length data) b else nil_slice) in *.
    cbv zeta. assert (valid_or_empty (mem (pipe s)) b0 buffer') as Hbf'.
    { rewrite /buffer'. case_decide as Hlt; [|by left]. right. destruct Hv as (? & ? & ?).
      rewrite /advance. split_and!; simpl; [done|done|lia]. }
    clearbody buffer'.
    assert (pending (pipe s) = data ++ pending (mkPipe (mem (pipe s)) q (isClosed (pipe s)) buffer')) as Hp.
    { by rewrite Hpend Hsplit /pending /= app_assoc. }
    split; [split; simpl; try done|].
    - rewrite -Heq Hp. by rewrite -!app_assoc.
    - rewrite /measure Heof Hp /= length_app. lia. }
  destruct (decide (0 < len (buffer (pipe s)))) as [Hb|Hb].
  - injection Hr as <- <- <-. apply Hmain; try done. destruct Hbf; [lia|done].
  - destruct (chunks (pipe s)) as [|b q] eqn:Hch.
    + destruct (isClosed (pipe s)) eqn:Hcl; [|done].
      assert (pending (pipe s) = []) as Hp.
      { rewrite /pending Hch contents_empty //. lia. }
      rewrite (contents_empty _ nil_slice) // take_nil /= in Hr. injection Hr as <- <- <-.
      split; [split; simpl; rewrite ?app_nil_r //|].
      * by rewrite -Heq Hp.
      * by left.
      * rewrite /writer_ok /= in Hwr |- *. rewrite Hcl in Hwr. done.
      * rewrite /measure Heof Hp /=. lia.
    + injection Hr as <- <- <-. apply Forall_cons_1 in Hq as [Hv Hq], Hne as [Hlb Hne].
      apply Hmain; try done. rewrite /pending Hch /= contents_empty //. lia.
Qed.

Lemma pipe_step_inv s s' : step s s' → inv s → inv s' ∧ measure s' < measure s.
Proof.
  intros [c s0 w p Hw Hit|n s0 data e p Hn He Hr] Hi; [by apply (step_write_inv c)|by apply (step_read_inv n)].
Qed.

Lemma nsteps_inv k s : nsteps step k (start h0 src) s → inv s ∧ k + measure s ≤ measure (start h0 src).
Proof.
  revert s. induction k as [|k IH]; intros s Hst.
  - inv Hst. split; [apply start_inv|lia].
  - apply nsteps_inv_r in Hst as (s1 & [Hi Hm]%IH & [Hi' Hm']%pipe_step_inv); [|done]. split; [done|lia].
Qed.

(** Nobody waits forever: the reader can read, or the writer can go on. *)
Lemma progress s : inv s → is_Some (source_err src) → eof s = false → ∃ s', step s s'.
Proof.
  intros [Heq Hm Hbf Hq Hne Hwr He] Hsrc Heof.
  destruct (Read 1 (pipe s)) as [[[data e] p]| |] eqn:Hr.
  { eexists. by eapply (step_read 1); [lia|..]. }
  2: { rewrite /Read in Hr. by split_matches. }
  rewrite /Read in Hr. case_decide; [done|].
  destruct (chunks (pipe s)) as [|] eqn:Hch; [|done].
  destruct (isClosed (pipe s)) eqn:Hcl; [done|].
  destruct (wr s) as [c|n o] eqn:Hw; [|by destruct Hwr; congruence].
  destruct Hwr as (Hb & _ & Hse & _). rewrite -Hse in Hsrc.
  assert (∃ w p, ReadFrom_iter c (pipe s) = Goes (w, p)) as (w & p & Hit); [|eexists; by eapply step_write].
  rewrite /ReadFrom_iter. destruct (source c) as [|[d err] rest]; [by destruct Hsrc|].
  rewrite /send /close Hch Hcl /=.
  destruct (decide _), err as [[|]|]; rewrite /= ?Hcl; do 2 eexists; reflexivity.
Qed.

(** C29: The channel is a pipe.  For every source that ends (with [io.EOF] or
    another error) and every interleaving of [ReadFrom] with reads into
    buffers of any positive sizes: the bytes read so far are a prefix of the
    bytes of the source, although [ReadFrom] reuses its buffer; no run is longer
    than the bytes and results of the source plus one; and a run that cannot go
    on has read everything, up to [io.EOF], with [ReadFrom] returning the number
    of bytes (as an int64) and the error of the source, if it is not [io.EOF]. *)
Theorem ReadFrom_Read_fifo k s :
  is_Some (source_err src) → nsteps step k (start h0 src) s →
  taken s `prefix_of` source_bytes src ∧
  k ≤ length (source_bytes src) + length src + 1 ∧
  ((∀ s', ¬ step s s') →
    eof s = true ∧ taken s = source_bytes src ∧
    ∃ e, source_err src = Some e ∧ wr s = Returned (int64 (Z.of_nat (length (source_bytes src)))) e).
Proof.
  intros Hsrc [Hi Hk]%nsteps_inv. split; [|split].
  - rewrite -(i_eq _ Hi). by eexists.
  - rewrite {2}/measure /= in Hk. lia.
  - intros Hstuck. destruct (eof s) eqn:Heof.
    2: { destruct (progress s Hi Hsrc Heof) as [s' Hs']. by destruct (Hstuck s'). }
    split; [done|]. destruct Hi as [Heq _ _ _ _ Hwr He]. destruct (He Heof) as [Hp Hcl].
    destruct (wr s) as [c|n e]; [by destruct Hwr as (_ & ? & _); congruence|].
    destruct Hwr as (_ & Hse & ->). split; [|by exists e].
    by rewrite -Heq Hp /= app_nil_r.
Qed.

End fifo.

Definition str (s : string) : list ascii := String.list_ascii_of_string s.

(** Two results of the source, the second with an error, read byte by byte. *)
Definition sample_source : list (list ascii * option ioerr) :=
  [(str "ab", None); (str "c", Some EOF)].

(** A run given as a schedule: an iteration of the writer, or a read. *)
Definition run_one (o : option nat) (s : Sys) : option Sys :=
  match o with
  | None =>
      match wr s with
      | Running c => match ReadFrom_iter c (pipe s) with
                     | Goes (w, p) => Some (mkSys p w (taken s) (eof s)) | _ => None end
      | Returned _ _ => None
      end
  | Some n =>
      if decide (0 < n) then
        if eof s then None
        else match Read n (pipe s) with
             | Goes (d, e, p) => Some (mkSys p (wr s) (taken s ++ d) e) | _ => None end
      else None
  end.

Fixpoint run_schedule (os : list (option nat)) (s : Sys) : option Sys :=
  match os with [] => Some s | o :: os => s' ← run_one o s; run_schedule os s' end.

Lemma run_schedule_steps os s s' : run_schedule os s = Some s' → nsteps step (length os) s s'.
Proof.
  revert s. induction os as [|o os IH]; intros s; simpl; [intros [= <-]; constructor|].
  destruct (run_one o s) as [s1|] eqn:H1; [|done]. intros H2%IH. eapply nsteps_l; [|done].
  rewrite /run_one in H1. destruct o as [n|].
  - case_decide; [|done]. destruct (eof s) eqn:He; [done|].
    destruct (Read n (pipe s)) as [[[d e] p]| |] eqn:Hr; simplify_eq. by eapply (step_read n).
  - destruct (wr s) as [c|] eqn:Hw; [|done].
    destruct (ReadFrom_iter c (pipe s)) as [[w p]| |] eqn:Hr; simplify_eq. by eapply step_write.
Qed.

Lemma ReadFrom_Read_fifo_witness :
  ∃ s, run_schedule [None; Some 1; None; Some 1; Some 4; Some 4] (start [] sample_source) = Some s ∧
    eof s = true ∧ taken s = str "abc" ∧ wr s = Returned 3 None.
Proof.
  destruct (run_schedule [None; Some 1; None; Some 1; Some 4; Some 4] (start [] sample_source))
    as [s|] eqn:Hs; [|by vm_compute in Hs].
  exists s. split; [done|].
  destruct (ReadFrom_Read_fifo [] sample_source 6 s) as (_ & _ & H).
  - by eexists.
  - by apply run_schedule_steps in Hs.
  - destruct H as (He & Ht & e & Hse & Hw).
    + vm_compute in Hs. injection Hs as <-. intros s' Hst. inv Hst; done.
    + injection Hse as <-. split; [done|]. by split.
Defined.

(** ** What the other methods do *)

(** [WriteTo] drains the channel only: bytes that an earlier [Read] left in the
    reader's buffer are skipped. *)
Theorem WriteTo_skips_buffer p :
  isClosed p = true →
  ∃ p', WriteTo [] p = Goes (concat (contents (mem p) <$> chunks p), None, p') ∧
    buffer p' = buffer p ∧ chunks p' = [].
Proof.
  intros Hcl. rewrite /WriteTo Hcl. assert (WriteTo_loop (mem p) (chunks p) [] =
    (concat (contents (mem p) <$> chunks p), None, [])) as ->; [|by eexists].
  induction (chunks p) as [|b bs IH]; [done|]. by rewrite /= IH.
Qed.

(** [Write] does not copy: overwriting the slice after [Write] returned changes
    what the reader gets, which the contract of [io.Writer] forbids. *)
Theorem Write_retains_slice a d old p n p' :
  mem p !! a = Some old → length d = length old → chunks p = [] → len (buffer p) = 0 →
  Write (mkSlice a 0 (length old)) p = Goes (n, p') →
  ∃ p'', Read (length old) (mkPipe (overwrite a d (mem p')) (chunks p') (isClosed p') (buffer p'))
         = Goes (d, false, p'').
Proof.
  intros Ha Hd Hch Hb. rewrite /Write /send Hch. destruct (isClosed p) eqn:Hcl; [done|].
  simpl. intros [= <- <-]. rewrite /Read /= decide_False; [lia|].
  eexists. do 3 f_equal. rewrite /contents /= drop_0 /overwrite.
  rewrite list_lookup_total_alter_eq; [by eapply lookup_lt_Some|].
  rewrite (list_lookup_total_correct _ _ _ Ha) Hd drop_all app_nil_r -Hd.
  by rewrite firstn_all firstn_all.
Qed.

End Pipe.

Module Slave.

(** The message [daemon.AttachResp]. *)
Inductive AttachResp :=
| Stdout (b : list ascii)
| Stderr (b : list ascii)
| ExitCode (c : Z).

(** The stream to a master: what was sent on it so far, and whether each
    further [Send] succeeds; one that is not listed does. *)
Record Conn := mkConn { sent : list AttachResp; results : list bool }.

Definition Send (m : AttachResp) (c : Conn) : bool * Conn :=
  match results c with
  | false :: rs => (false, mkConn (sent c) rs)
  | rs => (true, mkConn (sent c ++ [m]) (tail rs))
  end.

(** Where the goroutine of the slave is.  [Exiting ch] receives from the channel
    that the field [exitCode] held when the loop was left. *)
Inductive phase :=
| WaitFirstMaster
| Loop
| Exiting (ch : option nat)
| Ended.

(** [exitCode] is [None] for the channel that [NewStreamIOSlave] makes, which
    nothing ever sends on.  [stdin] is what the channel [in] holds. *)
Record StreamIOSlave := mkSlave {
  PID : Z;
  exitCode : option nat;
  masters : gset nat;
  conns : nat → Conn;
  outNil : bool;
  errNil : bool;
  stdin : list (list ascii);
  inClosed : bool;
  ph : phase;
}.

Definition set_phase (p : phase) (s : StreamIOSlave) : StreamIOSlave :=
  mkSlave (PID s) (exitCode s) (masters s) (conns s) (outNil s) (errNil s) (stdin s) (inClosed s) p.

Definition set_exitCode (ch : nat) (s : StreamIOSlave) : StreamIOSlave :=
  mkSlave (PID s) (Some ch) (masters s) (conns s) (outNil s) (errNil s) (stdin s) (inClosed s) (ph s).

Definition set_PID (pid : Z) (s : StreamIOSlave) : StreamIOSlave :=
  mkSlave pid (exitCode s) (masters s) (conns s) (outNil s) (errNil s) (stdin s) (inClosed s) (ph s).

Definition close_in (s : StreamIOSlave) : StreamIOSlave :=
  mkSlave (PID s) (exitCode s) (masters s) (conns s) (outNil s) (errNil s) (stdin s) true (ph s).

Definition add_master (m : nat) (s : StreamIOSlave) : StreamIOSlave :=
  mkSlave (PID s) (exitCode s) ({[m]} ∪ masters s) (conns s) (outNil s) (errNil s)
    (stdin s) (inClosed s) (ph s).

Definition set_nil (o e : bool) (s : StreamIOSlave) : StreamIOSlave :=
  mkSlave (PID s) (exitCode s) (masters s) (conns s) o e (stdin s) (inClosed s) (ph s).

(** [for master := range masters { ... Send ... delete }]: every master has its
    own stream, so the order in which the map is ranged over does not matter. *)
Definition send_all (msg : AttachResp) (s : StreamIOSlave) : StreamIOSlave :=
  mkSlave (PID s) (exitCode s)
    (filter (λ m, fst (Send msg (conns s m)) = true) (masters s))
    (λ m, if decide (m ∈ masters s) then snd (Send msg (conns s m)) else conns s m)
    (outNil s) (errNil s) (stdin s) (inClosed s) (ph s).

(** The code after the label [exit], up to the receive. *)
Definition leave_loop (s : StreamIOSlave) : StreamIOSlave :=
  set_phase (Exiting (exitCode s)) (close_in s).

(** [if out == nil && err == nil { break exit }] *)
Definition check_exit (s : StreamIOSlave) : StreamIOSlave :=
  if outNil s && errNil s then leave_loop s else s.

(** What the goroutine's [select] can receive, and the assignment of
    [SetIOSlaveExitCode], which another goroutine does. *)
Inductive event :=
| Done
| NewMaster (m : nat)
| OutBytes (b : list ascii)
| OutClosed
| ErrBytes (b : list ascii)
| ErrClosed
| Code (ch : nat) (c : Z)
| SetCode (ch : nat).

(** [None] when the goroutine is not ready for the event; a channel variable
    that is nil is never ready. *)
Definition slave_event (e : event) (s : StreamIOSlave) : option StreamIOSlave :=
  match e, ph s with
  | SetCode ch, _ => Some (set_exitCode ch s)
  | Done, WaitFirstMaster => Some (set_phase Ended (close_in s))
  | NewMaster m, WaitFirstMaster => Some (set_phase Loop (add_master m s))
  | Done, Loop => Some (leave_loop s)
  | NewMaster m, Loop => Some (check_exit (add_master m s))
  | OutBytes b, Loop => if outNil s then None else Some (check_exit (send_all (Stdout b) s))
  | OutClosed, Loop => if outNil s then None else Some (check_exit (set_nil true (errNil s) s))
  | ErrBytes b, Loop => if errNil s then None else Some (check_exit (send_all (Stderr b) s))
  | ErrClosed, Loop => if errNil s then None else Some (check_exit (set_nil (outNil s) true s))
  | Code ch c, Exiting (Some ch') =>
      if decide (ch = ch') then Some (set_phase Ended (send_all (ExitCode (int32 c)) s)) else None
  | _, _ => None
  end.

Fixpoint run_events (es : list event) (s : StreamIOSlave) : option StreamIOSlave :=
  match es with
  | [] => Some s
  | e :: es => s' ← slave_event e s; run_events es s'
  end.

(** A master that [Attach] has handed over sends input: its loop's [select]
    sends on [in], which panics when it is closed. *)
Definition attach_stdin (b : list ascii) (s : StreamIOSlave) : outcome StreamIOSlave :=
  if inClosed s then Panics
  else if decide (length (stdin s) < channelBufLen)
  then Goes (mkSlave (PID s) (exitCode s) (masters s) (conns s) (outNil s) (errNil s)
               (stdin s ++ [b]) (inClosed s) (ph s))
  else Blocks.

(** ** The table of slaves *)

Record World := mkWorld { availableSlaves : gmap Z nat; slaves : list StreamIOSlave }.

Definition SetIOSlave (pid : Z) (id : nat) (w : World) : World :=
  mkWorld (<[pid := id]> (availableSlaves w)) (alter (set_PID pid) id (slaves w)).

Definition DeleteIOSlave (pid : Z) (w : World) : World :=
  mkWorld (delete pid (availableSlaves w)) (slaves w).

Definition GetIOSlave (pid : Z) (w : World) : option nat := availableSlaves w !! pid.

Definition SetIOSlavePID (oldId pid : Z) (w : World) : World :=
  match GetIOSlave oldId w with
  | None => w
  | Some id => SetIOSlave pid id (DeleteIOSlave oldId w)
  end.

Definition SetIOSlaveExitCode (oldId : Z) (ch : nat) (w : World) : World :=
  match GetIOSlave oldId w with
  | None => w
  | Some id => mkWorld (availableSlaves w) (alter (set_exitCode ch) id (slaves w))
  end.

Definition new_slave (pid : Z) (streams : nat → Conn) (waitFirstMaster : bool) : StreamIOSlave :=
  mkSlave pid None ∅ streams false false [] false (if waitFirstMaster then WaitFirstMaster else Loop).

Definition NewStreamIOSlave (pid : Z) (streams : nat → Conn) (waitFirstMaster : bool) (w : World)
    : nat * World :=
  let id := length (slaves w) in
  (id, SetIOSlave pid id (mkWorld (availableSlaves w)
         (slaves w ++ [new_slave pid streams waitFirstMaster]))).

(** A step of the goroutine of slave [id]; when it returns, the deferred
    [DeleteIOSlave(&slave.PID)] uses the PID of that moment. *)
Definition slave_runs (id : nat) (e : event) (w : World) : option World :=
  s ← slaves w !! id;
  s' ← slave_event e s;
  let w' := mkWorld (availableSlaves w) (<[id := s']> (slaves w)) in
  Some (match ph s' with Ended => DeleteIOSlave (PID s') w' | _ => w' end).

(** ** [SetupIO] (internal/cedana/process/generic_adapters.go)

    The streams it plugs into the options: those of the daemon, a slave, a log
    file, or none. *)
Inductive IO := IOStd | IOSlave (id : nat) | IOLog (path : string) | IONone.

Record SetupReq := mkSetupReq {
  Serverless : bool;
  Attachable : bool;
  WaitFirst : bool;
  LogFile : string;
}.

(** [next] returns the channel of the exit code or an error, and the PID it left
    in the response. *)
Definition SetupIO (id : Z) (streams : nat → Conn) (openLog chownLog : option error)
    (next : IO → World → gores nat * Z * World) (req : SetupReq) (w : World)
    : gores nat * Z * World :=
  if Serverless req then next IOStd w
  else if Attachable req then
    let '(sid, w1) := NewStreamIOSlave id streams (WaitFirst req) w in
    match next (IOSlave sid) w1 with
    | (Ok ch, pid, w2) => (Ok ch, pid, SetIOSlavePID id pid (SetIOSlaveExitCode id ch w2))
    | r => r
    end
  else if bool_decide (LogFile req ≠ "") then
    match openLog with
    | Some e => (Err (Status Internal ("failed to open log file: " +:+ Error e)), 0%Z, w)
    | None =>
        match chownLog with
        | Some e => (Err (Status Internal ("failed to change log file owner: " +:+ Error e)), 0%Z, w)
        | None => next (IOLog (LogFile req)) w
        end
    end
  else next IONone w.

(** ** What a master gets *)

(** The message that an event makes the slave send to its masters. *)
Definition message (e : event) : option AttachResp :=
  match e with
  | OutBytes b => Some (Stdout b)
  | ErrBytes b => Some (Stderr b)
  | Code _ c => Some (ExitCode (int32 c))
  | _ => None
  end.

(** Master [m] is attached and its stream works. *)
Definition connected (m : nat) (s : StreamIOSlave) : Prop :=
  m ∈ masters s ∧ results (conns s m) = [].

Lemma send_all_connected m msg s :
  connected m s →
  connected m (send_all msg s) ∧ sent (conns (send_all msg s) m) = sent (conns s m) ++ [msg].
Proof.
  intros [Hm Hr]. rewrite /connected /send_all /=.
  assert (Send msg (conns s m) = (true, mkConn (sent (conns s m) ++ [msg]) [])) as HS.
  { by rewrite /Send Hr. }
  rewrite decide_True //. split; [split|].
  - apply elem_of_filter. by rewrite HS.
  - by rewrite HS.
  - by rewrite HS.
Qed.

(** Leaving the loop does not touch the masters. *)
Lemma check_exit_same s :
  masters (check_exit s) = masters s ∧ conns (check_exit s) = conns s ∧
  exitCode (check_exit s) = exitCode s.
Proof. rewrite /check_exit. by case_match. Qed.

Lemma slave_event_connected m e s s' :
  slave_event e s = Some s' → connected m s →
  connected m s' ∧ sent (conns s' m) = sent (conns s m) ++ option_list (message e).
Proof.
  intros He Hc. pose proof (check_exit_same) as Hce.
  destruct e as [|m'|b| |b| |ch c|ch]; cbn in He; destruct (ph s) as [| |o|]; simplify_eq/=;
    rewrite ?app_nil_r; try done.
  - split; [|done]. destruct Hc as [Hm Hr]. split; [|done]. simpl. set_solver.
  - destruct Hc as [? ?]. rewrite /connected. destruct (Hce (add_master m' s)) as (-> & -> & _).
    simpl. split; [split|]; [set_solver|done|done].
  - destruct (outNil s); simplify_eq. rewrite /connected. destruct (Hce (send_all (Stdout b) s)) as (-> & -> & _).
    by apply send_all_connected.
  - destruct (outNil s); simplify_eq. rewrite /connected.
    by destruct (Hce (set_nil true (errNil s) s)) as (-> & -> & _).
  - destruct (errNil s); simplify_eq. rewrite /connected. destruct (Hce (send_all (Stderr b) s)) as (-> & -> & _).
    by apply send_all_connected.
  - destruct (errNil s); simplify_eq. rewrite /connected.
    by destruct (Hce (set_nil (outNil s) true s)) as (-> & -> & _).
  - destruct o as [ch'|]; [|done]. case_decide; simplify_eq.
    by apply (send_all_connected m (ExitCode (int32 c))).
Qed.

Lemma run_events_connected m es s s' :
  run_events es s = Some s' → connected m s →
  connected m s' ∧ sent (conns s' m) = sent (conns s m) ++ omap message es.
Proof.
  revert s. induction es as [|e es IH]; intros s; simpl; [intros [= ->]; by rewrite app_nil_r|].
  destruct (slave_event e s) as [s1|] eqn:He; [|done]. simpl. intros Hr Hc.
  destruct (slave_event_connected m e s s1 He Hc) as [Hc1 Hs1].
  destruct (IH s1 Hr Hc1) as [Hc' Hs']. split; [done|].
  rewrite Hs' Hs1. destruct (message e); simpl; by rewrite -?app_assoc ?app_nil_r.
Qed.

(** ** When the goroutine ends *)

(** The loop keeps the channel of the exit code it was given last. *)
Lemma slave_event_exitCode e s s' :
  slave_event e s = Some s' →
  exitCode s' = match e with SetCode ch => Some ch | _ => exitCode s end.
Proof.
  intros He. pose proof check_exit_same as Hce.
  destruct e; cbn in He; destruct (ph s) as [| |o|]; simplify_eq/=; try done;
    repeat (case_match; simplify_eq/=); try done;
    match goal with |- exitCode (check_exit ?t) = _ => by destruct (Hce t) as (_ & _ & ->) end.
Qed.

(** Nothing but a value on the channel it waits for ends an exiting slave. *)
Lemma exiting_waits e s s' o :
  slave_event e s = Some s' → ph s = Exiting o →
  ph s' = Exiting o ∨ ∃ ch c, o = Some ch ∧ e = Code ch c.
Proof.
  intros He Hp. destruct e; cbn in He; rewrite ?Hp in He; simplify_eq/=; [|by left].
  destruct o as [ch'|]; [|done]. case_decide; simplify_eq. right. by do 2 eexists.
Qed.

(** The channel [in] is closed exactly when the loop has been left. *)
Definition left_loop (s : StreamIOSlave) : bool :=
  match ph s with Exiting _ | Ended => true | _ => false end.

Definition settled (s : StreamIOSlave) : Prop :=
  inClosed s = left_loop s ∧ (left_loop s = false → outNil s && errNil s = false).

Lemma check_exit_settled s :
  ph s = Loop → inClosed s = false → settled (check_exit s).
Proof.
  intros Hp Hi. rewrite /check_exit /settled /left_loop. case_match eqn:Hn; simpl; [done|].
  by rewrite Hp Hi Hn.
Qed.

Lemma slave_event_settled e s s' : slave_event e s = Some s' → settled s → settled s'.
Proof.
  intros He [Hi Hn]. rewrite /left_loop in Hi Hn.
  destruct e; cbn in He; destruct (ph s) as [| |o|] eqn:Hp; simplify_eq;
    repeat (case_match; simplify_eq); try (by apply check_exit_settled);
    by rewrite /settled /left_loop /= ?Hp ?Hi.
Qed.

Lemma run_events_app es1 es2 s :
  run_events (es1 ++ es2) s = run_events es1 s ≫= run_events es2.
Proof.
  revert s. induction es1 as [|e es1 IH]; intros s; simpl; [done|].
  destruct (slave_event e s); [apply IH|done].
Qed.

Lemma run_events_inv (P : StreamIOSlave → Prop) es s s' :
  (∀ e s s', e ∈ es → slave_event e s = Some s' → P s → P s') →
  run_events es s = Some s' → P s → P s'.
Proof.
  revert s. induction es as [|e es IH]; intros s HP; simpl; [by intros [= ->]|].
  destruct (slave_event e s) as [s1|] eqn:He; [|done]. simpl. intros Hr Hs.
  eapply IH; [|done|].
  - intros e' t t' Hin. apply HP. set_solver.
  - eapply HP; [|done..]. set_solver.
Qed.

Lemma new_slave_settled pid streams w : settled (new_slave pid streams w).
Proof. by destruct w. Qed.

(** Input that a client sends after the process has closed its outputs
    crashes the daemon.  In every state a slave can reach, the send on its
    input channel by the goroutine serving an attached client panics exactly
    when the slave has left its loop (the outputs are closed, or the daemon
    shuts down), while that goroutine keeps receiving until the client ends. *)
Theorem stdin_after_exit_panics pid streams w es s b :
  run_events es (new_slave pid streams w) = Some s →
  attach_stdin b s = Panics ↔ left_loop s = true.
Proof.
  intros Hr. assert (settled s) as [Hi _].
  { eapply run_events_inv; [|done|apply new_slave_settled]. intros; by eapply slave_event_settled. }
  rewrite /attach_stdin Hi. destruct (left_loop s); [done|]. by case_decide.
Qed.

(** From the loop a slave goes on, or leaves with the current channel. *)
Lemma loop_event e s s' :
  slave_event e s = Some s' → ph s = Loop → ph s' = Loop ∨ ph s' = Exiting (exitCode s).
Proof.
  intros He Hp. assert (∀ t, ph t = Loop → exitCode t = exitCode s →
    ph (check_exit t) = Loop ∨ ph (check_exit t) = Exiting (exitCode s)) as Hce.
  { intros t Ht Hx. rewrite /check_exit. case_match; simpl; [right; by rewrite Hx|by left]. }
  destruct e; cbn in He; rewrite ?Hp in He; simplify_eq/=; try (by left); try (by right);
    repeat (case_match; simplify_eq/=); by apply Hce.
Qed.

Lemma no_more_waiting e s s' :
  slave_event e s = Some s' → ph s ≠ WaitFirstMaster → ph s' ≠ WaitFirstMaster.
Proof.
  intros He Hp. destruct (ph s) as [| |o|] eqn:Hps; [done|..].
  - by destruct (loop_event e s s' He Hps) as [-> | ->].
  - destruct (exiting_waits e s s' o He Hps) as [->|(ch & c & -> & ->)]; [done|].
    cbn in He. rewrite Hps in He. by destruct (decide _); simplify_eq/=.
  - destruct e; cbn in He; rewrite ?Hps in He; simplify_eq/=. by rewrite Hps.
Qed.

(** A slave that is never told the channel of the exit code does not end. *)
Lemma no_code_never_ends es s s' :
  run_events es s = Some s' → (∀ ch, SetCode ch ∉ es) → exitCode s = None →
  ph s = Loop ∨ ph s = Exiting None → ph s' = Loop ∨ ph s' = Exiting None.
Proof.
  intros Hr Hno Hx Hp.
  assert (exitCode s' = None ∧ (ph s' = Loop ∨ ph s' = Exiting None)) as [_ ?]; [|done].
  eapply (run_events_inv (λ t, exitCode t = None ∧ (ph t = Loop ∨ ph t = Exiting None)));
    [|exact Hr|done].
  intros e t t' Hin He [Ht Hph]. rewrite (slave_event_exitCode _ _ _ He). split.
  - destruct e; try done. by destruct (Hno ch).
  - destruct Hph as [Hph|Hph].
    + rewrite -Ht. by apply (loop_event e).
    + right. by destruct (exiting_waits e t t' None He Hph) as [?|(? & ? & ? & _)].
Qed.

(** The exit code must be announced in time.  When a slave that does not
    wait for a first master has left its loop (both outputs are closed, as
    after a process that ends at once, or the daemon shuts down) before
    [SetIOSlaveExitCode] was called, it waits for a channel nobody sends on:
    whatever happens later, the call included, its goroutine never ends, so that
    the wait group of the daemon is never done.  When the channel was set while
    the slave was still in its loop, the exit code on it ends the slave. *)
Theorem exit_code_set_too_late pid streams es s :
  run_events es (new_slave pid streams false) = Some s → left_loop s = true →
  ((∀ ch, SetCode ch ∉ es) →
    ∀ es' s', run_events es' s = Some s' → ph s' = Exiting None) ∧
  (∀ es1 es2 ch s1, es = es1 ++ SetCode ch :: es2 →
    run_events es1 (new_slave pid streams false) = Some s1 → left_loop s1 = false →
    (∀ ch', SetCode ch' ∉ es2) → (∀ c, Code ch c ∉ es2) →
    ∀ c, ∃ s', slave_event (Code ch c) s = Some s' ∧ ph s' = Ended).
Proof.
  intros Hr Hl. split.
  - intros Hno es' s' Hr'.
    destruct (no_code_never_ends es (new_slave pid streams false) s) as [Hp|Hp]; [done..|by left| |];
      [by rewrite /left_loop Hp in Hl|].
    eapply (run_events_inv (λ t, ph t = Exiting None)); [|exact Hr'|done].
    intros e t t' _ He Ht. by destruct (exiting_waits e t t' None He Ht) as [?|(? & ? & ? & _)].
  - intros es1 es2 ch s1 -> Hr1 Hl1 Hno Hnc c. rewrite run_events_app Hr1 /= in Hr.
    assert (ph s1 = Loop) as Hp1.
    { assert (ph s1 ≠ WaitFirstMaster) as Hnw.
      { eapply (run_events_inv (λ t, ph t ≠ WaitFirstMaster)); [|exact Hr1|done].
        intros e t t' _. apply no_more_waiting. }
      rewrite /left_loop in Hl1. by destruct (ph s1). }
    assert (exitCode s = Some ch ∧ (ph s = Loop ∨ ph s = Exiting (Some ch))) as [_ Hp].
    { eapply (run_events_inv (λ t, exitCode t = Some ch ∧ (ph t = Loop ∨ ph t = Exiting (Some ch))));
        [|exact Hr|by split; [|left]].
      intros e t t' Hin He [Hx Hph]. rewrite (slave_event_exitCode _ _ _ He). split.
      { destruct e as [| | | | | | |ch']; try done. by destruct (Hno ch'). }
      destruct Hph as [Hph|Hph].
      - rewrite -Hx. by apply (loop_event e).
      - right. destruct (exiting_waits e t t' _ He Hph) as [?|(? & c' & [= <-] & ->)]; [done|].
        by destruct (Hnc c'). }
    destruct Hp as [Hp|Hp]; [by rewrite /left_loop Hp in Hl|].
    eexists. cbn. rewrite Hp decide_True //.
Qed.

(** ** The table *)

(** Every entry is a slave that knows the PID it is listed under. *)
Definition table_ok (w : World) : Prop :=
  ∀ pid id, availableSlaves w !! pid = Some id → ∃ s, slaves w !! id = Some s ∧ PID s = pid.

Inductive wstep : World → World → Prop :=
| wstep_new pid streams wait w : wstep w (snd (NewStreamIOSlave pid streams wait w))
| wstep_pid old pid w : wstep w (SetIOSlavePID old pid w)
| wstep_code old ch w : wstep w (SetIOSlaveExitCode old ch w)
| wstep_run id e w w' : slave_runs id e w = Some w' → wstep w w'.

Lemma slave_event_PID e s s' : slave_event e s = Some s' → PID s' = PID s.
Proof.
  intros He. assert (∀ t, PID (check_exit t) = PID t) as Hce by (intros t; rewrite /check_exit; by case_match).
  destruct e; cbn in He; destruct (ph s); simplify_eq/=; try done;
    repeat (case_match; simplify_eq/=); by rewrite ?Hce.
Qed.

Lemma DeleteIOSlave_ok pid w : table_ok w → table_ok (DeleteIOSlave pid w).
Proof. intros Hw p id. simpl. intros [_ Hp]%lookup_delete_Some. by apply Hw. Qed.

Lemma SetIOSlave_ok pid id w :
  table_ok w → is_Some (slaves w !! id) → (∀ p, availableSlaves w !! p = Some id → p = pid) →
  table_ok (SetIOSlave pid id w).
Proof.
  intros Hw [s Hs] Hfresh p i. simpl. intros [[<- <-]|[Hne Hp]]%lookup_insert_Some.
  - exists (set_PID pid s). by rewrite list_lookup_alter_eq Hs.
  - destruct (decide (id = i)) as [->|Hi]; [by destruct Hne; rewrite (Hfresh p)|].
    rewrite list_lookup_alter_ne //. by apply Hw.
Qed.

Lemma slave_update_ok id s s' w :
  table_ok w → slaves w !! id = Some s → PID s' = PID s →
  table_ok (mkWorld (availableSlaves w) (<[id := s']> (slaves w))).
Proof.
  intros Hw Hs Hpid p i Hp. simpl in *. destruct (Hw p i Hp) as (t & Ht & Htp).
  destruct (decide (id = i)) as [->|Hi].
  - exists s'. rewrite list_lookup_insert_eq; [by eapply lookup_lt_Some|]. split; [done|]. congruence.
  - exists t. by rewrite list_lookup_insert_ne.
Qed.

Lemma wstep_ok w w' : wstep w w' → table_ok w → table_ok w'.
Proof.
  intros [pid streams wait w0|old pid w0|old ch w0|id e w0 w1 Hr] Hw.
  - apply SetIOSlave_ok; simpl.
    + intros p i Hp. destruct (Hw p i Hp) as (s & Hs & ?). exists s. simpl. by rewrite (lookup_app_l_Some _ _ _ _ Hs).
    + apply lookup_lt_is_Some. rewrite length_app /=. lia.
    + intros p Hp. destruct (Hw _ _ Hp) as (s & Hs & _). apply lookup_lt_Some in Hs. lia.
  - rewrite /SetIOSlavePID. destruct (GetIOSlave old w0) as [id|] eqn:Hg; [|done].
    destruct (Hw _ _ Hg) as (s & Hs & Hpid). apply SetIOSlave_ok; [by apply DeleteIOSlave_ok|by eexists|].
    intros p. simpl. intros [Hne Hp]%lookup_delete_Some. destruct (Hw _ _ Hp) as (s' & Hs' & Hp'). congruence.
  - rewrite /SetIOSlaveExitCode. destruct (GetIOSlave old w0) as [id|] eqn:Hg; [|done].
    destruct (Hw _ _ Hg) as (s & Hs & Hpid).
    rewrite (list_alter_as_insert _ _ _ _ Hs). by eapply slave_update_ok.
  - rewrite /slave_runs in Hr. destruct (slaves w0 !! id) as [s|] eqn:Hs; [|done]. simpl in Hr.
    destruct (slave_event e s) as [s'|] eqn:He; [|done]. simpl in Hr.
    assert (table_ok (mkWorld (availableSlaves w0) (<[id := s']> (slaves w0)))) as Hok.
    { eapply slave_update_ok; [done..|]. by eapply slave_event_PID. }
    destruct (ph s'); simplify_eq; try done. by apply DeleteIOSlave_ok.
Qed.

(** C36: Whatever order slaves are created, renamed, run and ended in, the table
    lists each slave under the PID it carries, hence under one PID at most, and
    what the deferred deletion of an ending slave removes is its own entry if
    it has one. *)
Theorem slaves_listed_under_their_PID w :
  rtc wstep (mkWorld ∅ []) w →
  table_ok w ∧
  ∀ p p' id, GetIOSlave p w = Some id → GetIOSlave p' w = Some id → p = p'.
Proof.
  intros Hr. assert (table_ok w) as Hok.
  { unshelve eapply (rtc_ind_r table_ok _ _ _ w Hr); [by intros p id|].
    intros w1 w2 _ Hst. by apply wstep_ok. }
  split; [done|]. intros p p' id (s & Hs & Hp)%Hok (s' & Hs' & Hp')%Hok. congruence.
Qed.

(** [SetupIO] for an attachable request.  When the process was started, its
    slave is found under the PID of the response, no longer under the random
    id, and will end with the exit code of the process.  When starting it
    failed, the slave stays listed under the random id, which nobody knows: it
    ends when the daemon shuts down if it waits for a first master, and
    otherwise never. *)
Theorem SetupIO_outcome id streams oe ce next req w (r : gores nat) pid :
  Serverless req = false → Attachable req = true → table_ok w →
  (∀ w1, next (IOSlave (length (slaves w))) w1 = (r, pid, w1)) →
  ∃ w' s, SetupIO id streams oe ce next req w = (r, pid, w') ∧
    slaves w' !! length (slaves w) = Some s ∧
    match r with
    | Ok ch =>
        GetIOSlave pid w' = Some (length (slaves w)) ∧ PID s = pid ∧ exitCode s = Some ch ∧
        (pid ≠ id → GetIOSlave id w' = None)
    | Err _ =>
        GetIOSlave id w' = Some (length (slaves w)) ∧
        if WaitFirst req then ∃ s', slave_event Done s = Some s' ∧ ph s' = Ended
        else ∀ es s', (∀ ch, SetCode ch ∉ es) → run_events es s = Some s' → ph s' ≠ Ended
    end.
Proof.
  intros Hs Ha Hok Hn. rewrite /SetupIO Hs Ha /NewStreamIOSlave.
  set (sid := length (slaves w)). set (sl := new_slave id streams (WaitFirst req)).
  set (w1 := SetIOSlave id sid _). rewrite Hn.
  assert (slaves w1 !! sid = Some sl) as Hsl.
  { rewrite /w1 /= list_lookup_alter_eq lookup_app_r // /sid Nat.sub_diag //. }
  assert (GetIOSlave id w1 = Some sid) as Hg by (by rewrite /w1 /GetIOSlave /= lookup_insert_eq).
  destruct r as [ch|e].
  - rewrite /SetIOSlaveExitCode Hg /SetIOSlavePID.
    change (GetIOSlave id (mkWorld _ _)) with (GetIOSlave id w1). rewrite Hg.
    eexists _, (set_PID pid (set_exitCode ch sl)). split; [done|]. simpl.
    rewrite list_lookup_alter_eq list_lookup_alter_eq Hsl /GetIOSlave /= lookup_insert_eq.
    split_and!; try done. intros Hne. by rewrite lookup_insert_ne // lookup_delete_eq.
  - exists w1, sl. split_and!; try done. rewrite /sl. destruct (WaitFirst req); [by eexists|].
    intros es s' Hno Hr. by destruct (no_code_never_ends es _ s' Hr Hno) as [-> | ->]; [|left|..].
Qed.

(** ** Witnesses *)

Definition fresh_streams : nat → Conn := λ _, mkConn [] [].

(** A client attaches, the process ends, the client types something. *)
Lemma stdin_after_exit_panics_witness :
  ∃ s, run_events [NewMaster 1; OutClosed; ErrClosed] (new_slave 7 fresh_streams true) = Some s ∧
    attach_stdin [] s = Panics.
Proof.
  destruct (run_events [NewMaster 1; OutClosed; ErrClosed] (new_slave 7 fresh_streams true))
    as [s|] eqn:Hs; [|by vm_compute in Hs].
  exists s. split; [done|]. apply (stdin_after_exit_panics _ _ _ _ _ [] Hs).
  by injection Hs as <-.
Defined.

(** A process that ends before [SetIOSlaveExitCode] is called with channel 3. *)
Lemma exit_code_set_too_late_witness :
  ∃ s s', run_events [OutClosed; ErrClosed] (new_slave 7 fresh_streams false) = Some s ∧
    run_events [SetCode 3] s = Some s' ∧ ph s' = Exiting None.
Proof.
  destruct (run_events [OutClosed; ErrClosed] (new_slave 7 fresh_streams false))
    as [s|] eqn:Hs; [|by vm_compute in Hs].
  destruct (exit_code_set_too_late 7 fresh_streams _ s Hs) as [H _]; [by injection Hs as <-|].
  exists s, (set_exitCode 3 s). split; [done|]. split; [done|].
  apply (H ltac:(set_solver) [SetCode 3]). done.
Defined.

Lemma slaves_listed_under_their_PID_witness :
  let w := SetIOSlavePID 99 7 (snd (NewStreamIOSlave 99 fresh_streams false (mkWorld ∅ []))) in
  GetIOSlave 7 w = Some 0 ∧ table_ok w.
Proof.
  cbv zeta. split; [done|].
  apply (slaves_listed_under_their_PID (SetIOSlavePID 99 7 (snd (NewStreamIOSlave 99 fresh_streams false (mkWorld ∅ []))))).
  eapply rtc_l; [apply wstep_new|]. apply rtc_once, wstep_pid.
Defined.

Lemma SetupIO_outcome_witness :
  let next (_ : IO) (w : World) := (@Ok nat 3, 7%Z, w) in
  ∃ w', SetupIO 99 fresh_streams None None next (mkSetupReq false true false "") (mkWorld ∅ []) = (Ok 3, 7%Z, w') ∧
    GetIOSlave 7 w' = Some 0.
Proof.
  cbv zeta.
  destruct (SetupIO_outcome 99 fresh_streams None None (λ _ w, (@Ok nat 3, 7%Z, w))
    (mkSetupReq false true false "") (mkWorld ∅ []) (Ok 3) 7) as (w' & s & H & _ & Hg & _); try done.
  exists w'. by split.
Defined.

End Slave.

Module Master.
Import Slave.

(** What the channels [NewStreamIOMaster] returns carry until they are closed. *)
Record Received := mkReceived {
  out : list (list ascii);
  err : list (list ascii);
  exitCodes : list Z;
  errors : list error;
}.

Definition is_Canceled (e : error) : bool :=
  match e with Status Canceled _ => true | _ => false end.

(** The goroutine that receives from the slave, given what [Recv] returns;
    [None] when the last [Recv] does not return. *)
Fixpoint recv_loop (rs : list (gores AttachResp)) (r : Received) : option Received :=
  match rs with
  | [] => None
  | Err e :: _ =>
      let e' := if is_Canceled e then Errorf "Detached" else e in
      Some (mkReceived (out r) (err r) (exitCodes r ++ [streamDoneExitCode]) (errors r ++ [e']))
  | Ok (Stdout b) :: rs => recv_loop rs (mkReceived (out r ++ [b]) (err r) (exitCodes r) (errors r))
  | Ok (Stderr b) :: rs => recv_loop rs (mkReceived (out r) (err r ++ [b]) (exitCodes r) (errors r))
  | Ok (ExitCode c) :: _ => Some (mkReceived (out r) (err r) (exitCodes r ++ [c]) (errors r))
  end.

(** How [Client.Attach] ends, once both outputs are copied. *)
Inductive attach_end := AttachErr (e : error) | Exits (code : Z).

Definition Attach_end (r : Received) : attach_end :=
  match errors r with
  | e :: _ => AttachErr e
  | [] => Exits (default 0%Z (head (exitCodes r)))
  end.

(** ** A whole session *)

Definition stdout_of (es : list event) : list (list ascii) :=
  omap (λ e, match e with OutBytes b => Some b | _ => None end) es.

Definition stderr_of (es : list event) : list (list ascii) :=
  omap (λ e, match e with ErrBytes b => Some b | _ => None end) es.

Definition first_master (es : list event) : option nat :=
  head (omap (λ e, match e with NewMaster m => Some m | _ => None end) es).

(** After the exit code nothing more is sent. *)
Lemma no_code_before es s s' ch c :
  run_events (es ++ [Code ch c]) s = Some s' → ∀ ch' c', Code ch' c' ∉ es.
Proof.
  intros Hr ch' c' (es1 & es2 & ->)%list_elem_of_split.
  rewrite -app_assoc run_events_app /= in Hr.
  destruct (run_events es1 s) as [s1|]; [|done]. simpl in Hr.
  destruct (ph s1) as [| |[o|]|] eqn:Hp; try done. case_decide; [|done]. simpl in Hr.
  rewrite run_events_app in Hr. destruct (run_events es2 _) as [s2|] eqn:H2; [|done].
  assert (ph s2 = Ended) as Hp2.
  { eapply (run_events_inv (λ t, ph t = Ended)); [|exact H2|done].
    intros e t t' _ He Ht. destruct e; cbn in He; rewrite ?Ht in He; by simplify_eq/=. }
  simpl in Hr. by rewrite Hp2 in Hr.
Qed.

(** A waiting slave takes nothing before its first master. *)
Lemma first_master_gets_all es s s' :
  run_events es s = Some s' → ph s = WaitFirstMaster → Done ∉ es → left_loop s' = true →
  (∀ m, first_master es = Some m → results (conns s m) = []) →
  ∃ m, first_master es = Some m ∧ sent (conns s' m) = sent (conns s m) ++ omap message es.
Proof.
  revert s. induction es as [|e es IH]; intros s; simpl.
  { intros [= <-] Hp _ Hl. by rewrite /left_loop Hp in Hl. }
  destruct (slave_event e s) as [s1|] eqn:He; [|done]. simpl. intros Hr Hp Hd Hl Hrs.
  destruct e as [|m|b| |b| |ch c|ch]; cbn in He; rewrite ?Hp in He; simplify_eq; [set_solver|..].
  - exists m. split; [done|].
    apply (run_events_connected m) in Hr as [_ ->]; [done|]. split; simpl; [set_solver|by apply Hrs].
  - apply (IH (set_exitCode ch s)); try done. set_solver.
Qed.

Lemma recv_loop_messages es r c :
  (∀ ch' c', Code ch' c' ∉ es) →
  recv_loop (Ok <$> (omap message es ++ [ExitCode c])) r =
  Some (mkReceived (out r ++ stdout_of es) (err r ++ stderr_of es) (exitCodes r ++ [c]) (errors r)).
Proof.
  revert r. induction es as [|e es IH]; intros r Hc.
  { by rewrite /= !app_nil_r. }
  assert (∀ ch' c', Code ch' c' ∉ es) as Hc' by set_solver.
  destruct e as [| |b| |b| |ch0 c0|]; csimpl; rewrite ?IH //=; rewrite -?app_assoc //.
  by destruct (Hc ch0 c0); left.
Qed.

(** C30: What a process writes is what the client that runs it sees.  A slave that
    waits for its first master ([run --attach]) and is left to end with the
    exit code: the client attached first gets every byte of both outputs, each
    in order, nothing before it attached being lost, and then exits with the
    exit code of the process, at the width of an int32; other clients may come
    and go and their streams may break.  A stream that is cut short gives the
    error, or "Detached" when it was cancelled. *)
Theorem attached_session pid streams es ch c s :
  (∀ m, first_master es = Some m → streams m = mkConn [] []) → Done ∉ es →
  run_events (es ++ [Code ch c]) (new_slave pid streams true) = Some s →
  ∃ m r, first_master es = Some m ∧
    recv_loop (Ok <$> sent (conns s m)) (mkReceived [] [] [] []) = Some r ∧
    out r = stdout_of es ∧ err r = stderr_of es ∧ Attach_end r = Exits (int32 c).
Proof.
  intros Hst Hd Hr. pose proof (no_code_before _ _ _ _ _ Hr) as Hnc.
  assert (left_loop s = true) as Hl.
  { rewrite run_events_app /= in Hr. destruct (run_events es _) as [t|]; [|done]. simpl in Hr.
    destruct (ph t) as [| |[o|]|]; try done. by destruct (decide _); simplify_eq/=. }
  assert (first_master (es ++ [Code ch c]) = first_master es) as Hf.
  { by rewrite /first_master omap_app app_nil_r. }
  destruct (first_master_gets_all _ _ _ Hr) as (m & Hm & Hs); [done| |done| |]; rewrite ?Hf.
  { by intros [?|?%list_elem_of_singleton]%elem_of_app. }
  { intros m Hm. by rewrite /= Hst. }
  rewrite Hf in Hm. rewrite /= (Hst m Hm) omap_app /= in Hs. exists m. eexists. split_and!.
  - done.
  - rewrite Hs. by apply recv_loop_messages.
  - done.
  - done.
  - done.
Qed.

Definition sample_events : list event :=
  [SetCode 3; NewMaster 1; OutBytes (Pipe.str "hello"); NewMaster 2; ErrBytes (Pipe.str "oops");
   OutClosed; ErrClosed].

(** The second client's stream is broken. *)
Definition sample_streams : nat → Conn := λ m, mkConn [] (if decide (m = 2) then [false] else []).

Lemma attached_session_witness :
  ∃ s r, run_events (sample_events ++ [Code 3 42]) (new_slave 7 sample_streams true) = Some s ∧
    recv_loop (Ok <$> sent (conns s 1)) (mkReceived [] [] [] []) = Some r ∧
    out r = [Pipe.str "hello"] ∧ Attach_end r = Exits 42.
Proof.
  destruct (run_events (sample_events ++ [Code 3 42]) (new_slave 7 sample_streams true))
    as [s|] eqn:Hs; [|by vm_compute in Hs].
  destruct (attached_session 7 sample_streams sample_events 3 42 s) as (m & r & Hm & Hr & Ho & _ & He).
  - by intros m [= <-].
  - intros Hin. by repeat (apply elem_of_cons in Hin as [Hin|Hin]; [done|]); apply elem_of_nil in Hin.
  - done.
  - injection Hm as <-. exists s, r. by split_and!.
Defined.

End Master.
