(* ===== verification/Types.v ===== *)
(** * Handlers, adapters and middleware (pkg/types)

    A [Handler] is the generic request handler of [handler.go]: it gets the
    context, the options by value and shared access to request and response,
    which are part of the application state.  An [Adapter] wraps a handler
    and a middleware is a list of adapters ([adapter.go]).  [Timer] is the
    profiler of [timer.go], and the checks are [check.go]. *)

From S2P Require Import Prelude Profiling.
Import Profiling.

Module Types.

Section handlers.
Context {Opts App Code : Type}.

(** The state a handler runs on: the profiling store, the wall clock (in
    nanoseconds) and the application state. *)
Record World := mkWorld { prof : Store; now : Z; app : App }.

(** A Go function value: its code pointer, which [reflect] can compare and
    whose name [runtime.FuncForPC] returns, and what it does. *)
Record Handler := mkHandler {
  pc : string;
  run : Ctx → Opts → Go World (gores Code);
}.

Definition Adapter : Type := Handler → Handler.
Definition Middleware : Type := list Adapter.

(** [for i := len(adapters) - 1; i >= 0; i-- { h = adapters[i](h) }] *)
Definition adapted (h : Handler) (adapters : Middleware) : Handler :=
  foldl (λ h a, a h) h (reverse adapters).

Definition adaptedWithProfiler (h : Handler) (profiler : Adapter)
    (adapters : Middleware) : Handler :=
  let newMiddleware := foldl (λ acc m, acc ++ [profiler; m]) [] adapters in
  adapted h (newMiddleware ++ [profiler]).

(** Every closure [Timer] returns has the code pointer of the same literal. *)
Definition timedHandler_pc : string := "github.com/cedana/cedana/pkg/types.Timer[...].func1".

Definition set_prof (s : Store) (w : World) : World := mkWorld s (now w) (app w).

Definition Timer (next : Handler) : Handler :=
  mkHandler timedHandler_pc (λ ctx opts w,
    if bool_decide (pc next = timedHandler_pc) then run next ctx opts w
    else
      let start := now w in
      let '(ctx', e, s) := StartTimingComponent ctx (pc next) (prof w) in
      match run next ctx' opts (set_prof s w) with
      | None => None
      | Some (r, w') =>
          Some (r, set_prof (run_end e (int64 (now w' - start)) (prof w')) w')
      end).

(** [Handler.With], with [config.Global.Profiling.Enabled] as an argument. *)
Definition With (profiling_enabled : bool) (h : Handler) (middleware : Middleware) : Handler :=
  if profiling_enabled then adaptedWithProfiler h Timer middleware
  else adapted h middleware.

(** An adapter that plugs in further adapters after itself, as
    [pluginDumpMiddleware] and the storage adapters do with [next.With]. *)
Definition inserting (profiling_enabled : bool) (apc : string)
    (select : Opts → App → Middleware) : Adapter :=
  λ next, mkHandler apc (λ ctx opts w,
    run (With profiling_enabled next (select opts (app w))) ctx opts w).

(** ** Composition *)

Lemma adapted_nil h : adapted h [] = h.
Proof. done. Qed.

Lemma adapted_cons h a l : adapted h (a :: l) = a (adapted h l).
Proof. by rewrite /adapted reverse_cons foldl_app. Qed.

Lemma adapted_app h l1 l2 : adapted h (l1 ++ l2) = adapted (adapted h l2) l1.
Proof.
  induction l1 as [|a l1 IH]; simpl; [done|]. by rewrite !adapted_cons IH.
Qed.

Lemma interleave_acc profiler l acc :
  foldl (λ acc (m : Adapter), acc ++ [profiler; m]) acc l =
  acc ++ foldl (λ acc m, acc ++ [profiler; m]) [] l.
Proof.
  revert acc. induction l as [|m l IH]; intros acc; simpl; [by rewrite app_nil_r|].
  rewrite IH (IH [profiler; m]). by rewrite -app_assoc.
Qed.

Lemma adaptedWithProfiler_nil h p : adaptedWithProfiler h p [] = p h.
Proof. done. Qed.

Lemma adaptedWithProfiler_cons h p a l :
  adaptedWithProfiler h p (a :: l) = p (a (adaptedWithProfiler h p l)).
Proof.
  rewrite /adaptedWithProfiler /= interleave_acc /=. by rewrite !adapted_cons.
Qed.

Lemma adaptedWithProfiler_app h p l1 l2 :
  adaptedWithProfiler (adaptedWithProfiler h p l2) p l1 =
  foldr (λ a h, p (a h)) (p (adaptedWithProfiler h p l2)) l1.
Proof.
  induction l1 as [|a l1 IH]; [done|]. by rewrite adaptedWithProfiler_cons IH.
Qed.

(** A timed handler is not timed again. *)
Lemma Timer_Timer h : run (Timer (Timer h)) = run (Timer h).
Proof. done. Qed.

Lemma Timer_pc h : pc (Timer h) = timedHandler_pc.
Proof. done. Qed.

(** ** Behaviour up to profiling

    Two worlds agree when only their profiling data differ; two handlers
    agree when, from agreeing worlds and whatever profiling context they
    are given, they give the same result and agreeing worlds. *)
Definition weq (w1 w2 : World) : Prop := app w1 = app w2 ∧ now w1 = now w2.

Definition hequiv (h1 h2 : Handler) : Prop :=
  ∀ c1 c2 o w1 w2, weq w1 w2 →
    match run h1 c1 o w1, run h2 c2 o w2 with
    | Some (r1, w1'), Some (r2, w2') => r1 = r2 ∧ weq w1' w2'
    | None, None => True
    | _, _ => False
    end.

#[global] Instance weq_equiv : Equivalence weq.
Proof.
  rewrite /weq. split.
  - by intros w.
  - by intros w1 w2 [-> ->].
  - by intros w1 w2 w3 [-> ->] [-> ->].
Qed.

#[global] Instance hequiv_sym : Symmetric hequiv.
Proof.
  intros h1 h2 H c1 c2 o w1 w2 Hw. symmetry in Hw. specialize (H c2 c1 o w2 w1 Hw).
  destruct (run h1 c2 o w2) as [[??]|], (run h2 c1 o w1) as [[??]|]; try done.
  destruct H as [-> H]. split; [done|by symmetry].
Qed.

#[global] Instance hequiv_trans : Transitive hequiv.
Proof.
  intros h1 h2 h3 H12 H23 c1 c2 o w1 w2 Hw.
  specialize (H12 c1 c1 o w1 w1 (reflexivity _)). specialize (H23 c1 c2 o w1 w2 Hw).
  destruct (run h1 c1 o w1) as [[??]|], (run h2 c1 o w1) as [[??]|],
    (run h3 c2 o w2) as [[??]|]; try done.
  destruct H12 as [-> H12], H23 as [-> H23]. split; [done|by etrans].
Qed.

(** An adapter that ignores profiling. *)
Abbreviation oblivious := (Proper (hequiv ==> hequiv)).

Lemma Timer_transparent h1 h2 : hequiv h1 h2 → hequiv (Timer h1) h2.
Proof.
  intros H c1 c2 o w1 w2 Hw. cbn [Timer run]. case_bool_decide; [by apply H|].
  destruct (StartTimingComponent c1 (pc h1) (prof w1)) as [[c e] s].
  assert (weq (set_prof s w1) w2) as Hw' by done.
  specialize (H c c2 o _ _ Hw').
  destruct (run h1 c o (set_prof s w1)) as [[r1 w1']|], (run h2 c2 o w2) as [[r2 w2']|];
    try done.
Qed.

#[global] Instance Timer_oblivious : oblivious Timer.
Proof. intros h1 h2 H. by apply Timer_transparent; symmetry; apply Timer_transparent; symmetry. Qed.

Lemma adapted_oblivious h1 h2 l :
  Forall oblivious l → hequiv h1 h2 → hequiv (adapted h1 l) (adapted h2 l).
Proof.
  intros Hl Hh. induction Hl as [|a l Ha Hl IH]; [done|].
  rewrite !adapted_cons. by apply Ha.
Qed.

Lemma profiled_transparent h1 h2 l :
  Forall oblivious l → hequiv h1 h2 →
  hequiv (adaptedWithProfiler h1 Timer l) (adapted h2 l).
Proof.
  intros Hl Hh. induction Hl as [|a l Ha Hl IH].
  - rewrite adaptedWithProfiler_nil adapted_nil. by apply Timer_transparent.
  - rewrite adaptedWithProfiler_cons adapted_cons. by apply Timer_transparent, Ha.
Qed.

Lemma inserting_oblivious b apc select :
  (∀ o a, Forall oblivious (select o a)) → oblivious (inserting b apc select).
Proof.
  intros Hs h1 h2 H c1 c2 o w1 w2 Hw. cbn [inserting run].
  rewrite (proj1 Hw : app w1 = app w2). destruct b.
  - eapply (hequiv_trans _ (adapted h2 (select o (app w2)))); [|symmetry|done].
    + by apply profiled_transparent.
    + apply profiled_transparent; [done|]. eapply hequiv_trans; [by symmetry|done].
  - by apply (adapted_oblivious h1 h2).
Qed.

(** ** Properties *)

(** Adapters are applied in the order of the list: the first adapter is
    the outermost one, and building a handler with two consecutive calls of
    [With] is the same as one call with the later middleware in front. *)
Theorem With_order h a (l1 l2 : Middleware) :
  With false h (a :: l1) = a (With false h l1) ∧
  With false (With false h l2) l1 = With false h (l1 ++ l2).
Proof. split; [apply adapted_cons|]. by rewrite /With adapted_app. Qed.

(** Turning profiling on does not change what a request does.  When the
    final handler and the adapters do not look at the profiling data,
    [With] with profiling enabled and disabled give the same result, the
    same error and the same application state, whether or not the caller is
    itself profiled. *)
Theorem profiling_transparent h (l : Middleware) :
  hequiv h h → Forall oblivious l → hequiv (With true h l) (With false h l).
Proof. intros Hh Hl. by apply profiled_transparent. Qed.

(** An adapter that inserts further adapters after itself behaves as if
    they had been listed there, and so splicing plugin middleware at run
    time keeps the order of the static chain. *)
Theorem inserting_splices h (l1 l2 mid : Middleware) apc ctx opts w :
  run (With false h (l1 ++ [inserting false apc (λ _ _, mid)] ++ l2)) ctx opts w =
  run (adapted (mkHandler apc (run (With false h (mid ++ l2)))) l1) ctx opts w.
Proof.
  rewrite /With adapted_app [adapted h ([_] ++ l2)]adapted_cons /inserting /With.
  by rewrite -(adapted_app h mid l2).
Qed.

(** Chaining two profiled middlewares times every adapter once: the
    boundary between them, where the profiler of the second meets the
    already timed handler of the first, runs exactly like one profiler. *)
Theorem profiled_chain_times_once h (l : Middleware) :
  run (Timer (With true h l)) = run (With true h l) ∧
  pc (With true h l) = timedHandler_pc.
Proof.
  rewrite /With. destruct l as [|a l].
  - by rewrite adaptedWithProfiler_nil.
  - by rewrite adaptedWithProfiler_cons.
Qed.
End handlers.

Arguments World : clear implicits.
Arguments Handler : clear implicits.
Arguments Adapter : clear implicits.
Arguments Middleware : clear implicits.

(** ** Health checks ([check.go]) *)

Record HealthCheckComponent := mkComponent {
  cName : string; cData : string; cWarnings : list string; cErrors : list string;
}.

Section checks.
Context {W : Type}.

(** A check returns its components, or nil. *)
Definition Check : Type := Go W (option (list HealthCheckComponent)).
Record Checks := mkChecks { chName : string; chList : list Check }.
Record HealthCheckResult := mkResult {
  hrName : string; hrComponents : list HealthCheckComponent }.

Fixpoint run_checks (l : list Check) (acc : list HealthCheckComponent)
    : Go W (list HealthCheckComponent) :=
  match l with
  | [] => mret acc
  | check :: l' =>
      result ← check;
      match result with
      | None => run_checks l' acc
      | Some cs => run_checks l' (acc ++ cs)
      end
  end.

Definition Checks_Run (c : Checks) : Go W HealthCheckResult :=
  components ← run_checks (chList c) [];
  mret (mkResult (chName c) components).

Fixpoint Checklist_Run (c : list Checks) : Go W (list HealthCheckResult) :=
  match c with
  | [] => mret []
  | checks :: c' => r ← Checks_Run checks; rs ← Checklist_Run c'; mret (r :: rs)
  end.
End checks.

(** A handler that records that it ran, used by the witnesses. *)
Definition logging_handler : Handler unit (list string) nat :=
  mkHandler "criu.Dump" (λ _ _ w, Some (Ok 0, mkWorld (prof w) (now w) (app w ++ ["criu.Dump"]))).

Definition logging_adapter (n : string) : Adapter unit (list string) nat :=
  λ next, mkHandler n (λ ctx o w,
    run next ctx o (mkWorld (prof w) (now w + 1) (app w ++ [n]))).

Lemma logging_handler_oblivious : hequiv logging_handler logging_handler.
Proof. intros c1 c2 o w1 w2 [Ha Hn]. simpl. rewrite /weq /= Ha Hn. done. Qed.

Lemma logging_adapter_oblivious n : Proper (hequiv ==> hequiv) (logging_adapter n).
Proof.
  intros h1 h2 H c1 c2 o w1 w2 [Ha Hn]. simpl. apply H. rewrite /weq /= Ha Hn. done.
Qed.

Lemma profiling_transparent_witness :
  hequiv (With true logging_handler [logging_adapter "validation"; logging_adapter "gpu"])
         (With false logging_handler [logging_adapter "validation"; logging_adapter "gpu"]).
Proof.
  apply (profiling_transparent logging_handler
    [logging_adapter "validation"; logging_adapter "gpu"]).
  - apply logging_handler_oblivious.
  - repeat constructor; apply logging_adapter_oblivious.
Defined.

End Types.
