(* ===== verification/Checks.v ===== *)
(** * Health checks (internal/cedana/healthcheck.go, criu/checks.go, criu/checks_cuda.go, streamer/checks.go)

    The checks of CRIU, of CUDA and of the streamer, and the list of checks
    that a health check runs.  The installed plugins, the answers of the
    binaries that are run and the files that are read are parameters; looking
    up a plugin does not change anything here. *)

From Stdlib Require Import Ascii DecimalString DecimalN.
From S2P Require Import Prelude GoLib Types.

Module Checks.
Import GoLib Types.
#[local] Open Scope Z_scope.

Definition newline : ascii := ascii_of_nat 10.

(** An installed plugin, with its first binary. *)
Record plugin := mkPlugin { pVersion : string; pBinary : string }.

Class Env := {
  BinaryPath : string;                       (** the configured path of CRIU *)
  installed : string → option plugin;
  LookPath : option string;                  (** criu in the PATH *)
  GetCriuVersion : string → gores Z;
  criu_check : string → list string → string * option error;
  nvidia_smi : gores string;
  ReadFile : string → gores string;
  SizeStr : Z → string;
}.

Section checks.
Context {W : Type} `{Env}.

(** A check that only looks. *)
Definition looks (r : option (list HealthCheckComponent)) : Check (W := W) := λ w, Some (r, w).

(** ** CRIU *)

Definition CRIU_MIN_VERSION : Z := 30000.

Inductive criu := Custom (path : string) | FromPlugin (path : string) | InPath (path : string) | Missing.

(** Where the binary of CRIU comes from. *)
Definition find_criu : criu :=
  if decide (BinaryPath ≠ "") then Custom BinaryPath
  else match installed "criu" with
       | Some p => FromPlugin (pBinary p)
       | None => match LookPath with Some path => InPath path | None => Missing end
       end.

Definition criu_path (c : criu) : option string :=
  match c with Custom p | FromPlugin p | InPath p => Some p | Missing => None end.

(** The data and the errors of a version, of which [least] is required. *)
Definition version_result (path : string) (least : Z) (unsupported : Z → string) : string * list string :=
  match GetCriuVersion path with
  | Ok version => (itoaZ version, if decide (version < least) then [unsupported version] else [])
  | Err e => ("unknown", ["Failed to get version: " +:+ Error e])
  end.

Definition CheckVersion : option (list HealthCheckComponent) :=
  let c := find_criu in
  let warnings := match c with
    | InPath _ => ["CRIU plugin not installed but CRIU binary found in PATH. It's recommended to install the plugin for full feature support."]
    | _ => [] end in
  Some [match criu_path c with
        | None => mkComponent "version" "" warnings
                    ["CRIU plugin is not installed. This is required for userspace C/R support."]
        | Some path =>
            let '(data, errors) := version_result path CRIU_MIN_VERSION (λ version,
              "Version " +:+ itoaZ version +:+ " is not supported. Minimum supported is " +:+ itoaZ CRIU_MIN_VERSION) in
            mkComponent "version" data warnings errors
        end].

Definition parse_line (acc : list string * list string) (line : string) : list string * list string :=
  match CutPrefix line "Warn" with
  | Some after => (acc.1 ++ [TrimSpace after], acc.2)
  | None =>
      match CutPrefix line "Error" with
      | Some after => (acc.1, acc.2 ++ [TrimSpace after])
      | None => acc
      end
  end.
Definition parseCheckOutput (out : string) : list string * list string :=
  foldl parse_line ([], []) (Split out newline).

Definition CheckFeatures (all : bool) : option (list HealthCheckComponent) :=
  path ← criu_path find_criu;
  let '(out, err) := criu_check path (if all then ["--all"] else []) in
  let '(warnings, errors) := parseCheckOutput out in
  Some [match err with
        | None => mkComponent "features" "available" warnings errors
        | Some _ =>
            mkComponent "features" "unavailable" warnings
              (match errors with [] => ["Failed to run check: " +:+ TrimSpace out] | _ => errors end)
        end].

(** ** CUDA *)

Definition CRIU_MIN_VERSION_FOR_CUDA : Z := 40000.
Definition CRIU_MIN_CUDA_VERSION : Z := 570.

Definition is_digit (x : ascii) : bool := bool_decide (48 ≤ nat_of_ascii x ≤ 57)%nat.

(** The regular expression [Driver Version: ([\d.]+)]: its first match. *)
Fixpoint digits_dots (s : string) : string :=
  match s with
  | String x s' => if is_digit x || bool_decide (x = dot) then String x (digits_dots s') else ""
  | EmptyString => ""
  end.
Fixpoint driver_version (s : string) : option string :=
  let here := rest ← CutPrefix s "Driver Version: ";
              let v := digits_dots rest in if decide (v = "") then None else Some v in
  match here with
  | Some v => Some v
  | None => match s with String _ s' => driver_version s' | EmptyString => None end
  end.

(** [strconv.Atoi] of a run of digits, to an int. *)
Definition Atoi (s : string) : option Z :=
  u ← NilZero.uint_of_string s;
  let z := Z.of_N (N.of_uint u) in
  if decide (z < 2 ^ 63) then Some z else None.

Definition CheckCudaDriverVersion : option (list HealthCheckComponent) :=
  let failed e := Some [mkComponent "driver version" "" [] [e]] in
  match nvidia_smi with
  | Err e => failed ("Failed to run nvidia-smi: " +:+ Error e)
  | Ok output =>
      match driver_version output with
      | None => failed "Failed to parse nvidia-smi output"
      | Some version =>
          match Split version dot with
          | [base; _; _] =>
              match Atoi base with
              | None => failed ("Failed to parse driver version: " +:+ base)
              | Some baseVersion =>
                  Some [mkComponent "driver version" version []
                    (if decide (baseVersion < CRIU_MIN_CUDA_VERSION)
                     then ["Driver version " +:+ version +:+ " is not supported. Minimum supported is " +:+
                           itoaZ CRIU_MIN_CUDA_VERSION] else [])]
              end
          | _ => failed "Failed to parse nvidia-smi output"
          end
      end
  end.

(** The message names the minimum of the other check. *)
Definition CheckCriuForCuda : option (list HealthCheckComponent) :=
  Some [match criu_path find_criu with
        | None => mkComponent "criu version" "" [] ["CRIU plugin is not installed. This is required for CUDA C/R."]
        | Some path =>
            let '(data, errors) := version_result path CRIU_MIN_VERSION_FOR_CUDA (λ version,
              "Version " +:+ itoaZ version +:+ " is not supported for CUDA C/R. Minimum supported is " +:+
              itoaZ CRIU_MIN_VERSION) in
            mkComponent "criu version" data [] errors
        end].

(** ** Streamer *)

Definition OPTIMAL_SOFT_LIMIT : Z := 0.
Definition OPTIMAL_HARD_LIMIT : Z := 0.
Definition OPTIMAL_MAX_SIZE : Z := 4 * 1048576.

Definition streamer_CheckVersion : option (list HealthCheckComponent) :=
  Some [match installed "streamer" with
        | Some p => mkComponent "version" (pVersion p) [] []
        | None => mkComponent "version" "unknown" []
                    ["Streamer plugin is not installed. This is required for streaming C/R support."]
        end].

Definition streamer_CheckCriu : option (list HealthCheckComponent) :=
  Some [match installed "criu" with
        | Some _ => mkComponent "criu" "supported" [] []
        | None =>
            if decide (BinaryPath ≠ "") then
              mkComponent "criu" "unsupported" []
                ["CRIU plugin not installed but a custom CRIU path was provided. Streaming C/R requires the CRIU plugin."]
            else match LookPath with
                 | Some _ => mkComponent "criu" "unsupported" []
                     ["CRIU plugin not installed but CRIU binary found in PATH. Streaming C/R requires the CRIU plugin."]
                 | None => mkComponent "criu" "missing" []
                     ["CRIU plugin is not installed. This is required for userspace C/R support."]
                 end
        end].

(** [strconv.ParseInt(s, 10, 64)] *)
Definition ParseInt (s : string) : option Z :=
  let z := match s with
           | String "-" s' => (λ u, - Z.of_N (N.of_uint u)) <$> NilZero.uint_of_string s'
           | String "+" s' => (λ u, Z.of_N (N.of_uint u)) <$> NilZero.uint_of_string s'
           | _ => (λ u, Z.of_N (N.of_uint u)) <$> NilZero.uint_of_string s
           end in
  z ← z; if decide (- 2 ^ 63 <= z < 2 ^ 63) then Some z else None.

(** A setting of the kernel: what its value says, as data and warnings. *)
Definition check_setting (name file : string) (judge : Z → string * list string) : HealthCheckComponent :=
  match ReadFile file with
  | Err _ => mkComponent name "" [] ["Failed to read " +:+ file]
  | Ok text =>
      match ParseInt (TrimSpace text) with
      | None => mkComponent name "" [] ["Failed to parse " +:+ file]
      | Some v => let '(data, warnings) := judge v in mkComponent name data warnings []
      end
  end.

Definition advice (value : Z) (file : string) : string :=
  "For optimal performance, `echo " +:+ itoaZ value +:+ " > " +:+ file +:+ "`".

Definition judge_limit (optimal : Z) (file : string) (v : Z) : string * list string :=
  if decide (v = optimal) then ("unlimited", []) else (SizeStr v, [advice optimal file]).
Definition judge_size (file : string) (v : Z) : string * list string :=
  (SizeStr v, if decide (v < OPTIMAL_MAX_SIZE) then [advice OPTIMAL_MAX_SIZE file] else []).

Definition CheckKernelSettings : option (list HealthCheckComponent) :=
  let soft := "/proc/sys/fs/pipe-user-pages-soft" in
  let hard := "/proc/sys/fs/pipe-user-pages-hard" in
  let size := "/proc/sys/fs/pipe-max-size" in
  Some [check_setting "pipe pages soft limit" soft (judge_limit OPTIMAL_SOFT_LIMIT soft);
        check_setting "pipe pages hard limit" hard (judge_limit OPTIMAL_HARD_LIMIT hard);
        check_setting "pipe max size" size (judge_size size)].

Definition streamer_Checks : Types.Checks (W := W) :=
  mkChecks "streamer" [looks streamer_CheckVersion; looks streamer_CheckCriu; looks CheckKernelSettings].

(** ** The health check *)

(** The checks of the GPU manager, and of the plugins that are loaded. *)
Context (gpu_Checks : Types.Checks (W := W)) (plugin_Checks : list (string * Types.Checks (W := W))).

Definition checkPluginVersion (name : string) : option (list HealthCheckComponent) :=
  Some [mkComponent "version" (match installed name with Some p => pVersion p | None => "" end) [] []].

Definition is_installed (name : string) : bool := match installed name with Some _ => true | None => false end.

Definition pluginChecklist : list (Types.Checks (W := W)) :=
  (if is_installed "criu/cuda" then [mkChecks "criu/cuda" [looks CheckCriuForCuda; looks CheckCudaDriverVersion]] else []) ++
  (if is_installed "gpu" then [gpu_Checks] else []) ++
  (if is_installed "streamer" then [streamer_Checks] else []) ++
  ((λ '(name, c), mkChecks name (looks (checkPluginVersion name) :: chList c)) <$> plugin_Checks).

Definition CRIU_EXPERIMENTAL_CHECKS : bool := false.

Definition HealthCheck (full : bool) : Go W (list HealthCheckResult) :=
  Checklist_Run (mkChecks "criu" [looks CheckVersion; looks (CheckFeatures CRIU_EXPERIMENTAL_CHECKS)] ::
                 if full then pluginChecklist else []).

(** ** What a healthy report means *)

Definition errors_of (rs : list HealthCheckResult) : list string :=
  concat (cErrors <$> concat (hrComponents <$> rs)).

Lemma HasPrefix_Warn_Error line : HasPrefix line "Warn" = true → HasPrefix line "Error" = true → False.
Proof. intros [s ->]%HasPrefix_true. done. Qed.

Lemma parse_lines_errors l acc :
  (foldl parse_line acc l).2 = [] ↔ acc.2 = [] ∧ Forall (λ line, HasPrefix line "Error" = false) l.
Proof.
  revert acc. induction l as [|line l IH]; intros acc; simpl; [by intuition|]. rewrite IH list.Forall_cons.
  unfold parse_line, CutPrefix. destruct (HasPrefix line "Warn") eqn:Hw; simpl.
  { destruct (HasPrefix line "Error") eqn:He; [by destruct (HasPrefix_Warn_Error line)|]. by intuition. }
  destruct (HasPrefix line "Error") eqn:He; simpl; [|by intuition].
  split; [intros [[_ ?]%app_nil _]; done|intros [_ [? _]]; done].
Qed.

(** The basic health check reports no error exactly when a binary of CRIU is
    found (the configured one, that of the plugin, or one in the PATH), it tells
    a version that is supported, and its own check succeeds without a line that
    says Error. *)
Theorem CRIU_healthy_iff (w : W) :
  ∃ rs, HealthCheck false w = Some (rs, w) ∧
    (errors_of rs = [] ↔
     ∃ path v out, criu_path find_criu = Some path ∧ GetCriuVersion path = Ok v ∧ CRIU_MIN_VERSION <= v ∧
       criu_check path [] = (out, None) ∧ Forall (λ line, HasPrefix line "Error" = false) (Split out newline)).
Proof.
  assert (Hrun : ∀ c, CheckVersion = Some [c] → HealthCheck false w =
    Some ([mkResult "criu" (c :: default [] (CheckFeatures CRIU_EXPERIMENTAL_CHECKS))], w)).
  { intros c Hc. unfold HealthCheck, looks. cbn. rewrite Hc. by destruct (CheckFeatures _). }
  unfold CheckFeatures, CheckVersion in Hrun.
  destruct (criu_path find_criu) as [path|] eqn:Hp; last first.
  { eexists. split; [by apply Hrun|]. split; [done|naive_solver]. }
  cbn [mbind option_bind] in Hrun. change (if CRIU_EXPERIMENTAL_CHECKS then _ else _) with (@nil string) in Hrun.
  unfold version_result in Hrun. destruct (criu_check path []) as [out err] eqn:Hc. unfold parseCheckOutput in Hrun.
  pose proof (parse_lines_errors (Split out newline) ([], [])) as Hiff.
  destruct (foldl parse_line ([], []) (Split out newline)) as [ws es]. cbn [snd] in Hiff.
  destruct (GetCriuVersion path) as [v|e] eqn:Hv; (eexists; split; [by apply Hrun|]); unfold errors_of; simpl.
  - assert (Hinv : ∀ path' v' out', Some path = Some path' → GetCriuVersion path' = Ok v' →
      criu_check path' [] = (out', None) → v' = v ∧ out' = out ∧ err = None).
    { intros path' v' out' [= <-] Hv' Hc'. rewrite Hv in Hv'. rewrite Hc in Hc'. by simplify_eq. }
    destruct err as [e|]; simpl; rewrite !app_nil_r.
    + split; [case_decide; simpl; destruct es; done|].
      intros (path' & v' & out' & Hp' & Hv' & _ & Hc' & _). by destruct (Hinv _ _ _ Hp' Hv' Hc') as (_ & _ & ?).
    + case_decide as Hlt; simpl.
      * split; [done|]. intros (path' & v' & out' & Hp' & Hv' & Hle & Hc' & _).
        destruct (Hinv _ _ _ Hp' Hv' Hc') as (-> & _). lia.
      * rewrite Hiff. split; [intros [_ Hl]; exists path, v, out; split_and!; try done; lia|].
        intros (path' & v' & out' & Hp' & Hv' & _ & Hc' & Hl). by destruct (Hinv _ _ _ Hp' Hv' Hc') as (_ & <- & _).
  - split; [done|]. intros (path' & v' & out' & [= <-] & Hv' & _). congruence.
Qed.
End checks.

(** A version that is too old for CUDA is reported with the minimum that it meets. *)
Definition criu_3_5 : Env := {|
  BinaryPath := "/usr/sbin/criu"; installed _ := None; LookPath := None; GetCriuVersion _ := Ok 35000;
  criu_check _ _ := ("Looks good.", None); nvidia_smi := Err (Errorf "not found");
  ReadFile _ := Err (Errorf "not found"); SizeStr _ := "";
|}.

Example cuda_minimum_in_message :
  (CheckCriuForCuda (H := criu_3_5)) = Some [mkComponent "criu version" "35000" []
    ["Version 35000 is not supported for CUDA C/R. Minimum supported is 30000"]].
Proof. done. Qed.
End Checks.
