(* ===== verification/Adapters.v ===== *)
(** * Reasoning about chains of adapters

    Most adapters of [internal/cedana] look at the request, the response and
    the options, change them, and then either return an error or call the next
    handler.  [before] is that shape, over the handlers of [Types]; [wp] is the
    weakest precondition of a handler, stated on options and application state
    only, so that a chain is verified adapter by adapter whether or not it is
    profiled.  A handler that panics satisfies no [wp]. *)

From S2P Require Import Prelude Profiling Types.
Import Profiling Types.

Module Adapters.

Section adapters.
Context {Opts App Code : Type}.

Abbreviation Handler := (Handler Opts App Code).
Abbreviation Adapter := (Adapter Opts App Code).
Abbreviation Middleware := (Middleware Opts App Code).

Definition set_app (a : App) (w : World App) : World App := mkWorld (prof w) (now w) a.

(** An adapter that works on request, response and options and then calls the
    next handler, or returns an error; [None] is a nil dereference. *)
Definition before_opt (name : string) (f : Opts → App → option (gores Opts * App)) : Adapter :=
  λ next, mkHandler name (λ ctx o w,
    match f o (app w) with
    | None => None
    | Some (Err e, a) => Some (Err e, set_app a w)
    | Some (Ok o', a) => run next ctx o' (set_app a w)
    end).
Definition before (name : string) (f : Opts → App → gores Opts * App) : Adapter :=
  before_opt name (λ o a, Some (f o a)).

(** An adapter that also does something after the next handler: [pre] keeps a
    value for [post], which gets the result. *)
Definition around {X} (name : string) (pre : Opts → App → option (gores (X * Opts) * App))
    (post : X → gores Code → App → option (gores Code * App)) : Adapter :=
  λ next, mkHandler name (λ ctx o w,
    match pre o (app w) with
    | None => None
    | Some (Err e, a) => Some (Err e, set_app a w)
    | Some (Ok (x, o'), a) =>
        match run next ctx o' (set_app a w) with
        | None => None
        | Some (r, w') =>
            match post x r (app w') with
            | None => None
            | Some (r', a') => Some (r', set_app a' w')
            end
        end
    end).

(** An adapter that chooses the options and the handler to go on with. *)
Definition choosing (name : string) (f : Handler → Opts → App → gores (Opts * Handler)) : Adapter :=
  λ next, mkHandler name (λ ctx o w,
    match f next o (app w) with
    | Err e => Some (Err e, w)
    | Ok (o', h) => run h ctx o' w
    end).

(** The handler returns, and with a result and a state in [Post], when it
    starts from options [o] and state [a]. *)
Definition wp (h : Handler) (o : Opts) (a : App) (Post : gores Code → App → Prop) : Prop :=
  ∀ ctx w, app w = a → ∃ r w', run h ctx o w = Some (r, w') ∧ Post r (app w').

Lemma wp_mono h o a (Post Post' : gores Code → App → Prop) :
  (∀ r a', Post r a' → Post' r a') → wp h o a Post → wp h o a Post'.
Proof. intros HP H ctx w Hw. destruct (H ctx w Hw) as (r & w' & -> & ?). eauto. Qed.

Lemma wp_Timer h o a Post : wp h o a Post → wp (Timer h) o a Post.
Proof.
  intros H ctx w Hw. cbn [Timer run]. case_bool_decide; [by apply H|].
  destruct (StartTimingComponent ctx (pc h) (prof w)) as [[c e] s].
  destruct (H c (set_prof s w) Hw) as (r & w' & -> & ?). eauto.
Qed.

Lemma wp_With_nil b h o a Post : wp h o a Post → wp (With b h []) o a Post.
Proof. destruct b; [apply wp_Timer|done]. Qed.

Lemma wp_With_cons b h A (l : Middleware) o a Post :
  wp (A (With b h l)) o a Post → wp (With b h (A :: l)) o a Post.
Proof.
  rewrite /With. destruct b; [rewrite adaptedWithProfiler_cons; apply wp_Timer|by rewrite adapted_cons].
Qed.

Lemma wp_before_opt name f next o a Post :
  match f o a with
  | None => False
  | Some (Err e, a') => Post (Err e) a'
  | Some (Ok o', a') => wp next o' a' Post
  end → wp (before_opt name f next) o a Post.
Proof.
  intros H ctx w Hw. cbn [before_opt run]. rewrite Hw.
  destruct (f o a) as [[[o'|e] a']|]; [|eauto|done]. by apply H.
Qed.

Lemma wp_before name f next o a Post :
  match f o a with
  | (Err e, a') => Post (Err e) a'
  | (Ok o', a') => wp next o' a' Post
  end → wp (before name f next) o a Post.
Proof. intros H. by apply wp_before_opt. Qed.

Lemma wp_choosing name f next o a Post :
  match f next o a with Err e => Post (Err e) a | Ok (o', h) => wp h o' a Post end →
  wp (choosing name f next) o a Post.
Proof.
  intros H ctx w Hw. cbn [choosing run]. rewrite Hw. destruct (f next o a) as [[o' h]|e]; [by apply H|].
  eexists _, _. split; [done|by rewrite Hw].
Qed.

Lemma wp_around {X} name pre (post : X → gores Code → App → option (gores Code * App)) next o a Post :
  match pre o a with
  | None => False
  | Some (Err e, a') => Post (Err e) a'
  | Some (Ok (x, o'), a') => wp next o' a' (λ r a1,
      match post x r a1 with None => False | Some (r', a2) => Post r' a2 end)
  end → wp (around name pre post next) o a Post.
Proof.
  intros H ctx w Hw. cbn [around run]. rewrite Hw.
  destruct (pre o a) as [[[[x o']|e] a']|]; [|eauto|done].
  destruct (H ctx (set_app a' w) eq_refl) as (r & w' & -> & HP).
  destruct (post x r (app w')) as [[r' a2]|]; [eauto|done].
Qed.
End adapters.

(** The handler has returned: go on with its result, in the state [Hw] gives. *)
Ltac wp_returns Hw := eexists _, _; split; [reflexivity|]; rewrite ?Hw.

End Adapters.
