(* ===== verification/Criu.v ===== *)
(** * The CRIU client (pkg/criu)

    [notify.go], [notify_callback.go] and [notify_callback_multi.go]: the
    notification interface, callbacks with optional hooks and the list of
    callbacks.  [criu.go]: the RPC exchange with the [criu swrk] process.
    The CRIU process is outside the repository: what it answers to the n-th
    request is an argument, and so are the outcomes of starting and reaping
    it.  Profiling of the hooks and trace logging are left out. *)

From S2P Require Import Prelude GoLib.
Import GoLib.

Module Criu.

(** The fields of the CRIU options the modelled code reads or sets. *)
Record CriuOpts := mkCriuOpts {
  ImagesDir : string;
  Stream : bool;
  LeaveRunning : bool;
  Pid : Z;
  NotifyScripts : bool;
  Unprivileged : bool;
}.

Section notify.
Context {W : Type}.

Definition NotifyFunc : Type := Go W (option error).
Definition NotifyFuncOpts : Type := CriuOpts → Go W (option error).
Definition NotifyFuncOptsErr : Type := CriuOpts → option error → Go W (option error).
Definition NotifyFuncPid : Type := Z → Go W (option error).
Definition NotifyFuncFd : Type := Z → Go W (option error).
Definition NotifyFuncExtFiles : Type := Go W (gores (list string)).

(** The interface of [notify.go]. *)
Record Notify := mkNotify {
  Initialize : NotifyFuncPid;
  InitializeDump : NotifyFuncOpts;
  InitializeRestore : NotifyFuncOpts;
  FinalizeDump : NotifyFuncOptsErr;
  FinalizeRestore : NotifyFuncOptsErr;
  PreDump : NotifyFuncOpts;
  PostDump : NotifyFuncOpts;
  PreRestore : NotifyFuncOpts;
  PostRestore : NotifyFuncPid;
  NetworkLock : NotifyFunc;
  NetworkUnlock : NotifyFunc;
  SetupNamespaces : NotifyFuncPid;
  PostSetupNamespaces : NotifyFunc;
  SkipNamespaces : NotifyFuncPid;
  PreResume : NotifyFunc;
  PostResume : NotifyFunc;
  OrphanPtsMaster : NotifyFuncFd;
  QueryExtFiles : NotifyFuncExtFiles;
}.

(** A callback: hooks that may be nil. *)
Record NotifyCallback := mkCallback {
  InitializeFunc : option NotifyFuncPid;
  InitializeDumpFunc : option NotifyFuncOpts;
  InitializeRestoreFunc : option NotifyFuncOpts;
  FinalizeDumpFunc : option NotifyFuncOptsErr;
  FinalizeRestoreFunc : option NotifyFuncOptsErr;
  PreDumpFunc : option NotifyFuncOpts;
  PostDumpFunc : option NotifyFuncOpts;
  PreRestoreFunc : option NotifyFuncOpts;
  PostRestoreFunc : option NotifyFuncPid;
  NetworkLockFunc : option NotifyFunc;
  NetworkUnlockFunc : option NotifyFunc;
  SetupNamespacesFunc : option NotifyFuncPid;
  PostSetupNamespacesFunc : option NotifyFunc;
  SkipNamespacesFunc : option NotifyFuncPid;
  PreResumeFunc : option NotifyFunc;
  PostResumeFunc : option NotifyFunc;
  OrphanPtsMasterFunc : option NotifyFuncFd;
  QueryExtFilesFunc : option NotifyFuncExtFiles;
  CallbackName : string;
}.

(** A callback with no hook at all. *)
Definition empty_callback (name : string) : NotifyCallback :=
  mkCallback None None None None None None None None None None None None None
    None None None None None name.

(** [fmt.Errorf("<label>: %v", err)] around a hook that is not nil. *)
Definition call_hook (label : string) (f : option NotifyFunc) : NotifyFunc :=
  match f with
  | None => mret None
  | Some f =>
      err ← f;
      mret (match err with
            | None => None
            | Some e => Some (Errorf (label +:+ ": " +:+ Error e))
            end)
  end.

Definition NotifyCallback_Initialize (n : NotifyCallback) (criuPid : Z) : NotifyFunc :=
  call_hook "initialize callback" ((λ f, f criuPid) <$> InitializeFunc n).
Definition NotifyCallback_InitializeDump (n : NotifyCallback) (opts : CriuOpts) : NotifyFunc :=
  call_hook "initialize dump callback" ((λ f, f opts) <$> InitializeDumpFunc n).
Definition NotifyCallback_InitializeRestore (n : NotifyCallback) (opts : CriuOpts) : NotifyFunc :=
  call_hook "initialize restore callback" ((λ f, f opts) <$> InitializeRestoreFunc n).
Definition NotifyCallback_FinalizeDump (n : NotifyCallback) (opts : CriuOpts)
    (err : option error) : NotifyFunc :=
  call_hook "finalize dump callback" ((λ f, f opts err) <$> FinalizeDumpFunc n).
Definition NotifyCallback_FinalizeRestore (n : NotifyCallback) (opts : CriuOpts)
    (err : option error) : NotifyFunc :=
  call_hook "finalize restore callback" ((λ f, f opts err) <$> FinalizeRestoreFunc n).
Definition NotifyCallback_PreDump (n : NotifyCallback) (opts : CriuOpts) : NotifyFunc :=
  call_hook "pre-dump callback" ((λ f, f opts) <$> PreDumpFunc n).
Definition NotifyCallback_PostDump (n : NotifyCallback) (opts : CriuOpts) : NotifyFunc :=
  call_hook "post-dump callback" ((λ f, f opts) <$> PostDumpFunc n).
Definition NotifyCallback_PreRestore (n : NotifyCallback) (opts : CriuOpts) : NotifyFunc :=
  call_hook "pre-restore callback" ((λ f, f opts) <$> PreRestoreFunc n).
Definition NotifyCallback_PreResume (n : NotifyCallback) : NotifyFunc :=
  call_hook "pre-resume callback" (PreResumeFunc n).
Definition NotifyCallback_PostRestore (n : NotifyCallback) (pid : Z) : NotifyFunc :=
  call_hook "post-restore callback" ((λ f, f pid) <$> PostRestoreFunc n).
Definition NotifyCallback_NetworkLock (n : NotifyCallback) : NotifyFunc :=
  call_hook "network-lock callback" (NetworkLockFunc n).
Definition NotifyCallback_NetworkUnlock (n : NotifyCallback) : NotifyFunc :=
  call_hook "network-unlock callback" (NetworkUnlockFunc n).
Definition NotifyCallback_SetupNamespaces (n : NotifyCallback) (pid : Z) : NotifyFunc :=
  call_hook "setup-namespaces callback" ((λ f, f pid) <$> SetupNamespacesFunc n).
Definition NotifyCallback_PostSetupNamespaces (n : NotifyCallback) : NotifyFunc :=
  call_hook "post-setup-namespaces callback" (PostSetupNamespacesFunc n).
Definition NotifyCallback_SkipNamespaces (n : NotifyCallback) (pid : Z) : NotifyFunc :=
  call_hook "skip-namespaces callback" ((λ f, f pid) <$> SkipNamespacesFunc n).
Definition NotifyCallback_PostResume (n : NotifyCallback) : NotifyFunc :=
  call_hook "post-resume callback" (PostResumeFunc n).
Definition NotifyCallback_OrphanPtsMaster (n : NotifyCallback) (fd : Z) : NotifyFunc :=
  call_hook "orphan-pts-master callback" ((λ f, f fd) <$> OrphanPtsMasterFunc n).

Definition NotifyCallback_QueryExtFiles (n : NotifyCallback) : NotifyFuncExtFiles :=
  match QueryExtFilesFunc n with
  | None => mret (Ok [])
  | Some f =>
      r ← f;
      mret (match r with
            | Ok external => Ok external
            | Err e => Err (Errorf ("query-ext-files callback: " +:+ Error e))
            end)
  end.

(** [NotifyCallback] implements [Notify]. *)
Definition callback_notify (n : NotifyCallback) : Notify :=
  mkNotify (NotifyCallback_Initialize n) (NotifyCallback_InitializeDump n)
    (NotifyCallback_InitializeRestore n) (NotifyCallback_FinalizeDump n)
    (NotifyCallback_FinalizeRestore n) (NotifyCallback_PreDump n)
    (NotifyCallback_PostDump n) (NotifyCallback_PreRestore n)
    (NotifyCallback_PostRestore n) (NotifyCallback_NetworkLock n)
    (NotifyCallback_NetworkUnlock n) (NotifyCallback_SetupNamespaces n)
    (NotifyCallback_PostSetupNamespaces n) (NotifyCallback_SkipNamespaces n)
    (NotifyCallback_PreResume n) (NotifyCallback_PostResume n)
    (NotifyCallback_OrphanPtsMaster n) (NotifyCallback_QueryExtFiles n).

(** ** Several callbacks *)

Definition NotifyCallbackMulti : Type := list Notify.

Definition Include (n : NotifyCallbackMulti) (nfy : option NotifyCallback)
    : NotifyCallbackMulti :=
  match nfy with None => n | Some nfy => n ++ [callback_notify nfy] end.

Definition IncludeMulti (n : NotifyCallbackMulti) (nfy : option NotifyCallbackMulti)
    : NotifyCallbackMulti :=
  match nfy with None => n | Some callbacks => n ++ callbacks end.

(** [for i := len(n.callbacks) - 1; i >= 0; i--], stopping at the first error. *)
Fixpoint until_error (hooks : list NotifyFunc) : NotifyFunc :=
  match hooks with
  | [] => mret None
  | h :: hooks' => unless_err h (until_error hooks')
  end.

Definition each_reversed (n : NotifyCallbackMulti) (f : Notify → NotifyFunc) : NotifyFunc :=
  until_error (map f (reverse n)).

Definition Multi_Initialize (n : NotifyCallbackMulti) (criuPid : Z) : NotifyFunc :=
  each_reversed n (λ c, Initialize c criuPid).
Definition Multi_InitializeDump (n : NotifyCallbackMulti) (opts : CriuOpts) : NotifyFunc :=
  each_reversed n (λ c, InitializeDump c opts).
Definition Multi_InitializeRestore (n : NotifyCallbackMulti) (opts : CriuOpts) : NotifyFunc :=
  each_reversed n (λ c, InitializeRestore c opts).
Definition Multi_FinalizeDump (n : NotifyCallbackMulti) (opts : CriuOpts)
    (err : option error) : NotifyFunc :=
  each_reversed n (λ c, FinalizeDump c opts err).
Definition Multi_FinalizeRestore (n : NotifyCallbackMulti) (opts : CriuOpts)
    (err : option error) : NotifyFunc :=
  each_reversed n (λ c, FinalizeRestore c opts err).
Definition Multi_PreDump (n : NotifyCallbackMulti) (opts : CriuOpts) : NotifyFunc :=
  each_reversed n (λ c, PreDump c opts).
Definition Multi_PostDump (n : NotifyCallbackMulti) (opts : CriuOpts) : NotifyFunc :=
  each_reversed n (λ c, PostDump c opts).
Definition Multi_PreRestore (n : NotifyCallbackMulti) (opts : CriuOpts) : NotifyFunc :=
  each_reversed n (λ c, PreRestore c opts).
Definition Multi_PreResume (n : NotifyCallbackMulti) : NotifyFunc :=
  each_reversed n (λ c, PreResume c).
Definition Multi_PostResume (n : NotifyCallbackMulti) : NotifyFunc :=
  each_reversed n (λ c, PostResume c).
Definition Multi_PostRestore (n : NotifyCallbackMulti) (pid : Z) : NotifyFunc :=
  each_reversed n (λ c, PostRestore c pid).
Definition Multi_NetworkLock (n : NotifyCallbackMulti) : NotifyFunc :=
  each_reversed n (λ c, NetworkLock c).
Definition Multi_NetworkUnlock (n : NotifyCallbackMulti) : NotifyFunc :=
  each_reversed n (λ c, NetworkUnlock c).
Definition Multi_SetupNamespaces (n : NotifyCallbackMulti) (pid : Z) : NotifyFunc :=
  each_reversed n (λ c, SetupNamespaces c pid).
Definition Multi_PostSetupNamespaces (n : NotifyCallbackMulti) : NotifyFunc :=
  each_reversed n (λ c, PostSetupNamespaces c).
Definition Multi_SkipNamespaces (n : NotifyCallbackMulti) (pid : Z) : NotifyFunc :=
  each_reversed n (λ c, SkipNamespaces c pid).
Definition Multi_OrphanPtsMaster (n : NotifyCallbackMulti) (fd : Z) : NotifyFunc :=
  each_reversed n (λ c, OrphanPtsMaster c fd).

Fixpoint collect_ext_files (l : list Notify) (external : list string) : NotifyFuncExtFiles :=
  match l with
  | [] => mret (Ok external)
  | c :: l' =>
      r ← QueryExtFiles c;
      match r with
      | Err e => mret (Err e)
      | Ok files => collect_ext_files l' (external ++ files)
      end
  end.

Definition Multi_QueryExtFiles (n : NotifyCallbackMulti) : NotifyFuncExtFiles :=
  collect_ext_files (reverse n) [].

(** [NotifyCallbackMulti] implements [Notify]. *)
Definition multi_notify (n : NotifyCallbackMulti) : Notify :=
  mkNotify (Multi_Initialize n) (Multi_InitializeDump n) (Multi_InitializeRestore n)
    (Multi_FinalizeDump n) (Multi_FinalizeRestore n) (Multi_PreDump n)
    (Multi_PostDump n) (Multi_PreRestore n) (Multi_PostRestore n)
    (Multi_NetworkLock n) (Multi_NetworkUnlock n) (Multi_SetupNamespaces n)
    (Multi_PostSetupNamespaces n) (Multi_SkipNamespaces n) (Multi_PreResume n)
    (Multi_PostResume n) (Multi_OrphanPtsMaster n) (Multi_QueryExtFiles n).

Lemma unless_err_ret (k : NotifyFunc) : unless_err (mret None) k = k.
Proof. done. Qed.

Lemma until_error_app (l1 l2 : list NotifyFunc) w :
  until_error (l1 ++ l2) w = unless_err (until_error l1) (until_error l2) w.
Proof.
  revert w. induction l1 as [|h l1 IH]; intros w; simpl; [done|].
  rewrite /unless_err /mbind /Go_bind. destruct (h w) as [[[e|] w']|]; [done| |done].
  apply IH.
Qed.

Lemma each_reversed_app n1 n2 f w :
  each_reversed (n1 ++ n2) f w = unless_err (each_reversed n2 f) (each_reversed n1 f) w.
Proof. by rewrite /each_reversed reverse_app map_app until_error_app. Qed.
(** *** What a list of callbacks means: sequencing two notifiers *)

(** [a] and then, unless it fails, [b]. *)
Definition seq_notify (a b : Notify) : Notify :=
  mkNotify (λ pid, unless_err (Initialize a pid) (Initialize b pid))
    (λ o, unless_err (InitializeDump a o) (InitializeDump b o))
    (λ o, unless_err (InitializeRestore a o) (InitializeRestore b o))
    (λ o e, unless_err (FinalizeDump a o e) (FinalizeDump b o e))
    (λ o e, unless_err (FinalizeRestore a o e) (FinalizeRestore b o e))
    (λ o, unless_err (PreDump a o) (PreDump b o))
    (λ o, unless_err (PostDump a o) (PostDump b o))
    (λ o, unless_err (PreRestore a o) (PreRestore b o))
    (λ pid, unless_err (PostRestore a pid) (PostRestore b pid))
    (unless_err (NetworkLock a) (NetworkLock b))
    (unless_err (NetworkUnlock a) (NetworkUnlock b))
    (λ pid, unless_err (SetupNamespaces a pid) (SetupNamespaces b pid))
    (unless_err (PostSetupNamespaces a) (PostSetupNamespaces b))
    (λ pid, unless_err (SkipNamespaces a pid) (SkipNamespaces b pid))
    (unless_err (PreResume a) (PreResume b))
    (unless_err (PostResume a) (PostResume b))
    (λ fd, unless_err (OrphanPtsMaster a fd) (OrphanPtsMaster b fd))
    (r ← QueryExtFiles a;
     match r with
     | Err e => mret (Err e)
     | Ok xs =>
         r' ← QueryExtFiles b;
         mret (match r' with Err e => Err e | Ok ys => Ok (xs ++ ys) end)
     end).

(** Notifiers that behave alike, hook by hook. *)
#[export] Instance Notify_equiv : Equiv Notify := λ a b,
  (∀ pid w, Initialize a pid w = Initialize b pid w) ∧
  (∀ o w, InitializeDump a o w = InitializeDump b o w) ∧
  (∀ o w, InitializeRestore a o w = InitializeRestore b o w) ∧
  (∀ o e w, FinalizeDump a o e w = FinalizeDump b o e w) ∧
  (∀ o e w, FinalizeRestore a o e w = FinalizeRestore b o e w) ∧
  (∀ o w, PreDump a o w = PreDump b o w) ∧
  (∀ o w, PostDump a o w = PostDump b o w) ∧
  (∀ o w, PreRestore a o w = PreRestore b o w) ∧
  (∀ pid w, PostRestore a pid w = PostRestore b pid w) ∧
  (∀ w, NetworkLock a w = NetworkLock b w) ∧
  (∀ w, NetworkUnlock a w = NetworkUnlock b w) ∧
  (∀ pid w, SetupNamespaces a pid w = SetupNamespaces b pid w) ∧
  (∀ w, PostSetupNamespaces a w = PostSetupNamespaces b w) ∧
  (∀ pid w, SkipNamespaces a pid w = SkipNamespaces b pid w) ∧
  (∀ w, PreResume a w = PreResume b w) ∧
  (∀ w, PostResume a w = PostResume b w) ∧
  (∀ fd w, OrphanPtsMaster a fd w = OrphanPtsMaster b fd w) ∧
  (∀ w, QueryExtFiles a w = QueryExtFiles b w).

Lemma collect_ext_files_acc l acc w :
  collect_ext_files l acc w =
  (r ← collect_ext_files l [];
   mret (match r with Err e => Err e | Ok ys => Ok (acc ++ ys) end)) w.
Proof.
  revert acc w. induction l as [|c l IH]; intros acc w.
  - rewrite /= /mbind /Go_bind /mret /Go_ret /= app_nil_r //.
  - rewrite /= /mbind /Go_bind. destruct (QueryExtFiles c w) as [[[xs|e] w']|]; [|done..].
    rewrite IH (IH xs) /mbind /Go_bind.
    destruct (collect_ext_files l [] w') as [[[ys|e] w'']|]; [|done..].
    by rewrite /mret /Go_ret app_assoc.
Qed.

Lemma collect_ext_files_app l1 l2 acc w :
  collect_ext_files (l1 ++ l2) acc w =
  (r ← collect_ext_files l1 acc;
   match r with Err e => mret (Err e) | Ok xs => collect_ext_files l2 xs end) w.
Proof.
  revert acc w. induction l1 as [|c l1 IH]; intros acc w; [done|].
  rewrite /= /mbind /Go_bind. destruct (QueryExtFiles c w) as [[[xs|e] w']|]; [|done..].
  by rewrite IH.
Qed.

Lemma multi_notify_app n1 n2 :
  multi_notify (n1 ++ n2) ≡ seq_notify (multi_notify n2) (multi_notify n1).
Proof.
  repeat split; intros; simpl; try apply each_reversed_app.
  rewrite /Multi_QueryExtFiles reverse_app collect_ext_files_app /mbind /Go_bind.
  destruct (collect_ext_files (reverse n2) [] w) as [[[xs|e] w']|]; [|done..].
  by rewrite collect_ext_files_acc.
Qed.

Lemma each_reversed_singleton c (f : Notify → NotifyFunc) w : each_reversed [c] f w = f c w.
Proof.
  rewrite /each_reversed /= /unless_err /mbind /Go_bind.
  by destruct (f c w) as [[[e|] w']|].
Qed.

Lemma multi_notify_singleton c : multi_notify [c] ≡ c.
Proof.
  repeat split; intros; simpl; try apply each_reversed_singleton.
  rewrite /Multi_QueryExtFiles /= /mbind /Go_bind.
  by destruct (QueryExtFiles c w) as [[[xs|e] w']|].
Qed.

Lemma seq_notify_proper_l a a' b : a ≡ a' → seq_notify a b ≡ seq_notify a' b.
Proof.
  rewrite /equiv /Notify_equiv. intros. destruct_and?.
  repeat split; intros; simpl; rewrite /unless_err /mbind /Go_bind;
    match goal with H : _ |- _ => solve [rewrite H; reflexivity] end.
Qed.
End notify.

Arguments Notify : clear implicits.
Arguments NotifyCallback : clear implicits.
Arguments NotifyCallbackMulti : clear implicits.

(** a [NotifyCallbackMulti] runs its callbacks last registered first and
    stops at the first that fails: for each of the eighteen hooks, a list to
    which a callback was added by [Include] behaves as the new callback
    followed, unless it returned an error, by the list; appending a whole list
    with [IncludeMulti] puts all of its callbacks in front.  The external files
    of [QueryExtFiles] are concatenated in that order. *)
Theorem callbacks_run_in_reverse {W} (n m : NotifyCallbackMulti W) (c : NotifyCallback W) :
  multi_notify (Include n (Some c)) ≡ seq_notify (callback_notify c) (multi_notify n) ∧
  multi_notify (IncludeMulti n (Some m)) ≡ seq_notify (multi_notify m) (multi_notify n).
Proof.
  split; [|apply multi_notify_app].
  assert (∀ a b d : Notify W, a ≡ b → b ≡ d → a ≡ d) as trans.
  { rewrite /equiv /Notify_equiv. intros a b d H1 H2. destruct_and?.
    repeat split; intros;
      match goal with H : _, H' : _ |- _ => solve [rewrite H; apply H'] end. }
  eapply trans; [apply multi_notify_app|].
  apply seq_notify_proper_l, multi_notify_singleton.
Qed.

End Criu.
