(* ===== verification/Swrk.v ===== *)
(** * The RPC exchange with [criu swrk] (pkg/criu/criu.go)

    [doSwrkWithResp] drives one CRIU operation: it initialises the callbacks,
    sends the request, serves the notifications CRIU sends back and finalises
    the callbacks.  The functions return the response, the error and, for
    reasoning about the protocol, the list of requests that were sent. *)

From S2P Require Import Prelude GoLib Criu.
Import GoLib Criu.

Module Swrk.

Inductive CriuReqType :=
| DUMP | RESTORE | CHECK | PRE_DUMP | PAGE_SERVER | NOTIFY | VERSION | PAGE_SERVER_CHLD.

#[global] Instance CriuReqType_eq_dec : EqDecision CriuReqType.
Proof. solve_decision. Defined.

Record CriuVersion := mkVersion {
  MajorNumber : Z; MinorNumber : Z; Sublevel : Z; Gitid : string;
}.

Record CriuResp := mkResp {
  RespType : CriuReqType;
  Success : bool;
  CrErrmsg : string;
  CrErrno : Z;
  Script : string;          (** notify.GetScript() *)
  NotifyPid : Z;            (** notify.GetPid() *)
  OobFd : gores Z;          (** the descriptor in the control message, or the parse error *)
  RespPid : Z;              (** restore.GetPid() *)
  RespVersion : CriuVersion;
}.

Record CriuReq := mkReq {
  ReqType : CriuReqType;
  ReqOpts : option CriuOpts;
  NotifySuccess : bool;
  ReplyExternal : option (list string);
}.

(** One round trip on the socket: how each attempt to write the request ends
    (whether all of it was written, and the error), the message read back or
    the error of reading or unmarshalling it, and whether it was truncated. *)
Record Exchange := mkExchange {
  writes : list (bool * option error);
  reply : gores CriuResp;
  msg_trunc : bool;
}.

Definition exchange_ok (resp : CriuResp) : Exchange := mkExchange [] (Ok resp) false.

(** At most [n] attempts; an attempt not listed succeeds. *)
Fixpoint try_write (n : nat) (ws : list (bool * option error)) (err : option error)
    : option error :=
  match n, ws with
  | O, _ => err
  | S _, [] => None
  | S n', (full, e) :: ws' =>
      if bool_decide (e = None) && full then None else try_write n' ws' e
  end.

Definition sendAndRecv (x : Exchange) : gores CriuResp :=
  match try_write 5 (writes x) None with
  | Some e => Err e
  | None =>
      match reply x with
      | Err e => Err e
      | Ok resp =>
          if msg_trunc x
          then Err (Errorf "MSG_TRUNC was returned, try providing a larger buffer")
          else Ok resp
      end
  end.

(** What the environment does in one operation: the PID of the [criu swrk]
    process or why it could not be started, the round trip of each request in
    turn, the error of reaping the process. *)
Record Peer := mkPeer {
  prepare : gores Z;
  answers : list Exchange;
  cleanup : option error;
  is_root : bool;
}.

Section swrk.
Context {W : Type}.

(** The options and callbacks of an operation.  Callbacks come with options:
    [doSwrkWithResp] dereferences [opts] as soon as [nfy] is not nil. *)
Inductive Args :=
| NoOpts
| WithOpts (opts : CriuOpts) (nfy : option (Notify W)).

Definition args_nfy (a : Args) : option (CriuOpts * Notify W) :=
  match a with
  | NoOpts => None
  | WithOpts opts nfy => pair opts <$> nfy
  end.

Definition args_opts (a : Args) : option CriuOpts :=
  match a with NoOpts => None | WithOpts opts _ => Some opts end.

(** What serving one notification leads to. *)
Inductive Served :=
| Acked (external : option (list string))
| Failed (e : error)          (** return resp, err *)
| Broken (e : error).         (** return nil, err *)

Definition served_of (e : option error) : Served :=
  match e with None => Acked None | Some e => Failed e end.

(** The switch over [notify.GetScript()]. *)
Definition serve (nfy : Notify W) (opts : CriuOpts) (resp : CriuResp) : Go W Served :=
  let s := Script resp in
  if bool_decide (s = "pre-dump") then e ← PreDump nfy opts; mret (served_of e)
  else if bool_decide (s = "post-dump") then e ← PostDump nfy opts; mret (served_of e)
  else if bool_decide (s = "pre-restore") then e ← PreRestore nfy opts; mret (served_of e)
  else if bool_decide (s = "post-restore") then
    e ← PostRestore nfy (NotifyPid resp); mret (served_of e)
  else if bool_decide (s = "network-lock") then e ← NetworkLock nfy; mret (served_of e)
  else if bool_decide (s = "network-unlock") then e ← NetworkUnlock nfy; mret (served_of e)
  else if bool_decide (s = "setup-namespaces") then
    e ← SetupNamespaces nfy (NotifyPid resp); mret (served_of e)
  else if bool_decide (s = "post-setup-namespaces") then
    e ← PostSetupNamespaces nfy; mret (served_of e)
  else if bool_decide (s = "pre-resume") then e ← PreResume nfy; mret (served_of e)
  else if bool_decide (s = "post-resume") then e ← PostResume nfy; mret (served_of e)
  else if bool_decide (s = "skip-namespaces") then
    e ← SkipNamespaces nfy (NotifyPid resp); mret (served_of e)
  else if bool_decide (s = "query-ext-files") then
    r ← QueryExtFiles nfy;
    mret (match r with Ok external => Acked (Some external) | Err e => Failed e end)
  else if bool_decide (s = "orphan-pts-master") then
    match OobFd resp with
    | Err e => mret (Broken e)
    | Ok fd =>
        (* the result is assigned to the err declared in the case, which
           the check after the switch does not see *)
        _ ← OrphanPtsMaster nfy fd; mret (Acked None)
    end
  else mret (Acked None).

(** The request/notification loop. *)
Fixpoint swrk_loop (nfy : option (CriuOpts * Notify W)) (req : CriuReq)
    (resps : list Exchange) (sent : list CriuReq)
    : Go W (option CriuResp * option error * list CriuReq) :=
  match resps with
  | [] => block
  | x :: resps' =>
    let sent' := sent ++ [req] in
    match sendAndRecv x with
    | Err e => mret (None, Some e, sent')
    | Ok resp =>
      if negb (Success resp) then
        mret (Some resp, Some (Errorf ("operation failed (msg:" +:+ CrErrmsg resp
          +:+ " err:" +:+ itoaZ (CrErrno resp) +:+ ")")), sent')
      else if negb (bool_decide (RespType resp = NOTIFY)) then
        mret (Some resp, None, sent')
      else
        match nfy with
        | None => mret (Some resp, Some (Errorf "unexpected notify"), sent')
        | Some (opts, n) =>
            r ← serve n opts resp;
            match r with
            | Broken e => mret (None, Some e, sent')
            | Failed e => mret (Some resp, Some e, sent')
            | Acked external =>
                swrk_loop nfy (mkReq NOTIFY None true external) resps' sent'
            end
        end
    end
  end.

Definition Result : Type := option CriuResp * option error * list CriuReq.

(** A deferred function that gets the error so far and whose own error, if
    any, is joined to it. *)
Definition deferred (m : Go W Result) (d : option error → Go W (option error)) : Go W Result :=
  r ← m;
  let '(resp, retErr, sent) := r in
  err ← d retErr;
  mret (resp, match err with None => retErr | Some _ => errors_Join [retErr; err] end, sent).

Definition prefix_err (pre : string) (e : error) : error := Errorf (pre +:+ Error e).

(** The part of [doSwrkWithResp] after [Prepare], before [Cleanup]. *)
Definition swrk_body (p : Peer) (criuPid : Z) (reqType : CriuReqType) (a : Args)
    : Go W Result :=
  let nfy := args_nfy a in
  let loop := swrk_loop nfy (mkReq reqType (args_opts a) false None) (answers p) [] in
  match nfy with
  | None => loop
  | Some (opts, n) =>
      e ← Initialize n criuPid;
      match e with
      | Some e => mret (None, Some (prefix_err "initialize failed: " e), [])
      | None =>
          match reqType with
          | RESTORE =>
              e ← InitializeRestore n opts;
              match e with
              | Some e => mret (None, Some (prefix_err "initialize-restore failed: " e), [])
              | None => deferred loop (λ retErr, FinalizeRestore n opts retErr)
              end
          | DUMP =>
              e ← InitializeDump n opts;
              match e with
              | Some e => mret (None, Some (prefix_err "initialize-dump failed: " e), [])
              | None => deferred loop (λ retErr, FinalizeDump n opts retErr)
              end
          | _ => loop
          end
      end
  end.

(** The options as CRIU and the callbacks see them. *)
Definition swrk_args (p : Peer) (a : Args) : Args :=
  match a with
  | NoOpts => NoOpts
  | WithOpts opts nfy =>
      WithOpts
        (mkCriuOpts (ImagesDir opts) (Stream opts) (LeaveRunning opts) (Pid opts)
           (match nfy with Some _ => true | None => NotifyScripts opts end)
           (if is_root p then Unprivileged opts else true)) nfy
  end.

Definition doSwrkWithResp (p : Peer) (reqType : CriuReqType) (a : Args) : Go W Result :=
  match prepare p with
  | Err e => mret (None, Some e, [])
  | Ok criuPid =>
      deferred (swrk_body p criuPid reqType (swrk_args p a)) (λ _, mret (cleanup p))
  end.

Definition doSwrk (p : Peer) (reqType : CriuReqType) (a : Args) : Go W (gores CriuResp) :=
  r ← doSwrkWithResp p reqType a;
  let '(resp, err, _) := r in
  mret (match err, resp with
        | Some e, _ => Err e
        | None, Some resp =>
            if negb (bool_decide (RespType resp = reqType))
            then Err (Errorf "unexpected CRIU RPC response") else Ok resp
        | None, None => Err (Errorf "unexpected CRIU RPC response")
        end).

Definition Dump (p : Peer) (opts : CriuOpts) (nfy : Notify W) : Go W (gores CriuResp) :=
  doSwrk p DUMP (WithOpts opts (Some nfy)).

Definition Restore (p : Peer) (opts : CriuOpts) (nfy : Notify W) : Go W (gores CriuResp) :=
  doSwrk p RESTORE (WithOpts opts (Some nfy)).

(** [GetCriuVersion]: Major * 10000 + Minor * 100 + SubLevel on int32, a
    development build counting as the next minor version. *)
Definition version_number (v : CriuVersion) : Z :=
  let version := int32 (MajorNumber v * 10000) in
  let version := int32 (version + int32 (MinorNumber v * 100)) in
  let version := if bool_decide (Sublevel v = 0%Z) then version
                 else int32 (version + Sublevel v) in
  if bool_decide (Gitid v = "") then version
  else
    let version := int32 (version - Z.rem version 100) in
    int32 (version + 100).

Definition GetCriuVersion (p : Peer) : Go W (gores Z) :=
  r ← doSwrkWithResp p VERSION NoOpts;
  let '(resp, err, _) := r in
  mret (match err, resp with
        | Some e, _ => Err e
        | None, Some resp =>
            if negb (bool_decide (RespType resp = VERSION))
            then Err (Errorf "unexpected CRIU RPC response")
            else Ok (version_number (RespVersion resp))
        | None, None => Err (Errorf "unexpected CRIU RPC response")
        end).

Definition IsCriuAtLeast (p : Peer) (version : Z) : Go W (gores bool) :=
  r ← GetCriuVersion p;
  mret (match r with Err e => Err e | Ok v => Ok (bool_decide (version <= v)%Z) end).

(** ** The loop *)

Definition is_ack (r : CriuReq) : Prop := ReqType r = NOTIFY ∧ NotifySuccess r = true.

(** A round trip that brought a successful notification. *)
Definition notifies (x : Exchange) : Prop :=
  ∃ r, sendAndRecv x = Ok r ∧ Success r = true ∧ RespType r = NOTIFY.

(** A round trip after which the loop ends whatever the callbacks do. *)
Definition terminal (x : Exchange) : bool :=
  match sendAndRecv x with
  | Err _ => true
  | Ok r => negb (Success r) || negb (bool_decide (RespType r = NOTIFY))
  end.

(** Every hook of [n] the loop can call returns. *)
Definition hooks_return (n : Notify W) : Prop :=
  ∀ opts resp, returns (serve n opts resp).

Lemma swrk_loop_acks nfy req resps sent resp sent' w w' :
  swrk_loop nfy req resps sent w = Some ((resp, None, sent'), w') →
  ∃ acks x final,
    sent' = sent ++ req :: acks ∧ Forall is_ack acks ∧
    Forall notifies (take (length acks) resps) ∧
    resps !! length acks = Some x ∧ sendAndRecv x = Ok final ∧
    Success final = true ∧ RespType final ≠ NOTIFY ∧ resp = Some final.
Proof.
  revert req sent w. induction resps as [|x resps IH]; intros req sent w; [done|].
  cbn [swrk_loop]. destruct (sendAndRecv x) as [r|e] eqn:Hx; [|intros H; inv_go].
  destruct (Success r) eqn:Hs; simpl; [|intros H; inv_go].
  case_bool_decide as Ht; simpl.
  - destruct nfy as [[opts n]|]; [|intros H; inv_go]. intros H.
    apply Go_bind_Some in H as (v & w1 & Hserve & H). destruct v; inv_go.
    apply IH in H as (acks & y & final & -> & Ha & Hn & Hy & H).
    exists (mkReq NOTIFY None true external :: acks), y, final. simpl.
    split; [by rewrite -app_assoc|]. split; [by constructor|].
    split; [|done]. constructor; [|done]. by exists r.
  - intros H. inv_go. exists [], x, r. simpl. by repeat split.
Qed.

Lemma swrk_loop_returns nfy req resps sent :
  match nfy with None => True | Some (_, n) => hooks_return n end →
  Exists (λ x, terminal x = true) resps →
  returns (swrk_loop nfy req resps sent).
Proof.
  intros Hn Hex. revert req sent.
  induction resps as [|x resps IH]; intros req sent; [by inversion Hex|].
  cbn [swrk_loop]. destruct (sendAndRecv x) as [r|e] eqn:Hx; [|apply returns_ret].
  destruct (Success r) eqn:Hs; simpl; [|apply returns_ret].
  case_bool_decide as Ht; simpl; [|apply returns_ret].
  apply Exists_cons in Hex as [Hterm|Hex].
  { rewrite /terminal Hx Hs bool_decide_true in Hterm; done. }
  destruct nfy as [[opts n]|]; [|apply returns_ret].
  apply returns_bind; [apply Hn|]. intros [external| |]; try apply returns_ret.
  by apply IH.
Qed.

Lemma deferred_Some (m : Go W Result) d w r w' :
  deferred m d w = Some (r, w') ↔
  ∃ resp e sent w1 e', m w = Some ((resp, e, sent), w1) ∧ d e w1 = Some (e', w') ∧
    r = (resp, match e' with None => e | Some _ => errors_Join [e; e'] end, sent).
Proof.
  rewrite /deferred Go_bind_Some. split.
  - intros (((resp & e) & sent) & w1 & Hm & Hd).
    apply Go_bind_Some in Hd as (e' & w2 & Hd & Hr). inv_go. naive_solver.
  - intros (resp & e & sent & w1 & e' & Hm & Hd & ->).
    exists (resp, e, sent), w1. split; [done|]. apply Go_bind_Some. eauto.
Qed.

(** Rule for an invariant of the state: what the hooks the loop calls keep,
    the loop keeps. *)
Lemma swrk_loop_invariant (I : W → Prop) opts n req resps sent r w w' :
  (∀ resp w v w', I w → serve n opts resp w = Some (v, w') → I w') →
  I w → swrk_loop (Some (opts, n)) req resps sent w = Some (r, w') → I w'.
Proof.
  intros Hserve. revert req sent w. induction resps as [|x resps IH]; intros req sent w Hw; [done|].
  cbn [swrk_loop]. destruct (sendAndRecv x) as [rr|e]; [|intros H; by inv_go].
  destruct (Success rr); simpl; [|intros H; by inv_go].
  case_bool_decide as Ht; simpl; [|intros H; by inv_go]. intros H.
  apply Go_bind_Some in H as (v & w1 & Hs & H). apply Hserve in Hs; [|done].
  destruct v; [by eapply IH|by inv_go|by inv_go].
Qed.

(** Rule for an invariant that may be lost when a hook fails: [I] holds as
    long as the notifications are acknowledged, [J] after a failure. *)
Lemma swrk_loop_rule (I J : W → Prop) opts n req resps sent resp err sent' w w' :
  (∀ r w v w', I w → serve n opts r w = Some (v, w') →
     match v with Acked _ => I w' | _ => J w' end) →
  I w → swrk_loop (Some (opts, n)) req resps sent w = Some ((resp, err, sent'), w') →
  match err with None => I w' | Some _ => I w' ∨ J w' end.
Proof.
  intros Hserve. revert req sent w. induction resps as [|x resps IH]; intros req sent w Hw; [done|].
  cbn [swrk_loop]. destruct (sendAndRecv x) as [rr|e]; [|intros H; inv_go; by left].
  destruct (Success rr); simpl; [|intros H; inv_go; by left].
  case_bool_decide as Ht; simpl; [|intros H; by inv_go]. intros H.
  apply Go_bind_Some in H as (v & w1 & Hs & H). apply Hserve in Hs; [|done].
  destruct v; [by eapply IH|inv_go; by right..].
Qed.

(** What a hook makes of the two assertions of [swrk_loop_rule]. *)
Definition keeps (I J : W → Prop) (h : Go W (option error)) : Prop :=
  ∀ w r w', I w → h w = Some (r, w') → match r with None => I w' | Some _ => J w' end.

Lemma keeps_nil I J label : keeps I J (call_hook label None).
Proof. intros w r w' Hw. rewrite /call_hook. intros H. by inv_go. Qed.

Lemma keeps_hook I J label h : keeps I J h → keeps I J (call_hook label (Some h)).
Proof.
  intros Hh w r w' Hw. rewrite /call_hook. intros (e & w1 & Hrun & Hr)%Go_bind_Some.
  apply Hh in Hrun; [|done]. destruct e; by inv_go.
Qed.

(** The rule for a callback that hooks neither of the two notifications whose
    outcome is more than an error. *)
Lemma serve_callback_rule (I J : W → Prop) (n : NotifyCallback W) opts r w v w' :
  OrphanPtsMasterFunc n = None → QueryExtFilesFunc n = None →
  (∀ w, I w → J w) →
  Forall (λ label_h, keeps I J (call_hook (fst label_h) (snd label_h)))
    [("pre-dump callback", (λ f, f opts) <$> PreDumpFunc n);
     ("post-dump callback", (λ f, f opts) <$> PostDumpFunc n);
     ("pre-restore callback", (λ f, f opts) <$> PreRestoreFunc n);
     ("post-restore callback", (λ f, f (NotifyPid r)) <$> PostRestoreFunc n);
     ("network-lock callback", NetworkLockFunc n);
     ("network-unlock callback", NetworkUnlockFunc n);
     ("setup-namespaces callback", (λ f, f (NotifyPid r)) <$> SetupNamespacesFunc n);
     ("post-setup-namespaces callback", PostSetupNamespacesFunc n);
     ("pre-resume callback", PreResumeFunc n);
     ("post-resume callback", PostResumeFunc n);
     ("skip-namespaces callback", (λ f, f (NotifyPid r)) <$> SkipNamespacesFunc n)] →
  I w → serve (callback_notify n) opts r w = Some (v, w') →
  match v with Acked _ => I w' | _ => J w' end.
Proof.
  intros Ho Hq HIJ Hk Hw. repeat (apply Forall_cons_1 in Hk as [? Hk]).
  rewrite /serve. repeat case_bool_decide; simpl;
    try (intros (e & w1 & Hrun & Hr)%Go_bind_Some;
         match goal with K : keeps _ _ _ |- _ =>
           let G := fresh in pose proof (K _ _ _ Hw Hrun) as G; destruct e; by inv_go end).
  - rewrite /NotifyCallback_QueryExtFiles Hq. intros Hrun. by inv_go.
  - rewrite /NotifyCallback_OrphanPtsMaster Ho /=. destruct (OobFd r); intros Hrun; inv_go; auto.
  - intros Hrun. by inv_go.
Qed.
End swrk.

Arguments Args : clear implicits.

(** ** Properties *)

(** C19: The callbacks of a dump are finalised exactly when they were
    initialised.  Either starting or initialising fails, then nothing is sent
    to CRIU, an error is returned and [FinalizeDump] does not run; or both
    initialisations succeed, the loop runs, and [FinalizeDump] then runs once,
    on the state the loop left and with the error it ended with, its own
    error being joined to the result. *)
Theorem finalize_iff_initialized {W} (p : Peer) (criuPid : Z) (opts : CriuOpts)
    (n : Notify W) resp err sent w w' :
  swrk_body p criuPid DUMP (WithOpts opts (Some n)) w = Some ((resp, err, sent), w') →
  (is_Some err ∧ sent = [] ∧
     ((∃ e, Initialize n criuPid w = Some (Some e, w')) ∨
      (∃ e w1, Initialize n criuPid w = Some (None, w1) ∧
               InitializeDump n opts w1 = Some (Some e, w')))) ∨
  (∃ w1 w2 w3 e0 ef,
     Initialize n criuPid w = Some (None, w1) ∧
     InitializeDump n opts w1 = Some (None, w2) ∧
     swrk_loop (Some (opts, n)) (mkReq DUMP (Some opts) false None) (answers p) [] w2 =
       Some ((resp, e0, sent), w3) ∧
     FinalizeDump n opts e0 w3 = Some (ef, w') ∧
     err = match ef with None => e0 | Some _ => errors_Join [e0; ef] end).
Proof.
  rewrite /swrk_body /=. intros H.
  apply Go_bind_Some in H as ([e|] & w1 & Hi & H); [inv_go; naive_solver|].
  apply Go_bind_Some in H as ([e|] & w2 & Hd & H); [inv_go; naive_solver|].
  apply deferred_Some in H as (resp' & e0 & sent' & w3 & ef & Hl & Hf & Hr).
  simplify_eq. right. naive_solver.
Qed.

(** On success the exchange is one request followed by one
    acknowledgement per notification: every notification CRIU sent was served
    and acknowledged before the next message was read, and the message that
    ended the loop is a successful one that is not a notification. *)
Theorem exchange_acks_every_notification {W} nfy req (p : Peer) resp sent (w w' : W) :
  swrk_loop nfy req (answers p) [] w = Some ((resp, None, sent), w') →
  ∃ acks x final,
    sent = req :: acks ∧ Forall is_ack acks ∧
    Forall notifies (take (length acks) (answers p)) ∧
    answers p !! length acks = Some x ∧ sendAndRecv x = Ok final ∧
    Success final = true ∧ RespType final ≠ NOTIFY ∧ resp = Some final.
Proof. apply (swrk_loop_acks nfy req (answers p) []). Qed.

(** C37: The exchange terminates: when every hook returns and CRIU eventually
    answers with something other than a successful notification (or the
    socket fails), [doSwrkWithResp] of a dump or restore returns, provided
    initialisation and finalisation do. *)
Theorem doSwrkWithResp_returns {W} (p : Peer) reqType (opts : CriuOpts) (n : Notify W) :
  reqType = DUMP ∨ reqType = RESTORE →
  hooks_return n →
  (∀ pid, returns (Initialize n pid)) →
  (∀ o, returns (InitializeDump n o)) → (∀ o, returns (InitializeRestore n o)) →
  (∀ o e, returns (FinalizeDump n o e)) → (∀ o e, returns (FinalizeRestore n o e)) →
  Exists (λ x, terminal x = true) (answers p) →
  returns (doSwrkWithResp p reqType (WithOpts opts (Some n))).
Proof.
  intros Hty Hh Hi Hid Hir Hfd Hfr Hex. rewrite /doSwrkWithResp.
  destruct (prepare p) as [pid|e]; [|apply returns_ret].
  apply returns_bind; [|intros [[??]?]; apply returns_bind; [apply returns_ret|intros ?; apply returns_ret]].
  rewrite /swrk_body /=. apply returns_bind; [done|]. intros [e|]; [apply returns_ret|].
  destruct Hty as [->| ->]; (apply returns_bind; [done|]; intros [e|]; [apply returns_ret|]);
    (apply returns_bind; [by apply swrk_loop_returns|]; intros [[??]?];
     apply returns_bind; [done|]; intros ?; apply returns_ret).
Qed.

(** A callback that fails while serving a notification aborts the
    operation with its error and no acknowledgement is sent to CRIU, which can
    then undo its work; this holds for every notification but
    [orphan-pts-master], whose callback error is lost: [serve] acknowledges it
    as if the callback had succeeded. *)
Theorem hook_errors_abort {W} (n : Notify W) opts x resps req sent r w w' :
  sendAndRecv x = Ok r → Success r = true → RespType r = NOTIFY →
  (∀ e, serve n opts r w = Some (Failed e, w') →
     swrk_loop (Some (opts, n)) req (x :: resps) sent w =
       Some ((Some r, Some e, sent ++ [req]), w')) ∧
  (∀ fd e, Script r = "orphan-pts-master" → OobFd r = Ok fd →
     OrphanPtsMaster n fd w = Some (Some e, w') →
     serve n opts r w = Some (Acked None, w')).
Proof.
  intros Hx Hs Ht. split.
  - intros e He. cbn [swrk_loop]. rewrite Hx Hs Ht /=. apply Go_bind_Some. by eexists _, _.
  - intros fd e Hsc Hfd Ho. rewrite /serve Hsc /= Hfd. apply Go_bind_Some. by eexists _, _.
Qed.

(** Version numbers compare like versions: for released versions whose
    minor and sub-level numbers are below 100, [GetCriuVersion] orders two
    versions exactly as their (major, minor, sub-level) triples. *)
Theorem version_number_order (v1 v2 : CriuVersion) :
  (∀ v, v = v1 ∨ v = v2 →
     (0 <= MajorNumber v <= 200000 ∧ 0 <= MinorNumber v < 100 ∧ 0 <= Sublevel v < 100)%Z ∧
     Gitid v = "") →
  (version_number v1 < version_number v2)%Z ↔
  (MajorNumber v1 < MajorNumber v2 ∨
   MajorNumber v1 = MajorNumber v2 ∧
     (MinorNumber v1 < MinorNumber v2 ∨
      MinorNumber v1 = MinorNumber v2 ∧ Sublevel v1 < Sublevel v2))%Z.
Proof.
  intros H.
  assert (∀ v, v = v1 ∨ v = v2 → version_number v =
    (MajorNumber v * 10000 + MinorNumber v * 100 + Sublevel v)%Z) as Hv.
  { intros v Hin. destruct (H v Hin) as [Hb Hg]. rewrite /version_number Hg /=.
    rewrite !(int32_id (MajorNumber v * 10000)); [lia|].
    rewrite !(int32_id (MinorNumber v * 100)); [lia|].
    rewrite !(int32_id (_ * 10000 + _)); [lia|].
    case_bool_decide; [lia|]. rewrite int32_id; lia. }
  destruct (H v1 (or_introl eq_refl)), (H v2 (or_intror eq_refl)).
  rewrite (Hv v1 (or_introl eq_refl)) (Hv v2 (or_intror eq_refl)). lia.
Qed.

(** *** Witnesses: callbacks that log their name, some of which fail *)

Definition log_hook (failing : string → bool) (s : string) : Go (list string) (option error) :=
  λ w, Some (if failing s then Some (Errorf s) else None, w ++ [s]).

Definition log_notify (failing : string → bool) : Notify (list string) :=
  let h := log_hook failing in
  mkNotify (λ _, h "initialize") (λ _, h "initialize-dump") (λ _, h "initialize-restore")
    (λ _ _, h "finalize-dump") (λ _ _, h "finalize-restore") (λ _, h "pre-dump")
    (λ _, h "post-dump") (λ _, h "pre-restore") (λ _, h "post-restore")
    (h "network-lock") (h "network-unlock") (λ _, h "setup-namespaces")
    (h "post-setup-namespaces") (λ _, h "skip-namespaces") (h "pre-resume")
    (h "post-resume") (λ _, h "orphan-pts-master")
    (λ w, Some (Ok ["file[1:2]"], w ++ ["query-ext-files"])).

Definition sample_resp (t : CriuReqType) (script : string) : CriuResp :=
  mkResp t true "" 0 script 42 (Ok 5%Z) 0 (mkVersion 4 0 0 "").

Definition sample_peer : Peer :=
  mkPeer (Ok 7%Z)
    [exchange_ok (sample_resp NOTIFY "pre-dump");
     exchange_ok (sample_resp NOTIFY "query-ext-files");
     exchange_ok (sample_resp DUMP "")] None true.

Definition sample_opts : CriuOpts := mkCriuOpts "/dump" false false 42 true false.

Definition sample_sent : list CriuReq :=
  [mkReq DUMP (Some sample_opts) false None; mkReq NOTIFY None true None;
   mkReq NOTIFY None true (Some ["file[1:2]"])].

Lemma finalize_iff_initialized_witness :
  ∃ w1 w2 w3 e0 ef,
    Initialize (log_notify (λ _, false)) 7%Z [] = Some (None, w1) ∧
    InitializeDump (log_notify (λ _, false)) sample_opts w1 = Some (None, w2) ∧
    swrk_loop (Some (sample_opts, log_notify (λ _, false)))
      (mkReq DUMP (Some sample_opts) false None) (answers sample_peer) [] w2 =
      Some ((Some (sample_resp DUMP ""), e0, sample_sent), w3) ∧
    FinalizeDump (log_notify (λ _, false)) sample_opts e0 w3 =
      Some (ef, ["initialize"; "initialize-dump"; "pre-dump"; "query-ext-files"; "finalize-dump"]) ∧
    None = match ef with None => e0 | Some _ => errors_Join [e0; ef] end.
Proof.
  destruct (finalize_iff_initialized sample_peer 7%Z sample_opts (log_notify (λ _, false))
    (Some (sample_resp DUMP "")) None sample_sent []
    ["initialize"; "initialize-dump"; "pre-dump"; "query-ext-files"; "finalize-dump"] eq_refl)
    as [(H & _)|H]; [by destruct H|exact H].
Defined.

Lemma exchange_acks_witness :
  ∃ acks x final,
    sample_sent = mkReq DUMP (Some sample_opts) false None :: acks ∧ Forall is_ack acks ∧
    Forall notifies (take (length acks) (answers sample_peer)) ∧
    answers sample_peer !! length acks = Some x ∧ sendAndRecv x = Ok final ∧
    Success final = true ∧ RespType final ≠ NOTIFY ∧
    Some (sample_resp DUMP "") = Some final.
Proof.
  exact (exchange_acks_every_notification (Some (sample_opts, log_notify (λ _, false)))
    (mkReq DUMP (Some sample_opts) false None) sample_peer (Some (sample_resp DUMP ""))
    sample_sent [] ["pre-dump"; "query-ext-files"] eq_refl).
Defined.

Lemma serve_log_returns failing : hooks_return (log_notify failing).
Proof.
  intros opts resp w. rewrite /serve. repeat case_bool_decide; simpl; try by eexists.
  destruct (OobFd resp); by eexists.
Qed.

Lemma doSwrkWithResp_returns_witness :
  returns (doSwrkWithResp sample_peer DUMP
    (WithOpts sample_opts (Some (log_notify (λ _, false))))).
Proof.
  apply (doSwrkWithResp_returns sample_peer DUMP sample_opts (log_notify (λ _, false))).
  - by left.
  - apply serve_log_returns.
  - intros pid w. by eexists.
  - intros o w. by eexists.
  - intros o w. by eexists.
  - intros o e w. by eexists.
  - intros o e w. by eexists.
  - apply Exists_exists. exists (exchange_ok (sample_resp DUMP "")). split; [|reflexivity].
    simpl. auto.
Defined.

Definition fails_at (s : string) : string → bool := λ t, bool_decide (s = t).

Lemma hook_errors_abort_witness :
  swrk_loop (Some (sample_opts, log_notify (fails_at "pre-dump")))
    (mkReq DUMP None false None) [exchange_ok (sample_resp NOTIFY "pre-dump")] [] [] =
    Some ((Some (sample_resp NOTIFY "pre-dump"), Some (Errorf "pre-dump"),
           [mkReq DUMP None false None]), ["pre-dump"]) ∧
  serve (log_notify (fails_at "orphan-pts-master")) sample_opts
    (sample_resp NOTIFY "orphan-pts-master") [] = Some (Acked None, ["orphan-pts-master"]).
Proof.
  split.
  - apply (hook_errors_abort (log_notify (fails_at "pre-dump")) sample_opts
      (exchange_ok (sample_resp NOTIFY "pre-dump")) [] (mkReq DUMP None false None) []
      (sample_resp NOTIFY "pre-dump") [] ["pre-dump"] eq_refl eq_refl eq_refl).
    reflexivity.
  - refine (proj2 (hook_errors_abort (log_notify (fails_at "orphan-pts-master")) sample_opts
      (exchange_ok (sample_resp NOTIFY "orphan-pts-master")) [] (mkReq DUMP None false None) []
      (sample_resp NOTIFY "orphan-pts-master") [] ["orphan-pts-master"]
      eq_refl eq_refl eq_refl) 5%Z (Errorf "orphan-pts-master") _ _ _); reflexivity.
Defined.

Lemma version_number_order_witness :
  (version_number (mkVersion 3 16 1 "") < version_number (mkVersion 4 0 0 ""))%Z.
Proof.
  apply (version_number_order (mkVersion 3 16 1 "") (mkVersion 4 0 0 "")).
  - intros v [->| ->]; simpl; split; try done; lia.
  - left. simpl. lia.
Defined.

End Swrk.
