(* ===== verification/Compression.v ===== *)
(** * Compression formats (pkg/io/compression.go)

    The table of supported formats, the writer and reader chosen for a format,
    and the file extension that carries the format from a dump to a restore.
    The algorithms themselves are a [Codecs] instance: what the constructors
    of [lz4], [compress/gzip] and [compress/zlib] promise is that a reader
    undoes the matching writer, and that a stream starts with a header. *)

From S2P Require Import Prelude GoLib.
Import GoLib.

Module Compression.

(** An [io.Reader]: the bytes it delivers and the error it ends with, [None]
    being [io.EOF]. *)
Record Reader := mkReader { rbytes : string; rerr : option error }.

Definition eof (data : string) : Reader := mkReader data None.

(** [lz4.NewReader] cannot fail, [gzip.NewReader] and [zlib.NewReader] read a
    header and can.  A writer maps what was written to it, once closed, to
    what reaches the underlying writer. *)
Class Codecs := {
  lz4_NewWriter : string → string;
  lz4_NewReader : Reader → Reader;
  gzip_NewWriter : string → string;
  gzip_NewReader : Reader → gores Reader;
  zlib_NewWriter : string → string;
  zlib_NewReader : Reader → gores Reader;
  lz4_roundtrip : ∀ s, lz4_NewReader (eof (lz4_NewWriter s)) = eof s;
  gzip_roundtrip : ∀ s, gzip_NewReader (eof (gzip_NewWriter s)) = Ok (eof s);
  zlib_roundtrip : ∀ s, zlib_NewReader (eof (zlib_NewWriter s)) = Ok (eof s);
  lz4_header : ∀ s, lz4_NewWriter s ≠ "";
  gzip_header : ∀ s, gzip_NewWriter s ≠ "";
  zlib_header : ∀ s, zlib_NewWriter s ≠ "";
}.

Definition SUPPORTED_COMPRESSIONS : list string :=
  [""; "none"; "tar"; "gzip"; "gz"; "lz4"; "zlib"].

Definition supported (c : string) : bool := bool_decide (c ∈ SUPPORTED_COMPRESSIONS).

Definition unsupported (f : string) : error := Errorf ("Unsupported compression format: " +:+ f).

(** The writer returned for a format: its encoding, and whether a worker
    behind a pipe does the writing ([asyncStackCloser]). *)
Record Writer := mkWriter { wencode : string → string; wasync : bool }.

Definition NewCompressionWriter `{Codecs} (compression : string) : gores Writer :=
  if decide (compression = "lz4") then Ok (mkWriter lz4_NewWriter false)
  else if decide (compression = "gzip" ∨ compression = "gz") then Ok (mkWriter gzip_NewWriter false)
  else if decide (compression = "zlib") then Ok (mkWriter zlib_NewWriter false)
  else if decide (compression = "tar" ∨ compression = "none" ∨ compression = "")
       then Ok (mkWriter id false)
  else Err (unsupported compression).

Definition NewOptimizedCompressionWriter `{Codecs} (compression : string) (isFuse : bool)
    : gores Writer :=
  if negb isFuse then NewCompressionWriter compression
  else Ok (mkWriter
    (if decide (compression = "lz4") then lz4_NewWriter
     else if decide (compression = "gzip" ∨ compression = "gz") then gzip_NewWriter
     else id) true).

Definition NewCompressionReader `{Codecs} (reader : Reader) (compression : string)
    : gores Reader :=
  if decide (compression = "lz4") then Ok (lz4_NewReader reader)
  else if decide (compression = "gzip" ∨ compression = "gz") then gzip_NewReader reader
  else if decide (compression = "zlib") then zlib_NewReader reader
  else if decide (compression = "tar" ∨ compression = "none" ∨ compression = "")
       then Ok reader
  else Err (unsupported compression).

Definition CompressionFromExt (path : string) : gores string :=
  let ext := Ext path in
  if decide (ext = ".lz4") then Ok "lz4"
  else if decide (ext = ".gz" ∨ ext = ".gzip") then Ok "gzip"
  else if decide (ext = ".zlib") then Ok "zlib"
  else if decide (ext = ".tar") then Ok "tar"
  else if decide (ext = "") then Ok "none"
  else Err (unsupported ext).

Definition ExtForCompression (compression : string) : gores string :=
  if decide (compression = "lz4") then Ok ".lz4"
  else if decide (compression = "gzip") then Ok ".gz"
  else if decide (compression = "zlib") then Ok ".zlib"
  else if decide (compression = "tar" ∨ compression = "none" ∨ compression = "") then Ok ""
  else Err (unsupported compression).

(** [asyncStackCloser.Close], given the errors of closing the compressor, of
    flushing the buffer and of the worker. *)
Definition asyncStackCloser_Close (closeErr flushErr workerErr : option error)
    : option error :=
  let err := match flushErr, closeErr with Some e, None => Some e | _, _ => closeErr end in
  match err with None => workerErr | Some _ => err end.

(** ** The extension identifies the format *)

(** The formats an extension exists for, by the extension. *)
Lemma ExtForCompression_Ok c ext :
  ExtForCompression c = Ok ext →
  (c = "lz4" ∧ ext = ".lz4") ∨ (c = "gzip" ∧ ext = ".gz") ∨ (c = "zlib" ∧ ext = ".zlib") ∨
  (c ∈ ["tar"; "none"; ""] ∧ ext = "").
Proof.
  rewrite /ExtForCompression. repeat case_decide; intros [= <-]; auto 10.
  do 3 right. split; [|done]. set_solver.
Qed.

Lemma CompressionFromExt_dumped base c ext :
  ExtForCompression c = Ok ext →
  CompressionFromExt (base +:+ ".tar" +:+ ext) = Ok (if decide (c ∈ ["tar"; "none"; ""]) then "tar" else c).
Proof.
  intros Hext. rewrite /CompressionFromExt.
  destruct (ExtForCompression_Ok _ _ Hext) as [[-> ->]|[[-> ->]|[[-> ->]|[Hc ->]]]].
  - by rewrite -append_assoc (Ext_append _ "lz4").
  - by rewrite -append_assoc (Ext_append _ "gz").
  - by rewrite -append_assoc (Ext_append _ "zlib").
  - rewrite append_nil_r (Ext_append _ "tar") //=. by rewrite decide_True.
Qed.

Lemma reader_undoes_writer `{Codecs} c ext w data :
  ExtForCompression c = Ok ext → NewCompressionWriter c = Ok w →
  NewCompressionReader (eof (wencode w data))
    (if decide (c ∈ ["tar"; "none"; ""]) then "tar" else c) = Ok (eof data).
Proof.
  intros Hext. destruct (ExtForCompression_Ok _ _ Hext) as [[-> ->]|[[-> ->]|[[-> ->]|[Hc ->]]]];
    rewrite /NewCompressionWriter /NewCompressionReader /=.
  - intros [= <-] => /=. by rewrite lz4_roundtrip.
  - intros [= <-] => /=. by rewrite gzip_roundtrip.
  - intros [= <-] => /=. by rewrite zlib_roundtrip.
  - rewrite (decide_True (P := c ∈ _)) //.
    assert (c = "tar" ∨ c = "none" ∨ c = "") as [-> | [-> | ->]] by set_solver;
      by intros [= <-].
Qed.

Lemma wencode_nonempty `{Codecs} c w data :
  NewCompressionWriter c = Ok w → data ≠ "" → wencode w data ≠ "".
Proof.
  rewrite /NewCompressionWriter. intros Hw Hd. repeat case_decide; simplify_eq/=;
    auto using lz4_header, gzip_header, zlib_header.
Qed.

End Compression.
