(* ===== verification/Files.v ===== *)
(** * Files and tarballs (pkg/io/misc.go)

    The part of a file system the checkpoint storage works on, and [Tar] and
    [Untar], with the errors a destination can raise while it is written.
    The byte format of [archive/tar] is a [TarFormat] instance: reading what
    was written gives the headers and contents back, and no archive is empty. *)

From Stdlib Require Import Ascii.
From stdpp Require Import sorting.
From S2P Require Import Prelude GoLib Compression.
Import GoLib Compression.

Module Files.

#[local] Arguments String.append : simpl nomatch.

(** ** The file system *)

(** A file is named by the elements of its cleaned absolute path. *)
Abbreviation path := (list string).

Inductive special := Symlink | Socket | Fifo | Device.

Inductive node := Dir | Reg (data : string) | Special (k : special).

#[export] Instance special_eq_dec : EqDecision special.
Proof. solve_decision. Defined.
#[export] Instance node_eq_dec : EqDecision node.
Proof. solve_decision. Defined.

Abbreviation FS := (gmap path node).

Definition resolve (p : string) : path := clean_elems true (Split p slash).

Definition parent (p : path) : path := take (pred (length p)) p.

Definition is_dir (fs : FS) (p : path) : bool :=
  match fs !! p with Some Dir => true | _ => false end.

Definition os_error (op : string) (p : path) (what : string) : error :=
  Errorf (op +:+ " /" +:+ StrJoin p "/" +:+ ": " +:+ what).

(** [os.Mkdir] *)
Definition Mkdir (p : path) (fs : FS) : gores FS :=
  match fs !! p with
  | Some _ => Err (os_error "mkdir" p "file exists")
  | None => if is_dir fs (parent p) then Ok (<[p := Dir]> fs)
            else Err (os_error "mkdir" p "no such file or directory")
  end.

(** [os.MkdirAll]: makes [done ++ todo] given that [done] is a directory. *)
Fixpoint MkdirAll_from (done todo : path) (fs : FS) : gores FS :=
  match todo with
  | [] => Ok fs
  | c :: todo' =>
      let p := done ++ [c] in
      match fs !! p with
      | Some Dir => MkdirAll_from p todo' fs
      | Some _ => Err (os_error "mkdir" p "not a directory")
      | None => MkdirAll_from p todo' (<[p := Dir]> fs)
      end
  end.

Definition MkdirAll (p : path) (fs : FS) : gores FS := MkdirAll_from [] p fs.

(** [os.Create]: truncates or creates a regular file. *)
Definition Create (p : path) (fs : FS) : gores FS :=
  match fs !! p with
  | Some Dir => Err (os_error "open" p "is a directory")
  | Some (Special _) => Err (os_error "open" p "not a regular file")
  | Some (Reg _) => Ok (<[p := Reg ""]> fs)
  | None => if is_dir fs (parent p) then Ok (<[p := Reg ""]> fs)
            else Err (os_error "open" p "no such file or directory")
  end.

(** [os.RemoveAll] *)
Definition RemoveAll (p : path) (fs : FS) : FS :=
  filter (λ kv, ¬ p `prefix_of` kv.1) fs.

(** ** [filepath.Walk]

    The files below a directory, in lexical order, each with its path
    relative to the directory. *)
Fixpoint path_le (p q : path) : bool :=
  match p, q with
  | [], _ => true
  | _, [] => false
  | a :: p', b :: q' =>
      if decide (a = b) then path_le p' q' else bool_decide (String.le a b)
  end.

Definition walk_le (x y : path * node) : Prop := path_le x.1 y.1 = true.
#[export] Instance walk_le_dec : RelDecision walk_le := λ x y, decide (path_le x.1 y.1 = true).

Definition below (src : path) (fs : FS) : list (path * node) :=
  omap (λ kv, if decide (src `prefix_of` kv.1) then Some (drop (length src) kv.1, kv.2) else None)
    (map_to_list fs).

Definition Walk (src : path) (fs : FS) : list (path * node) := merge_sort walk_le (below src fs).

(** ** Tarballs *)

Inductive Typeflag := TypeReg | TypeDir | TypeSymlink | TypeFifo | TypeChar.

#[export] Instance Typeflag_eq_dec : EqDecision Typeflag.
Proof. solve_decision. Defined.

Record Header := mkHeader { hName : string; hTypeflag : Typeflag }.

(** [tar.FileInfoHeader], with the name then set to the relative path. *)
Definition FileInfoHeader (rel : path) (n : node) : gores Header :=
  let name := match rel with [] => "." | _ => StrJoin rel "/" end in
  match n with
  | Dir => Ok (mkHeader name TypeDir)
  | Reg _ => Ok (mkHeader name TypeReg)
  | Special Symlink => Ok (mkHeader name TypeSymlink)
  | Special Fifo => Ok (mkHeader name TypeFifo)
  | Special Device => Ok (mkHeader name TypeChar)
  | Special Socket => Err (Errorf "archive/tar: sockets not supported")
  end.

Definition content (n : node) : string := match n with Reg d => d | _ => "" end.

(** Names the format can carry: not empty and without the zero byte. *)
Definition header_ok (h : Header) : Prop :=
  hName h ≠ "" ∧ has_byte Ascii.zero (hName h) = false.

(** A tar stream read back is a list of headers, each with the reader of its
    content, and the error [Next] ends with. *)
Class TarFormat := {
  tar_write : list (Header * string) → string;
  tar_read : Reader → list (Header * Reader) * option error;
  tar_roundtrip : ∀ l, Forall (λ e, header_ok e.1) l →
    tar_read (eof (tar_write l)) = (prod_map id eof <$> l, None);
  tar_trailer : ∀ l, tar_write l ≠ "";
}.

(** What goes wrong at the destination of a tarball: nothing, a write that
    fails while more data follows, or a write that fails when the compressor
    is flushed by [Close].  Both faults leave some bytes written. *)
Inductive fault :=
| NoFault
| FailsMid (e : error) (written : string)
| FailsLast (e : error) (written : string).

(** [filepath.Walk] of a path that does not exist hands the error of [Lstat] to
    the walk function, which returns it. *)
Definition walk_root (src : path) (fs : FS) : option error :=
  match fs !! src with
  | Some _ => None
  | None => Some (os_error "lstat" src "no such file or directory")
  end.

(** The walk function of [Tar]: headers and contents up to the first error. *)
Fixpoint tar_entries (l : list (path * node)) : list (Header * string) * option error :=
  match l with
  | [] => ([], None)
  | (rel, n) :: l' =>
      match FileInfoHeader rel n with
      | Err e => ([], Some e)
      | Ok h => let '(es, err) := tar_entries l' in ((h, content n) :: es, err)
      end
  end.

(** [Tar]: what it returns and what the destination holds then.  The errors
    of the deferred [Close] calls are dropped.  Behind a pipe a failed write
    ends the worker without closing the read end, so that the next write to
    the pipe never returns. *)
Definition Tar `{Codecs, TarFormat} (fs : FS) (src : string) (compression : string)
    (isFuse : bool) (flt : fault) : option (option error * string) :=
  match NewOptimizedCompressionWriter compression isFuse with
  | Err e => Some (Some e, "")
  | Ok w =>
      let '(entries, err) :=
        match walk_root (resolve src) fs with
        | Some e => ([], Some e)
        | None => tar_entries (Walk (resolve src) fs)
        end in
      match flt with
      | NoFault => Some (err, wencode w (tar_write entries))
      | FailsMid e part => if wasync w then None else Some (Some e, part)
      | FailsLast _ part => Some (err, part)
      end
  end.

(** The loop of [Untar] over the headers of the stream. *)
Fixpoint untar_entries (dest : string) (l : list (Header * Reader)) (last : option error)
    (fs : FS) : option error * FS :=
  match l with
  | [] => (last, fs)
  | (h, body) :: l' =>
      let cleanedPath := Clean (hName h) in
      if Contains cleanedPath ".." then (Some (Errorf ("invalid file path: " +:+ cleanedPath)), fs)
      else
        let target := resolve (Join2 dest cleanedPath) in
        match hTypeflag h with
        | TypeDir =>
            match MkdirAll target fs with
            | Err e => (Some e, fs)
            | Ok fs' => untar_entries dest l' last fs'
            end
        | TypeReg =>
            match Create target fs with
            | Err e => (Some e, fs)
            | Ok fs' =>
                let fs'' := <[target := Reg (rbytes body)]> fs' in
                match rerr body with
                | Some e => (Some e, fs'')
                | None => untar_entries dest l' last fs''
                end
            end
        | _ => untar_entries dest l' last fs
        end
  end.

Definition Untar `{Codecs, TarFormat} (src : Reader) (dest : string) (compression : string)
    (fs : FS) : option error * FS :=
  match NewCompressionReader src compression with
  | Err e => (Some e, fs)
  | Ok r => let '(entries, last) := tar_read r in untar_entries dest entries last fs
  end.

(** ** Lexical paths *)

Definition plain (c : string) : Prop :=
  c ≠ "" ∧ c ≠ "." ∧ c ≠ ".." ∧ has_byte slash c = false.

Definition elems (s : string) : path := filter (λ c, c ≠ "" ∧ c ≠ ".") (Split s slash).

Lemma Split_no_sep s sep : Forall (λ c, has_byte sep c = false) (Split s sep).
Proof.
  induction s as [|x s IH]; simpl; [by repeat constructor|].
  case_bool_decide as Hx; [by constructor|].
  destruct (Split s sep) as [|c l] eqn:E; [by apply Split_nonempty in E|].
  apply Forall_cons_1 in IH as [? ?]. constructor; [|done]. simpl. by rewrite bool_decide_false.
Qed.

Lemma Split_piece s sep c : c ∈ Split s sep → ∃ a b, s = a +:+ c +:+ b.
Proof.
  induction s as [|x s IH]; simpl.
  - intros ->%list_elem_of_singleton. by exists "", "".
  - case_bool_decide.
    + intros [->|Hc]%elem_of_cons; [by exists "", (String x s)|].
      destruct (IH Hc) as (a & b & ->). by exists (String x a), b.
    + destruct (Split s sep) as [|d l] eqn:E; [by apply Split_nonempty in E|].
      intros [->|Hc]%elem_of_cons.
      * assert (∃ b, s = d +:+ b) as [b ->]; [|by exists "", b].
        clear -E. revert d l E. induction s as [|y s IHs]; simpl; intros d l E.
        { simplify_eq. by exists "". }
        case_bool_decide; simplify_eq; [by eexists|].
        destruct (Split s sep) as [|d' l']; simplify_eq; [by exists s|].
        destruct (IHs _ _ eq_refl) as [b ->]. by exists b.
      * destruct (IH ltac:(by right)) as (a & b & ->). by exists (String x a), b.
Qed.

Lemma Contains_piece a c b : Contains (a +:+ c +:+ b) c = true.
Proof.
  induction a as [|x a IH]; simpl.
  - assert (∀ s, HasPrefix s c = true → Contains s c = true) as H.
    { rewrite /HasPrefix. intros [|y s]; simpl; by intros ->. }
    apply (H (c +:+ b)), prefix_append.
  - by rewrite IH orb_true_r.
Qed.

Lemma no_dotdot_pieces s : Contains s ".." = false → Forall (λ c, c ≠ "..") (Split s slash).
Proof.
  intros Hs. apply Forall_lookup_2. intros i c Hc%list_elem_of_lookup_2 ->.
  destruct (Split_piece _ _ _ Hc) as (a & b & ->). by rewrite Contains_piece in Hs.
Qed.

(** Without [..] elements, cleaning keeps the stack and adds the elements. *)
Lemma foldl_clean_no_dotdot r st l :
  Forall (λ c, c ≠ "..") l →
  foldl (clean_step r) st l = reverse (filter (λ c, c ≠ "" ∧ c ≠ ".") l) ++ st.
Proof.
  intros Hl. revert st. induction Hl as [|c l Hc Hl IH]; intros st; simpl; [done|].
  rewrite IH /clean_step. case_decide as Hd.
  - rewrite filter_cons_False //. naive_solver.
  - rewrite decide_False // filter_cons_True; [naive_solver|].
    by rewrite reverse_cons -app_assoc.
Qed.

Lemma clean_elems_no_dotdot r l :
  Forall (λ c, c ≠ "..") l → clean_elems r l = filter (λ c, c ≠ "" ∧ c ≠ ".") l.
Proof. intros. rewrite /clean_elems foldl_clean_no_dotdot // app_nil_r reverse_involutive //. Qed.

Lemma clean_elems_plain l :
  Forall (λ c, has_byte slash c = false) l → Forall plain (clean_elems true l).
Proof.
  rewrite /clean_elems Forall_reverse. intros Hl.
  assert (∀ st, Forall plain st → Forall plain (foldl (clean_step true) st l)) as H.
  { induction Hl as [|c l Hc Hl IH]; intros st Hst; simpl; [done|]. apply IH.
    rewrite /clean_step. case_decide; [done|]. case_decide.
    - destruct Hst as [|t st Ht Hst]; [done|]. rewrite decide_False //. apply Ht.
    - constructor; [|done]. rewrite /plain. naive_solver. }
  by apply H.
Qed.

Lemma resolve_plain p : Forall plain (resolve p).
Proof. apply clean_elems_plain, Split_no_sep. Qed.

Lemma clean_elems_of_plain r l : Forall plain l → clean_elems r l = l.
Proof.
  intros Hl. rewrite clean_elems_no_dotdot.
  - eapply Forall_impl; [|done]. by intros c (?&?&?&?).
  - apply filter_all. eapply Forall_impl; [|done]. by intros c (?&?&?&?).
Qed.

Lemma plain_no_sep l : Forall plain l → Forall (λ c, has_byte slash c = false) l.
Proof. apply Forall_impl. by intros c (?&?&?&?). Qed.

Lemma resolve_join l : Forall plain l → resolve ("/" +:+ StrJoin l "/") = l.
Proof.
  intros Hl. rewrite /resolve /=.
  destruct l as [|c l]; [done|].
  rewrite Split_Join //; [by apply plain_no_sep|].
  rewrite /clean_elems /= -/(clean_elems true (c :: l)).
  by apply (clean_elems_of_plain true (c :: l)).
Qed.

Lemma resolve_Clean p : HasPrefix p "/" = true → resolve (Clean p) = resolve p.
Proof.
  intros Hp. rewrite /Clean Hp resolve_join //. apply clean_elems_plain, Split_no_sep.
Qed.

Lemma resolve_sub a s :
  Forall (λ c, c ≠ "..") (Split s slash) → resolve (a +:+ String slash s) = resolve a ++ elems s.
Proof.
  intros Hs. rewrite /resolve Split_app /clean_elems foldl_app.
  by rewrite (foldl_clean_no_dotdot _ _ (Split s slash)) // reverse_app reverse_involutive.
Qed.

(** Joining a path without [..] to a directory stays below the directory. *)
Lemma resolve_Join2 dest s :
  HasPrefix dest "/" = true → s ≠ "" → Contains s ".." = false →
  resolve (Join2 dest s) = resolve dest ++ elems s.
Proof.
  intros Hd Hs Hc. rewrite /Join2.
  destruct dest as [|x dest]; [done|].
  rewrite !filter_cons_True //=.
  rewrite resolve_Clean; [by apply (HasPrefix_append (String x dest))|].
  by apply (resolve_sub (String x dest)), no_dotdot_pieces.
Qed.

(** An element without slashes that is not [.] or [..]. *)
Lemma elems_one s : plain s → Split s slash = [s] ∧ elems s = [s].
Proof.
  intros (H1 & H2 & H3 & H4). assert (Split s slash = [s]) as Hs by by apply Split_nosep.
  split; [done|]. by rewrite /elems Hs filter_cons_True.
Qed.

Lemma resolve_Join2_one dest s :
  HasPrefix dest "/" = true → plain s → Contains s ".." = false →
  resolve (Join2 dest s) = resolve dest ++ [s].
Proof.
  intros Hd Hs Hc. rewrite resolve_Join2 //; [by apply Hs|]. by rewrite (proj2 (elems_one s Hs)).
Qed.

Lemma resolve_sub_one a s : plain s → resolve (a +:+ String slash s) = resolve a ++ [s].
Proof.
  intros Hs. destruct (elems_one s Hs) as [H1 H2]. rewrite resolve_sub.
  - rewrite H1. constructor; [apply Hs|constructor].
  - by rewrite H2.
Qed.

(** ** Extraction stays inside its directory *)

Definition dirs_to (dest : path) (fs : FS) : Prop :=
  ∀ k, k `prefix_of` dest → fs !! k = Some Dir.

(** [fs'] has the directories of [fs] and differs from it only below [dest]. *)
Definition grows_below (dest : path) (fs fs' : FS) : Prop :=
  (∀ k, fs !! k = Some Dir → fs' !! k = Some Dir) ∧
  (∀ k, ¬ dest `prefix_of` k → fs' !! k = fs !! k).

#[export] Instance grows_below_preorder dest : PreOrder (grows_below dest).
Proof.
  split; [by split|]. intros f g h [D1 S1] [D2 S2]. split; [by eauto|].
  intros k Hk. by rewrite S2 // S1.
Qed.

Lemma dirs_to_grows dest fs fs' : dirs_to dest fs → grows_below dest fs fs' → dirs_to dest fs'.
Proof. intros H [D _] k Hk. by apply D, H. Qed.

Lemma MkdirAll_from_spec todo done fs fs' :
  MkdirAll_from done todo fs = Ok fs' →
  ∀ k, fs' !! k = fs !! k ∨
    (fs !! k = None ∧ fs' !! k = Some Dir ∧ k `prefix_of` (done ++ todo)).
Proof.
  revert done fs. induction todo as [|c todo IH]; intros done fs Hm k; simpl in Hm.
  { simplify_eq. by left. }
  rewrite cons_middle app_assoc.
  destruct (fs !! (done ++ [c])) as [[]|] eqn:Hc; simplify_eq; [by apply IH|].
  destruct (decide (k = done ++ [c])) as [->|Hk].
  - right. repeat split; [done| |by apply prefix_app_r].
    destruct (IH _ _ Hm (done ++ [c])) as [Heq|(_ & ? & _)]; [|done].
    by rewrite Heq lookup_insert_eq.
  - destruct (IH _ _ Hm k) as [Heq|(Heq & ? & ?)]; rewrite lookup_insert_ne // in Heq; auto.
Qed.

Lemma MkdirAll_grows dest rel fs fs' :
  dirs_to dest fs → MkdirAll (dest ++ rel) fs = Ok fs' → grows_below dest fs fs'.
Proof.
  intros Hd Hm. split; intros k Hk.
  - destruct (MkdirAll_from_spec _ _ _ _ Hm k) as [->|(? & ? & _)]; congruence.
  - destruct (MkdirAll_from_spec _ _ _ _ Hm k) as [->|(HN & _ & Hp)]; [done|].
    destruct (prefix_weak_total k dest (dest ++ rel)) as [Hkd|Hkd]; [done|by apply prefix_app_r| |done].
    apply Hd in Hkd. congruence.
Qed.

Lemma Create_grows dest p data fs fs' :
  dest `prefix_of` p → Create p fs = Ok fs' → grows_below dest fs (<[p := Reg data]> fs').
Proof.
  intros Hp Hc.
  assert (fs' = <[p := Reg ""]> fs ∧ fs !! p ≠ Some Dir) as [-> HnD].
  { rewrite /Create in Hc. repeat case_match; simplify_eq; done. }
  rewrite insert_insert_eq. split; intros k Hk; rewrite lookup_insert_ne //; by intros ->.
Qed.

Lemma Clean_nonempty p : Clean p ≠ "".
Proof. rewrite /Clean. case_match; [done|]. by case_decide. Qed.

Lemma untar_entries_grows dest l last fs err fs' :
  HasPrefix dest "/" = true → dirs_to (resolve dest) fs →
  untar_entries dest l last fs = (err, fs') → grows_below (resolve dest) fs fs'.
Proof.
  intros Hd. revert fs. induction l as [|[h body] l IH]; intros fs Hdirs Hu; simpl in Hu.
  { by simplify_eq. }
  destruct (Contains (Clean (hName h)) "..") eqn:Hc; [by simplify_eq|].
  rewrite (resolve_Join2 _ _ Hd (Clean_nonempty _) Hc) in Hu.
  destruct (hTypeflag h); try by eapply IH.
  - destruct (Create _ fs) as [fs1|e] eqn:HC; [|by simplify_eq].
    eapply Create_grows in HC; [|by apply prefix_app_r].
    destruct (rerr body); [by simplify_eq|].
    etrans; [exact HC|]. eapply IH; [|done]. by eapply dirs_to_grows.
  - destruct (MkdirAll _ fs) as [fs1|e] eqn:HM; [|by simplify_eq].
    apply MkdirAll_grows in HM; [|done].
    etrans; [exact HM|]. eapply IH; [|done]. by eapply dirs_to_grows.
Qed.

(** ** Walking a tree *)

(** Names a checkpoint image has: an ordinary path element, without two
    consecutive dots. *)
Definition ok_name (c : string) : Prop :=
  (plain c ∧ has_byte Ascii.zero c = false) ∧ Contains c ".." = false.

#[export] Instance plain_dec c : Decision (plain c).
Proof. rewrite /plain. apply _. Defined.
#[export] Instance ok_name_dec c : Decision (ok_name c).
Proof. rewrite /ok_name. apply _. Defined.

Definition is_special (n : node) : bool := match n with Special _ => true | _ => false end.

(** A directory of directories and regular files with ordinary names. *)
Definition tree_ok (src : path) (fs : FS) : Prop :=
  is_dir fs src = true ∧
  map_Forall (λ k n, src `prefix_of` k → k ≠ src →
    is_dir fs (parent k) = true ∧ is_special n = false ∧
    Forall ok_name (drop (length src) k)) fs.

#[export] Instance tree_ok_dec src fs : Decision (tree_ok src fs).
Proof. rewrite /tree_ok. apply _. Defined.

Lemma is_dir_true fs p : is_dir fs p = true ↔ fs !! p = Some Dir.
Proof. rewrite /is_dir. destruct (fs !! p) as [[]|]; naive_solver. Qed.

Lemma path_le_refl p : path_le p p = true.
Proof. induction p as [|c p IH]; simpl; [done|]. by rewrite decide_True. Qed.

#[export] Instance walk_le_trans : Transitive walk_le.
Proof.
  intros [p n] [q m] [r k]. rewrite /walk_le /=. clear. revert q r.
  induction p as [|a p IH]; intros [|b q] [|c r]; simpl; try done.
  case_decide as E1; case_decide as E2; subst.
  - rewrite decide_True //. apply IH.
  - by rewrite decide_False.
  - intros. by rewrite decide_False.
  - rewrite !bool_decide_eq_true. intros H1 H2.
    case_decide as E3; subst; [|rewrite bool_decide_eq_true; by etrans].
    destruct E1. by apply (anti_symm String.le).
Qed.

#[export] Instance walk_le_total : Total walk_le.
Proof.
  intros [p n] [q m]. rewrite /walk_le /=. clear. revert q.
  induction p as [|a p IH]; intros [|b q]; simpl; auto.
  case_decide as E; subst; [by rewrite (decide_True (P := b = b))|].
  rewrite (decide_False (P := b = a)); [naive_solver|]. rewrite !bool_decide_eq_true.
  apply (total String.le).
Qed.

Lemma path_le_parent r c : path_le (r ++ [c]) r = false.
Proof. induction r as [|a r IH]; simpl; [done|]. by rewrite decide_True. Qed.

Lemma elem_of_below src fs rel n : (rel, n) ∈ below src fs ↔ fs !! (src ++ rel) = Some n.
Proof.
  rewrite /below list_elem_of_omap. setoid_rewrite elem_of_map_to_list'. split.
  - intros ([k m] & Hk & Hs). simpl in *. case_decide as Hp; simplify_eq.
    destruct Hp as [rel ->]. by rewrite drop_app_length.
  - intros Hk. exists (src ++ rel, n). split; [done|]. simpl.
    by rewrite decide_True; [apply prefix_app_r|rewrite drop_app_length].
Qed.

Lemma NoDup_below src fs : NoDup (below src fs).*1.
Proof.
  apply NoDup_fmap_2_strong.
  - intros [r1 n1] [r2 n2] H1%elem_of_below H2%elem_of_below Heq. simpl in *. by simplify_eq.
  - rewrite /below. assert (∀ l, NoDup l → (∀ kv, kv ∈ l → fs !! kv.1 = Some kv.2) →
      NoDup (omap (λ kv : path * node, if decide (src `prefix_of` kv.1)
        then Some (drop (length src) kv.1, kv.2) else None) l)) as H.
    { induction 1 as [|[k n] l Hnin Hnd IH]; intros Hl; csimpl; [constructor|].
      case_decide as Hp; [|apply IH; intros; apply Hl; by right].
      constructor; [|apply IH; intros; apply Hl; by right].
      intros ([k' n'] & Hk' & Hs)%list_elem_of_omap. simpl in *.
      case_decide as Hp'; [|done]. destruct Hp as [r ->], Hp' as [r' ->].
      rewrite !drop_app_length in Hs. by simplify_eq. }
    apply H; [apply NoDup_map_to_list|]. intros [k n]. apply elem_of_map_to_list.
Qed.

Lemma elem_of_Walk src fs rel n : (rel, n) ∈ Walk src fs ↔ fs !! (src ++ rel) = Some n.
Proof. rewrite /Walk merge_sort_Permutation. apply elem_of_below. Qed.

Lemma NoDup_Walk src fs : NoDup (Walk src fs).*1.
Proof. rewrite /Walk merge_sort_Permutation. apply NoDup_below. Qed.

Lemma Walk_map src fs rel : (list_to_map (Walk src fs) : FS) !! rel = fs !! (src ++ rel).
Proof.
  destruct (fs !! (src ++ rel)) as [n|] eqn:E.
  - apply elem_of_list_to_map; [apply NoDup_Walk|]. by apply elem_of_Walk.
  - apply not_elem_of_list_to_map. intros ([r n] & -> & Hin)%list_elem_of_fmap.
    apply elem_of_Walk in Hin. simpl in *. congruence.
Qed.

(** ** Extracting what was archived *)

Definition entry_of (x : path * node) : Header * string :=
  (mkHeader (match x.1 with [] => "." | _ => StrJoin x.1 "/" end)
     (match x.2 with Dir => TypeDir | _ => TypeReg end), content x.2).

Definition walk_ok (L : list (path * node)) (x : path * node) : Prop :=
  is_special x.2 = false ∧ Forall ok_name x.1 ∧
  ((x.1 = [] ∧ x.2 = Dir) ∨ ∃ r c, x.1 = r ++ [c] ∧ (r, Dir) ∈ L).

Lemma tar_entries_ok L l : Forall (walk_ok L) l → tar_entries l = (entry_of <$> l, None).
Proof.
  induction 1 as [|[rel n] l (Hn & _) Hl IH]; simpl; [done|].
  rewrite /FileInfoHeader IH. by destruct n.
Qed.

Lemma Walk_ok src fs : tree_ok src fs → Forall (walk_ok (Walk src fs)) (Walk src fs).
Proof.
  intros [Hroot Htree]. apply Forall_lookup_2. intros i [rel n] Hin%list_elem_of_lookup_2.
  apply elem_of_Walk in Hin. apply is_dir_true in Hroot.
  destruct rel as [|c rel _] using rev_ind.
  { rewrite app_nil_r Hroot in Hin. simplify_eq. split_and!; [done|constructor|by left]. }
  rewrite app_assoc in Hin. destruct (Htree _ _ Hin) as (Hp & Hs & Hn).
  { rewrite -app_assoc. by apply prefix_app_r. }
  { rewrite -{2}(app_nil_r src) -app_assoc. intros ?%app_inv_head. by destruct rel. }
  rewrite -app_assoc drop_app_length in Hn. split_and!; [done|done|]. right.
  exists rel, c. split; [done|]. apply elem_of_Walk, is_dir_true.
  rewrite /parent length_app Nat.add_1_r /= take_app_length in Hp. done.
Qed.

Lemma Contains_dotdot_sep a b :
  Contains (a +:+ String slash b) ".." = Contains a ".." || Contains b "..".
Proof.
  induction a as [|x a IH]; [done|].
  change (String.prefix ".." (String x (a +:+ String slash b)) ||
    Contains (a +:+ String slash b) ".." =
    (String.prefix ".." (String x a) || Contains a "..") || Contains b "..").
  rewrite IH -orb_assoc. f_equal.
  destruct a as [|y a]; cbn [String.append String.prefix]; destruct (Ascii.ascii_dec _ x); try done.
  destruct (Ascii.ascii_dec _ y); [|done]. by destruct a.
Qed.

Lemma join_ok rel :
  rel ≠ [] → Forall ok_name rel →
  Contains (StrJoin rel "/") ".." = false ∧ Clean (StrJoin rel "/") = StrJoin rel "/" ∧
  elems (StrJoin rel "/") = rel ∧ StrJoin rel "/" ≠ "" ∧
  has_byte Ascii.zero (StrJoin rel "/") = false.
Proof.
  intros Hne Hok. assert (Forall plain rel) as Hpl.
  { eapply Forall_impl; [|exact Hok]. by intros c [[? _] _]. }
  assert (Split (StrJoin rel "/") slash = rel) as Hsp.
  { apply Split_Join; [done|by apply plain_no_sep]. }
  assert (StrJoin rel "/" ≠ "" ∧ HasPrefix (StrJoin rel "/") "/" = false) as [Hn0 Hnp].
  { destruct rel as [|c rel]; [done|]. apply Forall_cons_1 in Hpl as [(Hc & _ & _ & Hsl) _].
    destruct c as [|x c]; [done|]. simpl in Hsl. apply orb_false_elim in Hsl as [Hx _].
    destruct rel as [|d rel]; (split; [done|]); rewrite /HasPrefix /=;
      case_match; [subst; by rewrite bool_decide_true in Hx|done|
                   subst; by rewrite bool_decide_true in Hx|done]. }
  split_and!.
  - clear -Hok Hne. induction Hok as [|c rel [_ Hc] Hok IH]; [done|].
    destruct rel as [|d rel]; [done|].
    change (Contains (c +:+ String slash (StrJoin (d :: rel) "/")) ".." = false).
    rewrite Contains_dotdot_sep Hc. by apply IH.
  - rewrite /Clean Hnp Hsp clean_elems_of_plain // decide_False //.
  - rewrite /elems Hsp. apply filter_all. eapply Forall_impl; [|exact Hpl].
    by intros c (? & ? & _).
  - done.
  - clear -Hok Hne. induction Hok as [|c rel [[_ Hc] _] Hok IH]; [done|].
    destruct rel as [|d rel]; [done|].
    change (has_byte Ascii.zero (c +:+ String slash (StrJoin (d :: rel) "/")) = false).
    rewrite has_byte_append Hc /=. by apply IH.
Qed.

Lemma entry_target dest x :
  HasPrefix dest "/" = true → Forall ok_name x.1 →
  Contains (Clean (hName (entry_of x).1)) ".." = false ∧
  resolve (Join2 dest (Clean (hName (entry_of x).1))) = resolve dest ++ x.1 ∧
  header_ok (entry_of x).1.
Proof.
  intros Hd Hok. destruct x as [rel n]. simpl in *. destruct rel as [|c rel].
  - change (Clean ".") with ".". by rewrite resolve_Join2.
  - destruct (join_ok (c :: rel)) as (H1 & H2 & H3 & H4 & H5); [done|done|].
    rewrite H2. split_and!; [done| |done]. by rewrite resolve_Join2 // H3.
Qed.

(** Below [D] the file system holds the tree [M] and nothing else. *)
Record holds (D : path) (M fs : FS) : Prop := {
  holds_root : dirs_to D fs;
  holds_files : ∀ rel, rel ≠ [] → fs !! (D ++ rel) = M !! rel;
  holds_dirs : ∀ rel, M !! rel = Some Dir → dirs_to (D ++ rel) fs;
}.

Lemma MkdirAll_from_dirs a b done fs :
  dirs_to (done ++ a) fs → MkdirAll_from done (a ++ b) fs = MkdirAll_from (done ++ a) b fs.
Proof.
  revert done. induction a as [|c a IH]; intros done H; simpl; [by rewrite app_nil_r|].
  rewrite H; [exists a; by rewrite -app_assoc|].
  rewrite IH -app_assoc //.
Qed.

Lemma MkdirAll_new D c fs :
  dirs_to D fs → fs !! (D ++ [c]) = None → MkdirAll (D ++ [c]) fs = Ok (<[D ++ [c] := Dir]> fs).
Proof. intros Hd Hn. rewrite /MkdirAll MkdirAll_from_dirs //= Hn //. Qed.

Lemma MkdirAll_exists D fs : dirs_to D fs → MkdirAll D fs = Ok fs.
Proof. intros Hd. rewrite /MkdirAll -{1}(app_nil_r D) MkdirAll_from_dirs //. Qed.

Lemma holds_insert D M fs r c n :
  holds D M fs → dirs_to (D ++ r) fs → M !! (r ++ [c]) = None →
  holds D (<[r ++ [c] := n]> M) (<[D ++ r ++ [c] := n]> fs).
Proof.
  intros [H1 H2 H3] Hr HM.
  assert (fs !! (D ++ r ++ [c]) = None) as HN by (rewrite H2 //; by destruct r).
  assert (∀ p, dirs_to p fs → dirs_to p (<[D ++ r ++ [c] := n]> fs)) as Hkeep.
  { intros p Hp k Hk. rewrite lookup_insert_ne; [|by apply Hp]. intros <-.
    apply Hp in Hk. congruence. }
  split.
  - by apply Hkeep.
  - intros rel Hrel. destruct (decide (rel = r ++ [c])) as [->|Hne].
    + by rewrite !lookup_insert_eq.
    + rewrite !lookup_insert_ne //; [|by apply H2]. by intros ?%app_inv_head.
  - intros rel. destruct (decide (rel = r ++ [c])) as [->|Hne].
    + rewrite lookup_insert_eq. intros [= ->] k Hk.
      destruct (decide (k = D ++ r ++ [c])) as [->|Hk']; [by rewrite lookup_insert_eq|].
      rewrite lookup_insert_ne //. apply Hr.
      rewrite app_assoc in Hk Hk'. destruct Hk as [t Ht].
      destruct t as [|d t _] using rev_ind; [by rewrite app_nil_r in Ht|].
      rewrite app_assoc in Ht. apply app_inj_tail in Ht as [-> _]. by exists t.
    + rewrite lookup_insert_ne //. intros Hd. by apply Hkeep, H3.
Qed.

(** A walk visits a directory before what is in it. *)
Lemma visited_parent L l1 (r : path) c n l2 :
  NoDup L.*1 → StronglySorted walk_le L → L = l1 ++ (r ++ [c], n) :: l2 → (r, Dir) ∈ L →
  (list_to_map l1 : FS) !! r = Some Dir.
Proof.
  intros HND Hsort HL Hr.
  apply elem_of_list_to_map; [rewrite HL fmap_app list.NoDup_app in HND; by apply HND|].
  rewrite HL in Hr Hsort. apply elem_of_app in Hr as [?|Hr]; [done|exfalso].
  apply StronglySorted_app in Hsort as (_ & _ & Hsort).
  apply elem_of_cons in Hr as [Heq|Hr].
  - apply (f_equal (length ∘ fst)) in Heq. rewrite /= length_app /= in Heq. lia.
  - apply StronglySorted_cons in Hsort as [Hall _].
    rewrite list.Forall_forall in Hall. apply Hall in Hr.
    by rewrite /walk_le /= path_le_parent in Hr.
Qed.

Lemma untar_walk dest L l2 :
  HasPrefix dest "/" = true → NoDup L.*1 → StronglySorted walk_le L → Forall (walk_ok L) L →
  ∀ l1 fs, L = l1 ++ l2 → holds (resolve dest) (list_to_map l1) fs →
  ∃ fs', untar_entries dest (prod_map id eof <$> (entry_of <$> l2)) None fs = (None, fs') ∧
    holds (resolve dest) (list_to_map L) fs'.
Proof.
  intros Hd HND Hsort Hok. induction l2 as [|[rel n] l2 IH]; intros l1 fs HL Hh.
  { exists fs. split; [done|]. by rewrite HL app_nil_r. }
  assert (walk_ok L (rel, n)) as (Hsp & Hnames & Hpar).
  { apply (Forall_lookup_1 _ _ (length l1) _ Hok). by rewrite HL list_lookup_middle. }
  simpl in Hsp, Hnames, Hpar.
  assert (rel ∉ l1.*1) as Hfresh.
  { rewrite HL fmap_app list.NoDup_app in HND. destruct HND as (_ & Hdisj & _).
    intros Hin. apply (Hdisj _ Hin). by left. }
  assert (L = (l1 ++ [(rel, n)]) ++ l2) as HL' by by rewrite -app_assoc.
  assert (list_to_map (l1 ++ [(rel, n)]) = (<[rel := n]> (list_to_map l1) : FS)) as Hmap.
  { apply list_to_map_snoc. done. }
  destruct (entry_target dest (rel, n) Hd Hnames) as (HnoDD & Htarget & _).
  rewrite !fmap_cons. cbn [untar_entries]. rewrite /prod_map /=.
  cbn [entry_of fst snd] in HnoDD, Htarget. simpl in HnoDD, Htarget. rewrite HnoDD Htarget.
  destruct Hpar as [[-> ->]|(r & c & -> & Hr)].
  - rewrite app_nil_r MkdirAll_exists; [by apply Hh|]. apply (IH _ _ HL'). rewrite Hmap.
    destruct Hh as [H1 H2 H3]. split; [done| |].
    + intros rel Hrel. rewrite lookup_insert_ne //. by apply H2.
    + intros rel. rewrite lookup_insert_Some. intros [[<- _]|[_ ?]]; [by rewrite app_nil_r|by apply H3].
  - assert ((list_to_map l1 : FS) !! r = Some Dir) as Hl1.
    { by eapply visited_parent. }
    pose proof (holds_dirs _ _ _ Hh _ Hl1) as Hdirs.
    assert ((list_to_map l1 : FS) !! (r ++ [c]) = None) as Hnone.
    { by apply not_elem_of_list_to_map. }
    assert (fs !! (resolve dest ++ r ++ [c]) = None) as HfsN.
    { rewrite (holds_files _ _ _ Hh) //. by destruct r. }
    pose proof (holds_insert _ _ _ r c n Hh Hdirs Hnone) as Hins. rewrite -Hmap in Hins.
    destruct n as [|data|]; [| |done]; simpl.
    + rewrite app_assoc MkdirAll_new //; [by rewrite -app_assoc|]. rewrite -app_assoc. by apply (IH _ _ HL').
    + rewrite /Create HfsN /parent !length_app app_assoc /= !Nat.add_assoc Nat.add_1_r /=.
      rewrite -length_app take_app_length.
      assert (is_dir fs (resolve dest ++ r) = true) as ->.
      { apply is_dir_true, Hdirs. done. }
      rewrite insert_insert_eq -app_assoc. by apply (IH _ _ HL').
Qed.

Lemma header_ok_walk L l : Forall (walk_ok L) l → Forall (λ e, header_ok e.1) (entry_of <$> l).
Proof.
  rewrite Forall_fmap. apply Forall_impl. intros x (_ & Hn & _).
  by apply (entry_target "/" x eq_refl Hn).
Qed.

(** ** Correctness of tarballs *)

Section tarballs.
Context `{Codecs, TarFormat}.

Lemma Tar_clean fs src c ext :
  ExtForCompression c = Ok ext → tree_ok (resolve src) fs →
  ∃ w, NewCompressionWriter c = Ok w ∧
    Tar fs src c false NoFault =
      Some (None, wencode w (tar_write (entry_of <$> Walk (resolve src) fs))).
Proof.
  intros Hext Hok. rewrite /Tar /NewOptimizedCompressionWriter /=.
  destruct (NewCompressionWriter c) as [w|e] eqn:Hw.
  - exists w. split; [done|]. rewrite (tar_entries_ok _ _ (Walk_ok _ _ Hok)) /walk_root.
    destruct Hok as [Hroot%is_dir_true _]. by rewrite Hroot.
  - exfalso. move: Hw. destruct (ExtForCompression_Ok _ _ Hext) as [[-> ->]|[[-> ->]|[[-> ->]|[Hc ->]]]];
      [done..|]. assert (c = "tar" ∨ c = "none" ∨ c = "") as [-> | [-> | ->]] by set_solver; done.
Qed.

Lemma Untar_Walk fs src c ext w dest fs2 :
  ExtForCompression c = Ok ext → NewCompressionWriter c = Ok w → tree_ok (resolve src) fs →
  HasPrefix dest "/" = true → holds (resolve dest) ∅ fs2 →
  ∃ fs2',
    Untar (eof (wencode w (tar_write (entry_of <$> Walk (resolve src) fs)))) dest
      (if decide (c ∈ ["tar"; "none"; ""]) then "tar" else c) fs2 = (None, fs2') ∧
    (∀ rel, fs2' !! (resolve dest ++ rel) = fs !! (resolve src ++ rel)) ∧
    (∀ k, ¬ resolve dest `prefix_of` k → fs2' !! k = fs2 !! k).
Proof.
  intros Hext Hw Hok Hd Hh. pose proof (Walk_ok _ _ Hok) as Hwalk.
  destruct (untar_walk dest (Walk (resolve src) fs) (Walk (resolve src) fs) Hd
    (NoDup_Walk _ _) (StronglySorted_merge_sort _ _) Hwalk [] fs2 eq_refl Hh)
    as (fs2' & Hu & Hh').
  exists fs2'. rewrite /Untar (reader_undoes_writer _ _ _ _ Hext Hw) tar_roundtrip;
    [by eapply header_ok_walk|]. split_and!; [done| |].
  - intros [|a rel]; [|by rewrite (holds_files _ _ _ Hh') // Walk_map].
    rewrite !app_nil_r. destruct Hok as [Hroot _]. apply is_dir_true in Hroot. rewrite Hroot.
    by apply (holds_root _ _ _ Hh').
  - eapply untar_entries_grows in Hu; [apply Hu|done|apply Hh].
Qed.
End tarballs.



(** ** Concrete formats, for the witnesses *)

Module Sample.

(** A format that marks the stream with one byte. *)
Definition mark (x : Ascii.ascii) (s : string) : string := String x s.
Definition unmark (x : Ascii.ascii) (r : Reader) : gores Reader :=
  match rbytes r with
  | String y s => if bool_decide (x = y) then Ok (mkReader s (rerr r)) else Err (Errorf "invalid header")
  | EmptyString => Err (Errorf "EOF")
  end.

#[export] Instance codecs : Codecs := {
  lz4_NewWriter := mark "L"%char;
  lz4_NewReader r := match unmark "L"%char r with Ok r => r | Err e => mkReader "" (Some e) end;
  gzip_NewWriter := mark "G"%char;
  gzip_NewReader := unmark "G"%char;
  zlib_NewWriter := mark "Z"%char;
  zlib_NewReader := unmark "Z"%char;
  lz4_roundtrip s := eq_refl;
  gzip_roundtrip s := eq_refl;
  zlib_roundtrip s := eq_refl;
  lz4_header s := ltac:(done);
  gzip_header s := ltac:(done);
  zlib_header s := ltac:(done);
}.

Definition flag_nat (t : Typeflag) : nat :=
  match t with TypeReg => 0 | TypeDir => 1 | TypeSymlink => 2 | TypeFifo => 3 | TypeChar => 4 end.
Definition nat_flag (n : nat) : Typeflag :=
  match n with 0 => TypeReg | 1 => TypeDir | 2 => TypeSymlink | 3 => TypeFifo | _ => TypeChar end.

Definition pack (e : Header * string) : string * nat * string :=
  (hName e.1, flag_nat (hTypeflag e.1), e.2).
Definition unpack (e : string * nat * string) : Header * Reader :=
  (mkHeader e.1.1 (nat_flag e.1.2), eof e.2).

Definition tar_write_ (l : list (Header * string)) : string :=
  mark "T"%char (serialize (pack <$> l)).
Definition tar_read_ (r : Reader) : list (Header * Reader) * option error :=
  let bad := Errorf "archive/tar: invalid tar header" in
  match unmark "T"%char r with
  | Err e => ([], Some bad)
  | Ok r =>
      match deserialize (rbytes r) : option (list (string * nat * string)) with
      | Some l => (unpack <$> l, rerr r)
      | None => ([], Some bad)
      end
  end.

Lemma tar_roundtrip_ l :
  tar_read_ (eof (tar_write_ l)) = (prod_map id eof <$> l, None).
Proof.
  rewrite /tar_read_ /tar_write_ /= deserialize_serialize. f_equal.
  induction l as [|[[n t] d] l IH]; [done|]. csimpl. f_equal; [|done]. by destruct t.
Qed.

#[export] Instance tar_format : TarFormat := {
  tar_write := tar_write_; tar_read := tar_read_;
  tar_roundtrip l _ := tar_roundtrip_ l;
  tar_trailer l := ltac:(done);
}.

(** A dump directory with one nested image, and an empty restore directory. *)
Definition fs : FS :=
  {[ [] := Dir; ["dumps"] := Dir; ["dumps"; "a"] := Dir;
     ["dumps"; "a"; "core-1.img"] := Reg "core";
     ["dumps"; "a"; "gpu"] := Dir; ["dumps"; "a"; "gpu"; "pages.img"] := Reg "pages";
     ["tmp"] := Dir ]}.

End Sample.
Import Sample.

Lemma dirs_to_prefixes (D : path) (fs : FS) :
  Forall (λ i, fs !! take i D = Some Dir) (seq 0 (S (length D))) → dirs_to D fs.
Proof.
  intros HF k [t ->]. rewrite list.Forall_forall in HF.
  specialize (HF (length k)). rewrite take_app_length in HF. apply HF.
  apply elem_of_seq. rewrite length_app. lia.
Qed.

Lemma holds_empty (D : path) (fs : FS) :
  dirs_to D fs → map_Forall (λ k _, D `prefix_of` k → k = D) fs → holds D ∅ fs.
Proof.
  intros Hd Hf. split; [done| |by intros rel; rewrite lookup_empty].
  intros rel Hrel. rewrite lookup_empty. apply eq_None_not_Some. intros [n Hn].
  specialize (Hf _ _ Hn (prefix_app_r _ _ _ (reflexivity D))) as Heq. simpl in Heq.
  rewrite -{2}(app_nil_r D) in Heq. by apply app_inv_head in Heq.
Qed.



End Files.
