(* ===== verification/Plugins.v ===== *)
(** * The plugin managers (pkg/plugins)

    A plugin is a set of libraries and binaries.  The managers find out which
    are installed, list what the search path or the registry service offers,
    install and remove files; features are symbols looked up in the plugins
    that were loaded.  The file system is the one of [Files].  What a symbol
    holds, what a binary prints and MD5 are the class [Env]. *)

From Stdlib Require Import Ascii.
From S2P Require Import Prelude GoLib Files.
Import GoLib Files.

Module Plugins.

#[local] Arguments String.append : simpl never.

(** ** Plugins (plugin.go) *)

Inductive Type_ := UNIMPLEMENTED | DEPRECATED | EXPERIMENTAL | EXTERNAL | SUPPORTED.
Inductive Status_ := UNKNOWN | AVAILABLE | INSTALLED | OUTDATED.

#[global] Instance Type_eq_dec : EqDecision Type_.
Proof. solve_decision. Defined.
#[global] Instance Status_eq_dec : EqDecision Status_.
Proof. solve_decision. Defined.

Record Binary := mkBinary { bName : string; bChecksum : string; InstallDir : string }.

(** Without [PublishedAt]. *)
Record Plugin := mkPlugin {
  Name : string;
  Type' : Type_;
  Status' : Status_;
  Version : string;
  AvailableVersion : string;
  Libraries : list Binary;
  Binaries : list Binary;
  Size : Z;
}.

Definition Type_String (t : Type_) : string :=
  match t with
  | SUPPORTED => "supported" | EXPERIMENTAL => "experimental"
  | DEPRECATED => "deprecated" | UNIMPLEMENTED => "unimplemented"
  | EXTERNAL => "-"
  end.

Definition Status_String (s : Status_) : string :=
  match s with
  | AVAILABLE => "available" | INSTALLED => "installed" | OUTDATED => "outdated"
  | UNKNOWN => "unknown"
  end.

Definition set_files (libs bins : list Binary) (p : Plugin) : Plugin :=
  mkPlugin (Name p) (Type' p) (Status' p) (Version p) (AvailableVersion p) libs bins (Size p).

Definition set_status (s : Status_) (p : Plugin) : Plugin :=
  mkPlugin (Name p) (Type' p) s (Version p) (AvailableVersion p) (Libraries p) (Binaries p) (Size p).

Definition set_version (v : string) (p : Plugin) : Plugin :=
  mkPlugin (Name p) (Type' p) (Status' p) v (AvailableVersion p) (Libraries p) (Binaries p) (Size p).

Definition set_available (v : string) (p : Plugin) : Plugin :=
  mkPlugin (Name p) (Type' p) (Status' p) (Version p) v (Libraries p) (Binaries p) (Size p).

Definition set_size (z : Z) (p : Plugin) : Plugin :=
  mkPlugin (Name p) (Type' p) (Status' p) (Version p) (AvailableVersion p) (Libraries p) (Binaries p) z.

(** What is outside: the configured directories, MD5 in hexadecimal, the symbol
    "Version" of a loaded plugin, the output of [<binary> --version], and the
    error of copying the contents of a file to a path. *)
Class Env := {
  LibDir : string;
  BinDir : string;
  md5 : string → string;
  versionSymbol : string → option string;
  exec_version : string → gores string;
  copyFault : path → option error;
}.

(** ** Versions *)

(** The part of [SyncVersion] that cuts a version out of a text. *)
Definition normalize (version : string) : string :=
  let version :=
    match Index version (ascii_of_nat 10) with
    | Some (S i) => str_take (S i) version
    | _ => version
    end in
  let version :=
    match LastIndex version " " with
    | Some (S i) => str_drop (S (S i)) version
    | _ => version
    end in
  match version with
  | String x _ =>
      if decide (48 ≤ nat_of_ascii x ≤ 57) then String "v" version else version
  | EmptyString => version
  end.

Section plugins.
Context `{E : Env}.

(** Before the parent plugin is asked. *)
Definition own_version (p : Plugin) : string :=
  let version :=
    match Type' p with
    | SUPPORTED => match versionSymbol (Name p) with Some v => TrimSpace v | None => "unknown" end
    | EXTERNAL =>
        match Binaries p with
        | [] => "unknown"
        | binary :: _ =>
            if HasSuffix (bName binary) ".sh" then "unknown"
            else match exec_version (bName binary) with
                 | Ok out => if decide (TrimSpace out = "") then "unknown" else TrimSpace out
                 | Err _ => "unknown"
                 end
        end
    | _ => "unknown"
    end in
  if decide (version = "unknown") then version else normalize version.

(** [SyncVersion], which calls itself on the parent plugin: a parent's name has
    no slash, so the calls are two at most. *)
Fixpoint SyncVersion_at (depth : nat) (registry : list Plugin) (p : Plugin) : string :=
  let version := own_version p in
  if bool_decide (version = "unknown") && has_byte slash (Name p) then
    let parentName := default "" (head (Split (Name p) slash)) in
    match depth, list_find (λ q, Name q = parentName) registry with
    | S d, Some (_, parent) => SyncVersion_at d registry parent
    | _, _ => version
    end
  else version.

Definition SyncVersion (registry : list Plugin) (p : Plugin) : Plugin :=
  set_version (SyncVersion_at 1 registry p) p.

(** ** What is installed *)

(** [os.Stat] of something that is not a directory: its contents. *)
Definition stat (fs : FS) (p : path) : option string :=
  match fs !! p with
  | None | Some Dir => None
  | Some n => Some (content n)
  end.

Definition installed_path (dir : string) (f : Binary) : path :=
  resolve (if decide (InstallDir f = "") then Join2 dir (bName f) else Join2 (InstallDir f) (bName f)).

(** One of the two loops of [SyncInstalled]: the files with their checksums,
    how many were found, and their size. *)
Definition sync_file (dir : string) (fs : FS) (f : Binary) : Binary * option Z :=
  match stat fs (installed_path dir f) with
  | None => (f, None)
  | Some data => (mkBinary (bName f) (md5 data) (InstallDir f), Some (Z.of_nat (String.length data)))
  end.

Definition sync_files (dir : string) (fs : FS) (l : list Binary) : list Binary * nat * Z :=
  let r := sync_file dir fs <$> l in
  (r.*1, length (omap snd r), foldr Z.add 0%Z (omap snd r)).

Definition SyncInstalled (registry : list Plugin) (fs : FS) (p : Plugin) : Plugin :=
  let '(libs, found, size1) := sync_files LibDir fs (Libraries p) in
  let p1 := set_files libs (Binaries p) p in
  if decide (found < length libs) then p1
  else
    let '(bins, found, size2) := sync_files BinDir fs (Binaries p) in
    let p2 := set_files libs bins p1 in
    if decide (found < length bins) then p2
    else SyncVersion registry (set_size (int64 (size1 + size2)) (set_status INSTALLED p2)).

Definition BinaryPaths (p : Plugin) : list path := installed_path BinDir <$> Binaries p.
Definition LibraryPaths (p : Plugin) : list path := installed_path LibDir <$> Libraries p.

Definition Checksum (p : Plugin) : string :=
  String.concat "" ((bChecksum <$> Libraries p) ++ (bChecksum <$> Binaries p)).

(** On a nil plugin too. *)
Definition Plugin_IsInstalled (p : option Plugin) : bool :=
  match p with
  | None => false
  | Some p => bool_decide (Status' p = INSTALLED) || bool_decide (Status' p = OUTDATED)
  end.

(** ** The local manager (manager_local.go)

    [registry] is the global [Registry]: a plugin taken out of it is a copy, but
    the arrays of its libraries and binaries are shared, so that the checksums
    [SyncInstalled] writes stay in the registry. *)
Record World := mkWorld {
  fsys : FS;
  registry : list Plugin;
  srcDir : gmap string string;
  searchPath : string;
}.

Definition write_back (p q : Plugin) : Plugin := set_files (Libraries p) (Binaries p) q.

Definition Get (name : string) (w : World) : option Plugin * World :=
  match list_find (λ q, Name q = name) (registry w) with
  | None => (None, w)
  | Some (i, q) =>
      let p := SyncInstalled (registry w) (fsys w) q in
      (Some p, mkWorld (fsys w) (<[i := write_back p q]> (registry w)) (srcDir w) (searchPath w))
  end.

Definition IsInstalled (name : string) (w : World) : bool * World :=
  let '(p, w') := Get name w in (Plugin_IsInstalled p, w').

(** [strings.Split(strings.TrimSpace(name), "@")\[0\]] *)
Definition nameOnly (name : string) : string := default "" (head (Split (TrimSpace name) "@")).

(** The first directory of the search path that has the file, and its data. *)
Definition find_file (fs : FS) (paths : list string) (f : Binary) : option (string * string) :=
  head (omap (λ dir, data ← stat fs (resolve (Join2 dir (bName f))); Some (dir, data)) paths).

(** Whether a plugin's files are all on the search path: the directory of the
    last one, the concatenated checksums and the size. *)
Definition find_files (fs : FS) (paths : list string) (files : list Binary)
    : option (string * string * Z) :=
  let found : list (string * string) := omap (find_file fs paths) files in
  if decide (length found = length files) then
    Some (default "" (list.last found.*1), String.concat "" (md5 <$> found.*2),
          foldr Z.add 0%Z ((λ d, Z.of_nat (String.length d)) <$> found.*2))
  else None.

(** The part of [List] for [latest], given what was found. *)
Definition offer (found : option (string * string * Z)) (p : Plugin) : Plugin :=
  match found with
  | None => p
  | Some (_, totalSum, size) =>
      let p := set_available "local" p in
      let p :=
        match Status' p with
        | INSTALLED | OUTDATED =>
            if decide (Checksum p = totalSum)
            then set_version (AvailableVersion p) (set_status INSTALLED p)
            else set_status OUTDATED p
        | UNKNOWN => set_status AVAILABLE p
        | AVAILABLE => p
        end in
      if decide (Size p = 0%Z) then set_size (int64 size) p else p
  end.

Definition selected (filter : list string) (p : Plugin) : bool :=
  negb (bool_decide (Type' p = UNIMPLEMENTED)) &&
  (bool_decide (filter = []) || bool_decide (Name p ∈ nameOnly <$> filter)).

Definition list_one (latest : bool) (w : World) (q : Plugin) : Plugin * option string :=
  let p := SyncInstalled (registry w) (fsys w) q in
  if latest then
    let found := find_files (fsys w) (Split (searchPath w) ":") (Libraries p ++ Binaries p) in
    (offer found p, (λ x, x.1.1) <$> found)
  else (p, None).

(** The loop of [List] over the rest [l] of the registry, [done] being the part
    before it. *)
Fixpoint list_loop (latest : bool) (filter : list string) (l : list Plugin) (done : list Plugin) (w : World)
    : list Plugin * World :=
  match l with
  | [] => ([], w)
  | q :: l =>
      if selected filter q then
        let '(p, dir) := list_one latest w q in
        let w' := mkWorld (fsys w) (done ++ write_back p q :: l)
                    (match dir with Some d => <[Name q := d]> (srcDir w) | None => srcDir w end)
                    (searchPath w) in
        let '(ps, w'') := list_loop latest filter l (done ++ [write_back p q]) w' in
        (p :: ps, w'')
      else list_loop latest filter l (done ++ [q]) w
  end.

Definition List (latest : bool) (filter : list string) (w : World) : list Plugin * World :=
  list_loop latest filter (registry w) [] w.

(** What the channels of [Install] and [Remove] carry, in the order of sending. *)
Inductive event := Msg (s : string) | Failed (e : error) | Changed.

(** [os.Remove] *)
Definition os_Remove (p : path) (fs : FS) : gores FS :=
  match fs !! p with
  | None => Err (os_error "remove" p "no such file or directory")
  | Some Dir =>
      if decide (filter (λ kv, p `prefix_of` kv.1 ∧ kv.1 ≠ p) fs = ∅) then Ok (delete p fs)
      else Err (os_error "remove" p "directory not empty")
  | Some _ => Ok (delete p fs)
  end.

(** [utils.CopyFile], with the files it leaves. *)
Definition CopyFile (src dest : path) (fs : FS) : option error * FS :=
  match fs !! src with
  | None => (Some (Errorf ("Could not open source file: " +:+
                            Error (os_error "open" src "no such file or directory"))), fs)
  | Some _ =>
      match Create dest fs with
      | Err e => (Some (Errorf ("Could not create destination file: " +:+ Error e)), fs)
      | Ok fs1 =>
          match copyFault dest with
          | Some e => (Some (Errorf ("Could not copy file contents: " +:+ Error e)), fs1)
          | None =>
              match fs1 !! src with
              | Some (Reg data) => (None, <[dest := Reg data]> fs1)
              | Some _ => (Some (Errorf "Could not copy file contents"), fs1)
              | None => (Some (Errorf "Could not get source file info"), fs1)
              end
          end
      end
  end.

Definition ignore_err {A} (a : A) (r : gores A) : A := match r with Ok a' => a' | Err _ => a end.

(** One of the two loops that copy files in [Install]. *)
Fixpoint copy_files (name srcDir dir : string) (files : list Binary) (fs : FS) : option error * FS :=
  match files with
  | [] => (None, fs)
  | file :: files' =>
      let src := resolve (Join2 srcDir (bName file)) in
      let fs1 := if decide (InstallDir file = "") then fs
                 else ignore_err fs (MkdirAll (resolve (InstallDir file)) fs) in
      let dest := installed_path dir file in
      match stat fs1 src with
      | None => (Some (Errorf "No local plugin found"), fs1)
      | Some _ =>
          let fs2 := ignore_err fs1 (os_Remove dest fs1) in
          match CopyFile src dest fs2 with
          | (Some e, fs3) => (Some (Errorf ("Failed to install " +:+ name +:+ ": " +:+ Error e)), fs3)
          | (None, fs3) => copy_files name srcDir dir files' fs3
          end
      end
  end.

Definition install_one (listed : list Plugin) (name : string) (w : World) : list event * World :=
  if decide (TrimSpace name = "") then ([], w)
  else
    let name := nameOnly name in
    match list.last (filter (λ p, Name p = name) listed) with
    | None => ([Failed (Errorf ("Plugin " +:+ name +:+ " is not available"))], w)
    | Some plugin =>
        if decide (Status' plugin = INSTALLED)
        then ([Msg ("Plugin " +:+ name +:+ " is already installed")], w)
        else
          let fresh := bool_decide (Status' plugin = AVAILABLE) in
          let start := if fresh then Msg ("Installing plugin " +:+ name +:+ "...")
                       else Msg ("Updating plugin " +:+ name +:+ "...") in
          let dir := default "" (srcDir w !! name) in
          let '(e1, fs1) := copy_files name dir LibDir (Libraries plugin) (fsys w) in
          let '(e2, fs2) := copy_files name dir BinDir (Binaries plugin) fs1 in
          let w' := mkWorld fs2 (registry w) (srcDir w) (searchPath w) in
          match (match e2 with Some e => Some e | None => e1 end) with
          | Some e => ([start; Failed e], w')
          | None =>
              ([start; Msg ((if fresh then "Installed plugin " else "Updated plugin ") +:+ name); Changed], w')
          end
    end.

Fixpoint install_loop (listed : list Plugin) (names : list string) (w : World) : list event * World :=
  match names with
  | [] => ([], w)
  | name :: names =>
      let '(es, w1) := install_one listed name w in
      let '(es', w2) := install_loop listed names w1 in (es ++ es', w2)
  end.

Definition Install (names : list string) (w : World) : list event * World :=
  let '(listed, w1) := List true names w in install_loop listed names w1.

(** One of the two loops that remove files in [Remove]. *)
Fixpoint remove_files (name dir : string) (files : list Binary) (fs : FS) : option error * FS :=
  match files with
  | [] => (None, fs)
  | file :: files' =>
      match os_Remove (installed_path dir file) fs with
      | Err e => (Some (Errorf ("Failed to remove " +:+ name +:+ ": " +:+ Error e)), fs)
      | Ok fs1 => remove_files name dir files' fs1
      end
  end.

(** [err] is declared outside of the loop over the names. *)
Fixpoint remove_loop (listed : list Plugin) (names : list string) (err : option error) (w : World)
    : list event * World :=
  match names with
  | [] => ([], w)
  | name :: names =>
      let name := TrimSpace name in
      if decide (name = "") then remove_loop listed names err w
      else
        match list.last (filter (λ p, Name p = name) listed) with
        | None =>
            let '(es, w') := remove_loop listed names err w in
            (Failed (Errorf ("Plugin " +:+ name +:+ " is not available")) :: es, w')
        | Some plugin =>
            if decide (Status' plugin = INSTALLED) then
              let '(e1, fs1) := remove_files name LibDir (Libraries plugin) (fsys w) in
              let '(e2, fs2) := remove_files name BinDir (Binaries plugin) fs1 in
              let err' := match e2 with
                          | Some e => Some e
                          | None => match e1 with Some e => Some e | None => err end
                          end in
              let w1 := mkWorld fs2 (registry w) (srcDir w) (searchPath w) in
              let '(es, w') := remove_loop listed names err' w1 in
              (Msg ("Removing " +:+ name +:+ "...") ::
               match err' with
               | Some e => Failed e :: es
               | None => Msg ("Removed " +:+ name) :: Changed :: es
               end, w')
            else
              let '(es, w') := remove_loop listed names err w in
              (Failed (Errorf ("Plugin " +:+ name +:+ " is not installed")) :: es, w')
        end
  end.

Definition Remove (names : list string) (w : World) : list event * World :=
  let '(listed, w1) := List false [] w in remove_loop listed names None w1.

(** ** The manager of the registry service (manager_propagator.go) *)

(** The answer of the service to the listing: the error of the request, or the
    status code with the decoded body. *)
Definition Response : Type := gores (Z * gores (list Plugin)).

(** The body of the two loops over both lists. *)
Definition merge_one (p online : Plugin) : Plugin :=
  if decide (Name p = Name online) then
    let p := set_size (Size online) (set_available (AvailableVersion online) p) in
    match Status' p with
    | INSTALLED | OUTDATED =>
        if decide (Checksum p = Checksum online) then set_status INSTALLED p else set_status OUTDATED p
    | UNKNOWN => set_status AVAILABLE p
    | AVAILABLE => p
    end
  else p.

Definition merge (plugins onlineList : list Plugin) : list Plugin :=
  (λ p, foldl merge_one p onlineList) <$> plugins.

(** The names that are asked for: those that are not available locally. *)
Definition to_fetch (filter : list string) (plugins : list Plugin) : list string :=
  match filter with
  | [] => omap (λ p, if decide (AvailableVersion p = "local") then None else Some (Name p)) plugins
  | _ =>
      omap (λ name,
        let only := if has_byte "@" name then default "" (head (Split name "@")) else name in
        if existsb (λ p, bool_decide (Name p = only) && negb (bool_decide (AvailableVersion p = "local"))) plugins
        then Some name else None) filter
  end.

Definition Propagator_List (latest : bool) (filter : list string)
    (service : list string → Response) (w : World) : gores (list Plugin) * World :=
  let '(plugins, w1) := List latest filter w in
  if latest then
    let names := to_fetch filter plugins in
    if decide (names = []) then (Ok plugins, w1)
    else match service names with
         | Err _ => (Ok plugins, w1)
         | Ok (code, body) =>
             if decide (200 <= code < 300)%Z then
               match body with
               | Err e => (Err e, w1)
               | Ok onlineList => (Ok (merge plugins onlineList), w1)
               end
             else (Ok plugins, w1)
         end
  else (Ok plugins, w1).

(** [downloadBinary], given what the request for the file ends with: the file
    in the download directory is opened without truncating it. *)
Definition downloadBinary (downloadDir : string) (fetch : string → gores string) (binary : string) (fs : FS)
    : option error * FS :=
  let p := resolve (Join2 downloadDir binary) in
  match fetch binary with
  | Err e => (Some e, fs)
  | Ok data =>
      match fs !! p with
      | Some (Reg old) => (None, <[p := Reg (data +:+ str_drop (String.length data) old)]> fs)
      | None =>
          if is_dir fs (parent p) then (None, <[p := Reg data]> fs)
          else (Some (Errorf ("Failed to save " +:+ binary)), fs)
      | Some _ => (Some (Errorf ("Failed to save " +:+ binary)), fs)
      end
  end.

Fixpoint download_all (downloadDir : string) (fetch : string → gores string) (files : list Binary) (fs : FS)
    : option error * FS :=
  match files with
  | [] => (None, fs)
  | f :: files =>
      match downloadBinary downloadDir fetch (bName f) fs with
      | (Some e, fs') => (Some e, fs')
      | (None, fs') => download_all downloadDir fetch files fs'
      end
  end.

(** What is done for a name before the local manager runs: the messages, the
    name if it is to be installed, and the files.  The downloads of several
    plugins run side by side; here they run in the order of the names. *)
Definition prepare_one (downloadDir : string) (fetch : string → gores string) (plugins : list Plugin)
    (name : string) (fs : FS) : list event * option string * FS :=
  let name := default "" (head (Split name "@")) in
  match list.last (filter (λ p, Name p = name ∧ Status' p ≠ UNKNOWN) plugins) with
  | None => ([Failed (Errorf ("Plugin " +:+ name +:+ " is not available"))], None, fs)
  | Some plugin =>
      if decide (Status' plugin = INSTALLED)
      then ([Msg ("Plugin " +:+ name +:+ " is already installed")], None, fs)
      else if decide (AvailableVersion plugin = "local") then ([], Some name, fs)
      else
        let start := Msg ("Downloading plugin " +:+ name +:+ " (" +:+ AvailableVersion plugin +:+ ")...") in
        match download_all downloadDir fetch (Binaries plugin ++ Libraries plugin) fs with
        | (Some e, fs') =>
            ([start; Msg (Error e); Msg ("Will try a local version of " +:+ name +:+ " if available")],
             Some name, fs')
        | (None, fs') =>
            ([start; Msg ("Downloaded plugin " +:+ name +:+ " (" +:+ AvailableVersion plugin +:+ ")")],
             Some name, fs')
        end
  end.

Fixpoint prepare (downloadDir : string) (fetch : string → gores string) (plugins : list Plugin)
    (names : list string) (fs : FS) : list event * list string * FS :=
  match names with
  | [] => ([], [], fs)
  | name :: names =>
      let '(es, o, fs1) := prepare_one downloadDir fetch plugins name fs in
      let '(es', l, fs2) := prepare downloadDir fetch plugins names fs1 in
      (es ++ es', option_list o ++ l, fs2)
  end.

(** [Install] sends the error of listing on a channel nobody can receive from
    yet, as it has not returned: [None]. *)
Definition Propagator_Install (downloadDir : string) (fetch : string → gores string)
    (service : list string → Response) (names : list string) (w : World) : option (list event * World) :=
  match Propagator_List true names service w with
  | (Err _, _) => None
  | (Ok plugins, w1) =>
      let '(es, l, fs') := prepare downloadDir fetch plugins names (fsys w1) in
      let '(es', w2) := Install l (mkWorld fs' (registry w1) (srcDir w1)
                                     (searchPath w1 +:+ ":" +:+ downloadDir)) in
      Some (es ++ es', w2)
  end.

(** ** Copying files *)

Definition source_path (dir : string) (f : Binary) : path := resolve (Join2 dir (bName f)).

(** What the copying loops look at. *)
Definition key (f : Binary) : string * string := (bName f, InstallDir f).

Lemma MkdirAll_noop p fs :
  (∀ q, q ≠ [] → q `prefix_of` p → fs !! q = Some Dir) → MkdirAll p fs = Ok fs.
Proof.
  rewrite /MkdirAll => Hq. assert (∀ pre todo, pre ++ todo = p → MkdirAll_from pre todo fs = Ok fs) as H;
    [|by apply H].
  intros pre todo. revert pre. induction todo as [|c todo IH]; intros pre Hp; simpl; [done|].
  rewrite (Hq (pre ++ [c])); [by destruct pre|exists todo; by rewrite -Hp -app_assoc|].
  apply IH. by rewrite -app_assoc.
Qed.

(** The file can be installed from [sd]: its directories are there, it replaces
    a regular file or nothing, and copying it does not fail. *)
Definition ready (dir sd : string) (fs : FS) (f : Binary) : Prop :=
  (InstallDir f ≠ "" → ∀ q, q ≠ [] → q `prefix_of` resolve (InstallDir f) → fs !! q = Some Dir) ∧
  fs !! parent (installed_path dir f) = Some Dir ∧
  fs !! installed_path dir f ≠ Some Dir ∧
  (∀ k, fs !! installed_path dir f ≠ Some (Special k)) ∧
  (∃ data, fs !! source_path sd f = Some (Reg data)) ∧
  copyFault (installed_path dir f) = None.

(** The files that differ are those of [D], none of them a directory. *)
Definition differ_in (D : list path) (fs fs' : FS) : Prop :=
  (∀ q, q ∉ D → fs' !! q = fs !! q) ∧ ∀ q, q ∈ D → fs !! q ≠ Some Dir.

Lemma differ_in_dir D fs fs' q : differ_in D fs fs' → fs !! q = Some Dir → fs' !! q = Some Dir.
Proof.
  intros [Hsame HD] Hq. rewrite Hsame //. intros Hin. by apply (HD q).
Qed.

Lemma ready_mono D dir sd fs fs' f :
  ready dir sd fs f → differ_in D fs fs' → installed_path dir f ∉ D → source_path sd f ∉ D →
  ready dir sd fs' f.
Proof.
  intros (Hd & Hp & Hn & Hs & Hsrc & Hf) HD Hdest Hsf. pose proof HD as [Hsame _].
  split_and!; try done.
  - intros Hi q Hq Hpre. eapply differ_in_dir; [done|]. by apply Hd.
  - by eapply differ_in_dir.
  - by rewrite Hsame.
  - intros k. by rewrite Hsame.
  - by rewrite Hsame.
Qed.

(** One file. *)
Lemma install_file dir sd fs f :
  ready dir sd fs f → source_path sd f ≠ installed_path dir f →
  let fs1 := if decide (InstallDir f = "") then fs
             else ignore_err fs (MkdirAll (resolve (InstallDir f)) fs) in
  fs1 = fs ∧ is_Some (stat fs (source_path sd f)) ∧
  ∃ fs', CopyFile (source_path sd f) (installed_path dir f)
           (ignore_err fs (os_Remove (installed_path dir f) fs)) = (None, fs') ∧
    fs' !! installed_path dir f = fs !! source_path sd f ∧
    differ_in [installed_path dir f] fs fs'.
Proof.
  intros (Hd & Hp & Hn & Hs & [data Hsrc] & Hf) Hne. cbv zeta. set (dest := installed_path dir f) in *.
  set (src := source_path sd f) in *. split; [|split].
  - case_decide; [done|]. by rewrite MkdirAll_noop; [apply Hd|].
  - rewrite /stat Hsrc. by eexists.
  - assert (ignore_err fs (os_Remove dest fs) = delete dest fs) as ->.
    { rewrite /os_Remove. destruct (fs !! dest) as [[|d|k]|] eqn:Hdest; simpl; try done.
      by rewrite delete_id. }
    assert (parent dest ≠ dest) as Hpd by (intros Hx; rewrite Hx in Hp; done).
    rewrite /CopyFile lookup_delete_ne // Hsrc /Create lookup_delete_eq /is_dir lookup_delete_ne // Hp Hf.
    rewrite lookup_insert_ne // lookup_delete_ne // Hsrc. eexists. split; [done|].
    rewrite lookup_insert_eq. split; [done|]. split.
    + intros q Hq. rewrite !lookup_insert_ne ?lookup_delete_ne //; set_solver.
    + by intros q ->%list_elem_of_singleton.
Qed.

Lemma copy_files_ok name dir sd files fs :
  Forall (ready dir sd fs) files → NoDup (installed_path dir <$> files) →
  (∀ f g, f ∈ files → g ∈ files → source_path sd f ≠ installed_path dir g) →
  ∃ fs', copy_files name sd dir files fs = (None, fs') ∧
    (∀ f, f ∈ files → fs' !! installed_path dir f = fs !! source_path sd f) ∧
    differ_in (installed_path dir <$> files) fs fs'.
Proof.
  revert fs. induction files as [|f files IH]; intros fs Hr Hnd Hsep; simpl.
  { exists fs. split; [done|]. split; [set_solver|]. split; [done|set_solver]. }
  apply Forall_cons_1 in Hr as [Hf Hr]. rewrite fmap_cons in Hnd. apply list.NoDup_cons in Hnd as [Hnf Hnd].
  destruct (install_file dir sd fs f Hf) as (Hfs & [data Hst] & fs1 & Hcopy & Hdest & HD).
  { apply Hsep; set_solver. }
  cbv zeta in Hfs. rewrite Hfs -/(source_path sd f) Hst Hcopy.
  destruct (IH fs1) as (fs' & Hrun & Hall & HD').
  - apply list.Forall_forall. intros g Hg. eapply ready_mono; [|done|..].
    + by eapply list.Forall_forall in Hr.
    + intros Heq%list_elem_of_singleton. apply Hnf. rewrite -Heq. by apply list_elem_of_fmap_2.
    + intros Heq%list_elem_of_singleton. by apply (Hsep g f); [set_solver..|].
  - done.
  - intros g h Hg Hh. apply Hsep; set_solver.
  - exists fs'. split; [done|]. destruct HD as [Hsame Hdir], HD' as [Hsame' Hdir']. split; [|split].
    + intros g [->|Hg]%elem_of_cons; [by rewrite Hsame'|]. rewrite Hall // Hsame //.
      intros Heq%list_elem_of_singleton. by apply (Hsep g f); [set_solver..|].
    + intros q Hq. rewrite Hsame' ?Hsame //; set_solver.
    + intros q [->|Hq]%elem_of_cons; [apply Hdir; set_solver|].
      destruct (decide (q ∈ [installed_path dir f])) as [?|Hn]; [by apply Hdir|].
      rewrite -Hsame //. by apply Hdir'.
Qed.

Lemma key_path dir f g : key f = key g → installed_path dir f = installed_path dir g.
Proof. rewrite /key /installed_path. by intros [= -> ->]. Qed.

Lemma key_source sd f g : key f = key g → source_path sd f = source_path sd g.
Proof. rewrite /key /source_path. by intros [= -> _]. Qed.

Lemma copy_files_key name sd dir l1 l2 fs :
  key <$> l1 = key <$> l2 → copy_files name sd dir l1 fs = copy_files name sd dir l2 fs.
Proof.
  revert l2 fs. induction l1 as [|f l1 IH]; intros [|g l2] fs; csimpl; try done.
  intros Heq. injection Heq as Hn Hi Hl. rewrite (key_path dir f g); [by rewrite /key Hn Hi|].
  rewrite Hn Hi. destruct (decide (InstallDir g = "")); (case_match; [|done]);
    destruct (CopyFile _ _ _) as [[err|] fs3]; auto.
Qed.

(** ** What [SyncInstalled] finds out *)

Definition present (dir : string) (fs : FS) (f : Binary) : Prop :=
  is_Some (stat fs (installed_path dir f)).

#[global] Instance present_dec dir fs f : Decision (present dir fs f).
Proof. apply _. Defined.

Definition installed (fs : FS) (p : Plugin) : Prop :=
  Forall (present LibDir fs) (Libraries p) ∧ Forall (present BinDir fs) (Binaries p).

#[global] Instance installed_dec fs p : Decision (installed fs p).
Proof. apply _. Defined.

Lemma sync_files_keys dir fs l : key <$> (sync_files dir fs l).1.1 = key <$> l.
Proof.
  rewrite /sync_files /= -!list_fmap_compose. apply list_fmap_ext. intros i f _. simpl.
  rewrite /sync_file. by case_match.
Qed.

Lemma sync_files_length dir fs l : length (sync_files dir fs l).1.1 = length l.
Proof. by rewrite /sync_files /= !length_fmap. Qed.

Lemma sync_files_found dir fs l :
  (sync_files dir fs l).1.2 < length (sync_files dir fs l).1.1 ↔ ¬ Forall (present dir fs) l.
Proof.
  rewrite sync_files_length /sync_files /=. rewrite /present.
  assert (∀ l, length (omap snd (sync_file dir fs <$> l)) ≤ length l) as Hle.
  { intros l'. induction l' as [|f l' IH]; csimpl; [lia|]. case_match; simpl; lia. }
  induction l as [|f l IH]; csimpl; [split; [lia|by intros []]|].
  rewrite list.Forall_cons. rewrite {1}/sync_file. destruct (stat fs (installed_path dir f)) as [d|]; simpl.
  - rewrite -Nat.succ_lt_mono IH. split; [intros Hn [_ ?]; done|]. intros Hn ?. apply Hn. split; [by eexists|done].
  - split; [by intros _ [[? ?] _]|]. intros _. specialize (Hle l). lia.
Qed.

Lemma sync_files_sums dir fs l :
  Forall (present dir fs) l →
  bChecksum <$> (sync_files dir fs l).1.1 =
  (λ f, md5 (default "" (stat fs (installed_path dir f)))) <$> l.
Proof.
  intros Hl. rewrite /sync_files /= -!list_fmap_compose. apply list_fmap_ext. intros i f Hf.
  eapply Forall_lookup_1 in Hl as [d Hd]; [|done]. by rewrite /= /sync_file Hd.
Qed.

(** What a synchronised copy of a plugin is. *)
Lemma SyncInstalled_spec reg fs p :
  let p' := SyncInstalled reg fs p in
  Name p' = Name p ∧ Type' p' = Type' p ∧ AvailableVersion p' = AvailableVersion p ∧
  key <$> Libraries p' = key <$> Libraries p ∧ key <$> Binaries p' = key <$> Binaries p ∧
  Status' p' = (if decide (installed fs p) then INSTALLED else Status' p) ∧
  (installed fs p →
    Checksum p' = String.concat "" (
      ((λ f, md5 (default "" (stat fs (installed_path LibDir f)))) <$> Libraries p) ++
      ((λ f, md5 (default "" (stat fs (installed_path BinDir f)))) <$> Binaries p))).
Proof.
  cbv zeta. rewrite /SyncInstalled.
  pose proof (sync_files_keys LibDir fs (Libraries p)) as HkL.
  pose proof (sync_files_found LibDir fs (Libraries p)) as HfL.
  pose proof (sync_files_sums LibDir fs (Libraries p)) as HsL.
  destruct (sync_files LibDir fs (Libraries p)) as [[libs found] z1]. cbn [fst snd] in *.
  destruct (decide (found < length libs)) as [Hlt|Hge].
  { destruct (decide (installed fs p)) as [[Hi _]|Hn]; [by apply HfL in Hlt|]. by split_and!. }
  assert (Forall (present LibDir fs) (Libraries p)) as HL.
  { destruct (decide (Forall (present LibDir fs) (Libraries p))); [done|]. destruct Hge. by apply HfL. }
  pose proof (sync_files_keys BinDir fs (Binaries p)) as HkB.
  pose proof (sync_files_found BinDir fs (Binaries p)) as HfB.
  pose proof (sync_files_sums BinDir fs (Binaries p)) as HsB.
  destruct (sync_files BinDir fs (Binaries p)) as [[bins found2] z2]. cbn [fst snd] in *.
  destruct (decide (found2 < length bins)) as [Hlt|Hge2].
  { destruct (decide (installed fs p)) as [[_ Hi]|Hn]; [by apply HfB in Hlt|]. by split_and!. }
  assert (Forall (present BinDir fs) (Binaries p)) as HB.
  { destruct (decide (Forall (present BinDir fs) (Binaries p))); [done|]. destruct Hge2. by apply HfB. }
  split_and!; try done.
  - by destruct (decide (installed fs p)) as [_|[]].
  - intros _. by rewrite /Checksum /= HsL // HsB.
Qed.

(** ** Listing one plugin *)

Definition plugin_files (p : Plugin) : list Binary := Libraries p ++ Binaries p.

Definition dests (p : Plugin) : list path :=
  (installed_path LibDir <$> Libraries p) ++ (installed_path BinDir <$> Binaries p).

Lemma SyncInstalled_files reg fs q :
  key <$> plugin_files (SyncInstalled reg fs q) = key <$> plugin_files q.
Proof.
  destruct (SyncInstalled_spec reg fs q) as (_ & _ & _ & HL & HB & _).
  by rewrite /plugin_files !fmap_app HL HB.
Qed.

Lemma find_file_key fs paths f g : key f = key g → find_file fs paths f = find_file fs paths g.
Proof. rewrite /find_file /key. by intros [= -> _]. Qed.

Lemma find_file_stat fs paths f dir data :
  find_file fs paths f = Some (dir, data) → dir ∈ paths ∧ stat fs (source_path dir f) = Some data.
Proof.
  rewrite /find_file. induction paths as [|d paths IH]; csimpl; [done|].
  rewrite -/(source_path d f). destruct (stat fs (source_path d f)) as [x|] eqn:Hx; simpl.
  - intros [= <- <-]. split; [set_solver|done].
  - intros [? ?]%IH. split; [set_solver|done].
Qed.

Lemma find_file_agree fs fs' paths f :
  (∀ dir, dir ∈ paths → fs' !! source_path dir f = fs !! source_path dir f) →
  find_file fs' paths f = find_file fs paths f.
Proof.
  intros Hs. rewrite /find_file. f_equal. apply list_omap_ext, Forall2_same_length_lookup_2; [done|].
  intros i d d' Hd Hd'. simplify_eq. rewrite /stat -/(source_path d f) Hs //. by eapply list_elem_of_lookup_2.
Qed.

(** Every file is found, the last one in [sd]. *)
Lemma find_files_all fs paths files sd :
  files ≠ [] → (∀ f, f ∈ files → ∃ data, find_file fs paths f = Some (sd, data)) →
  ∃ z, find_files fs paths files =
    Some (sd, String.concat "" ((λ f, md5 (default "" (stat fs (source_path sd f)))) <$> files), z).
Proof.
  intros Hne Hf.
  assert (omap (find_file fs paths) files = (λ f, (sd, default "" (stat fs (source_path sd f)))) <$> files) as Ho.
  { clear Hne. induction files as [|f files IH]; csimpl; [done|].
    destruct (Hf f) as [d Hd]; [set_solver|]. rewrite Hd. destruct (find_file_stat _ _ _ _ _ Hd) as [_ ->].
    rewrite IH //. intros g Hg. apply Hf. set_solver. }
  rewrite /find_files Ho length_fmap decide_True // -!list_fmap_compose. eexists. do 4 f_equal.
  destruct files as [|f files _] using rev_ind; [done|]. by rewrite fmap_app last_snoc.
Qed.

Lemma nameOnly_plain name : TrimSpace name = name → has_byte "@" name = false → nameOnly name = name.
Proof. rewrite /nameOnly. intros -> Hn. by rewrite Split_nosep. Qed.

Lemma selected_only w q l1 l2 p :
  registry w = l1 ++ q :: l2 → NoDup (Name <$> registry w) →
  nameOnly (Name q) = Name q → p ∈ l1 ++ l2 → selected [Name q] p = false.
Proof.
  intros Hr Hnd Hn Hp. rewrite /selected. apply andb_false_iff. right. rewrite orb_false_l.
  apply bool_decide_eq_false. rewrite /= Hn. intros Heq%list_elem_of_singleton.
  rewrite Hr fmap_app fmap_cons in Hnd. apply list.NoDup_app in Hnd as (_ & Hd & [Hq _]%list.NoDup_cons).
  apply elem_of_app in Hp as [Hp|Hp].
  - apply (Hd (Name p)); [by apply list_elem_of_fmap_2|]. rewrite Heq. set_solver.
  - apply Hq. rewrite -Heq. by apply list_elem_of_fmap_2.
Qed.

Lemma list_loop_skip latest flt l pre w :
  Forall (λ p, selected flt p = false) l → list_loop latest flt l pre w = ([], w).
Proof.
  revert pre. induction l as [|p l IH]; intros pre; simpl; [done|].
  intros [-> Hl]%Forall_cons_1. by apply IH.
Qed.

Lemma list_loop_one latest flt l1 q l2 pre w :
  Forall (λ p, selected flt p = false) (l1 ++ l2) → selected flt q = true →
  list_loop latest flt (l1 ++ q :: l2) pre w =
  let '(p, dir) := list_one latest w q in
  ([p], mkWorld (fsys w) (pre ++ l1 ++ write_back p q :: l2)
          (match dir with Some d => <[Name q := d]> (srcDir w) | None => srcDir w end) (searchPath w)).
Proof.
  intros [Hl1 Hl2]%list.Forall_app Hq. revert pre. induction Hl1 as [|p l1 Hp Hl1 IH]; intros pre; simpl.
  - rewrite Hq. destruct (list_one latest w q) as [p dir]. by rewrite list_loop_skip.
  - rewrite Hp IH. destruct (list_one latest w q) as [p' dir]. by rewrite -app_assoc.
Qed.

(** What is asked of a plugin and the files around it for it to be installed:
    its files lie in one directory [sd] of the search path, none of the
    places looked at is a place files are installed to. *)
Record installable (w : World) (l1 : list Plugin) (q : Plugin) (l2 : list Plugin) (sd : string) : Prop := {
  in_reg : registry w = l1 ++ q :: l2;
  in_unique : NoDup (Name <$> registry w);
  in_type : Type' q ≠ UNIMPLEMENTED;
  in_status : Status' q = UNKNOWN;
  in_trim : TrimSpace (Name q) = Name q;
  in_at : has_byte "@" (Name q) = false;
  in_name : Name q ≠ "";
  in_files : plugin_files q ≠ [];
  in_found f : f ∈ plugin_files q →
    ∃ data, find_file (fsys w) (Split (searchPath w) ":") f = Some (sd, data);
  in_libs : Forall (ready LibDir sd (fsys w)) (Libraries q);
  in_bins : Forall (ready BinDir sd (fsys w)) (Binaries q);
  in_dests : NoDup (dests q);
  in_apart dir f : dir ∈ Split (searchPath w) ":" → f ∈ plugin_files q → source_path dir f ∉ dests q;
}.

Lemma map_by_key {A} (h : Binary → A) (l1 l2 : list Binary) :
  (∀ f g, key f = key g → h f = h g) → key <$> l1 = key <$> l2 → h <$> l1 = h <$> l2.
Proof.
  intros Hh. revert l2. induction l1 as [|f l1 IH]; intros [|g l2]; try done.
  rewrite !fmap_cons. intros [Hfg Hl]%(inj2 cons). by rewrite (Hh f g Hfg) (IH l2 Hl).
Qed.

Lemma elem_of_by_key f (l1 l2 : list Binary) : f ∈ l1 → key <$> l1 = key <$> l2 → ∃ g, g ∈ l2 ∧ key f = key g.
Proof.
  intros Hf Hk. apply (list_elem_of_fmap_2 key) in Hf. rewrite Hk in Hf.
  apply list_elem_of_fmap in Hf as (g & ? & ?). by exists g.
Qed.

Definition installed_sums (fs : FS) (q : Plugin) : string :=
  String.concat "" (((λ f, md5 (default "" (stat fs (installed_path LibDir f)))) <$> Libraries q) ++
                    ((λ f, md5 (default "" (stat fs (installed_path BinDir f)))) <$> Binaries q)).

Definition source_sums (fs : FS) (sd : string) (q : Plugin) : string :=
  String.concat "" ((λ f, md5 (default "" (stat fs (source_path sd f)))) <$> plugin_files q).

(** The status of a plugin whose files are all on the search path. *)
Definition offered_status (fs : FS) (sd : string) (q : Plugin) : Status_ :=
  if decide (installed fs q) then
    if decide (installed_sums fs q = source_sums fs sd q) then INSTALLED else OUTDATED
  else AVAILABLE.

Lemma List_offers w l1 q l2 sd :
  registry w = l1 ++ q :: l2 → NoDup (Name <$> registry w) →
  Type' q ≠ UNIMPLEMENTED → Status' q = UNKNOWN →
  TrimSpace (Name q) = Name q → has_byte "@" (Name q) = false → plugin_files q ≠ [] →
  (∀ f, f ∈ plugin_files q → ∃ data, find_file (fsys w) (Split (searchPath w) ":") f = Some (sd, data)) →
  ∃ p w1, List true [Name q] w = ([p], w1) ∧
    Name p = Name q ∧ key <$> Libraries p = key <$> Libraries q ∧
    key <$> Binaries p = key <$> Binaries q ∧ Status' p = offered_status (fsys w) sd q ∧
    fsys w1 = fsys w ∧ searchPath w1 = searchPath w ∧ srcDir w1 !! Name q = Some sd ∧
    registry w1 = l1 ++ write_back p q :: l2.
Proof.
  intros Hr Hnd Ht Hs Htrim Hat Hne Hf. pose proof (nameOnly_plain _ Htrim Hat) as Hno.
  rewrite /List Hr list_loop_one.
  - apply list.Forall_forall. intros p Hp. by eapply selected_only.
  - rewrite /selected /= Hno bool_decide_false // bool_decide_true ?orb_true_r //. set_solver.
  - rewrite /list_one. pose proof (SyncInstalled_spec (registry w) (fsys w) q) as Hspec.
    pose proof (SyncInstalled_files (registry w) (fsys w) q) as Hk.
    set (p0 := SyncInstalled (registry w) (fsys w) q) in *. cbv zeta in Hspec.
    destruct Hspec as (Hn & _ & _ & HkL & HkB & Hst & Hsum).
    destruct (find_files_all (fsys w) (Split (searchPath w) ":") (plugin_files p0) sd) as [z Hz].
    { intros Hx. rewrite Hx in Hk. destruct (plugin_files q); done. }
    { intros f Hin. destruct (elem_of_by_key _ _ _ Hin Hk) as (g & Hg & Hfg).
      rewrite (find_file_key _ _ f g Hfg). by apply Hf. }
    rewrite -/(plugin_files p0) Hz. eexists _, _. split; [done|].
    rewrite (map_by_key (λ f, md5 (default "" (stat (fsys w) (source_path sd f)))) _ (plugin_files q)) //;
      [by intros f g Hfg; rewrite (key_source sd f g)|].
    rewrite -/(source_sums (fsys w) sd q). simpl. rewrite lookup_insert_eq.
    assert (Status' (offer (Some (sd, source_sums (fsys w) sd q, z)) p0) = offered_status (fsys w) sd q ∧
      write_back (offer (Some (sd, source_sums (fsys w) sd q, z)) p0) = write_back p0 ∧
      Name (offer (Some (sd, source_sums (fsys w) sd q, z)) p0) = Name p0 ∧
      Libraries (offer (Some (sd, source_sums (fsys w) sd q, z)) p0) = Libraries p0 ∧
      Binaries (offer (Some (sd, source_sums (fsys w) sd q, z)) p0) = Binaries p0) as (HS & HW & HN & HL & HB).
    { rewrite /offered_status /offer /=. rewrite Hst Hs.
      destruct (decide (installed (fsys w) q)) as [Hi|Hi]; simpl.
      - assert (Checksum (set_available "local" p0) = installed_sums (fsys w) q) as -> by by apply Hsum.
        destruct (decide (installed_sums (fsys w) q = _)); (case_decide; by split_and!).
      - case_decide; by split_and!. }
    rewrite HS HN HL HB. split_and!; try done.
Qed.

(** ** Installing *)

Lemma write_back_same p q :
  key <$> Libraries p = key <$> Libraries q → key <$> Binaries p = key <$> Binaries q →
  key <$> plugin_files (write_back p q) = key <$> plugin_files q.
Proof. intros HL HB. by rewrite /plugin_files !fmap_app /= HL HB. Qed.

Lemma Forall_by_key (P : Binary → Prop) (l1 l2 : list Binary) :
  (∀ f g, key f = key g → P f → P g) → key <$> l1 = key <$> l2 → Forall P l1 → Forall P l2.
Proof.
  intros HP Hk. rewrite !list.Forall_forall. intros Hl g Hg.
  destruct (elem_of_by_key g l2 l1 Hg (eq_sym Hk)) as (f & Hf & Hfg). by eapply HP; [symmetry|apply Hl].
Qed.

Lemma present_key dir fs f g : key f = key g → present dir fs f → present dir fs g.
Proof. rewrite /present. by intros ->%(key_path dir). Qed.

Lemma offered_status_key fs sd p q :
  key <$> Libraries p = key <$> Libraries q → key <$> Binaries p = key <$> Binaries q →
  offered_status fs sd p = offered_status fs sd q.
Proof.
  intros HL HB. rewrite /offered_status.
  assert (installed fs p ↔ installed fs q) as Hi.
  { rewrite /installed. split; intros [H1 H2]; (split; [eapply Forall_by_key in H1|eapply Forall_by_key in H2]);
      try done; intros ??; by apply present_key. }
  assert (installed_sums fs p = installed_sums fs q) as ->.
  { rewrite /installed_sums. do 2 f_equal; (apply map_by_key; [|done]); intros f g Hfg; by rewrite (key_path _ f g Hfg). }
  assert (source_sums fs sd p = source_sums fs sd q) as ->.
  { rewrite /source_sums. f_equal. apply map_by_key; [by intros f g ->%(key_source sd)|].
    by rewrite /plugin_files !fmap_app HL HB. }
  destruct (decide (installed fs p)), (decide (installed fs q)); tauto.
Qed.

(** An updated plugin up to date: after its files were copied, or when they were
    the same. *)
Lemma List_again w l1 q l2 sd p fs' sp :
  installable w l1 q l2 sd → key <$> Libraries p = key <$> Libraries q →
  key <$> Binaries p = key <$> Binaries q →
  differ_in (dests q) (fsys w) fs' → offered_status fs' sd q = INSTALLED →
  ∃ p' w'', List true [Name q] (mkWorld fs' (l1 ++ write_back p q :: l2) sp (searchPath w)) = ([p'], w'') ∧
    Status' p' = INSTALLED.
Proof.
  intros [Hr Hu Ht Hs Htr Hat Hn Hne Hf HrL HrB Hnd Hap] HL HB HD Ho.
  pose proof (write_back_same p q HL HB) as Hk.
  destruct (List_offers (mkWorld fs' (l1 ++ write_back p q :: l2) sp (searchPath w)) l1 (write_back p q) l2 sd)
    as (p' & w'' & HList & _ & _ & _ & Hst & _); try done; simpl.
  - by rewrite Hr !fmap_app !fmap_cons in Hu |- *.
  - intros Hx. rewrite Hx in Hk. by destruct (plugin_files q).
  - intros f Hin. destruct (elem_of_by_key _ _ _ Hin Hk) as (g & Hg & Hfg).
    rewrite (find_file_key _ _ f g Hfg) (find_file_agree (fsys w)); [|by apply Hf].
    intros dir Hdir. apply HD. by apply Hap.
  - exists p', w''. split; [done|]. rewrite Hst -Ho. by apply offered_status_key.
Qed.

Lemma differ_in_trans D1 D2 fs1 fs2 fs3 :
  differ_in D1 fs1 fs2 → differ_in D2 fs2 fs3 → differ_in (D1 ++ D2) fs1 fs3.
Proof.
  intros [H1 N1] [H2 N2]. split.
  - intros q Hq. rewrite H2 ?H1 //; set_solver.
  - intros q [Hq|Hq]%elem_of_app; [by apply N1|].
    destruct (decide (q ∈ D1)) as [?|Hn]; [by apply N1|]. rewrite -H1 //. by apply N2.
Qed.

(** Both copying loops of [Install]. *)
Lemma copy_all w l1 q l2 sd name :
  installable w l1 q l2 sd →
  ∃ fs1 fs2, copy_files name sd LibDir (Libraries q) (fsys w) = (None, fs1) ∧
    copy_files name sd BinDir (Binaries q) fs1 = (None, fs2) ∧
    (∀ f, f ∈ Libraries q → fs2 !! installed_path LibDir f = fsys w !! source_path sd f) ∧
    (∀ f, f ∈ Binaries q → fs2 !! installed_path BinDir f = fsys w !! source_path sd f) ∧
    differ_in (dests q) (fsys w) fs2.
Proof.
  intros [Hr Hu Ht Hs Htr Hat Hn Hne Hf HrL HrB Hnd Hap].
  apply list.NoDup_app in Hnd as (HnL & Hdisj & HnB).
  assert (∀ f, f ∈ plugin_files q → source_path sd f ∉ dests q) as Hsrc.
  { intros f Hin. apply Hap; [|done]. destruct (Hf f Hin) as [d Hd]. by apply find_file_stat in Hd as [? _]. }
  destruct (copy_files_ok name LibDir sd (Libraries q) (fsys w) HrL HnL) as (fs1 & Hc1 & Ha1 & HD1).
  { intros f g Hfin Hgin Heq. apply (Hsrc f); [set_solver|]. rewrite Heq.
    apply elem_of_app. left. by apply list_elem_of_fmap_2. }
  destruct (copy_files_ok name BinDir sd (Binaries q) fs1) as (fs2 & Hc2 & Ha2 & HD2).
  - apply list.Forall_forall. intros f Hin. eapply ready_mono; [|done|..].
    + by eapply list.Forall_forall in HrB.
    + intros Hx. apply (Hdisj _ Hx). by apply list_elem_of_fmap_2.
    + intros Hx. apply (Hsrc f); set_solver.
  - done.
  - intros f g Hfin Hgin Heq. apply (Hsrc f); [set_solver|]. rewrite Heq.
    apply elem_of_app. right. by apply list_elem_of_fmap_2.
  - exists fs1, fs2. split_and!; [done|done| | |by eapply differ_in_trans].
    + intros f Hin. rewrite (proj1 HD2) ?Ha1 //. intros Hx. eapply Hdisj; [|done]. by apply list_elem_of_fmap_2.
    + intros f Hin. rewrite Ha2 // (proj1 HD1) //. intros Hx. apply (Hsrc f); set_solver.
Qed.

(** Copied files have the checksums of their sources. *)
Lemma copied_up_to_date w l1 q l2 sd fs' :
  installable w l1 q l2 sd →
  (∀ f, f ∈ Libraries q → fs' !! installed_path LibDir f = fsys w !! source_path sd f) →
  (∀ f, f ∈ Binaries q → fs' !! installed_path BinDir f = fsys w !! source_path sd f) →
  differ_in (dests q) (fsys w) fs' → offered_status fs' sd q = INSTALLED.
Proof.
  intros [Hr Hu Ht Hs Htr Hat Hn Hne Hf HrL HrB Hnd Hap] HL HB [HD _].
  assert (∀ f, f ∈ plugin_files q → is_Some (stat (fsys w) (source_path sd f)) ∧
    stat fs' (source_path sd f) = stat (fsys w) (source_path sd f)) as Hst.
  { intros f Hin. destruct (Hf f Hin) as [d [Hsd Hd]%find_file_stat]. split; [by eexists|].
    rewrite /stat HD //. by apply Hap. }
  rewrite /offered_status decide_True.
  - split; apply list.Forall_forall; intros f Hin; rewrite /present /stat ?HL ?HB //; apply Hst; set_solver.
  - rewrite decide_True //. rewrite /installed_sums /source_sums /plugin_files fmap_app. do 2 f_equal;
      apply list_fmap_ext; intros i f Hin%list_elem_of_lookup_2; do 2 f_equal;
      (rewrite (proj2 (Hst f _)); [set_solver|]); rewrite /stat ?HL ?HB //.
Qed.


(** ** Removing *)

Lemma remove_files_gone name dir l fs fs' :
  remove_files name dir l fs = (None, fs') →
  (∀ x, fs !! x = None → fs' !! x = None) ∧ ∀ f, f ∈ l → fs' !! installed_path dir f = None.
Proof.
  revert fs. induction l as [|f l IH]; intros fs; simpl; [intros [= <-]; split; [done|set_solver]|].
  destruct (os_Remove (installed_path dir f) fs) as [fs0|e] eqn:Hr; [|done].
  assert (fs0 = delete (installed_path dir f) fs) as ->.
  { rewrite /os_Remove in Hr. by split_matches. }
  intros [Hmono Hall]%IH. split.
  - intros x Hx. apply Hmono. apply lookup_delete_None. by right.
  - intros g [->|Hg]%elem_of_cons; [|by apply Hall]. apply Hmono, lookup_delete_eq.
Qed.

(** Both loops over the files of a plugin: the error and the files left. *)
Definition remove_plugin (name : string) (p : Plugin) (fs : FS) : option error * FS :=
  let '(e1, fs1) := remove_files name LibDir (Libraries p) fs in
  let '(e2, fs2) := remove_files name BinDir (Binaries p) fs1 in
  (match e2 with Some e => Some e | None => e1 end, fs2).

Lemma remove_loop_installed listed name names err w p :
  TrimSpace name = name → name ≠ "" → list.last (filter (λ p, Name p = name) listed) = Some p →
  Status' p = INSTALLED →
  remove_loop listed (name :: names) err w =
  let '(e, fs') := remove_plugin name p (fsys w) in
  let err' := match e with Some e => Some e | None => err end in
  let '(es, w') := remove_loop listed names err' (mkWorld fs' (registry w) (srcDir w) (searchPath w)) in
  (Msg ("Removing " +:+ name +:+ "...") ::
   match err' with Some e => Failed e :: es | None => Msg ("Removed " +:+ name) :: Changed :: es end, w').
Proof.
  intros Htr Hn Hl Hs. rewrite /= Htr decide_False // Hl decide_True // /remove_plugin.
  destruct (remove_files _ LibDir _ _) as [e1 fs1], (remove_files _ BinDir _ _) as [[e2|] fs2]; [done|].
  by destruct e1.
Qed.

(** One failure makes [Remove] misreport every later plugin: the error is
    kept across the plugins, so that of two installed plugins of which the
    first could not be removed the second is reported as failed too, with the
    error of the first, although all its files are removed. *)
Theorem Remove_error_sticks listed a pa b pb w e fsa fsb :
  TrimSpace a = a → a ≠ "" → TrimSpace b = b → b ≠ "" →
  list.last (filter (λ p, Name p = a) listed) = Some pa → Status' pa = INSTALLED →
  list.last (filter (λ p, Name p = b) listed) = Some pb → Status' pb = INSTALLED →
  remove_plugin a pa (fsys w) = (Some e, fsa) → remove_plugin b pb fsa = (None, fsb) →
  remove_loop listed [a; b] None w =
    ([Msg ("Removing " +:+ a +:+ "..."); Failed e; Msg ("Removing " +:+ b +:+ "..."); Failed e],
     mkWorld fsb (registry w) (srcDir w) (searchPath w)) ∧
  (∀ f, f ∈ Libraries pb → fsb !! installed_path LibDir f = None) ∧
  ∀ f, f ∈ Binaries pb → fsb !! installed_path BinDir f = None.
Proof.
  intros Hta Hna Htb Hnb Hla Hsa Hlb Hsb Ha Hb. split.
  - rewrite (remove_loop_installed listed a [b] None w pa) // Ha. cbv beta iota zeta.
    rewrite (remove_loop_installed listed b [] _ _ pb) //. cbn [fsys]. by rewrite Hb.
  - rewrite /remove_plugin in Hb.
    destruct (remove_files b LibDir (Libraries pb) fsa) as [e1 fs1] eqn:H1.
    destruct (remove_files b BinDir (Binaries pb) fs1) as [[e2|] fs2] eqn:H2; [done|].
    injection Hb as -> ->. apply remove_files_gone in H1 as [_ HL], H2 as [Hm HB].
    split; [|done]. intros f Hf. by apply Hm, HL.
Qed.

(** When the service answers the listing with a body that cannot be decoded,
    [PropagatorManager.Install] never returns: it sends the error on an
    unbuffered channel before its caller has it.  With any other answer, an
    error of the request or of the service included, it returns. *)
Theorem Propagator_Install_returns downloadDir fetch service names w :
  Propagator_Install downloadDir fetch service names w = None ↔
  to_fetch names (List true names w).1 ≠ [] ∧
  ∃ code e, service (to_fetch names (List true names w).1) = Ok (code, Err e) ∧ (200 <= code < 300)%Z.
Proof.
  rewrite /Propagator_Install /Propagator_List. destruct (List true names w) as [plugins w1]. simpl.
  assert (∀ ps w', (let '(es, l, fs') := prepare downloadDir fetch ps names (fsys w1) in
    let '(es', w2) := Install l (w' fs') in Some (es ++ es', w2)) ≠ None) as Hsome.
  { intros ps w'. destruct (prepare _ _ _ _ _) as [[es l] fs']. by destruct (Install l _). }
  destruct (decide (to_fetch names plugins = [])) as [Hn|Hn].
  { split; [by intros ?%Hsome|by intros [? _]]. }
  destruct (service _) as [[code body]|e]; [|split; [by intros ?%Hsome|naive_solver]].
  destruct (decide _); [|split; [by intros ?%Hsome|naive_solver lia]].
  destruct body as [online|e]; [split; [by intros ?%Hsome|naive_solver]|].
  split; [|done]. intros _. split; [done|]. by exists code, e.
Qed.

End plugins.

(** ** The registry (registry.go) *)

Definition file (name : string) : Binary := mkBinary name "" "".
Definition file_in (name dir : string) : Binary := mkBinary name "" dir.
Definition entry (name : string) (t : Type_) (libs bins : list Binary) : Plugin :=
  mkPlugin name t UNKNOWN "" "" libs bins 0.

Definition Registry : list Plugin := [
  entry "criu" EXTERNAL [] [file "criu"];
  entry "cloud-hypervisor" SUPPORTED [file "libcedana-cloud-hypervisor.so"] [];
  entry "criu/cuda" EXTERNAL [file_in "cuda_plugin.so" "/usr/lib/criu"] [file_in "cuda-checkpoint" "/usr/local/bin"];
  entry "criu/nvidia-dev" EXTERNAL [file_in "nvidia-dev-plugin.so" "/usr/lib/criu"] [];
  entry "criu/infiniband" EXTERNAL [file_in "infiniband-plugin.so" "/usr/lib/criu"] [];
  entry "runc" SUPPORTED [file "libcedana-runc.so"] [];
  entry "containerd" SUPPORTED [file "libcedana-containerd.so"] [];
  entry "crio" SUPPORTED [file "libcedana-crio.so"] [];
  entry "kata" SUPPORTED [file "libcedana-kata.so"] [];
  entry "storage/cedana" SUPPORTED [file "libcedana-storage-cedana.so"] [];
  entry "storage/s3" SUPPORTED [file "libcedana-storage-s3.so"] [];
  entry "storage/gcs" SUPPORTED [file "libcedana-storage-gcs.so"] [];
  entry "gpu" EXTERNAL [file "libcedana-gpu.so"] [file "cedana-gpu-controller"];
  entry "gpu/tracer" EXTERNAL [file "libcedana-gpu-tracer.so"] [];
  entry "streamer" EXTERNAL [] [file "cedana-image-streamer"];
  entry "k8s" SUPPORTED [file "libcedana-k8s.so"] [];
  entry "containerd/runtime-runc" EXTERNAL [] [file "cedana-shim-runc-v2"];
  entry "slurm" SUPPORTED [file "libcedana-slurm.so"] [];
  entry "slurm/wlm" EXTERNAL
    [file "spank_cedana.so"; file "task_cedana.so"; file "cli_filter_cedana.so"; file "job_submit_cedana.so"]
    [file "cedana-slurm"];
  entry "slurm/tests" EXTERNAL [] [file "test-preemption.sh"]
].

(** What the managers rely on: names are unique and plain, every plugin has a
    file, no two plugins share one, and nothing counts as installed before it
    was looked for. *)
Lemma Registry_ok :
  NoDup (Name <$> Registry) ∧ NoDup (bName <$> (Registry ≫= plugin_files)) ∧
  Forall (λ p, Type' p ≠ UNIMPLEMENTED ∧ Status' p = UNKNOWN ∧ plugin_files p ≠ [] ∧
               TrimSpace (Name p) = Name p ∧ has_byte "@" (Name p) = false) Registry.
Proof. split_and!; [by_decide|by_decide|]. by repeat constructor. Qed.

(** ** Features (feature.go) and loading (core.go) *)

Section features.
Context `{MR : MapRange} {T P : Type}.

(** What [Lookup] of a symbol gives: a value of the expected type, a nil pointer
    of it, or something of another type, by its name. *)
Inductive symbol := SymOk (v : T) | SymNil | SymOther (typ : string).

(** How a call of the given function ends. *)
Inductive do_result := DoReturns (err : option error) | DoPanics.

Record Feature := mkFeature { Symbol' : string; Description : string; TypeName : string }.

Context (Lookup : P → string → option symbol).

Definition considered (flt : list string) (name : string) : bool :=
  bool_decide (flt = []) || bool_decide (name ∈ flt).

Definition exports_no (feature : Feature) (name : string) : error :=
  Errorf ("plugin '" +:+ name +:+ "' exports no '" +:+ Description feature +:+ "'").

Definition incompatible (feature : Feature) (name typ : string) : error :=
  Errorf ("plugin '" +:+ name +:+ "' has incompatible '" +:+ Description feature +:+
          "'. expected '" +:+ TypeName feature +:+ "', got '" +:+ typ +:+ "'").

(** The loop of [IfAvailable]: the errors and the plugins [do] was called for,
    or [None] for the errors when a call panicked: the deferred [recover] then
    ends the function, which returns nil. *)
Fixpoint if_available_loop (feature : Feature) (do_ : string → T → do_result)
    (flt : list string) (l : list (string * P)) (errs : list (option error)) (valid : bool)
    (called : list string) : option (list (option error) * bool) * list string :=
  match l with
  | [] => (Some (errs, valid), called)
  | (name, p) :: l =>
      if considered flt name then
        match Lookup p (Symbol' feature) with
        | None | Some SymNil =>
            if_available_loop feature do_ flt l (errs ++ [Some (exports_no feature name)]) true called
        | Some (SymOther typ) =>
            if_available_loop feature do_ flt l (errs ++ [Some (incompatible feature name typ)]) true called
        | Some (SymOk v) =>
            match do_ name v with
            | DoReturns e => if_available_loop feature do_ flt l (errs ++ [e]) true (called ++ [name])
            | DoPanics => (None, called ++ [name])
            end
        end
      else if_available_loop feature do_ flt l errs valid called
  end.

Definition IfAvailable (feature : Feature) (do_ : string → T → do_result) (flt : list string)
    (loaded : gmap string P) : option error * list string :=
  match if_available_loop feature do_ flt (Range loaded) [] false [] with
  | (None, called) => (None, called)
  | (Some (errs, valid), called) =>
      (errors_Join (if valid then errs
                    else errs ++ [Some (Errorf ("plugin(s) " +:+ StrJoin flt ", " +:+ " were not found"))]),
       called)
  end.

(** [IsAvailable] *)
Definition IsAvailable (feature : Feature) (flt : list string) (loaded : gmap string P) : bool * option error :=
  let looked := (λ np, (np.1, Lookup np.2 (Symbol' feature))) <$>
                  filter (λ np, considered flt np.1 = true) (Range loaded) in
  (existsb (λ ns, match ns.2 with Some (SymOk _) => true | _ => false end) looked,
   errors_Join (omap (λ ns, match ns.2 with
                            | Some SymNil => Some (Some (exports_no feature ns.1))
                            | Some (SymOther typ) => Some (Some (incompatible feature ns.1 typ))
                            | _ => None
                            end) looked)).

(** [loadPlugins], given [plugin.Open]; [skip] when a plugin command runs. *)
Definition loadPlugins `{E : Env} (skip : bool) (open : path → gores P) (fs : FS) : gmap string P :=
  if bool_decide (is_Some (fs !! resolve LibDir)) && negb skip then
    foldl (λ loaded t,
      if bool_decide (Type' t = SUPPORTED ∨ Type' t = EXPERIMENTAL) then
        foldl (λ loaded f,
          let p := resolve (Join2 LibDir (bName f)) in
          match stat fs p with
          | None => loaded
          | Some _ => match open p with Ok x => <[Name t := x]> loaded | Err _ => loaded end
          end) loaded (Libraries t)
      else loaded) ∅ Registry
  else ∅.

(** [Load] is [sync.OnceValue(loadPlugins)]: the state is what the first call
    returned. *)
Definition Load `{E : Env} (skip : bool) (open : path → gores P) (fs : FS) (cached : option (gmap string P))
    : gmap string P * option (gmap string P) :=
  match cached with
  | Some m => (m, cached)
  | None => let m := loadPlugins skip open fs in (m, Some m)
  end.

(** The plugins that export the symbol. *)
Definition exporting (feature : Feature) (l : list (string * P)) : list (string * T) :=
  omap (λ np, match Lookup np.2 (Symbol' feature) with
              | Some (SymOk v) => Some (np.1, v) | _ => None end) l.

Definition panics (do_ : string → T → do_result) (nv : string * T) : bool :=
  match do_ nv.1 nv.2 with DoPanics => true | _ => false end.

(** The error [IfAvailable] records for a plugin. *)
Definition recorded (feature : Feature) (do_ : string → T → do_result) (np : string * P) : option error :=
  match Lookup np.2 (Symbol' feature) with
  | None | Some SymNil => Some (exports_no feature np.1)
  | Some (SymOther typ) => Some (incompatible feature np.1 typ)
  | Some (SymOk v) => match do_ np.1 v with DoReturns e => e | DoPanics => None end
  end.

Lemma if_available_loop_spec feature do_ flt l errs valid called :
  let l' := filter (λ np, considered flt np.1 = true) l in
  let r := if_available_loop feature do_ flt l errs valid called in
  if existsb (panics do_) (exporting feature l') then r.1 = None
  else r = (Some (errs ++ (recorded feature do_ <$> l'), valid || negb (bool_decide (l' = []))),
            called ++ (exporting feature l').*1).
Proof.
  revert errs valid called. induction l as [|[name p] l IH]; intros errs valid called; cbv zeta.
  { by rewrite /= !app_nil_r orb_false_r. }
  simpl. destruct (considered flt name) eqn:Hc.
  - rewrite filter_cons_True // /exporting. csimpl. rewrite -/(exporting feature _) /recorded /=.
    destruct (Lookup p (Symbol' feature)) as [[v| |typ]|] eqn:Hl; simpl.
    + rewrite {1}/panics /=. destruct (do_ name v) as [e|] eqn:Hd; simpl; [|done].
      specialize (IH (errs ++ [e]) true (called ++ [name])). cbv zeta in IH. case_match; [done|].
      rewrite IH /= ?orb_true_r -!app_assoc //.
    + specialize (IH (errs ++ [Some (exports_no feature name)]) true called). cbv zeta in IH. case_match; [done|].
      rewrite IH /= ?orb_true_r -!app_assoc //.
    + specialize (IH (errs ++ [Some (incompatible feature name typ)]) true called). cbv zeta in IH. case_match; [done|].
      rewrite IH /= ?orb_true_r -!app_assoc //.
    + specialize (IH (errs ++ [Some (exports_no feature name)]) true called). cbv zeta in IH. case_match; [done|].
      rewrite IH /= ?orb_true_r -!app_assoc //.
  - rewrite filter_cons_False; [by rewrite /= Hc|]. apply IH.
Qed.

Lemma recorded_none feature do_ l :
  existsb (panics do_) (exporting feature l) = false →
  Forall (λ e, e = None) (recorded feature do_ <$> l) ↔
  length (exporting feature l) = length l ∧
  Forall (λ nv, do_ nv.1 nv.2 = DoReturns None) (exporting feature l).
Proof.
  assert (∀ l, length (exporting feature l) ≤ length l) as Hle.
  { intros l'. rewrite /exporting. induction l' as [|np l' IH]; csimpl; [lia|]. case_match; csimpl; lia. }
  induction l as [|[name p] l IH]; [done|]. rewrite /exporting. csimpl. rewrite -/(exporting feature l).
  specialize (Hle l). rewrite list.Forall_cons.
  destruct (Lookup p (Symbol' feature)) as [[v| |typ]|] eqn:Hl; simpl;
    rewrite {1}/recorded /= Hl; try (intros _; split; [by intros [? _]|lia]).
  intros [Hp Hrest]%orb_false_iff. rewrite !list.Forall_cons IH // /=. rewrite /panics /= in Hp.
  destruct (do_ name v) as [e|]; [|done]. split.
  - intros (-> & ? & ?). split; [lia|by split].
  - intros (Hlen & [= ->] & ?). split; [done|]. split; [lia|done].
Qed.

(** What [IfAvailable] tells.  If no call panics, it calls the function for
    every plugin considered that exports the symbol, in order, even after
    errors, and returns nil exactly when some plugin was considered and every
    one considered exports the symbol with its type and its call succeeded.  If
    a call panics, the result is nil as if everything had succeeded. *)
Theorem IfAvailable_verdict feature do_ flt loaded :
  let l := filter (λ np, considered flt np.1 = true) (Range loaded) in
  let r := IfAvailable feature do_ flt loaded in
  if existsb (panics do_) (exporting feature l) then r.1 = None
  else r.2 = (exporting feature l).*1 ∧
       (r.1 = None ↔ l ≠ [] ∧ length (exporting feature l) = length l ∧
          Forall (λ nv, do_ nv.1 nv.2 = DoReturns None) (exporting feature l)).
Proof.
  cbv zeta. rewrite /IfAvailable.
  pose proof (if_available_loop_spec feature do_ flt (Range loaded) [] false []) as Hs. cbv zeta in Hs.
  set (l := filter _ (Range loaded)) in *. destruct (existsb _ _) eqn:Hp.
  - destruct (if_available_loop _ _ _ _ _ _ _) as [[[errs v]|] called]; [done|done].
  - rewrite Hs /=. split; [done|]. rewrite errors_Join_None. case_bool_decide as Hl; simpl.
    + split; [|by intros [? _]]. rewrite list.Forall_app. by intros [_ [? _]%Forall_cons_1].
    + rewrite recorded_none //. naive_solver.
Qed.

End features.

(** ** Concrete installations *)

#[local] Instance sample_env : Env := {
  LibDir := "/lib";
  BinDir := "/bin";
  md5 data := data;
  versionSymbol _ := None;
  exec_version _ := Err (Errorf "exit status 1");
  copyFault _ := None;
}.

(** The files of the plugin gpu in /src, or spread over /src and /opt. *)
Definition sample_dirs : FS :=
  {[ [] := Dir; ["lib"] := Dir; ["bin"] := Dir; ["src"] := Dir; ["opt"] := Dir ]}.

Definition sample_fs : FS :=
  <[["src"; "libcedana-gpu.so"] := Reg "library"]> (
  <[["src"; "cedana-gpu-controller"] := Reg "controller"]> sample_dirs).

Definition spread_fs : FS :=
  <[["src"; "libcedana-gpu.so"] := Reg "library"]> (
  <[["opt"; "cedana-gpu-controller"] := Reg "controller"]> sample_dirs).

Definition sample_world (fs : FS) : World := mkWorld fs Registry ∅ "/opt:/src".

Definition gpu_plugin : Plugin :=
  entry "gpu" EXTERNAL [file "libcedana-gpu.so"] [file "cedana-gpu-controller"].

Ltac each_file := intros f Hf; repeat (apply elem_of_cons in Hf as [->|Hf]); [..|by apply elem_of_nil in Hf].

Lemma sample_installable :
  installable (sample_world sample_fs) (take 12 Registry) gpu_plugin (drop 13 Registry) "/src".
Proof.
  split; [reflexivity|by_decide|discriminate|reflexivity..|discriminate|discriminate| | | | |].
  - each_file; eexists; vm_compute; reflexivity.
  - apply Forall_singleton. split; [intros Hx; by destruct Hx|].
    split_and!; try reflexivity; try (vm_compute; discriminate); eexists; vm_compute; reflexivity.
  - apply Forall_singleton. split; [intros Hx; by destruct Hx|].
    split_and!; try reflexivity; try (vm_compute; discriminate); eexists; vm_compute; reflexivity.
  - by_decide.
  - intros dir f Hd Hf. assert (Forall (λ df, source_path df.1 df.2 ∉ dests gpu_plugin)
      (d ← ["/opt"; "/src"]; g ← plugin_files gpu_plugin; [(d, g)])) as Hall by by_decide.
    rewrite list.Forall_forall in Hall. apply (Hall (dir, f)).
    change (Split (searchPath (sample_world sample_fs)) ":") with ["/opt"; "/src"] in Hd.
    apply list_elem_of_bind. exists dir. split; [|done]. apply list_elem_of_bind. exists f.
    split; [by apply list_elem_of_singleton|done].
Qed.


(** Files spread over two directories: the plugin is listed as available, and
    installing it fails, since all files are taken from the last directory. *)
Example spread_files_fail :
  Status' <$> (List true ["gpu"] (sample_world spread_fs)).1 = [AVAILABLE] ∧
  (Install ["gpu"] (sample_world spread_fs)).1 =
    [Msg "Installing plugin gpu..."; Failed (Errorf "No local plugin found")].
Proof. vm_compute. done. Qed.

(** A binary on the search path shadows the one downloaded: although both files
    were downloaded, the installation fails. *)
Example local_file_shadows_download :
  Propagator_Install "/src" (λ _, Ok "data") (λ _, Ok (200%Z, Ok [set_available "v1" gpu_plugin])) ["gpu"]
    (mkWorld (<[["opt"; "cedana-gpu-controller"] := Reg "old"]> sample_dirs) Registry ∅ "/opt")
  ≫= (λ r, Some r.1) =
  Some [Msg "Downloading plugin gpu (v1)..."; Msg "Downloaded plugin gpu (v1)";
        Msg "Installing plugin gpu..."; Failed (Errorf "No local plugin found")].
Proof. vm_compute. done. Qed.

(** The files of gpu are gone when it is removed; of the streamer only the
    report is wrong. *)
Definition streamer_plugin : Plugin := entry "streamer" EXTERNAL [] [file "cedana-image-streamer"].

Definition sample_listed : list Plugin :=
  [set_status INSTALLED gpu_plugin; set_status INSTALLED streamer_plugin].

Definition streamer_fs : FS := <[["bin"; "cedana-image-streamer"] := Reg "streamer"]> sample_dirs.

Definition after_gpu : option error * FS :=
  remove_plugin "gpu" (set_status INSTALLED gpu_plugin) streamer_fs.
Definition after_streamer : option error * FS :=
  remove_plugin "streamer" (set_status INSTALLED streamer_plugin) after_gpu.2.

Lemma pair_of_fst {A B} (x : A * B) a : x.1 = a → x = (a, x.2).
Proof. by destruct x; intros <-. Qed.

Lemma Remove_error_sticks_witness :
  ∃ e w', remove_loop sample_listed ["gpu"; "streamer"] None (sample_world streamer_fs) =
    ([Msg "Removing gpu..."; Failed e; Msg "Removing streamer..."; Failed e], w') ∧
    fsys w' !! ["bin"; "cedana-image-streamer"] = None.
Proof.
  destruct (Remove_error_sticks sample_listed "gpu" (set_status INSTALLED gpu_plugin)
    "streamer" (set_status INSTALLED streamer_plugin) (sample_world streamer_fs)
    (Errorf "Failed to remove gpu: remove /bin/cedana-gpu-controller: no such file or directory")
    after_gpu.2 after_streamer.2) as (Hr & _ & HB);
    [reflexivity|discriminate|reflexivity|discriminate|reflexivity..| | |].
  - apply (pair_of_fst after_gpu). vm_compute. reflexivity.
  - apply (pair_of_fst after_streamer). vm_compute. reflexivity.
  - eexists _, _. split; [exact Hr|]. apply (HB (file "cedana-image-streamer")).
    by apply list_elem_of_singleton.
Defined.

End Plugins.
