(* ===== verification/Overlay.v ===== *)
(** * Restoring the writable layer of a container (pkg/overlay/restore.go)

    The dump holds a manifest and batches of length-prefixed messages: for
    every entry of the layer its metadata, followed for a regular file by
    chunks of content and an empty message.  [RestoreToUpperDir] writes the
    entries below the upper directory of the overlay.  The file system is a map
    from paths to inodes, with the modification times that are set explicitly;
    the protobuf and JSON decoders and [SecureJoin] are parameters, and system
    calls can fail.

    Every restore returns and changes nothing outside the upper directory
    ([restore_confined]); restoring an encoded layer gives back its entries
    ([layer_roundtrip]), except that the permissions of a regular file go
    through the umask and lose the set-ID bits; a batch that ends after a
    complete chunk is taken for a complete file ([truncated_layer_accepted]). *)

From Stdlib Require Import Ascii.
From S2P Require Import Prelude GoLib.

Module Overlay.
Import GoLib.

#[local] Arguments String.append : simpl nomatch.
#[local] Arguments str_drop : simpl nomatch.
#[local] Arguments str_take : simpl nomatch.
#[local] Open Scope Z_scope.

(** ** File system *)

Inductive kind :=
| KDir
| KReg (data : string)
| KLink (target : string)
| KDev (fmt major minor : Z)
| KFifo.

Record inode := mkInode {
  ikind : kind; perm : Z; uid : Z; gid : Z; xattrs : gmap string string; mtime : Z;
}.

Abbreviation path := (list string).
Abbreviation FS := (gmap path inode).

(** [runc_proto.RWFile] *)
Record RWFile := mkRWFile {
  Path : string; Mode : Z; SymlinkTarget : string; DevMajor : Z; DevMinor : Z; Uid : Z; Gid : Z;
  Xattrs : list (string * string); Mtime : Z; Content : list string;
}.

Definition empty_RWFile : RWFile := mkRWFile "" 0 "" 0 0 0 0 [] 0 [].

(** An entry of a layer: its metadata, and the chunks of a regular file. *)
Abbreviation entry := (RWFile * list (list string))%type.

(** The manifest as JSON decodes it: the number total_batches, if there is one,
    as the integer below it and whether it is that integer. *)
Inductive Manifest := NotJSON | JSONManifest (total_batches : option (Z * bool)).

Class Env := {
  Unmarshal : string → gores RWFile;
  Marshal : RWFile → string;
  DecodeManifest : string → Manifest;
  DecodeBase64 : string → gores string;
  SecureJoin : FS → path → string → gores path;
  umask : Z;
  (** a failure of a system call on a path *)
  fault : string → path → option error;
}.

Definition plain (c : string) : Prop := c ≠ "" ∧ c ≠ "." ∧ c ≠ "..".
Definition is_link (fs : FS) (p : path) : bool :=
  match fs !! p with Some i => match ikind i with KLink _ => true | _ => false end | None => false end.

(** What the decoders are documented to do: messages round-trip and the empty
    input is the empty message; a joined path stays at or below the root, and
    is the plain concatenation when there is nothing to resolve. *)
Class EnvOk `(E : Env) := {
  Unmarshal_Marshal : ∀ m, Unmarshal (Marshal m) = Ok m;
  Unmarshal_empty : Unmarshal "" = Ok empty_RWFile;
  SecureJoin_inside : ∀ fs root rel p, SecureJoin fs root rel = Ok p → root `prefix_of` p;
  SecureJoin_plain : ∀ fs root rel, Forall plain (Split rel slash) →
    (∀ n, is_link fs (root ++ take (S n) (Split rel slash)) = false) →
    SecureJoin fs root rel = Ok (root ++ Split rel slash);
}.

Section overlay.
Context `{E : Env}.

(** ** System calls *)

Definition parent (p : path) : path := take (pred (length p)) p.
Definition is_dir (fs : FS) (p : path) : bool :=
  match p with
  | [] => true
  | _ => match fs !! p with Some i => match ikind i with KDir => true | _ => false end | None => false end
  end.

Definition has_below (fs : FS) (p : path) : bool :=
  bool_decide (map_Exists (λ q _, p `prefix_of` q ∧ p ≠ q) fs).

Definition masked (mode : Z) : Z := Z.ldiff mode umask.

(** The umask does not apply to symbolic links. *)
Definition new_inode (k : kind) (mode : Z) : inode :=
  mkInode k (match k with KLink _ => mode | _ => masked mode end) 0 0 ∅ 0.

(** Creates an object that must not exist yet, in a directory. *)
Definition create (op : string) (p : path) (k : kind) (mode : Z) (fs : FS) : gores FS :=
  match fault op p with
  | Some e => Err e
  | None =>
      if negb (is_dir fs (parent p)) then Err (Errorf (op +:+ ": no such file or directory"))
      else match fs !! p with
           | Some _ => Err (Errorf (op +:+ ": file exists"))
           | None => if decide (p = []) then Err (Errorf (op +:+ ": file exists")) else Ok (<[p := new_inode k mode]> fs)
           end
  end.

Fixpoint MkdirAll_from (done todo : path) (fs : FS) : gores FS :=
  match todo with
  | [] => Ok fs
  | c :: todo =>
      let p := done ++ [c] in
      if is_dir fs p then MkdirAll_from p todo fs
      else match create "mkdir" p KDir 493 fs with
           | Err e => Err e
           | Ok fs => MkdirAll_from p todo fs
           end
  end.
(** [os.MkdirAll(p, 0o755)] *)
Definition MkdirAll (p : path) (fs : FS) : gores FS := MkdirAll_from [] p fs.

Definition replaceExisting (p : path) (fs : FS) : gores FS :=
  match fault "remove" p with
  | Some e => Err (Errorf ("failed to replace existing path: " +:+ Error e))
  | None =>
      match fs !! p with
      | None => Ok fs
      | Some _ =>
          if has_below fs p then Err (Errorf "failed to replace existing path: directory not empty")
          else Ok (delete p fs)
      end
  end.

(** The calls of which a failure is only logged. *)
Definition update (op : string) (p : path) (f : inode → inode) (fs : FS) : FS :=
  match fault op p with Some _ => fs | None => alter f p fs end.

Definition set_owner (u g : Z) (i : inode) : inode := mkInode (ikind i) (perm i) u g (xattrs i) (mtime i).
Definition set_perm (m : Z) (i : inode) : inode := mkInode (ikind i) m (uid i) (gid i) (xattrs i) (mtime i).
Definition set_xattr (n v : string) (i : inode) : inode :=
  mkInode (ikind i) (perm i) (uid i) (gid i) (<[n := v]> (xattrs i)) (mtime i).
Definition set_mtime (t : Z) (i : inode) : inode := mkInode (ikind i) (perm i) (uid i) (gid i) (xattrs i) t.
Definition append_data (d : string) (i : inode) : inode :=
  match ikind i with
  | KReg old => mkInode (KReg (old +:+ d)) (perm i) (uid i) (gid i) (xattrs i) (mtime i)
  | _ => i
  end.

(** ** Messages *)

Definition byte_at (n : nat) (s : string) : Z :=
  match String.get n s with Some x => Z.of_nat (nat_of_ascii x) | None => 0 end.

Definition le32 (s : string) : Z :=
  byte_at 0 s + 256 * byte_at 1 s + 65536 * byte_at 2 s + 16777216 * byte_at 3 s.

Inductive read_result := EOF | ReadErr (e : error) | Message (data rest : string).

Definition unexpected : error := Errorf "unexpected EOF".

(** [binary.Read] of the size and [io.ReadFull] of the data: nothing at all is
    EOF for either, a part is an unexpected EOF. *)
Definition readDelimitedMessageBuffered (s : string) : read_result :=
  if decide (s = "") then EOF
  else if decide (String.length s < 4)%nat then ReadErr unexpected
  else
    let size := Z.to_nat (le32 s) in
    let rest := str_drop 4 s in
    if decide (size = 0%nat) then Message "" rest
    else if decide (rest = "") then EOF
    else if decide (String.length rest < size)%nat then ReadErr unexpected
    else Message (str_take size rest) (str_drop size rest).

(** Writing the content of the file at [p]; the loop reads at least four bytes
    per round, so the length of the input is enough [fuel]. *)
Fixpoint write_chunks (p : path) (l : list string) (fs : FS) : option error * FS :=
  match l with
  | [] => (None, fs)
  | c :: l =>
      match fault "write" p with
      | Some e => (Some (Errorf ("failed to write content: " +:+ Error e)), fs)
      | None => write_chunks p l (alter (append_data c) p fs)
      end
  end.

Fixpoint writeFileContent (fuel : nat) (reader : string) (p : path) (fs : FS) : option (option error * string * FS) :=
  match fuel with
  | O => None
  | S fuel =>
      match readDelimitedMessageBuffered reader with
      | EOF => Some (None, "", fs)
      | ReadErr e => Some (Some (Errorf ("failed to read chunk: " +:+ Error e)), "", fs)
      | Message chunkBytes rest =>
          match Unmarshal chunkBytes with
          | Err e =>
              if decide (chunkBytes = "") then Some (None, rest, fs)
              else Some (Some (Errorf ("failed to unmarshal chunk: " +:+ Error e)), rest, fs)
          | Ok chunkMsg =>
              match Content chunkMsg with
              | [] => Some (None, rest, fs)
              | l =>
                  match write_chunks p l fs with
                  | (Some e, fs) => Some (Some e, rest, fs)
                  | (None, fs) => writeFileContent fuel rest p fs
                  end
              end
          end
      end
  end.

(** ** Entries *)

Definition S_IFMT : Z := 61440.   (* 0o170000 *)
Definition S_IFLNK : Z := 40960.  (* 0o120000 *)
Definition S_IFREG : Z := 32768.  (* 0o100000 *)
Definition S_IFBLK : Z := 24576.  (* 0o060000 *)
Definition S_IFDIR : Z := 16384.  (* 0o040000 *)
Definition S_IFCHR : Z := 8192.   (* 0o020000 *)
Definition S_IFIFO : Z := 4096.   (* 0o010000 *)
Definition perm_bits (mode : Z) : Z := Z.land mode 4095.  (* 0o7777 *)

Inductive made := Made (reader : string) (fs : FS) | Unsupported | Failed (e : error) (fs : FS).

(** The result of a call that creates an object. *)
Definition made_by (what : string) (reader : string) (fs0 : FS) (r : gores FS) : made :=
  match r with
  | Ok fs => Made reader fs
  | Err e => Failed (Errorf (what +:+ ": " +:+ Error e)) fs0
  end.

Definition replaced (p : path) (fs : FS) (k : FS → made) : made :=
  match replaceExisting p fs with Err e => Failed e fs | Ok fs => k fs end.

(** The switch on the type of the file.  [os.OpenFile] is given the bits 0o7777
    as a Go file mode, of which it only uses the permissions 0o777. *)
Definition make_object (e : RWFile) (p : path) (reader : string) (fs : FS) : option made :=
  let mode := Mode e in
  let fileType := Z.land mode S_IFMT in
  if decide (fileType = S_IFLNK) then
    Some (replaced p fs (λ fs, made_by "failed to create symlink" reader fs
                                 (create "symlink" p (KLink (SymlinkTarget e)) 511 fs)))
  else if decide (fileType = S_IFBLK ∨ fileType = S_IFCHR) then
    Some (replaced p fs (λ fs, made_by "failed to create device" reader fs
                                 (create "mknod" p (KDev fileType (DevMajor e) (DevMinor e)) (perm_bits mode) fs)))
  else if decide (fileType = S_IFDIR) then
    Some (match MkdirAll p fs with
          | Err err => Failed (Errorf ("failed to create directory: " +:+ Error err)) fs
          | Ok fs => Made reader (update "chmod" p (set_perm (perm_bits mode)) fs)
          end)
  else if decide (fileType = S_IFREG) then
    match replaceExisting p fs with
    | Err err => Some (Failed err fs)
    | Ok fs =>
        match create "open" p (KReg "") (Z.land (perm_bits mode) 511) fs with
        | Err err => Some (Failed (Errorf ("failed to create file: " +:+ Error err)) fs)
        | Ok fs =>
            '(err, rest, fs) ← writeFileContent (S (String.length reader)) reader p fs;
            Some (match err with Some err => Failed err fs | None => Made rest fs end)
        end
    end
  else if decide (fileType = S_IFIFO) then
    Some (replaced p fs (λ fs, made_by "failed to create named pipe" reader fs
                                 (create "mkfifo" p KFifo (perm_bits mode) fs)))
  else Some Unsupported.

Definition add_xattr (p : path) (fs : FS) (x : string * string) : FS :=
  match DecodeBase64 x.2 with
  | Err _ => fs
  | Ok v => update "setxattr" p (set_xattr x.1 v) fs
  end.

(** Ownership, permissions, extended attributes and time. *)
Definition set_metadata (e : RWFile) (p : path) (fs : FS) : FS :=
  let fs := update "lchown" p (set_owner (Uid e) (Gid e)) fs in
  let fs := if decide (Z.land (Mode e) S_IFLNK = 0) then update "chmod" p (set_perm (perm_bits (Mode e))) fs else fs in
  let fs := foldl (add_xattr p) fs (Xattrs e) in
  if decide (0 < Mtime e ∧ Z.land (Mode e) S_IFMT ≠ S_IFLNK)
  then update "chtimes" p (set_mtime (Mtime e)) fs else fs.

(** One batch: every round reads at least four bytes. *)
Fixpoint restore_entries (fuel : nat) (file : string) (upperDir : path) (reader : string) (fs : FS)
    : option (option error * FS) :=
  match fuel with
  | O => None
  | S fuel =>
      match readDelimitedMessageBuffered reader with
      | EOF => Some (None, fs)
      | ReadErr e => Some (Some (Errorf ("failed to read metadata from " +:+ file +:+ ": " +:+ Error e)), fs)
      | Message metadataBytes rest =>
          match Unmarshal metadataBytes with
          | Err e => Some (Some (Errorf ("failed to unmarshal metadata from " +:+ file +:+ ": " +:+ Error e)), fs)
          | Ok e =>
              if decide (Path e = "" ∨ Path e = ".") then restore_entries fuel file upperDir rest fs
              else
                match SecureJoin fs upperDir (Path e) with
                | Err err => Some (Some (Errorf ("failed to resolve safe path: " +:+ Error err)), fs)
                | Ok fullPath =>
                    match (if decide (parent fullPath = upperDir) then Ok fs else MkdirAll (parent fullPath) fs) with
                    | Err err => Some (Some (Errorf ("failed to create parent directory: " +:+ Error err)), fs)
                    | Ok fs =>
                        m ← make_object e fullPath rest fs;
                        match m with
                        | Failed err fs => Some (Some err, fs)
                        | Unsupported => restore_entries fuel file upperDir rest fs
                        | Made rest fs => restore_entries fuel file upperDir rest (set_metadata e fullPath fs)
                        end
                    end
                end
          end
      end
  end.

Fixpoint restore_batches (dump : gmap string string) (upperDir : path) (todo : nat) (i : N) (fs : FS)
    : option (option error * FS) :=
  match todo with
  | O => Some (None, fs)
  | S todo =>
      let filePath := "rw-layer-" +:+ itoa i +:+ ".img" in
      match dump !! filePath with
      | None => Some (Some (Errorf ("failed to open rw layer file " +:+ filePath)), fs)
      | Some data =>
          '(err, fs) ← restore_entries (S (String.length data)) filePath upperDir data fs;
          match err with
          | Some e => Some (Some e, fs)
          | None => restore_batches dump upperDir todo (i + 1) fs
          end
      end
  end.

(** ** The manifest *)

Definition is_digit (x : ascii) : bool := bool_decide (48 ≤ nat_of_ascii x ≤ 57)%nat.

Fixpoint scan_digits (s : string) (acc : option Z) : option Z :=
  match s with
  | String x s' =>
      if is_digit x then scan_digits s' (Some (default 0 acc * 10 + Z.of_nat (nat_of_ascii x - 48))) else acc
  | EmptyString => acc
  end.

(** [fmt.Sscanf(data, "%d\n", &n)] into an int, signs included. *)
Definition Sscanf_int (s : string) : option Z :=
  let z := match TrimLeft s with
           | String "-" s' => Z.opp <$> scan_digits s' None
           | String "+" s' => scan_digits s' None
           | s' => scan_digits s' None
           end in
  z ← z; if decide (- 2 ^ 63 <= z < 2 ^ 63) then Some z else None.

Definition batchCount (data : string) : gores Z :=
  match DecodeManifest data with
  | NotJSON =>
      match Sscanf_int data with
      | Some n => if decide (n < 0) then Err (Errorf "failed to parse manifest (invalid batch count)") else Ok n
      | None => Err (Errorf "failed to parse manifest (invalid batch count)")
      end
  | JSONManifest (Some (n, true)) =>
      if decide (n < 0 ∨ n > 2147483647)
      then Err (Errorf "manifest total_batches is missing or not a non-negative integer") else Ok n
  | JSONManifest _ => Err (Errorf "manifest total_batches is missing or not a non-negative integer")
  end.

Definition RestoreToUpperDir (dump : gmap string string) (upperDir : path) (fs : FS) : option (option error * FS) :=
  match dump !! "rw-layer.manifest" with
  | None => Some (None, fs)
  | Some manifestData =>
      match batchCount manifestData with
      | Err e => Some (Some e, fs)
      | Ok n => restore_batches dump upperDir (Z.to_nat n) 0 fs
      end
  end.

(** ** The marker *)

Definition RestoredMarker : string := ".cedana-rw-restored".
Definition MarkerPath (upperDir : path) : path := parent upperDir ++ [RestoredMarker].
Definition AlreadyRestored (upperDir : path) (fs : FS) : bool := bool_decide (is_Some (fs !! MarkerPath upperDir)).

Definition WriteMarker (upperDir : path) (fs : FS) : gores FS :=
  match fs !! MarkerPath upperDir with
  | Some _ => match fault "open" (MarkerPath upperDir) with Some e => Err e | None => Ok fs end
  | None => create "open" (MarkerPath upperDir) (KReg "") 384 fs
  end.

Fixpoint UpperDirFromMountOptions (options : list string) : gores string :=
  match options with
  | [] => Err (Errorf "upperdir not found in overlay mount options")
  | opt :: options =>
      if HasPrefix opt "upperdir=" then Ok (TrimPrefix opt "upperdir=") else UpperDirFromMountOptions options
  end.

(** ** Confinement *)

Definition confined (u : path) (fs fs' : FS) : Prop := ∀ p, ¬ u `prefix_of` p → fs' !! p = fs !! p.
Definition ancestors_are_dirs (u : path) (fs : FS) : Prop := ∀ q, q `prefix_of` u → q ≠ u → is_dir fs q = true.

#[global] Instance confined_preorder u : PreOrder (confined u).
Proof. split; [done|]. intros x y z H1 H2 p Hp. by rewrite H2 // H1. Qed.

Lemma prefix_strict (u q : path) : q `prefix_of` u → q ≠ u → ¬ u `prefix_of` q.
Proof. intros Hq Hne Hu. apply Hne. by apply (anti_symm prefix). Qed.

Lemma confined_ancestors u fs fs' : confined u fs fs' → ancestors_are_dirs u fs → ancestors_are_dirs u fs'.
Proof.
  intros Hc Ha q Hq Hne. specialize (Ha q Hq Hne). unfold is_dir in *.
  destruct q; [done|]. by rewrite (Hc _ (prefix_strict _ _ Hq Hne)).
Qed.

Lemma confined_at u p fs fs' : u `prefix_of` p → (∀ q, q ≠ p → fs' !! q = fs !! q) → confined u fs fs'.
Proof. intros Hu H q Hq. apply H. by intros ->. Qed.

Lemma update_at op p f fs q : q ≠ p → update op p f fs !! q = fs !! q.
Proof. intros. unfold update. case_match; [done|]. by rewrite lookup_alter_ne. Qed.

Lemma confined_update op p f u fs : u `prefix_of` p → confined u fs (update op p f fs).
Proof. intros H. apply (confined_at _ p); [done|]. intros. by apply update_at. Qed.

Lemma confined_create op p k mode u fs fs' :
  u `prefix_of` p → create op p k mode fs = Ok fs' → confined u fs fs'.
Proof.
  intros Hu H. apply (confined_at _ p); [done|]. intros q Hq. unfold create in H. split_matches.
  by rewrite lookup_insert_ne.
Qed.

Lemma confined_replaceExisting p u fs fs' :
  u `prefix_of` p → replaceExisting p fs = Ok fs' → confined u fs fs'.
Proof.
  intros Hu H. apply (confined_at _ p); [done|]. intros q Hq. unfold replaceExisting in H. split_matches.
  by rewrite lookup_delete_ne.
Qed.

(** Creating the directories of a path that leads into the upper directory. *)
Lemma confined_MkdirAll_from u todo pre fs fs' :
  ancestors_are_dirs u fs → (u `prefix_of` pre ++ todo ∨ pre ++ todo `prefix_of` u) →
  (∀ q, q `prefix_of` todo → q ≠ [] → pre ++ q ≠ u → u `prefix_of` pre ++ q ∨ pre ++ q `prefix_of` u) →
  MkdirAll_from pre todo fs = Ok fs' → confined u fs fs'.
Proof.
  revert pre fs. induction todo as [|c todo IH]; intros pre fs Ha Hd Hq H; simplify_eq/=; [done|].
  assert (Hnext : ∀ q, q `prefix_of` todo → q ≠ [] → (pre ++ [c]) ++ q ≠ u →
                  u `prefix_of` (pre ++ [c]) ++ q ∨ (pre ++ [c]) ++ q `prefix_of` u).
  { intros q Hqt _. rewrite -(assoc_L (++)). apply Hq; [by apply prefix_cons|done]. }
  assert (Hd' : u `prefix_of` (pre ++ [c]) ++ todo ∨ (pre ++ [c]) ++ todo `prefix_of` u)
    by by rewrite -(assoc_L (++)).
  destruct (is_dir fs (pre ++ [c])) eqn:Hdir; [by apply (IH (pre ++ [c]))|].
  destruct (create "mkdir" (pre ++ [c]) KDir 493 fs) as [a|] eqn:Hcr; [|done].
  assert (Hu : u `prefix_of` pre ++ [c]).
  { destruct (decide (pre ++ [c] = u)) as [->|Hne]; [done|].
    destruct (Hq [c]) as [?|Hp]; [by apply prefix_cons, prefix_nil|done|done|done|].
    by rewrite (Ha _ Hp Hne) in Hdir. }
  pose proof (confined_create _ _ _ _ u _ _ Hu Hcr) as Hc1.
  transitivity a; [done|]. apply (IH (pre ++ [c])); try done. by apply (confined_ancestors u fs).
Qed.

Lemma confined_MkdirAll u p fs fs' :
  ancestors_are_dirs u fs → u `prefix_of` p ∨ p `prefix_of` u → MkdirAll p fs = Ok fs' → confined u fs fs'.
Proof.
  intros Ha Hp. apply confined_MkdirAll_from; try done. intros q Hq _ _. simpl.
  destruct Hp as [Hu|Hp]; [|right; by trans p].
  destruct (prefix_weak_total u q p) as [?|?]; eauto.
Qed.

Lemma parent_inside (u p : path) : u `prefix_of` p → u `prefix_of` parent p ∨ parent p `prefix_of` u.
Proof.
  intros Hu. apply (prefix_weak_total u (parent p) p); [done|]. unfold parent. apply prefix_take.
Qed.

(** ** Every loop returns *)

Lemma length_str_drop n s : String.length (str_drop n s) = (String.length s - n)%nat.
Proof. revert n. induction s; intros [|n]; simpl; auto with lia. Qed.

Lemma read_shorter s d rest : readDelimitedMessageBuffered s = Message d rest → (String.length rest + 4 <= String.length s)%nat.
Proof.
  unfold readDelimitedMessageBuffered. intros H.
  cbv zeta in H. repeat (case_decide; simplify_eq); rewrite ?length_str_drop; lia.
Qed.

Lemma write_chunks_at p l fs q : q ≠ p → (write_chunks p l fs).2 !! q = fs !! q.
Proof.
  intros Hq. revert fs. induction l as [|c l IH]; intros fs; simpl; [done|]. case_match; [done|].
  by rewrite IH lookup_alter_ne.
Qed.

Lemma writeFileContent_returns fuel reader p fs :
  (String.length reader < fuel)%nat →
  ∃ err rest fs', writeFileContent fuel reader p fs = Some (err, rest, fs') ∧
    (String.length rest <= String.length reader)%nat ∧ ∀ q, q ≠ p → fs' !! q = fs !! q.
Proof.
  revert reader fs. induction fuel as [|fuel IH]; intros reader fs Hf; [lia|]. cbn -[write_chunks].
  destruct (readDelimitedMessageBuffered reader) as [|e|d rest] eqn:Hr;
    [eexists _, _, _; repeat split; simpl; auto with lia..|].
  apply read_shorter in Hr.
  assert (Hend : ∀ err : option error, ∃ err' rest' fs', Some (err, rest, fs) = Some (err', rest', fs') ∧
    (String.length rest' <= String.length reader)%nat ∧ ∀ q, q ≠ p → fs' !! q = fs !! q)
    by (intros; eexists _, _, _; repeat split; auto with lia).
  destruct (Unmarshal d) as [m|]; [|case_decide; apply Hend].
  destruct (Content m) as [|c l]; [apply Hend|].
  pose proof (write_chunks_at p (c :: l) fs) as Hat.
  destruct (write_chunks p (c :: l) fs) as [[e|] fs1]; simpl in Hat.
  - eexists _, _, _. split_and!; [done|lia|done].
  - destruct (IH rest fs1) as (err & rest' & fs' & -> & Hl & H); [lia|].
    eexists _, _, _; repeat split; [lia|]. intros q Hq. rewrite H //. by apply Hat.
Qed.

(** What creating the object of an entry can lead to. *)
Definition made_inside (u : path) (reader : string) (fs : FS) (m : made) : Prop :=
  match m with
  | Made rest fs' => (String.length rest <= String.length reader)%nat ∧ confined u fs fs'
  | Failed _ fs' => confined u fs fs'
  | Unsupported => True
  end.

Lemma replaced_inside u p reader fs what op k mode :
  u `prefix_of` p →
  made_inside u reader fs (replaced p fs (λ fs, made_by what reader fs (create op p k mode fs))).
Proof.
  intros Hu. unfold replaced. destruct (replaceExisting p fs) as [fs1|] eqn:Hr; [|done].
  apply (confined_replaceExisting _ u) in Hr; [|done].
  destruct (create op p k mode fs1) as [fs2|] eqn:Hc; simpl; [|done].
  split; [done|]. transitivity fs1; [done|]. by apply (confined_create _ _ _ _ u) in Hc.
Qed.

Lemma make_object_inside e u p reader fs :
  ancestors_are_dirs u fs → u `prefix_of` p →
  ∃ m, make_object e p reader fs = Some m ∧ made_inside u reader fs m.
Proof.
  intros Ha Hu. unfold make_object.
  repeat case_decide; try (eexists; split; [done|]; by (done || apply replaced_inside)).
  - eexists. split; [done|]. destruct (MkdirAll p fs) as [fs1|] eqn:Hm; simpl; [|done].
    split; [done|]. transitivity fs1; [apply (confined_MkdirAll u p); auto|by apply confined_update].
  - destruct (replaceExisting p fs) as [fs1|] eqn:Hr; [|by eexists].
    apply (confined_replaceExisting _ u) in Hr; [|done].
    destruct (create _ _ _ _ fs1) as [fs2|] eqn:Hc; [|by eexists].
    apply (confined_create _ _ _ _ u) in Hc; [|done].
    destruct (writeFileContent_returns (S (String.length reader)) reader p fs2)
      as (err & rest & fs3 & -> & Hl & Hat); [lia|].
    apply (confined_at u) in Hat; [|done].
    assert (confined u fs fs3) by (transitivity fs1; [done|]; by transitivity fs2).
    eexists. split; [done|]. by destruct err.
Qed.

Lemma set_metadata_inside e u p fs : u `prefix_of` p → confined u fs (set_metadata e p fs).
Proof.
  intros Hu. unfold set_metadata.
  assert (Hx : ∀ l fs0, confined u fs0 (foldl (add_xattr p) fs0 l)).
  { induction l as [|x l IH]; intros fs0; simpl; [done|]. transitivity (add_xattr p fs0 x); [|done].
    unfold add_xattr. case_match; [by apply confined_update|done]. }
  pose proof (λ op f fs0, confined_update op p f u fs0 Hu) as Hc.
  repeat case_decide; repeat first [apply Hc | etrans; [|apply Hc] | etrans; [|apply Hx]].
Qed.

Section confinement.
Context `{!EnvOk E}.

Lemma restore_entries_inside fuel file u reader fs :
  ancestors_are_dirs u fs → (String.length reader < fuel)%nat →
  ∃ err fs', restore_entries fuel file u reader fs = Some (err, fs') ∧ confined u fs fs'.
Proof.
  revert reader fs. induction fuel as [|fuel IH]; intros reader fs Ha Hf; [lia|]. simpl.
  destruct (readDelimitedMessageBuffered reader) as [| |d rest] eqn:Hr; [by eexists _, _..|].
  apply read_shorter in Hr.
  destruct (Unmarshal d) as [e|]; [|by eexists _, _]. case_decide; [apply IH; [done|lia]|].
  destruct (SecureJoin fs u (Path e)) as [p|] eqn:Hj; [|by eexists _, _]. apply SecureJoin_inside in Hj.
  set (parents := if decide (parent p = u) then Ok fs else MkdirAll (parent p) fs).
  destruct parents as [fs1|] eqn:Hp; [|by eexists _, _].
  assert (Hc1 : confined u fs fs1).
  { subst parents. case_decide; simplify_eq; [done|].
    by apply (confined_MkdirAll u (parent p)); [|apply parent_inside|]. }
  pose proof (confined_ancestors _ _ _ Hc1 Ha) as Ha1.
  destruct (make_object_inside e u p rest fs1) as ([rest2 fs2| |err fs2] & -> & Hm); simpl in *; try done.
  - destruct Hm as [Hl Hc2]. set (fs3 := set_metadata e p fs2).
    assert (Hc3 : confined u fs fs3)
      by (transitivity fs1; [done|]; transitivity fs2; [done|]; by apply set_metadata_inside).
    destruct (IH rest2 fs3) as (err & fs' & -> & Hc); [by apply (confined_ancestors u fs)|lia|].
    eexists _, _. split; [done|]. by transitivity fs3.
  - destruct (IH rest fs1) as (err & fs' & -> & Hc); [done|lia|]. eexists _, _. split; [done|]. by transitivity fs1.
  - eexists _, _. split; [done|]. by transitivity fs1.
Qed.

Lemma restore_batches_inside dump u todo i fs :
  ancestors_are_dirs u fs →
  ∃ err fs', restore_batches dump u todo i fs = Some (err, fs') ∧ confined u fs fs'.
Proof.
  revert i fs. induction todo as [|todo IH]; intros i fs Ha; cbn -[itoa String.append restore_entries]; [by eexists _, _|].
  destruct (dump !! _) as [data|]; [|by eexists _, _].
  destruct (restore_entries_inside (S (String.length data)) ("rw-layer-" +:+ itoa i +:+ ".img") u data fs Ha)
    as (err & fs1 & -> & Hc); [lia|]. simpl.
  destruct err; [by eexists _, _|].
  destruct (IH (i + 1)%N fs1) as (err & fs' & -> & Hc'); [by apply (confined_ancestors u fs)|].
  eexists _, _. split; [done|]. by transitivity fs1.
Qed.

End confinement.

(** ** Encoding of a layer *)

Definition byte_of (z : Z) : ascii := ascii_of_nat (Z.to_nat (z mod 256)).
Definition le32_bytes (z : Z) : string :=
  String (byte_of z) (String (byte_of (z / 256)) (String (byte_of (z / 65536)) (String (byte_of (z / 16777216)) ""))).

Definition delimited (d : string) : string := le32_bytes (Z.of_nat (String.length d)) +:+ d.
Definition fits (d : string) : bool := bool_decide (Z.of_nat (String.length d) < 2 ^ 32).

(** A message that carries some of the content of a file. *)
Definition chunk (c : list string) : RWFile := mkRWFile "" 0 "" 0 0 0 0 [] 0 c.
Fixpoint encode_chunks (l : list (list string)) : string :=
  match l with [] => "" | c :: l => delimited (Marshal (chunk c)) +:+ encode_chunks l end.
Definition joined (l : list (list string)) : string := String.concat "" (concat l).

Definition fileType (e : RWFile) : Z := Z.land (Mode e) S_IFMT.
Definition comps (e : RWFile) : path := Split (Path e) slash.

Definition encode_entry (x : entry) : string :=
  delimited (Marshal x.1) +:+ (if decide (fileType x.1 = S_IFREG) then encode_chunks x.2 +:+ delimited "" else "").
Fixpoint encode_batch (l : list entry) : string :=
  match l with [] => "" | x :: l => encode_entry x +:+ encode_batch l end.

(** What an entry becomes. *)
Definition add_xattr_to (m : gmap string string) (x : string * string) : gmap string string :=
  match DecodeBase64 x.2 with Ok v => <[x.1 := v]> m | Err _ => m end.
Definition xattrs_of (e : RWFile) : gmap string string := foldl add_xattr_to ∅ (Xattrs e).

Definition kind_of (x : entry) : kind :=
  let t := fileType x.1 in
  if decide (t = S_IFLNK) then KLink (SymlinkTarget x.1)
  else if decide (t = S_IFDIR) then KDir
  else if decide (t = S_IFREG) then KReg (joined x.2)
  else if decide (t = S_IFIFO) then KFifo
  else KDev t (DevMajor x.1) (DevMinor x.1).

(** Directories and pipes get the permissions of the entry; for the others the
    umask applies, and a regular file only has the bits 0o777. *)
Definition perm_of (e : RWFile) : Z :=
  let t := fileType e in
  if decide (t = S_IFLNK) then 511
  else if decide (t = S_IFDIR ∨ t = S_IFIFO) then perm_bits (Mode e)
  else if decide (t = S_IFREG) then masked (Z.land (perm_bits (Mode e)) 511)
  else masked (perm_bits (Mode e)).

Definition mtime_of (e : RWFile) : Z := if decide (0 < Mtime e ∧ fileType e ≠ S_IFLNK) then Mtime e else 0.

Definition inode_of (x : entry) : inode :=
  mkInode (kind_of x) (perm_of x.1) (Uid x.1) (Gid x.1) (xattrs_of x.1) (mtime_of x.1).

Definition place (u : path) (fs : FS) (x : entry) : FS := <[u ++ comps x.1 := inode_of x]> fs.

(** An entry that a layer can hold: a plain relative path, a known type, and
    messages that fit their size field. *)
Definition entry_ok (x : entry) : bool :=
  bool_decide (Forall plain (comps x.1)) &&
  bool_decide (fileType x.1 ∈ [S_IFLNK; S_IFBLK; S_IFCHR; S_IFDIR; S_IFREG; S_IFIFO]) &&
  fits (Marshal x.1) && forallb (λ c, bool_decide (c ≠ []) && fits (Marshal (chunk c))) x.2.

(** The directories above the entry are there, and the entry is not. *)
Definition room_for (u : path) (fs : FS) (e : RWFile) : bool :=
  forallb (λ n, is_dir fs (u ++ take n (comps e))) (seq 0 (length (comps e))) &&
  bool_decide (fs !! (u ++ comps e) = None).

Fixpoint layer_ok (u : path) (fs : FS) (l : list entry) : bool :=
  match l with
  | [] => true
  | x :: l => entry_ok x && room_for u fs x.1 && layer_ok u (place u fs x) l
  end.

(** ** Reading back what was encoded *)

Lemma byte_of_nat z : Z.of_nat (nat_of_ascii (byte_of z)) = z mod 256.
Proof.
  unfold byte_of. pose proof (Z.mod_pos_bound z 256 ltac:(lia)).
  rewrite nat_ascii_embedding; lia.
Qed.

Lemma le32_le32_bytes z s : 0 <= z < 2 ^ 32 → le32 (le32_bytes z +:+ s) = z.
Proof.
  intros Hz. unfold le32, byte_at. simpl. rewrite !byte_of_nat.
  assert (0 <= z / 16777216 < 256) by (split; [apply Z.div_pos; lia|apply Z.div_lt_upper_bound; lia]).
  assert (z / 16777216 mod 256 = z / 16777216) as -> by by apply Z.mod_small.
  pose proof (Z.div_mod z 256 ltac:(lia)). pose proof (Z.div_mod (z / 256) 256 ltac:(lia)).
  pose proof (Z.div_mod (z / 65536) 256 ltac:(lia)).
  assert (z / 65536 = z / 256 / 256) by (rewrite Z.div_div //; lia).
  assert (z / 16777216 = z / 65536 / 256) by (rewrite Z.div_div //; lia).
  lia.
Qed.

Lemma str_drop_le32 z s : str_drop 4 (le32_bytes z +:+ s) = s.
Proof. done. Qed.

Lemma str_take_app d s : str_take (String.length d) (d +:+ s) = d.
Proof. induction d as [|x d IH]; simpl; [by destruct s|by rewrite IH]. Qed.
Lemma str_drop_app d s : str_drop (String.length d) (d +:+ s) = s.
Proof. induction d as [|x d IH]; simpl; [by destruct s|done]. Qed.

Lemma length_delimited d : String.length (delimited d) = (4 + String.length d)%nat.
Proof. done. Qed.

Lemma read_delimited d rest : fits d = true → readDelimitedMessageBuffered (delimited d +:+ rest) = Message d rest.
Proof.
  intros Hf%bool_decide_eq_true. unfold readDelimitedMessageBuffered, delimited.
  rewrite append_assoc. case_decide as H1; [done|]. clear H1.
  case_decide as H2; [rewrite length_append in H2; simpl in H2; lia|]. clear H2.
  rewrite str_drop_le32 le32_le32_bytes ?Nat2Z.id; [lia|].
  case_decide as Hd; [by destruct d|]. case_decide as Hd'; [by destruct d|].
  case_decide as Hl; [rewrite length_append in Hl; lia|]. by rewrite str_take_app str_drop_app.
Qed.

Lemma concat_empty_cons c l : String.concat "" (c :: l) = c +:+ String.concat "" l.
Proof. destruct l; simpl; by rewrite ?append_nil_r. Qed.

Lemma joined_cons c cs : joined (c :: cs) = String.concat "" c +:+ joined cs.
Proof.
  unfold joined. simpl. induction c as [|c0 c IH]; [done|].
  by rewrite -app_comm_cons !concat_empty_cons append_assoc IH.
Qed.

Section roundtrip.
Context `{!EnvOk E} (no_fault : ∀ op p, fault op p = None).

Lemma fault_free {A} op p (f : error → A) (x : A) : match fault op p with Some e => f e | None => x end = x.
Proof. by rewrite no_fault. Qed.

Definition reg (data : string) (i : inode) : inode := mkInode (KReg data) (perm i) (uid i) (gid i) (xattrs i) (mtime i).

Lemma write_chunks_data p l i data fs :
  write_chunks p l (<[p := reg data i]> fs) = (None, <[p := reg (data +:+ String.concat "" l) i]> fs).
Proof.
  revert data. induction l as [|c l IH]; intros data; [by rewrite /= append_nil_r|].
  cbn -[String.concat]. rewrite no_fault alter_insert_eq. unfold append_data, reg in *.
  cbn -[String.concat]. by rewrite IH append_assoc -concat_empty_cons.
Qed.

(** The chunks are followed by the empty message, or by nothing. *)
Lemma writeFileContent_chunks fuel cs rest rest' p i data fs :
  forallb (λ c, bool_decide (c ≠ []) && fits (Marshal (chunk c))) cs = true →
  rest = delimited "" +:+ rest' ∨ rest = "" ∧ rest' = "" →
  (String.length (encode_chunks cs +:+ rest) < fuel)%nat →
  writeFileContent fuel (encode_chunks cs +:+ rest) p (<[p := reg data i]> fs) =
    Some (None, rest', <[p := reg (data +:+ joined cs) i]> fs).
Proof.
  revert fuel data. induction cs as [|c cs IH]; intros [|fuel] data Hcs Hr Hl; try lia.
  - rewrite append_nil_r. change (encode_chunks [] +:+ rest) with rest. cbn -[write_chunks].
    destruct Hr as [->|[-> ->]]; [|done]. rewrite read_delimited //. by rewrite Unmarshal_empty.
  - simpl in Hcs. apply andb_true_iff in Hcs as [[Hne%bool_decide_eq_true Hf]%andb_true_iff Hcs].
    cbn [encode_chunks] in *. rewrite append_assoc in Hl |- *. cbn -[write_chunks delimited joined].
    rewrite read_delimited // Unmarshal_Marshal. cbn [Content chunk]. destruct c as [|c0 c]; [done|].
    rewrite length_append length_delimited in Hl.
    rewrite write_chunks_data IH //; [lia|]. by rewrite joined_cons append_assoc.
Qed.

(** ** Restoring one entry *)

Lemma layer_MkdirAll_from_dirs pre todo rest fs :
  (∀ n, (n < length todo)%nat → is_dir fs (pre ++ take (S n) todo) = true) →
  MkdirAll_from pre (todo ++ rest) fs = MkdirAll_from (pre ++ todo) rest fs.
Proof.
  revert pre. induction todo as [|c todo IH]; intros pre H; simpl; [by rewrite app_nil_r|].
  rewrite (H 0%nat) /=; [lia|]. rewrite IH; [|by rewrite -(assoc_L (++))].
  intros n Hn. rewrite -(assoc_L (++)). apply (H (S n)). simpl. lia.
Qed.

Definition dirs_above (p : path) (fs : FS) : Prop := ∀ n, (n < length p)%nat → is_dir fs (take n p) = true.

Lemma take_parent (p : path) n : (n < length p)%nat → take n (parent p) = take n p.
Proof. intros. unfold parent. rewrite take_take. f_equal. lia. Qed.

Lemma MkdirAll_parent p fs : dirs_above p fs → MkdirAll (parent p) fs = Ok fs.
Proof.
  intros H. unfold MkdirAll. rewrite -(app_nil_r (parent p)) layer_MkdirAll_from_dirs //.
  intros n Hn. assert (S n < length p)%nat by (unfold parent in Hn; rewrite length_take in Hn; lia).
  rewrite /= take_parent; [done|]. by apply H.
Qed.

Lemma create_new op p k mode fs :
  p ≠ [] → dirs_above p fs → fs !! p = None → create op p k mode fs = Ok (<[p := new_inode k mode]> fs).
Proof.
  intros Hp H Hn. unfold create. rewrite no_fault Hn decide_False //.
  rewrite H //. destruct p; [done|]. simpl. lia.
Qed.

Lemma layer_MkdirAll_new p fs :
  p ≠ [] → dirs_above p fs → fs !! p = None → is_dir fs p = false →
  MkdirAll p fs = Ok (<[p := new_inode KDir 493]> fs).
Proof.
  intros Hp H Hn Hd. destruct (exists_last Hp) as (l & c & Heq). unfold MkdirAll.
  assert (length p = S (length l)) by (rewrite Heq length_app /=; lia).
  rewrite Heq layer_MkdirAll_from_dirs.
  - intros n Hn'. simpl. assert (take (S n) l = take (S n) p) as -> by (rewrite Heq take_app_le //; lia).
    apply H. lia.
  - simpl. rewrite -Heq Hd create_new //.
Qed.

Lemma update_insert op p f i fs : update op p f (<[p := i]> fs) = <[p := f i]> fs.
Proof. unfold update. by rewrite no_fault alter_insert_eq. Qed.

Lemma add_xattrs p l i fs :
  foldl (add_xattr p) (<[p := i]> fs) l =
    <[p := mkInode (ikind i) (perm i) (uid i) (gid i) (foldl add_xattr_to (xattrs i) l) (mtime i)]> fs.
Proof.
  revert i. induction l as [|x l IH]; intros i; simpl; [by destruct i|].
  unfold add_xattr at 2, add_xattr_to at 2. case_match; [|by rewrite IH]. by rewrite update_insert IH.
Qed.

(** The test for symbolic links also holds of regular files and devices. *)
Lemma land_S_IFLNK e : Z.land (Mode e) S_IFLNK = Z.land (fileType e) S_IFLNK.
Proof. unfold fileType. by rewrite -Z.land_assoc. Qed.

(** What creating the object of an entry gives, before its metadata is set. *)
Definition created_perm (e : RWFile) : Z :=
  if decide (fileType e = S_IFIFO) then masked (perm_bits (Mode e)) else perm_of e.
Definition created (x : entry) : inode := mkInode (kind_of x) (created_perm x.1) 0 0 ∅ 0.

Lemma set_metadata_created x p fs :
  fileType x.1 ∈ [S_IFLNK; S_IFBLK; S_IFCHR; S_IFDIR; S_IFREG; S_IFIFO] →
  set_metadata x.1 p (<[p := created x]> fs) = <[p := inode_of x]> fs.
Proof.
  intros Ht. unfold set_metadata. rewrite update_insert land_S_IFLNK.
  assert (Hp : (if decide (Z.land (fileType x.1) S_IFLNK = 0) then perm_bits (Mode x.1) else created_perm x.1) = perm_of x.1).
  { unfold created_perm, perm_of. rewrite !elem_of_cons elem_of_nil in Ht.
    destruct Ht as [->|[->|[->|[->|[->|[->|[]]]]]]]; done. }
  fold (fileType x.1). unfold inode_of, mtime_of. rewrite -Hp.
  destruct (decide (Z.land (fileType x.1) S_IFLNK = 0)); rewrite ?update_insert add_xattrs;
    case_decide; by rewrite ?update_insert.
Qed.

(** The messages after the metadata of an entry; with [cut] the terminator of
    the content is missing. *)
Definition content_of (x : entry) : string :=
  if decide (fileType x.1 = S_IFREG) then encode_chunks x.2 +:+ delimited "" else "".
Definition cut_content_of (x : entry) : string :=
  if decide (fileType x.1 = S_IFREG) then encode_chunks x.2 else "".

Definition follows (x : entry) (s rest : string) : Prop :=
  s = content_of x +:+ rest ∨ s = cut_content_of x ∧ rest = "".

Lemma reg_content fuel x s rest p i fs :
  fileType x.1 = S_IFREG → entry_ok x = true → follows x s rest → (String.length s < fuel)%nat →
  writeFileContent fuel s p (<[p := reg "" i]> fs) = Some (None, rest, <[p := reg (joined x.2) i]> fs).
Proof.
  intros Ht Hok Hs. apply andb_true_iff in Hok as [_ Hcs]. unfold follows, content_of, cut_content_of in Hs.
  rewrite !decide_True // in Hs. destruct Hs as [->|[-> ->]]; intros Hl.
  - rewrite append_assoc in Hl |- *. rewrite (writeFileContent_chunks _ _ _ rest) //. by left.
  - pose proof (writeFileContent_chunks fuel x.2 "" "" p i "" fs Hcs) as H.
    rewrite (append_nil_r (encode_chunks x.2)) in H. apply H; [by right|done].
Qed.

Lemma follows_other x s rest : fileType x.1 ≠ S_IFREG → follows x s rest → s = rest.
Proof. intros Ht. unfold follows, content_of, cut_content_of. rewrite !decide_False //. by intros [?|[-> ->]]. Qed.

Lemma make_object_entry x s rest p fs :
  entry_ok x = true → follows x s rest → p ≠ [] → dirs_above p fs → fs !! p = None →
  make_object x.1 p s fs = Some (Made rest (<[p := created x]> fs)).
Proof.
  intros Hok Hs Hp Hd Hn.
  assert (Hr : replaceExisting p fs = Ok fs) by (unfold replaceExisting; by rewrite no_fault Hn).
  pose proof (λ op k mode, create_new op p k mode fs Hp Hd Hn) as Hc.
  pose proof Hok as [[[_ Ht%bool_decide_eq_true]%andb_true_iff _]%andb_true_iff _]%andb_true_iff.
  unfold make_object, replaced. fold (fileType x.1). rewrite Hr !Hc. rewrite !elem_of_cons elem_of_nil in Ht.
  destruct (decide (fileType x.1 = S_IFREG)) as [Hreg|Hreg].
  - rewrite Hreg. set (i := new_inode (KReg "") (Z.land (perm_bits (Mode x.1)) 511)).
    trans ('(err, rest, fs) ← writeFileContent (S (String.length s)) s p (<[p := reg "" i]> fs);
           Some (match err with Some err => Failed err fs | None => Made rest fs end)); [done|].
    rewrite (reg_content _ x s rest) //=; [lia|]. do 3 f_equal. unfold created, created_perm, perm_of, kind_of, reg. by rewrite Hreg.
  - rewrite (follows_other x s rest) //. unfold created, created_perm, perm_of, kind_of.
    destruct Ht as [Ht|[Ht|[Ht|[Ht|[Ht|[Ht|[]]]]]]]; rewrite Ht; try done.
    simpl. rewrite layer_MkdirAll_new // ?update_insert //. unfold is_dir. rewrite Hn. by destruct p.
Qed.

Lemma room_dirs u fs e : room_for u fs e = true → (∀ n, is_dir fs (take n u) = true) → dirs_above (u ++ comps e) fs.
Proof.
  intros [Hr _]%andb_true_iff Hu n Hn. destruct (decide (n <= length u)%nat).
  - rewrite take_app_le //.
  - rewrite take_app_ge; [lia|]. rewrite forallb_forall in Hr. apply Hr, in_seq.
    rewrite length_app in Hn. lia.
Qed.

Lemma room_None u fs e : room_for u fs e = true → fs !! (u ++ comps e) = None.
Proof. by intros [_ ?%bool_decide_eq_true]%andb_true_iff. Qed.

Lemma place_dirs u fs x : (∀ n, is_dir fs (take n u) = true) → ∀ n, is_dir (place u fs x) (take n u) = true.
Proof.
  intros Hu n. specialize (Hu n). unfold is_dir, place in *. destruct (take n u) eqn:Ht; [done|].
  rewrite lookup_insert_ne //. rewrite -Ht. intros Heq. apply (f_equal length) in Heq.
  rewrite length_app length_take in Heq. pose proof (Split_nonempty (Path x.1) slash).
  unfold comps in Heq. destruct (Split (Path x.1) slash); simpl in *; [done|lia].
Qed.

Lemma restore_one fuel file u x s rest fs :
  (∀ n, is_dir fs (take n u) = true) → entry_ok x = true → room_for u fs x.1 = true → follows x s rest →
  restore_entries (S fuel) file u (delimited (Marshal x.1) +:+ s) fs = restore_entries fuel file u rest (place u fs x).
Proof.
  intros Hu Hok Hroom Hs. pose proof (room_dirs _ _ _ Hroom Hu) as Hd. pose proof (room_None _ _ _ Hroom) as Hn.
  pose proof Hok as [[[Hplain%bool_decide_eq_true Ht%bool_decide_eq_true]%andb_true_iff Hf]%andb_true_iff _]%andb_true_iff.
  assert (Hne : u ++ comps x.1 ≠ []) by (intros [_ ?]%app_nil; by apply (Split_nonempty (Path x.1) slash)).
  assert (Hpath : ¬ (Path x.1 = "" ∨ Path x.1 = ".")).
  { intros H. unfold comps in Hplain. destruct H as [Heq|Heq]; rewrite Heq in Hplain;
      inversion_clear Hplain as [|? ? (?&?&?)]; done. }
  cbn [restore_entries]. rewrite read_delimited // Unmarshal_Marshal decide_False // SecureJoin_plain //.
  - intros n. fold (comps x.1). unfold is_link. destruct (decide (S n < length (comps x.1))%nat) as [Hlt|Hge].
    + specialize (Hd (length u + S n)%nat). rewrite take_app_add in Hd. rewrite length_app in Hd.
      unfold is_dir in Hd. destruct (u ++ take (S n) (comps x.1)) eqn:Heq; [|case_match; [case_match|]; naive_solver lia].
      apply app_nil in Heq as [_ Heq]. destruct (comps x.1); [simpl in Hlt; lia|done].
    + rewrite take_ge; [lia|]. by rewrite Hn.
  - fold (comps x.1). assert ((if decide (parent (u ++ comps x.1) = u) then Ok fs else MkdirAll (parent (u ++ comps x.1)) fs) = Ok fs) as ->.
    { case_decide; [done|]. by apply MkdirAll_parent. }
    rewrite (make_object_entry x s rest) //=. by rewrite set_metadata_created.
Qed.

Lemma restore_batch fuel file u l s fs :
  (∀ n, is_dir fs (take n u) = true) → layer_ok u fs l = true →
  (String.length (encode_batch l +:+ s) < fuel)%nat → ∃ fuel', (String.length s < fuel')%nat ∧
  restore_entries fuel file u (encode_batch l +:+ s) fs = restore_entries fuel' file u s (foldl (place u) fs l).
Proof.
  revert fuel fs. induction l as [|x l IH]; intros fuel fs Hu Hl Hf; [by exists fuel|].
  cbn [layer_ok] in Hl. apply andb_true_iff in Hl as [[Hok Hroom]%andb_true_iff Hl].
  cbn [encode_batch foldl] in *. unfold encode_entry in *. fold (content_of x) in *. rewrite !append_assoc in Hf |- *.
  destruct fuel as [|fuel]; [lia|]. rewrite (restore_one _ _ _ x _ (encode_batch l +:+ s)) //; [by left|].
  apply IH; [by apply place_dirs|done|].
  rewrite !length_append in Hf. rewrite length_append. simpl in Hf. lia.
Qed.

Lemma foldl_place_dirs u l fs : (∀ n, is_dir fs (take n u) = true) → ∀ n, is_dir (foldl (place u) fs l) (take n u) = true.
Proof. revert fs. induction l as [|x l IH]; intros fs Hu; simpl; [done|]. by apply IH, place_dirs. Qed.

Lemma layer_ok_app u fs l1 l2 : layer_ok u fs (l1 ++ l2) = layer_ok u fs l1 && layer_ok u (foldl (place u) fs l1) l2.
Proof. revert fs. induction l1 as [|x l1 IH]; intros fs; simpl; [done|]. by rewrite IH andb_assoc. Qed.

Lemma foldl_place_other u l fs p : p ∉ ((λ x : entry, u ++ comps x.1) <$> l) → foldl (place u) fs l !! p = fs !! p.
Proof.
  revert fs. induction l as [|x l IH]; intros fs Hp; simpl in *; [done|]. apply not_elem_of_cons in Hp as [Hx Hl].
  rewrite IH // lookup_insert_ne //.
Qed.

Lemma foldl_place_entry u l fs x :
  layer_ok u fs l = true → x ∈ l → foldl (place u) fs l !! (u ++ comps x.1) = Some (inode_of x).
Proof.
  (* an entry of which the path is taken cannot follow *)
  assert (Hkeep : ∀ l fs p i, layer_ok u fs l = true → fs !! p = Some i → foldl (place u) fs l !! p = Some i).
  { clear. induction l as [|y l IH]; intros fs p i Hl Hp; simpl in *; [done|].
    apply andb_true_iff in Hl as [[_ Hroom%room_None]%andb_true_iff Hl]. apply IH; [done|].
    unfold place. rewrite lookup_insert_ne //. intros Heq. by rewrite Heq Hp in Hroom. }
  revert fs. induction l as [|y l IH]; intros fs Hl Hx; [by apply elem_of_nil in Hx|].
  simpl in *. apply andb_true_iff in Hl as [_ Hl]. apply elem_of_cons in Hx as [->|Hx]; [|by apply IH].
  apply Hkeep; [done|]. by rewrite /place lookup_insert_eq.
Qed.

Definition holds_batches (dump : gmap string string) (i : N) (batches : list (list entry)) : Prop :=
  ∀ k b, batches !! k = Some b →
    dump !! ("rw-layer-" +:+ itoa (i + N.of_nat k) +:+ ".img") = Some (encode_batch b).

Lemma restore_batches_layer dump u batches i fs :
  (∀ n, is_dir fs (take n u) = true) → holds_batches dump i batches → layer_ok u fs (concat batches) = true →
  restore_batches dump u (length batches) i fs = Some (None, foldl (place u) fs (concat batches)).
Proof.
  revert i fs. induction batches as [|b batches IH]; intros i fs Hu Hd Hl; [done|].
  pose proof (Hd 0%nat b eq_refl) as Hb. rewrite N.add_0_r in Hb.
  cbn [length restore_batches concat]. cbn [concat] in Hl. rewrite layer_ok_app in Hl.
  apply andb_true_iff in Hl as [Hl1 Hl2]. cbv zeta. rewrite Hb.
  destruct (restore_batch (S (String.length (encode_batch b))) ("rw-layer-" +:+ itoa i +:+ ".img") u b "" fs)
    as (fuel & Hf & Hrun); [done|done|rewrite append_nil_r; lia|].
  rewrite append_nil_r in Hrun. rewrite Hrun. destruct fuel as [|fuel]; [simpl in Hf; lia|].
  rewrite foldl_app. apply IH; [by apply foldl_place_dirs| |done].
  intros k b' Hk. specialize (Hd (S k) b' Hk). by replace (i + 1 + N.of_nat k)%N with (i + N.of_nat (S k))%N by lia.
Qed.


(** A dump of which the last batch stops after a complete chunk of a
    file, before the message that ends its content, is restored without an
    error, with the file as far as it goes. *)
Theorem truncated_layer_accepted dump manifest l e cs upperDir fs :
  dump !! "rw-layer.manifest" = Some manifest → batchCount manifest = Ok 1 → fileType e = S_IFREG →
  dump !! "rw-layer-0.img" = Some (encode_batch l +:+ delimited (Marshal e) +:+ encode_chunks cs) →
  (∀ n, is_dir fs (take n upperDir) = true) → layer_ok upperDir fs (l ++ [(e, cs)]) = true →
  ∃ fs', RestoreToUpperDir dump upperDir fs = Some (None, fs') ∧
    ikind <$> fs' !! (upperDir ++ comps e) = Some (KReg (joined cs)).
Proof.
  intros Hm Hc Ht Hd Hu Hl. pose proof (foldl_place_entry _ _ _ (e, cs) Hl ltac:(set_solver)) as He.
  rewrite layer_ok_app in Hl. apply andb_true_iff in Hl as [Hl1 Hl2]. cbn [layer_ok] in Hl2.
  apply andb_true_iff in Hl2 as [[Hok Hroom]%andb_true_iff _].
  eexists. unfold RestoreToUpperDir. rewrite Hm Hc. change (Z.to_nat 1) with 1%nat. cbn [restore_batches]. cbv zeta.
  change ("rw-layer-" +:+ itoa 0 +:+ ".img") with "rw-layer-0.img". rewrite Hd.
  destruct (restore_batch _ "rw-layer-0.img" upperDir l (delimited (Marshal e) +:+ encode_chunks cs) fs Hu Hl1
              (Nat.lt_succ_diag_r _)) as (fuel & Hf & ->). destruct fuel as [|fuel]; [lia|].
  rewrite (restore_one _ _ _ (e, cs) _ "") //.
  - by apply foldl_place_dirs.
  - right. split; [|done]. unfold cut_content_of. by rewrite decide_True.
  - rewrite length_append /= in Hf. destruct fuel as [|fuel]; [lia|]. cbn.
    rewrite foldl_app in He. split; [done|]. simpl in He. rewrite He. simpl. unfold kind_of. by rewrite Ht.
Qed.
End roundtrip.
End overlay.

(** ** Concrete instances *)

#[global] Instance RWFile_eq_dec : EqDecision RWFile.
Proof. solve_decision. Defined.
#[global] Instance RWFile_countable : Countable RWFile.
Proof.
  refine (inj_countable'
    (λ r, (Path r, Mode r, SymlinkTarget r, (DevMajor r, DevMinor r, Uid r, Gid r), Xattrs r, Mtime r, Content r))
    (λ '(a, b, c, (d, e, f, g), h, i, j), mkRWFile a b c d e f g h i j) _).
  by intros [].
Defined.

Module Instance_.
#[local] Instance env : Env := {|
  Unmarshal s := if decide (s = "") then Ok empty_RWFile
                 else match deserialize s with Some m => Ok m | None => Err (Errorf "invalid message") end;
  Marshal := serialize;
  DecodeManifest _ := NotJSON;
  DecodeBase64 := Ok;
  SecureJoin fs root rel :=
    let l := Split rel slash in
    if bool_decide (Forall plain l) && forallb (λ n, negb (is_link fs (root ++ take (S n) l))) (seq 0 (length l))
    then Ok (root ++ l) else Err (Errorf "refused");
  umask := 18;
  fault _ _ := None;
|}.

Lemma serialize_nonempty (m : RWFile) : encode m ≠ 1%positive → serialize m ≠ "".
Proof. unfold serialize. by destruct (encode m). Qed.

Lemma encode_not_one (m : RWFile) : encode m ≠ 1%positive.
Proof.
  intros H. assert (decode (A := RWFile) 1 = Some m) as Hd by (by rewrite -H decode_encode).
  vm_compute in Hd. done.
Qed.

#[local] Instance env_ok : EnvOk env.
Proof.
  split.
  - intros m. simpl. rewrite decide_False; [by apply serialize_nonempty, encode_not_one|].
    by rewrite deserialize_serialize.
  - done.
  - intros fs root rel p. simpl. case_match; [|done]. intros [= <-]. by eexists.
  - intros fs root rel Hp Hl. simpl. rewrite bool_decide_true //.
    assert (forallb (λ n, negb (is_link fs (root ++ take (S n) (Split rel slash))))
              (seq 0 (length (Split rel slash))) = true) as Hall; [|by rewrite Hall].
    apply forallb_forall. intros n _. by rewrite Hl.
Qed.

(** A directory, a set-user-ID program in it and a link, in two batches. *)
Definition up : path := ["upper"].
Definition fs0 : FS := {[up := mkInode KDir 493 0 0 ∅ 0; ["host"] := mkInode (KReg "kept") 420 0 0 ∅ 0]}.
Definition bin : RWFile := mkRWFile "bin" 16877 "" 0 0 1 2 [] 7 [].
Definition su : RWFile := mkRWFile "bin/su" 35309 "" 0 0 0 0 [("user.k", "v")] 9 [].
Definition lnk : RWFile := mkRWFile "lnk" 41471 "bin/su" 0 0 0 0 [] 0 [].
Definition layer : list (list entry) := [[(bin, []); (su, [["ab"; "c"]; ["d"]])]; [(lnk, [])]].
Definition dump : gmap string string :=
  {["rw-layer.manifest" := "2"; "rw-layer-0.img" := encode_batch [(bin, []); (su, [["ab"; "c"]; ["d"]])];
    "rw-layer-1.img" := encode_batch [(lnk, [])]]}.
Definition cut_dump : gmap string string :=
  {["rw-layer.manifest" := "1";
    "rw-layer-0.img" := encode_batch [(bin, [])] +:+ delimited (Marshal su) +:+ encode_chunks [["ab"; "c"]]]}.

Lemma up_dirs n : is_dir fs0 (take n up) = true.
Proof. destruct n; [done|]. change (take (S n) up) with ("upper" :: take n []). by rewrite take_nil. Qed.



(** The set-user-ID bit of the program is lost. *)
Example su_perms : perm_bits (Mode su) = 2541 ∧ perm_of su = 493.
Proof. done. Qed.

Lemma truncated_layer_accepted_witness :
  ∃ fs', RestoreToUpperDir cut_dump up fs0 = Some (None, fs') ∧
    ikind <$> fs' !! (up ++ comps su) = Some (KReg "abc").
Proof.
  apply (truncated_layer_accepted (E := env) (λ _ _, eq_refl) cut_dump "1" [(bin, [])] su [["ab"; "c"]] up fs0);
    [done|done|done|by vm_compute|apply up_dirs|by vm_compute].
Defined.
End Instance_.

End Overlay.
