(* ===== verification/Containerd.v ===== *)
(** * The containerd plugin (plugins/containerd)

    The adapters that the plugin adds to the dump, run and restore chains, its
    handlers, queries and the names of runtimes.  The containerd daemon is a
    third party: its calls are the fields of [Daemon] and what they are
    documented to do is [DaemonOk].  A chain passes the values of the context
    in [Ctx]; request, dump directory and file system are shared and so are
    part of [World].  [None] is a panic or a handler that never returns.

    What a dump writes, a restore reads back ([containerd_roundtrip]); a
    container whose restore fails is removed ([failed_restore_cleans_up]), one
    whose run fails is not ([failed_run_leaves_container]); the wait for an
    upcoming container never times out ([upcoming_never_times_out]); a
    snapshotter other than the default one is ignored when the snapshot is
    prepared, and so the writable layer is not restored before the mount
    ([snapshotter_without_effect]).  The dump of the root file system, which is
    not part of any chain, is [Rootfs]. *)

From Stdlib Require Import Ascii.
From S2P Require Import Prelude GoLib Overlay.

Module Containerd.
Import GoLib Overlay.
#[local] Arguments String.append : simpl nomatch.
#[local] Arguments str_take : simpl nomatch.

(** ** Names of runtimes and their directories *)

Definition newline : ascii := ascii_of_nat 10.
Definition any (x : ascii) : bool := negb (bool_decide (x = newline)).

(** The pattern is io.containerd. and a greedy group, a dot, v and digits;
    this matches the text before the group, byte by byte, [None] being a dot of
    the pattern. *)
Fixpoint match_head (pat : list (option ascii)) (s : string) : option string :=
  match pat, s with
  | [], _ => Some s
  | Some c :: pat, String x s => if bool_decide (c = x) then match_head pat s else None
  | None :: pat, String x s => if any x then match_head pat s else None
  | _ :: _, EmptyString => None
  end.

Definition head_pattern : list (option ascii) :=
  (Some <$> String.list_ascii_of_string "io") ++ [None] ++ (Some <$> String.list_ascii_of_string "containerd") ++ [None].

Definition match_tail (s : string) : bool :=
  match s with
  | String a (String v (String d _)) => any a && bool_decide (v = "v"%char) && is_digit d
  | _ => false
  end.

(** The longest text before a match of the tail. *)
Fixpoint match_group (s : string) : option string :=
  match s with
  | EmptyString => None
  | String x s' =>
      match (if any x then match_group s' else None) with
      | Some g => Some (String x g)
      | None => if match_tail s then Some EmptyString else None
      end
  end.

(** The leftmost match. *)
Fixpoint FindStringSubmatch (s : string) : option string :=
  match match_head head_pattern s ≫= match_group, s with
  | Some g, _ => Some g
  | None, EmptyString => None
  | None, String _ s' => FindStringSubmatch s'
  end.

Definition PluginForRuntime (runtime : string) : string :=
  match FindStringSubmatch runtime with Some g => g | None => runtime end.

Definition DEFAULT_NAMESPACE : string := "default".
Definition DEFAULT_SNAPSHOTTER : string := "overlayfs".

Definition DUMP_IMAGE_NAME_KEY : string := "containerd.image".
Definition DUMP_SNAPSHOT_KEY : string := "containerd.snapshot".
Definition DUMP_SNAPSHOTTER_KEY : string := "containerd.snapshotter".
Definition DUMP_RUNTIME_KEY : string := "containerd.runtime".

Definition NamespaceFromRoot (root : string) : string := last (Split root slash) "".

(** ** Messages *)

Record Containerd := mkContainerd {
  Address : string; Namespace : string; ID : string; cImage : option string; Snapshotter : string;
  cEnv : list string; GPUs : list Z; cArgs : list string; NoPivot : bool; Rootfs : bool; RootfsOnly : bool;
}.
Definition empty_Containerd : Containerd := mkContainerd "" "" "" None "" [] [] [] false false false.
Definition GetImageName (c : Containerd) : string := default "" (cImage c).

Record Runc := mkRunc { rID : string; Root : string }.
Record Details := mkDetails { dJID : string; dContainerd : option Containerd; dRunc : option Runc }.

Inductive Action := DUMP | FREEZE_ONLY | UNFREEZE_ONLY | START_NEW | MANAGE_EXISTING | MANAGE_UPCOMING.
#[global] Instance Action_eq_dec : EqDecision Action.
Proof. solve_decision. Defined.

(** The requests for a dump, a run and a restore, as far as the plugin reads
    them: [hasCriu] tells whether the CRIU options are set. *)
Record Req := mkReq { rAction : Action; rJID : string; rPath : string; hasCriu : bool; details : option Details }.

(** [req.GetDetails().GetContainerd()]; getters of a nil message are zero. *)
Definition GetContainerd (r : Req) : option Containerd := details r ≫= dContainerd.
Definition containerd_or_empty (r : Req) : Containerd := default empty_Containerd (GetContainerd r).

Definition set_containerd (c : Containerd) (r : Req) : Req :=
  let d := default (mkDetails "" None None) (details r) in
  mkReq (rAction r) (rJID r) (rPath r) (hasCriu r) (Some (mkDetails (dJID d) (Some c) (dRunc d))).

(** ** The daemon *)

Record Client := mkClient { client_address : string; client_namespace : string }.
Record Mount := mkMount { mType : string; Options : list string }.
Record Info := mkInfo { iImage : string; SnapshotKey : string; iSnapshotter : string; iRuntime : string }.

Inductive SpecOpt :=
| WithImageConfig (image : string)
| WithHostNamespace (ns : string)
| WithHostHostsFile
| WithHostResolvconf
| WithProcessArgs (args : list string)
| WithGPUs (devices : list Z)
| WithEnv (env : list string).

Inductive NewContainerOpt :=
| WithImage (image : string)
| WithNewSnapshot (key image : string)
| WithSnapshotter (snapshotter : string)
| WithNewSpec (opts : list SpecOpt)
| WithRuntime (binary : string).

(** What the daemon, the plugins and the host answer.  [D] is the state of the
    daemon. *)
Class Daemon := {
  D : Type;
  New : string → string → option error;
  Runtime : Client → string;
  GetImage : Client → string → D → option error;
  NewContainer : Client → string → list NewContainerOpt → D → option error * D;
  LoadContainer : Client → string → D → option error;
  GetInfo : Client → string → D → gores Info;
  ImageOf : Client → string → D → gores string;
  (** the environment in the spec of a container *)
  SpecEnv : Client → string → D → gores (list string);
  UpdateSpecEnv : Client → string → list string → D → option error * D;
  NewTask : Client → string → bool → D → option error * D;
  StartTask : Client → string → D → gores Z * D;
  TaskPid : Client → string → D → gores Z;
  DeleteTask : Client → string → D → D;
  (** with the clean-up of the snapshot *)
  DeleteContainer : Client → string → D → option error * D;
  Mounts : Client → string → string → D → gores (list Mount);
  (** the containers that match one of the filters: the ID of each and its
      ID and image as [Info] gives them *)
  Containers : Client → list string → D → gores (list (string * gores (string * string)));
  (** the runtime's containers and states, and the answer of its query: its
      messages, containers and states for an ID and a root directory *)
  RuncContainer : Type;
  ProcessState : Type;
  query_runc : string → string → gores (list string * list RuncContainer * list ProcessState);
  (** the plugin of a name: whether it is installed, and its binaries *)
  Getf : string → option (bool * list string);
  (** whether a runtime's plugin has a feature *)
  available : string → string → option error;
  (** failures of calls on the dump directory *)
  dump_fault : string → string → option error;
  DEFAULT_ADDRESS : string;
  config_json : gores string;
  criu_json : gores string;
  executable : gores string;
}.

Definition DefaultSnapshotter : string := "overlayfs".

(** The snapshotter that the last of the options names. *)
Definition named_snapshotter (opts : list NewContainerOpt) : string :=
  last (omap (λ o, match o with WithSnapshotter s => Some s | _ => None end) opts) DefaultSnapshotter.

(** Documented behaviour of the daemon: creating a container adds one that did
    not exist, prepares its snapshot with the snapshotter that the options
    before name ([WithSnapshotter] must appear before other snapshotter options
    to have an effect) and creates nothing else; mounts are those of an
    existing snapshot; deleting removes the container. *)
Class DaemonOk `(DM : Daemon) := {
  container : Client → string → D → option Info;
  snapshot : Client → string → string → D → bool;
  NewContainer_Ok : ∀ c id opts d d', NewContainer c id opts d = (None, d') →
    container c id d = None ∧ is_Some (container c id d');
  NewContainer_Err : ∀ c id opts d d' e, NewContainer c id opts d = (Some e, d') →
    ∀ id', container c id' d' = container c id' d;
  NewContainer_snapshot : ∀ c id pre key image post d d',
    NewContainer c id (pre ++ WithNewSnapshot key image :: post) d = (None, d') →
    Forall (λ o, match o with WithNewSnapshot _ _ => False | _ => True end) (pre ++ post) →
    ∀ s k, snapshot c s k d' = bool_decide (s = named_snapshotter pre ∧ k = key) || snapshot c s k d;
  Mounts_Ok : ∀ c s k d m, Mounts c s k d = Ok m → snapshot c s k d = true;
  DeleteContainer_Ok : ∀ c id d d', DeleteContainer c id d = (None, d') → container c id d' = None;
}.

Section plugin.
Context `{E : Env} `{DM : Daemon}.

(** ** Handlers and adapters *)

Record World := mkWorld {
  req : Req; resp_pid : Z; daemon : D; DumpFs : option (gmap string string); host : FS;
}.

Record Ctx := mkCtx { ctx_client : option Client; ctx_container : option string; ctx_gpu : option string }.

(** The code that a handler returns: none, or that of the process with a PID. *)
Inductive Code := NoCode | ExitOf (pid : Z).

Definition Handler : Type := Ctx → Go World (gores Code).
Definition Adapter : Type := Handler → Handler.

(** [next.With(middleware...)]: the first adapter is the outermost one. *)
Definition chain (middleware : list Adapter) (h : Handler) : Handler := foldr (λ a h, a h) h middleware.

Definition set_req (r : Req) (w : World) : World := mkWorld r (resp_pid w) (daemon w) (DumpFs w) (host w).
Definition set_pid (p : Z) (w : World) : World := mkWorld (req w) p (daemon w) (DumpFs w) (host w).
Definition set_daemon (d : D) (w : World) : World := mkWorld (req w) (resp_pid w) d (DumpFs w) (host w).
Definition set_dump (m : option (gmap string string)) (w : World) : World :=
  mkWorld (req w) (resp_pid w) (daemon w) m (host w).
Definition set_host (f : FS) (w : World) : World := mkWorld (req w) (resp_pid w) (daemon w) (DumpFs w) f.

(** A call that fails with the message [msg]. *)
Definition asks {A} (msg : string) (f : D → gores A) : Go World (gores A) :=
  w ← get; match f (daemon w) with Err e => failed msg e | Ok a => mret (Ok a) end.
Definition checks (msg : string) (f : D → option error) : Go World (gores unit) :=
  w ← get; match f (daemon w) with Some e => failed msg e | None => mret (Ok ()) end.
Definition calls (msg : string) (f : D → option error * D) : Go World (gores unit) :=
  w ← get;
  let '(e, d) := f (daemon w) in
  _ ← put (set_daemon d w);
  match e with Some e => failed msg e | None => mret (Ok ()) end.

Definition need_client (what : string) (ctx : Ctx) : Go World (gores Client) :=
  match ctx_client ctx with
  | Some c => mret (Ok c)
  | None => fail Internal ("failed to get " +:+ what +:+ " from context")
  end.
(** The container in the context has been made with the client in it. *)
Definition need_container (ctx : Ctx) : Go World (gores (Client * string)) :=
  match ctx_container ctx, ctx_client ctx with
  | Some id, Some c => mret (Ok (c, id))
  | _, _ => fail Internal "failed to get container from context"
  end.

Definition the_details : Go World Containerd := w ← get; mret (containerd_or_empty (req w)).

(** An adapter that does its work before the next handler. *)
Definition before (f : Ctx → Go World (gores unit)) : Adapter := λ next ctx, try (f ctx) (λ _, next ctx).

(** ** Defaults and validation *)

Definition or_else (s d : string) : string := if decide (s = "") then d else s.

Definition fill_address (c : Containerd) : Containerd :=
  mkContainerd (or_else (Address c) DEFAULT_ADDRESS) (or_else (Namespace c) DEFAULT_NAMESPACE) (ID c) (cImage c)
    (Snapshotter c) (cEnv c) (GPUs c) (cArgs c) (NoPivot c) (Rootfs c) (RootfsOnly c).
Definition fill_id (id : string) (c : Containerd) : Containerd :=
  mkContainerd (Address c) (Namespace c) (or_else (ID c) id) (cImage c)
    (Snapshotter c) (cEnv c) (GPUs c) (cArgs c) (NoPivot c) (Rootfs c) (RootfsOnly c).
Definition fill_snapshotter (c : Containerd) : Containerd :=
  mkContainerd (Address c) (Namespace c) (ID c) (cImage c) (or_else (Snapshotter c) DEFAULT_SNAPSHOTTER)
    (cEnv c) (GPUs c) (cArgs c) (NoPivot c) (Rootfs c) (RootfsOnly c).
Definition set_image (name : string) (c : Containerd) : Containerd :=
  mkContainerd (Address c) (Namespace c) (ID c) (Some name)
    (Snapshotter c) (cEnv c) (GPUs c) (cArgs c) (NoPivot c) (Rootfs c) (RootfsOnly c).

Definition on_containerd (f : Containerd → Containerd) : Go World (gores unit) :=
  _ ← modify (λ w, set_req (set_containerd (f (containerd_or_empty (req w))) (req w)) w); mret (Ok ()).

Definition with_criu (r : Req) : Req := mkReq (rAction r) (rJID r) (rPath r) true (details r).

Definition FillMissingDumpDefaults : Adapter := before (λ _,
  _ ← on_containerd fill_address;
  _ ← modify (λ w, set_req (with_criu (req w)) w);
  mret (Ok ())).

Definition FillMissingRunDefaults : Adapter := before (λ _,
  w ← get;
  on_containerd (λ c, fill_snapshotter (fill_id (rJID (req w)) (fill_address c)))).

(** [GetJID] of the details *)
Definition details_JID (r : Req) : string := match details r with Some d => dJID d | None => "" end.

(** The image named in the dump, read with one call into 256 bytes. *)
Definition read_image_name : Go World (gores unit) := λ w,
  match DumpFs w with
  | None => None
  | Some m =>
      match dump_fault "open" DUMP_IMAGE_NAME_KEY, m !! DUMP_IMAGE_NAME_KEY with
      | None, Some data =>
          if decide (data = "") then Some (Ok (), w)
          else match dump_fault "read" DUMP_IMAGE_NAME_KEY with
               | Some _ => Some (Ok (), w)
               | None => on_containerd (set_image (str_take 256 data)) w
               end
      | _, _ => Some (Ok (), w)
      end
  end.

Definition fill_restore_defaults : Go World (gores unit) :=
  w ← get;
  _ ← on_containerd (λ c, fill_id (details_JID (req w)) (fill_address c));
  w ← get;
  if decide (GetImageName (containerd_or_empty (req w)) = "") then read_image_name else mret (Ok ()).

Definition FillMissingRestoreDefaults : Adapter := before (λ _, fill_restore_defaults).

(** What the three validations have in common, and what each requires besides. *)
Definition validate (extra : Containerd → option error) (r : Req) : option error :=
  match GetContainerd r with
  | None => Some (Status InvalidArgument "missing containerd details")
  | Some d =>
      if decide (Address d = "") then Some (Status InvalidArgument "missing containerd address")
      else if decide (Namespace d = "") then Some (Status InvalidArgument "missing containerd namespace")
      else if decide (ID d = "") then Some (Status InvalidArgument "missing containerd id")
      else extra d
  end.
Definition validating (v : Req → option error) : Adapter := before (λ _,
  w ← get; mret (match v (req w) with Some e => Err e | None => Ok () end)).

Definition ValidateDumpRequest : Adapter := validating (validate (λ d,
  if RootfsOnly d && Rootfs d && bool_decide (GetImageName d = "")
  then Some (Status InvalidArgument "missing image ref for rootfs dump") else None)).
Definition ValidateRestoreRequest : Adapter := validating (validate (λ d,
  if decide (GetImageName d = "") then Some (Status InvalidArgument "missing containerd image") else None)).
Definition ValidateRunRequest : Adapter := validating (λ r, validate (λ d,
  if decide (rAction r = START_NEW ∧ GetImageName d = "")
  then Some (Status InvalidArgument "missing containerd image") else None) r).

(** ** Client and container *)

Definition Setup : Adapter := λ next ctx,
  d ← the_details;
  match New (Address d) (Namespace d) with
  | Some e => failed "failed to create containerd client" e
  | None => next (mkCtx (Some (mkClient (Address d) (Namespace d))) (ctx_container ctx) (ctx_gpu ctx))
  end.

Definition with_container (ctx : Ctx) (id : string) : Ctx := mkCtx (ctx_client ctx) (Some id) (ctx_gpu ctx).

Definition LoadContainer_adapter : Adapter := λ next ctx,
  d ← the_details;
  try (need_client "client" ctx) (λ c,
  try (checks ("failed to load container " +:+ ID d) (LoadContainer c (ID d))) (λ _,
  next (with_container ctx (ID d)))).

(** Adds to the environment in the spec of the container. *)
Definition append_env (c : Client) (id : string) (old env : list string) : Go World (gores unit) :=
  calls "failed to update container with new spec" (UpdateSpecEnv c id (old ++ env)).

Definition SetAdditionalEnv : Adapter := λ next ctx,
  d ← the_details;
  match cEnv d with
  | [] => next ctx
  | env =>
      try (need_container ctx) (λ '(c, id),
      try (asks "failed to get spec from container" (SpecEnv c id)) (λ old,
      try (append_env c id old env) (λ _,
      next ctx)))
  end.

Definition gpu_env (var : string) : Adapter := before (λ ctx,
  try (need_container ctx) (λ '(c, id),
  try (asks "failed to get spec from container" (SpecEnv c id)) (λ old,
  match ctx_gpu ctx with
  | None => fail Internal "failed to get GPU ID from context"
  | Some gpu => append_env c id old [var +:+ "=1"; "CEDANA_GPU_ID=" +:+ gpu]
  end))).
Definition Interception : Adapter := gpu_env "CEDANA_GPU".
Definition Tracing : Adapter := gpu_env "CEDANA_GPU_TRACING".

(** ** Dump *)

(** Creates a file of the dump and writes [data] into it. *)
Definition write_dump (what key data : string) : Go World (gores unit) := λ w,
  match DumpFs w with
  | None => None
  | Some m =>
      match dump_fault "create" key with
      | Some e => failed ("failed to create dump " +:+ what +:+ " file") e w
      | None =>
          match dump_fault "write" key with
          | Some e => failed ("failed to write dump " +:+ what +:+ " file") e (set_dump (Some (<[key := ""]> m)) w)
          | None => Some (Ok (), set_dump (Some (<[key := data]> m)) w)
          end
      end
  end.

(** [req.Action == DUMP && opts.DumpFs != nil] *)
Definition dumping (w : World) : bool := bool_decide (rAction (req w) = DUMP ∧ is_Some (DumpFs w)).

Definition DumpImageName : Adapter := before (λ ctx,
  w ← get;
  if negb (dumping w) then mret (Ok ())
  else
    try (need_container ctx) (λ '(c, id),
    try (asks "failed to get image from container" (ImageOf c id)) (λ image,
    write_dump "image name" DUMP_IMAGE_NAME_KEY image))).

Definition DumpSnapshotter : Adapter := before (λ ctx,
  w ← get;
  if negb (dumping w) then mret (Ok ())
  else
    try (need_container ctx) (λ '(c, id),
    try (asks "failed to get container info" (GetInfo c id)) (λ info,
    try (write_dump "snapshot key" DUMP_SNAPSHOT_KEY (SnapshotKey info)) (λ _,
    write_dump "snapshotter" DUMP_SNAPSHOTTER_KEY (iSnapshotter info))))).

Definition BASE_RUNTIME_DIR : string := FilepathDir DEFAULT_ADDRESS.
Definition RootFromPlugin (plugin namespace : string) : string := Join2 (Join2 BASE_RUNTIME_DIR plugin) namespace.
Definition RootFromRuntime (runtime namespace : string) : string := RootFromPlugin (PluginForRuntime runtime) namespace.

(** The details of the low-level runtime; [None] when there are no details. *)
Definition set_runc (plugin : string) : Go World (gores unit) := λ w,
  if decide (plugin = "runc") then
    match details (req w) with
    | None => None
    | Some d =>
        let c := containerd_or_empty (req w) in
        let d := mkDetails (dJID d) (dContainerd d) (Some (mkRunc (ID c) (RootFromPlugin plugin (Namespace c)))) in
        Some (Ok (), set_req (mkReq (rAction (req w)) (rJID (req w)) (rPath (req w)) (hasCriu (req w)) (Some d)) w)
    end
  else fail Unimplemented ("unsupported plugin " +:+ plugin) w.

Definition supported (feature : string) (c : Client) : Go World (gores unit) :=
  match available feature (PluginForRuntime (Runtime c)) with
  | Some e => fail FailedPrecondition ("unsupported runtime " +:+ Runtime c +:+ ": " +:+ Error e)
  | None => mret (Ok ())
  end.

(** With the middleware of the runtime's plugin. *)
Definition DumpMiddleware (runtime_middleware : string → list Adapter) : Adapter := λ next ctx,
  try (need_client "containerd client" ctx) (λ c,
  w ← get;
  try (if dumping w then write_dump "runtime" DUMP_RUNTIME_KEY (Runtime c) else mret (Ok ())) (λ _,
  let plugin := PluginForRuntime (Runtime c) in
  try (supported "DumpMiddleware" c) (λ _,
  try (set_runc plugin) (λ _,
  chain (runtime_middleware plugin) next ctx)))).

(** The handlers that hand over to those of the runtime. *)
Definition delegating (runtime_handler : string → string → Handler) (feature : string) : Handler := λ ctx,
  try (need_client "containerd client" ctx) (λ c,
  let plugin := PluginForRuntime (Runtime c) in
  try (supported feature c) (λ _,
  try (set_runc plugin) (λ _,
  runtime_handler feature plugin ctx))).
Definition freeze (runtime_handler : string → string → Handler) : Handler := delegating runtime_handler "FreezeHandler".
Definition unfreeze (runtime_handler : string → string → Handler) : Handler := delegating runtime_handler "UnfreezeHandler".

Definition dump_middleware (runtime_middleware : string → list Adapter) : list Adapter :=
  [FillMissingDumpDefaults; ValidateDumpRequest; Setup; LoadContainer_adapter; DumpImageName; DumpSnapshotter;
   DumpMiddleware runtime_middleware].

(** ** Cleaning up *)

(** With a client of its own, for the container that the request names. *)
Definition Cleanup : Go World (option error) :=
  d ← the_details;
  let c := mkClient (Address d) (Namespace d) in
  match New (Address d) (Namespace d) with
  | Some e => mret (Some (Errorf ("failed to create containerd client: " +:+ Error e)))
  | None =>
      w ← get;
      match LoadContainer c (ID d) (daemon w) with
      | Some e => mret (Some (Errorf ("failed to load container " +:+ ID d +:+ ": " +:+ Error e)))
      | None =>
          let st := match TaskPid c (ID d) (daemon w) with
                    | Ok _ => DeleteTask c (ID d) (daemon w)
                    | Err _ => daemon w
                    end in
          let '(e, st) := DeleteContainer c (ID d) st in
          _ ← put (set_daemon st w); mret e
      end
  end.

(** A deferred clean-up that looks at the error the function returns. *)
Definition cleaning_up {A} (m : Go World (gores A)) : Go World (gores A) :=
  r ← m;
  match r with
  | Ok _ => mret r
  | Err _ => _ ← Cleanup; mret r
  end.

(** The same, when the deferred function looks at another variable [err]. *)
Definition cleaning_up_if {A} (err : option error) (m : Go World (gores A)) : Go World (gores A) :=
  r ← m;
  match err with
  | None => mret r
  | Some _ => _ ← Cleanup; mret r
  end.

(** ** Containers for a run or a restore *)

Definition base_spec (image : string) : list SpecOpt :=
  [WithImageConfig image; WithHostNamespace "network"; WithHostHostsFile; WithHostResolvconf].
Definition gpu_spec (d : Containerd) : list SpecOpt :=
  match GPUs d with [] => [] | l => [WithGPUs l] end.
Definition args_spec (d : Containerd) : list SpecOpt :=
  match cArgs d with [] => [] | l => [WithProcessArgs l] end.

Definition lift {A} (msg : string) (r : gores A) : Go World (gores A) :=
  match r with Ok a => mret (Ok a) | Err e => failed msg e end.

(** The first binary of the plugin for a containerd runtime; it panics when an
    installed plugin has none. *)
Definition cedana_runtime (what runtime : string) : Go World (gores string) :=
  let pluginName := "containerd/runtime-" +:+ PluginForRuntime runtime in
  match Getf pluginName with
  | Some (true, binary :: _) => mret (Ok binary)
  | Some (true, []) => block
  | _ => fail FailedPrecondition ("please install the " +:+ pluginName +:+ " plugin to " +:+ what +:+ " this container")
  end.

(** A file of the dump, or a default when it cannot be read. *)
Definition read_or (key dflt : string) : Go World string := λ w,
  match DumpFs w with
  | None => None
  | Some m =>
      Some (match dump_fault "open" key, m !! key, dump_fault "read" key with
            | None, Some data, None => data
            | _, _, _ => dflt
            end, w)
  end.

Record Plan := mkPlan { pOpts : list NewContainerOpt; pKey : string; pSnapshotter : string }.

(** Everything before [client.NewContainer]. *)
Definition plan_restore (c : Client) : Go World (gores Plan) :=
  d ← the_details;
  let image := GetImageName d in
  try (checks "failed to get image" (GetImage c image)) (λ _,
  w ← get;
  if negb (hasCriu (req w)) then block
  else
    try (lift "failed to marshal CRIU options" criu_json) (λ criuOptsJson,
    try (lift "failed to marshal config" config_json) (λ configJson,
    try (lift "failed to get executable path" executable) (λ executablePath,
    let envVars := ["CEDANA_CONFIG=" +:+ configJson; "CEDANA_CHECKPOINT_PATH=" +:+ rPath (req w);
                    "CEDANA_CRIU_OPTS=" +:+ criuOptsJson; "CEDANA_EXECUTABLE_PATH=" +:+ executablePath] in
    runtime ← read_or DUMP_RUNTIME_KEY (Runtime c);
    snapshotKey ← read_or DUMP_SNAPSHOT_KEY (ID d);
    snapshotter ← read_or DUMP_SNAPSHOTTER_KEY DefaultSnapshotter;
    try (cedana_runtime "restore" runtime) (λ newRuntime,
    mret (Ok (mkPlan
      [WithImage image; WithNewSnapshot snapshotKey image; WithSnapshotter snapshotter;
       WithNewSpec (base_spec image ++ gpu_spec d ++ [WithEnv envVars]); WithRuntime newRuntime]
      snapshotKey snapshotter))))))).

Definition to_path (p : string) : path := clean_elems true (Split p slash).

(** The loop over the mounts of the snapshot, which ends at the first overlay:
    whether the layer is in place before the mount. *)
Fixpoint restore_mounts (mounts : list Mount) : Go World (gores bool) :=
  match mounts with
  | [] => mret (Ok false)
  | m :: mounts =>
      if decide (mType m ≠ "overlay") then restore_mounts mounts
      else
        match UpperDirFromMountOptions (Options m) with
        | Err _ => mret (Ok false)
        | Ok upper => λ w,
            let upperDir := to_path upper in
            if AlreadyRestored upperDir (host w) then Some (Ok true, w)
            else
              match DumpFs w with
              | None => None
              | Some dump =>
                  match RestoreToUpperDir dump upperDir (host w) with
                  | None => None
                  | Some (Some e, fs) => failed ("failed to restore RW layer into upperdir " +:+ upper) e (set_host fs w)
                  | Some (None, fs) =>
                      match WriteMarker upperDir fs with
                      | Err e => failed ("pre-mount RW layer restore: populated upperdir " +:+ upper
                                         +:+ " but failed to write marker") e (set_host fs w)
                      | Ok fs => Some (Ok true, set_host fs w)
                      end
                  end
              end
        end
  end.

Definition restore_pre_mount (c : Client) (plan : Plan) : Go World (gores bool) :=
  w ← get;
  match Mounts c (pSnapshotter plan) (pKey plan) (daemon w) with
  | Err _ => mret (Ok false)
  | Ok mounts => restore_mounts mounts
  end.

Definition CreateContainerForRestore : Adapter := λ next ctx,
  d ← the_details;
  try (need_client "client" ctx) (λ c,
  try (plan_restore c) (λ plan,
  try (calls "failed to create container for restore" (NewContainer c (ID d) (pOpts plan))) (λ _,
  cleaning_up (
    try (restore_pre_mount c plan) (λ _,
    next (with_container ctx (ID d))))))).

Definition restore_middleware : list Adapter :=
  [FillMissingRestoreDefaults; ValidateRestoreRequest; Setup; CreateContainerForRestore; SetAdditionalEnv].

(** ** Waiting for an upcoming container *)

(** One round of the select: when the context and the lifetime of the server
    end, in nanoseconds from its start, with their errors, and the daemon half a
    second later. *)
Record Round := mkRound { ctx_done : option (Z * error); lifetime_done : option (Z * error); later : D }.

Inductive Ready := Done (e : error) | HalfSecond | Timeout.

Definition second : Z := 1000000000.
Definition waitForManageUpcomingTimeout : Z := 120 * second.

(** The case that is ready first. *)
Fixpoint first_ready (best : option (Z * Ready)) (l : list (option (Z * Ready))) : option Ready :=
  match l with
  | [] => snd <$> best
  | None :: l => first_ready best l
  | Some x :: l =>
      first_ready (match best with
                   | Some y => if decide (x.1 < y.1)%Z then Some x else Some y
                   | None => Some x
                   end) l
  end.

(** Both timers start anew in every round. *)
Definition select (r : Round) : option Ready :=
  first_ready None [prod_map id Done <$> ctx_done r; prod_map id Done <$> lifetime_done r;
                    Some ((second / 2)%Z, HalfSecond); Some (waitForManageUpcomingTimeout, Timeout)].

Fixpoint wait_upcoming (c : Client) (id : string) (rounds : list Round) : Go World (gores unit) :=
  match rounds with
  | [] => block
  | r :: rounds =>
      match select r with
      | Some (Done e) => mret (Err e)
      | Some Timeout => fail DeadlineExceeded ("timed out waiting for upcoming container " +:+ id)
      | Some HalfSecond =>
          _ ← modify (set_daemon (later r));
          match LoadContainer c id (later r) with
          | None => mret (Ok ())
          | Some _ => wait_upcoming c id rounds
          end
      | None => block
      end
  end.

(** ** Run and manage *)

Definition plan_run (c : Client) : Go World (gores (list NewContainerOpt)) :=
  d ← the_details;
  let image := GetImageName d in
  try (checks "failed to get image" (GetImage c image)) (λ _,
  try (lift "failed to marshal config" config_json) (λ configJson,
  try (lift "failed to get executable path" executable) (λ executablePath,
  let envVars := ["CEDANA_CONFIG=" +:+ configJson; "CEDANA_EXECUTABLE_PATH=" +:+ executablePath] in
  try (cedana_runtime "run" (Runtime c)) (λ newRuntime,
  mret (Ok [WithImage image; WithNewSnapshot (ID d) image; WithSnapshotter (Snapshotter d);
            WithNewSpec (base_spec image ++ args_spec d ++ gpu_spec d ++ [WithEnv envVars]);
            WithRuntime newRuntime]))))).

(** The deferred clean-up of a new container looks at the variable [err] of
    the case, which is nil once the container has been created.  A request with
    another action goes on with a nil container. *)
Definition CreateContainer (rounds : list Round) : Adapter := λ next ctx,
  d ← the_details;
  w ← get;
  try (need_client "client" ctx) (λ c,
  match rAction (req w) with
  | START_NEW =>
      try (plan_run c) (λ opts,
      try (calls "failed to create container for run" (NewContainer c (ID d) opts)) (λ _,
      cleaning_up_if None (next (with_container ctx (ID d)))))
  | MANAGE_EXISTING =>
      try (checks "failed to load container" (LoadContainer c (ID d))) (λ _, next (with_container ctx (ID d)))
  | MANAGE_UPCOMING =>
      try (wait_upcoming c (ID d) rounds) (λ _, next (with_container ctx (ID d)))
  | _ => next (mkCtx (ctx_client ctx) None (ctx_gpu ctx))
  end).

Definition run_middleware (rounds : list Round) : list Adapter :=
  [FillMissingRunDefaults; ValidateRunRequest; Setup; CreateContainer rounds; SetAdditionalEnv].

(** [Run], also the handler of a restore; the goroutine that waits for the
    task delivers its exit code. *)
Definition Run : Handler := λ ctx,
  d ← the_details;
  try (need_client "client" ctx) (λ _,
  try (need_container ctx) (λ '(c, id),
  try (calls "failed to create new task" (NewTask c id (NoPivot d))) (λ _,
  w ← get;
  match StartTask c id (daemon w) with
  | (Err e, st) => _ ← put (set_daemon st w); failed "failed to start task" e
  | (Ok pid, st) => _ ← put (set_pid pid (set_daemon st w)); mret (Ok (ExitOf pid))
  end))).

(** [Manage]; a container that has not been loaded is nil. *)
Definition Manage (rounds : list Round) : Handler := λ ctx,
  d ← the_details;
  w ← get;
  match ctx_client ctx with
  | None => fail FailedPrecondition "failed to get containerd client from context"
  | Some c =>
      try (match rAction (req w) with
           | MANAGE_EXISTING => checks "failed to load container" (LoadContainer c (ID d))
           | MANAGE_UPCOMING => wait_upcoming c (ID d) rounds
           | _ => block
           end) (λ _,
      try (asks "failed to get task" (TaskPid c (ID d))) (λ pid,
      _ ← modify (set_pid pid);
      mret (Ok (ExitOf pid))))
  end.

(** ** Queries *)

Record QueryReq := mkQuery { qAddress : string; qNamespace : string; IDs : list string }.
Record Found := mkFound {
  fID : string; fImage : string; fAddress : string; fNamespace : string; fRunc : option RuncContainer;
}.
Record QueryResp := mkResp { Messages : list string; FoundContainers : list Found; States : list (option ProcessState) }.

Definition add_messages (l : list string) (r : QueryResp) : QueryResp :=
  mkResp (Messages r ++ l) (FoundContainers r) (States r).
Definition add_found (f : Found) (s : option ProcessState) (r : QueryResp) : QueryResp :=
  mkResp (Messages r) (FoundContainers r ++ [f]) (States r ++ [s]).

(** The body of the loop over the containers.  When the runtime answers with a
    container and no state, indexing the states panics; the panic is recovered
    where the feature is looked up, which then reports no error. *)
Definition query_one (c : Client) (r : QueryResp) (x : string * gores (string * string)) : QueryResp :=
  match x.2 with
  | Err e => add_messages [x.1 +:+ ": failed to get info: " +:+ Error e] r
  | Ok (id, image) =>
      let found := mkFound id image (client_address c) (client_namespace c) in
      let plugin := PluginForRuntime (Runtime c) in
      match available "QueryHandler" plugin with
      | Some _ => r
      | None =>
          if decide (plugin = "runc") then
            match query_runc id (RootFromPlugin plugin (client_namespace c)) with
            | Err e => add_messages [id +:+ ": failed to query runc: " +:+ Error e] r
            | Ok (msgs, [], _) => add_messages msgs r
            | Ok (msgs, rc :: _, states) => add_found (found (Some rc)) (head states) (add_messages msgs r)
            end
          else add_found (found None) None r
      end
  end.

Definition Query (q : option QueryReq) (d : D) : gores QueryResp :=
  match q with
  | None => Err (Status InvalidArgument "containerd query missing")
  | Some q =>
      let c := mkClient (or_else (qAddress q) DEFAULT_ADDRESS) (or_else (qNamespace q) DEFAULT_NAMESPACE) in
      match New (client_address c) (client_namespace c) with
      | Some e => Err (Status Internal ("failed to create containerd client: " +:+ Error e))
      | None =>
          match Containers c ((λ id, "id==" +:+ id) <$> IDs q) d with
          | Err e => Err (Status Internal ("failed to list containers: " +:+ Error e))
          | Ok containers => Ok (foldl (query_one c) (mkResp [] [] []) containers)
          end
      end
  end.

(** ** Running adapters *)

#[local] Ltac inv_run := unfold failed, fail, get, put, modify in *; inv_go; split_matches; inv_go.

Lemma asks_Ok {A} msg (f : D → gores A) w a w' : asks msg f w = Some (Ok a, w') → f (daemon w) = Ok a ∧ w' = w.
Proof. unfold asks. intros H. by inv_run. Qed.
Lemma checks_same msg f w r w' : checks msg f w = Some (r, w') → w' = w.
Proof. unfold checks. intros H. by inv_run. Qed.
Lemma lift_same {A} msg (x : gores A) w r w' : lift msg x w = Some (r, w') → w' = w.
Proof. unfold lift. intros H. by inv_run. Qed.
Lemma calls_Ok msg f w w' : calls msg f w = Some (Ok (), w') → ∃ d, f (daemon w) = (None, d) ∧ w' = set_daemon d w.
Proof. unfold calls. intros H. inv_run. eauto. Qed.
Lemma calls_Err msg f w e w' :
  calls msg f w = Some (Err e, w') → ∃ d e', f (daemon w) = (Some e', d) ∧ w' = set_daemon d w.
Proof. unfold calls. intros H. inv_run. eauto. Qed.
Lemma the_details_Some w d w' : the_details w = Some (d, w') → d = containerd_or_empty (req w) ∧ w' = w.
Proof. unfold the_details. intros H. by inv_run. Qed.
Lemma need_container_Ok ctx w c id w' :
  need_container ctx w = Some (Ok (c, id), w') → ctx_client ctx = Some c ∧ ctx_container ctx = Some id ∧ w' = w.
Proof. unfold need_container. intros H. by inv_run. Qed.
Lemma need_client_Some what ctx w r w' :
  need_client what ctx w = Some (r, w') → w' = w ∧ ∀ c, r = Ok c → ctx_client ctx = Some c.
Proof. unfold need_client. intros H. inv_run; naive_solver. Qed.
Lemma write_dump_Ok what key data w w' :
  write_dump what key data w = Some (Ok (), w') →
  ∃ m, DumpFs w = Some m ∧ w' = set_dump (Some (<[key := data]> m)) w.
Proof. unfold write_dump. intros H. inv_run. eauto. Qed.

(** ** Names of runtimes *)

Definition digits (s : string) : Prop := Forall (λ x, is_digit x = true) (String.list_ascii_of_string s).

Lemma digit_not_v x : is_digit x = true → x ≠ "v"%char.
Proof. intros H ->. vm_compute in H. done. Qed.

Lemma match_tail_digits x s : digits s → match_tail (String x s) = false.
Proof.
  unfold digits. destruct s as [|y [|z s]]; [done|done|]. simpl. intros H. apply Forall_cons_1 in H as [Hy _].
  rewrite (bool_decide_false (y = "v"%char)); [by apply digit_not_v|]. by rewrite andb_false_r.
Qed.

Lemma match_group_digits s : digits s → match_group s = None.
Proof.
  induction s as [|x s IH]; intros H; [done|]. cbn [match_group].
  unfold digits in *. apply Forall_cons_1 in H as [Hx H]. rewrite (IH H) (match_tail_digits _ _ H). by destruct (any x).
Qed.

Lemma match_group_name name s :
  has_byte newline name = false → digits s → s ≠ "" → match_group (name +:+ ".v" +:+ s) = Some name.
Proof.
  intros Hn Hd Hs. induction name as [|x name IH].
  - cbn [String.append match_group]. rewrite (match_group_digits s Hd) (match_tail_digits _ s Hd). cbn.
    destruct s as [|y s]; [done|]. unfold digits in Hd. apply Forall_cons_1 in Hd as [Hy _]. simpl. by rewrite Hy.
  - simpl in Hn. apply orb_false_iff in Hn as [Hx Hn]. cbn [String.append match_group].
    rewrite (IH Hn). unfold any. apply bool_decide_eq_false in Hx. by rewrite bool_decide_false.
Qed.

Lemma PluginForRuntime_containerd name version :
  has_byte newline name = false → digits version → version ≠ "" →
  PluginForRuntime ("io.containerd." +:+ name +:+ ".v" +:+ version) = name.
Proof.
  intros Hn Hd Hv. unfold PluginForRuntime.
  assert (FindStringSubmatch ("io.containerd." +:+ name +:+ ".v" +:+ version) = Some name) as ->; [|done].
  assert (∀ s, match_head head_pattern ("io.containerd." +:+ s) = Some s) as Hh by done.
  specialize (Hh (name +:+ ".v" +:+ version)).
  destruct ("io.containerd." +:+ name +:+ ".v" +:+ version) as [|x s] eqn:Es; [done|].
  cbn [FindStringSubmatch]. rewrite Hh. cbn [mbind option_bind]. by rewrite match_group_name.
Qed.

(** ** Waiting *)

Lemma select_cases r :
  select r = Some HalfSecond ∨
  (∃ t e, select r = Some (Done e) ∧ (ctx_done r = Some (t, e) ∨ lifetime_done r = Some (t, e))).
Proof.
  unfold select, waitForManageUpcomingTimeout, second. change (1000000000 / 2)%Z with 500000000%Z.
  destruct (ctx_done r) as [[t1 e1]|], (lifetime_done r) as [[t2 e2]|]; cbn [first_ready fmap option_fmap option_map prod_map id fst snd];
    repeat case_decide; cbn [fst snd] in *; try lia;
    (left; reflexivity) || (right; eexists _, _; split; [reflexivity|eauto]).
Qed.

Lemma select_alone r : ctx_done r = None → lifetime_done r = None → select r = Some HalfSecond.
Proof. intros H1 H2. destruct (select_cases r) as [?|(t & e & _ & [H|H])]; [done|congruence..]. Qed.

(** The two minutes that are meant to bound the wait for an upcoming container
    never pass, since both timers start anew in every round: the wait ends with
    the container or with the error of the context or of the server, and while
    none of the three happens it goes on for any number of rounds. *)
Theorem upcoming_never_times_out c id rounds w :
  (∀ r w', wait_upcoming c id rounds w = Some (r, w') →
     (r = Ok () ∧ LoadContainer c id (daemon w') = None) ∨
     (∃ x t e, x ∈ rounds ∧ r = Err e ∧ (ctx_done x = Some (t, e) ∨ lifetime_done x = Some (t, e)))) ∧
  (Forall (λ x, ctx_done x = None ∧ lifetime_done x = None ∧ is_Some (LoadContainer c id (later x))) rounds →
     wait_upcoming c id rounds w = None).
Proof.
  revert w. induction rounds as [|x rounds IH]; intros w; [done|]. split.
  - intros r w' H. cbn [wait_upcoming] in H.
    destruct (select_cases x) as [Hs|(t & e & Hs & Hd)]; rewrite Hs in H.
    + apply Go_bind_Some in H as ([] & w1 & [= <-] & H).
      destruct (LoadContainer c id (later x)) eqn:Hl; [|left; by inv_go].
      destruct (proj1 (IH _) _ _ H) as [?|(y & t & e' & Hy & ?)]; [by left|right].
      exists y, t, e'. split; [by apply list_elem_of_further|done].
    + inv_run. right. exists x, t, e. split; [apply list_elem_of_here|done].
  - intros [(H1 & H2 & e & He) Hall]%Forall_cons_1. cbn [wait_upcoming]. rewrite (select_alone x H1 H2).
    rewrite /mbind /Go_bind /modify He. by apply IH.
Qed.

(** ** What a dump records *)

Definition recorded (image : string) (info : Info) (runtime : string) (m : gmap string string) : gmap string string :=
  <[DUMP_RUNTIME_KEY := runtime]> (<[DUMP_SNAPSHOTTER_KEY := iSnapshotter info]>
    (<[DUMP_SNAPSHOT_KEY := SnapshotKey info]> (<[DUMP_IMAGE_NAME_KEY := image]> m))).

(** The details of a dump with the defaults filled in, and their client. *)
Definition dump_details (w : World) : Containerd := fill_address (containerd_or_empty (req w)).
Definition client_of (d : Containerd) : Client := mkClient (Address d) (Namespace d).

Lemma validating_Some v next ctx w r w' :
  validating v next ctx w = Some (r, w') → (∃ e, r = Err e ∧ w' = w) ∨ next ctx w = Some (r, w').
Proof.
  unfold validating, before. intros [(e & -> & H)|(a & w1 & H1 & H)]%try_Some; inv_run; eauto.
Qed.

Lemma DumpImageName_Ok next c id ctx w m code w' :
  rAction (req w) = DUMP → DumpFs w = Some m → ctx_client ctx = Some c → ctx_container ctx = Some id →
  DumpImageName next ctx w = Some (Ok code, w') →
  ∃ image, ImageOf c id (daemon w) = Ok image ∧
    next ctx (set_dump (Some (<[DUMP_IMAGE_NAME_KEY := image]> m)) w) = Some (Ok code, w').
Proof.
  intros Ha Hm Hc Hid. unfold DumpImageName, before. intros (u & w1 & H1 & H)%try_Ok.
  apply Go_bind_Some in H1 as (w0 & w0' & [= <- <-] & Hb). rename Hb into H1.
  unfold dumping in H1. rewrite (bool_decide_true (_ ∧ _)) /= in H1; [by rewrite Ha Hm|].
  apply try_Ok in H1 as ([c' id'] & w2 & (Hc1 & Hid1 & ->)%need_container_Ok & H1). simplify_eq.
  apply try_Ok in H1 as (image & w2 & [Hi ->]%asks_Ok & H1). destruct u.
  apply write_dump_Ok in H1 as (m' & Hm' & ->). simplify_eq. eauto.
Qed.

Lemma DumpSnapshotter_Ok next c id ctx w m code w' :
  rAction (req w) = DUMP → DumpFs w = Some m → ctx_client ctx = Some c → ctx_container ctx = Some id →
  DumpSnapshotter next ctx w = Some (Ok code, w') →
  ∃ info, GetInfo c id (daemon w) = Ok info ∧
    next ctx (set_dump (Some (<[DUMP_SNAPSHOTTER_KEY := iSnapshotter info]>
                               (<[DUMP_SNAPSHOT_KEY := SnapshotKey info]> m))) w) = Some (Ok code, w').
Proof.
  intros Ha Hm Hc Hid. unfold DumpSnapshotter, before. intros (u & w1 & H1 & H)%try_Ok.
  apply Go_bind_Some in H1 as (w0 & w0' & [= <- <-] & Hb). rename Hb into H1.
  unfold dumping in H1. rewrite (bool_decide_true (_ ∧ _)) /= in H1; [by rewrite Ha Hm|].
  apply try_Ok in H1 as ([c' id'] & w2 & (Hc1 & Hid1 & ->)%need_container_Ok & H1). simplify_eq.
  apply try_Ok in H1 as (info & w2 & [Hi ->]%asks_Ok & H1). exists info. split; [done|].
  apply try_Ok in H1 as (u' & w2 & H2 & H1). destruct u, u'.
  apply write_dump_Ok in H2 as (m' & Hm' & ->). simplify_eq.
  apply write_dump_Ok in H1 as (m' & Hm'' & ->). by simplify_eq/=.
Qed.

Lemma DumpMiddleware_Ok mw next c ctx w m code w' :
  rAction (req w) = DUMP → DumpFs w = Some m → ctx_client ctx = Some c →
  DumpMiddleware mw next ctx w = Some (Ok code, w') →
  ∃ w1, DumpFs w1 = Some (<[DUMP_RUNTIME_KEY := Runtime c]> m) ∧
    chain (mw (PluginForRuntime (Runtime c))) next ctx w1 = Some (Ok code, w').
Proof.
  intros Ha Hm Hc. unfold DumpMiddleware. intros (c' & w1 & [-> Hc']%need_client_Some & H)%try_Ok.
  specialize (Hc' _ eq_refl). simplify_eq.
  apply Go_bind_Some in H as (w0 & w0' & [= <- <-] & H).
  unfold dumping in H. rewrite (bool_decide_true (_ ∧ _)) in H; [by rewrite Ha Hm|].
  apply try_Ok in H as ([] & w2 & H2 & H). apply write_dump_Ok in H2 as (m' & Hm' & ->). simplify_eq.
  apply try_Ok in H as ([] & w2 & H2 & H). unfold supported in H2. inv_run.
  apply try_Ok in H as ([] & w2 & H2 & H). exists w2. split; [|done].
  unfold set_runc in H2. by inv_run.
Qed.

(** Filling in defaults, validation, the client and the container change
    nothing but the request. *)
Lemma dump_prefix_Ok next ctx w code w' :
  chain [FillMissingDumpDefaults; ValidateDumpRequest; Setup; LoadContainer_adapter] next ctx w = Some (Ok code, w') →
  ∃ w1, next (mkCtx (Some (client_of (dump_details w))) (Some (ID (dump_details w))) (ctx_gpu ctx)) w1 = Some (Ok code, w') ∧
    rAction (req w1) = rAction (req w) ∧ containerd_or_empty (req w1) = dump_details w ∧
    daemon w1 = daemon w ∧ DumpFs w1 = DumpFs w.
Proof.
  cbn [chain foldr]. intros ([] & w1 & H1 & H)%try_Ok.
  assert (w1 = set_req (with_criu (set_containerd (dump_details w) (req w))) w) as ->.
  { unfold on_containerd in H1. by inv_run. }
  apply validating_Some in H as [(? & ? & _)|H]; [done|].
  unfold Setup in H. apply Go_bind_Some in H as (d & w2 & [-> ->]%the_details_Some & H).
  cbn in H. destruct (New _ _) eqn:Hnew; [inv_run|].
  unfold LoadContainer_adapter in H. apply Go_bind_Some in H as (d & w2 & [-> ->]%the_details_Some & H).
  apply try_Ok in H as (c & w2 & [-> _]%need_client_Some & H).
  apply try_Ok in H as (u & w2 & ->%checks_same & H). eexists. split; [exact H|done].
Qed.

Lemma dump_records mw next ctx w m code w' :
  rAction (req w) = DUMP → DumpFs w = Some m →
  chain (dump_middleware mw) next ctx w = Some (Ok code, w') →
  let d := dump_details w in let c := client_of d in
  ∃ image info ctx1 w1,
    ImageOf c (ID d) (daemon w) = Ok image ∧ GetInfo c (ID d) (daemon w) = Ok info ∧
    DumpFs w1 = Some (recorded image info (Runtime c) m) ∧
    chain (mw (PluginForRuntime (Runtime c))) next ctx1 w1 = Some (Ok code, w').
Proof.
  intros Ha Hm H d c. apply (dump_prefix_Ok (chain [DumpImageName; DumpSnapshotter; DumpMiddleware mw] next)) in H
    as (w1 & H & Ha1 & Hd1 & Hst & Hm1).
  cbn [chain foldr] in H.
  apply (DumpImageName_Ok _ c (ID d) _ _ m) in H as (image & Hi & H); [|congruence|congruence|done|done].
  apply (DumpSnapshotter_Ok _ c (ID d) _ _ (<[DUMP_IMAGE_NAME_KEY := image]> m)) in H as (info & Hinfo & H); [|cbn; congruence|done|done|done].
  eapply (DumpMiddleware_Ok _ _ c) in H as (w2 & Hm2 & H); [|cbn; congruence|done|done].
  cbn in Hinfo. rewrite Hst in Hi Hinfo. by eexists image, info, _, w2.
Qed.

Definition record_keys : list string := [DUMP_IMAGE_NAME_KEY; DUMP_SNAPSHOT_KEY; DUMP_SNAPSHOTTER_KEY; DUMP_RUNTIME_KEY].

(** The files of the plugin in [w'] are those in [w]. *)
Definition keeps_record (w w' : World) : Prop :=
  ∀ m, DumpFs w = Some m → ∃ m', DumpFs w' = Some m' ∧ Forall (λ key, m' !! key = m !! key) record_keys.

Lemma str_take_all n s : (String.length s <= n)%nat → str_take n s = s.
Proof. revert n. induction s as [|x s IH]; intros [|n] H; simpl in *; try done; [lia|]. rewrite IH //. lia. Qed.

#[local] Ltac unread := eexists; split; [reflexivity|]; split; [done|]; split; [done|]; try naive_solver.

Lemma fill_restore_defaults_Some w m :
  DumpFs w = Some m →
  ∃ w', fill_restore_defaults w = Some (Ok (), w') ∧ DumpFs w' = Some m ∧ hasCriu (req w') = hasCriu (req w) ∧
    (GetImageName (containerd_or_empty (req w)) = "" →
     dump_fault "open" DUMP_IMAGE_NAME_KEY = None → dump_fault "read" DUMP_IMAGE_NAME_KEY = None →
     ∀ image, m !! DUMP_IMAGE_NAME_KEY = Some image → image ≠ "" → (String.length image <= 256)%nat →
     GetImageName (containerd_or_empty (req w')) = image).
Proof.
  intros Hm. unfold fill_restore_defaults, on_containerd, modify, get, mbind, Go_bind, mret, Go_ret. cbn.
  destruct (decide (default "" (cImage (containerd_or_empty (req w))) = "")) as [Hi|Hi].
  - unfold read_image_name. cbn. rewrite Hm.
    destruct (dump_fault "open" DUMP_IMAGE_NAME_KEY) eqn:Ho.
    { unread. }
    destruct (m !! DUMP_IMAGE_NAME_KEY) as [data|] eqn:Hd.
    2:{ unread. }
    destruct (decide (data = "")) as [->|Hne].
    { unread. }
    destruct (dump_fault "read" DUMP_IMAGE_NAME_KEY) eqn:Hr.
    { unread. }
    unread; intros _ _ _ image [= <-] _ Hlen. cbn. by rewrite str_take_all.
  - unread.
Qed.

Lemma read_or_Some key dflt w s w' m :
  DumpFs w = Some m → read_or key dflt w = Some (s, w') →
  w' = w ∧ (dump_fault "open" key = None → dump_fault "read" key = None → ∀ data, m !! key = Some data → s = data).
Proof. unfold read_or. intros -> H. simplify_eq. split; [done|]. intros -> -> data ->. done. Qed.

Lemma cedana_runtime_Ok what runtime w binary w' :
  cedana_runtime what runtime w = Some (Ok binary, w') →
  w' = w ∧ ∃ l, Getf ("containerd/runtime-" +:+ PluginForRuntime runtime) = Some (true, binary :: l).
Proof. unfold cedana_runtime, block. intros H. inv_run. eauto. Qed.

(** What the restore asks the daemon to create. *)
Lemma plan_restore_Ok c w m plan w' :
  DumpFs w = Some m → plan_restore c w = Some (Ok plan, w') →
  w' = w ∧ hasCriu (req w) = true ∧
  ∃ runtime spec binary l,
    let image := GetImageName (containerd_or_empty (req w)) in
    pOpts plan = [WithImage image; WithNewSnapshot (pKey plan) image; WithSnapshotter (pSnapshotter plan);
                  WithNewSpec spec; WithRuntime binary] ∧
    Getf ("containerd/runtime-" +:+ PluginForRuntime runtime) = Some (true, binary :: l) ∧
    ∀ key data, dump_fault "open" key = None → dump_fault "read" key = None → m !! key = Some data →
      (key = DUMP_RUNTIME_KEY → runtime = data) ∧ (key = DUMP_SNAPSHOT_KEY → pKey plan = data) ∧
      (key = DUMP_SNAPSHOTTER_KEY → pSnapshotter plan = data).
Proof.
  intros Hm H. unfold plan_restore in H. apply Go_bind_Some in H as (d & w1 & [-> ->]%the_details_Some & H).
  apply try_Ok in H as ([] & w1 & ->%checks_same & H). apply Go_bind_Some in H as (? & ? & [= <- <-] & H).
  destruct (hasCriu (req w)); cbn [negb] in H; [|done].
  apply try_Ok in H as (cj & w1 & ->%lift_same & H). apply try_Ok in H as (gj & w1 & ->%lift_same & H).
  apply try_Ok in H as (ex & w1 & ->%lift_same & H).
  apply Go_bind_Some in H as (runtime & w1 & [-> Hr]%(read_or_Some _ _ _ _ _ m) & H); [|done].
  apply Go_bind_Some in H as (key & w1 & [-> Hk]%(read_or_Some _ _ _ _ _ m) & H); [|done].
  apply Go_bind_Some in H as (sn & w1 & [-> Hs]%(read_or_Some _ _ _ _ _ m) & H); [|done].
  apply try_Ok in H as (binary & w1 & [-> [l Hl]]%cedana_runtime_Ok & H). inv_go.
  split; [done|]. split; [done|]. eexists runtime, _, binary, l. split; [reflexivity|]. split; [done|].
  intros k data Ho Hrd Hd. repeat split; intros ->; eauto.
Qed.

(** C13: What a dump of a container records, its restore uses: if the dump of a
    container succeeds and the runtime's part of the chain leaves the plugin's
    files alone, then a restore from that dump which names no image asks the
    daemon for a container with the image, the snapshot key and the snapshotter
    of the dumped container, run by the plugin of its runtime.  (The name of
    the image is read with one call of 256 bytes.) *)
Theorem containerd_roundtrip mw next ctx w m code w' :
  chain (dump_middleware mw) next ctx w = Some (Ok code, w') →
  rAction (req w) = DUMP → DumpFs w = Some m →
  let d := dump_details w in let c := client_of d in
  (∀ ctx1 w1 r w2, chain (mw (PluginForRuntime (Runtime c))) next ctx1 w1 = Some (r, w2) →
     keeps_record w1 w2) →
  ∃ image info, ImageOf c (ID d) (daemon w) = Ok image ∧ GetInfo c (ID d) (daemon w) = Ok info ∧
    ∀ wr, DumpFs wr = DumpFs w' → GetImageName (containerd_or_empty (req wr)) = "" →
      (∀ key, dump_fault "open" key = None ∧ dump_fault "read" key = None) →
      image ≠ "" → (String.length image <= 256)%nat →
      ∃ wr', fill_restore_defaults wr = Some (Ok (), wr') ∧
        GetImageName (containerd_or_empty (req wr')) = image ∧
        ∀ c' plan wr'', plan_restore c' wr' = Some (Ok plan, wr'') →
          pKey plan = SnapshotKey info ∧ pSnapshotter plan = iSnapshotter info ∧
          ∃ spec binary l,
            pOpts plan = [WithImage image; WithNewSnapshot (SnapshotKey info) image;
                          WithSnapshotter (iSnapshotter info); WithNewSpec spec; WithRuntime binary] ∧
            Getf ("containerd/runtime-" +:+ PluginForRuntime (Runtime c)) = Some (true, binary :: l).
Proof.
  intros H Ha Hm d c Hkeep. apply (dump_records _ _ _ _ m) in H as (image & info & ctx1 & w1 & Hi & Hinfo & Hw1 & H); [|done..].
  apply Hkeep in H. destruct (H _ Hw1) as (m' & Hm' & Hk).
  exists image, info. split; [done|]. split; [done|]. intros wr Hwr Hno Hfault Hne Hlen. rewrite Hm' in Hwr.
  repeat (apply Forall_cons_1 in Hk as [? Hk]). unfold recorded in *. simplify_map_eq.
  destruct (fill_restore_defaults_Some wr m' Hwr) as (wr' & Hfill & Hd & _ & Himg).
  exists wr'. split; [done|]. assert (GetImageName (containerd_or_empty (req wr')) = image) as Hw'.
  { by apply Himg; [|apply Hfault..| | |]. }
  split; [done|]. intros c' plan wr'' (_ & _ & runtime & spec & binary & l & Ho & Hg & Hr)%(plan_restore_Ok _ _ m'); [|done].
  destruct (Hr DUMP_RUNTIME_KEY (Runtime c)) as (Hrt & _ & _); [apply Hfault..|done|].
  destruct (Hr DUMP_SNAPSHOT_KEY (SnapshotKey info)) as (_ & Hkey & _); [apply Hfault..|done|].
  destruct (Hr DUMP_SNAPSHOTTER_KEY (iSnapshotter info)) as (_ & _ & Hsn); [apply Hfault..|done|].
  rewrite (Hrt eq_refl) in Hg. rewrite (Hkey eq_refl) (Hsn eq_refl) in Ho |- *. rewrite Hw' in Ho. eauto 10.
Qed.

(** ** Containers of failed requests *)

(** A handler that leaves the plugin's part of the request alone. *)
Definition keeps_details (next : Handler) : Prop :=
  ∀ ctx w r w', next ctx w = Some (r, w') → containerd_or_empty (req w') = containerd_or_empty (req w).

Lemma keeps_SetAdditionalEnv next : keeps_details next → keeps_details (SetAdditionalEnv next).
Proof.
  intros Hn ctx w r w' H. unfold SetAdditionalEnv in H.
  apply Go_bind_Some in H as (d & w1 & [-> ->]%the_details_Some & H).
  destruct (cEnv (containerd_or_empty (req w))) as [|e env]; [by apply Hn in H|].
  apply try_Some in H as [(er & -> & H)|([c id] & w1 & (Hc & Hid & ->)%need_container_Ok & H)].
  { unfold need_container in H. by inv_run. }
  apply try_Some in H as [(er & -> & H)|(old & w1 & [Hold ->]%asks_Ok & H)].
  { unfold asks in H. by inv_run. }
  apply try_Some in H as [(er & -> & (dd & ee & _ & ->)%calls_Err)|([] & w1 & (dd & _ & ->)%calls_Ok & H)]; [done|].
  by apply Hn in H.
Qed.

Lemma plan_restore_same c w r w' : plan_restore c w = Some (r, w') → w' = w.
Proof.
  unfold plan_restore. intros (d & w1 & [-> ->]%the_details_Some & H)%Go_bind_Some.
  apply try_Some in H as [(e & -> & ->%checks_same)|([] & w1 & ->%checks_same & H)]; [done|].
  apply Go_bind_Some in H as (? & ? & [= <- <-] & H). destruct (hasCriu (req w)); cbn [negb] in H; [|done].
  do 3 (apply try_Some in H as [(e & -> & ->%lift_same)|(? & ? & ->%lift_same & H)]; [done|]).
  unfold read_or, cedana_runtime, try, block in H. by inv_run.
Qed.

Lemma restore_mounts_same mounts w r w' :
  restore_mounts mounts w = Some (r, w') → req w' = req w ∧ daemon w' = daemon w ∧ DumpFs w' = DumpFs w.
Proof. induction mounts as [|m mounts IH]; cbn [restore_mounts]; intros H; inv_run; auto. Qed.

Lemma restore_pre_mount_same c plan w r w' :
  restore_pre_mount c plan w = Some (r, w') → req w' = req w ∧ daemon w' = daemon w ∧ DumpFs w' = DumpFs w.
Proof.
  unfold restore_pre_mount. intros (? & ? & [= <- <-] & H)%Go_bind_Some.
  destruct (Mounts _ _ _ _); [by eapply restore_mounts_same|by inv_go].
Qed.

Section clean.
Context `{!DaemonOk DM}.

(** The request created no container, or the clean-up of its container was the
    last thing that happened and left none if it succeeded. *)
Definition cleaned (w w' : World) : Prop :=
  let d := containerd_or_empty (req w') in let c := client_of d in
  (∀ id, container c id (daemon w') = container c id (daemon w)) ∨
  (∃ w1 err, Cleanup w1 = Some (err, w') ∧ req w1 = req w' ∧ (err = None → container c (ID d) (daemon w') = None)).

Lemma Cleanup_Some w err w' :
  Cleanup w = Some (err, w') →
  let d := containerd_or_empty (req w) in
  req w' = req w ∧ (err = None → container (client_of d) (ID d) (daemon w') = None).
Proof.
  unfold Cleanup. intros (d & w1 & [-> ->]%the_details_Some & H)%Go_bind_Some.
  destruct (New _ _); [by inv_run|]. apply Go_bind_Some in H as (? & ? & [= <- <-] & H).
  destruct (LoadContainer _ _ _); [by inv_run|].
  destruct (DeleteContainer _ _ _) as [er st] eqn:Hd. apply Go_bind_Some in H as ([] & ? & [= <-] & H). inv_go.
  split; [done|]. intros ->. by eapply DeleteContainer_Ok in Hd.
Qed.

Lemma CreateContainerForRestore_cleans next ctx w e w' :
  keeps_details next → ctx_client ctx = Some (client_of (containerd_or_empty (req w))) →
  CreateContainerForRestore next ctx w = Some (Err e, w') → cleaned w w'.
Proof.
  intros Hn Hc. unfold CreateContainerForRestore. intros (d & w1 & [-> ->]%the_details_Some & H)%Go_bind_Some.
  apply try_Some in H as [(er & _ & [-> _]%need_client_Some)|(c & w1 & [-> Hc']%need_client_Some & H)]; [by left|].
  specialize (Hc' _ eq_refl). rewrite Hc in Hc'. injection Hc' as <-.
  apply try_Some in H as [(er & _ & ->%plan_restore_same)|(plan & w1 & ->%plan_restore_same & H)]; [by left|].
  apply try_Some in H as [(er & _ & (st & er' & Hnew & ->)%calls_Err)|([] & w1 & (st & Hnew & ->)%calls_Ok & H)].
  { left. intros id. cbn. by eapply NewContainer_Err. }
  unfold cleaning_up in H. apply Go_bind_Some in H as (r & w1 & Hrun & H).
  assert (containerd_or_empty (req w1) = containerd_or_empty (req w)) as Hreq.
  { apply try_Some in Hrun as [(er & -> & Hp)|(b & w2 & Hp & Hrun)]; apply restore_pre_mount_same in Hp as (Hp & _ & _).
    - by rewrite Hp.
    - apply Hn in Hrun. by rewrite Hrun Hp. }
  destruct r as [code|er]; [by inv_go|]. apply Go_bind_Some in H as (err & w2 & Hcl & H). inv_go.
  destruct (Cleanup_Some _ _ _ Hcl) as [Hw' Hgone]. right. exists w1, err. rewrite Hw'. auto.
Qed.

(** C17: A restore that fails leaves no container behind: either none was created,
    or the last thing that happened is the clean-up of the container which the
    request names, and it is gone if that succeeded. *)
Theorem failed_restore_cleans_up next ctx w e w' :
  keeps_details next → is_Some (DumpFs w) →
  chain restore_middleware next ctx w = Some (Err e, w') → cleaned w w'.
Proof.
  intros Hn [m Hm] H. cbn [chain restore_middleware foldr] in H.
  destruct (fill_restore_defaults_Some w m Hm) as (w1 & Hf & _).
  assert (daemon w1 = daemon w) as Hd.
  { clear H. unfold fill_restore_defaults, read_image_name, on_containerd in Hf. by inv_run. }
  unfold FillMissingRestoreDefaults, before in H. rewrite (try_step _ _ _ _ _ Hf) in H.
  unfold cleaned. rewrite -Hd. change (cleaned w1 w').
  apply validating_Some in H as [(er & _ & ->)|H]; [by left|].
  unfold Setup in H. apply Go_bind_Some in H as (d & w2 & [-> ->]%the_details_Some & H).
  destruct (New _ _); [inv_run; by left|]. eapply CreateContainerForRestore_cleans in H; [done| |done].
  by apply keeps_SetAdditionalEnv.
Qed.

(** A run that fails after its container has been created leaves it behind:
    the deferred clean-up looks at a variable which is nil by then, here when
    the task of the container cannot be created. *)
Theorem failed_run_leaves_container rounds ctx w opts st e st' :
  let d := containerd_or_empty (req w) in let c := client_of d in
  rAction (req w) = START_NEW → ctx_client ctx = Some c →
  plan_run c w = Some (Ok opts, w) → NewContainer c (ID d) opts (daemon w) = (None, st) →
  NewTask c (ID d) (NoPivot d) st = (Some e, st') → container c (ID d) st' = container c (ID d) st →
  CreateContainer rounds Run ctx w =
    Some (Err (Status Internal ("failed to create new task: " +:+ Error e)), set_daemon st' w) ∧
  container c (ID d) (daemon w) = None ∧ is_Some (container c (ID d) st').
Proof.
  intros d c Ha Hc Hplan Hnew Htask Hkeep. destruct (NewContainer_Ok _ _ _ _ _ Hnew) as [Hno Hyes].
  split; [|by rewrite Hkeep].
  unfold CreateContainer, the_details, get, need_client, calls, Run, cleaning_up_if, need_container, put.
  rewrite /mbind /Go_bind /= Hc Ha /try /mbind /Go_bind /= Hplan /= Hnew /=.
  unfold need_client, calls, get, put. rewrite /mbind /Go_bind /= Hc /=. fold d. by rewrite Htask.
Qed.

(** The snapshotter that a dump names has no effect when the snapshot of the
    restored container is prepared, since the option comes after the one that
    prepares it; if it is not the default one and has no such snapshot yet, its
    mounts are not found and the writable layer is not restored before the
    overlay is mounted. *)
Theorem snapshotter_without_effect c w m plan st :
  let d := containerd_or_empty (req w) in
  DumpFs w = Some m → plan_restore c w = Some (Ok plan, w) →
  NewContainer c (ID d) (pOpts plan) (daemon w) = (None, st) →
  pSnapshotter plan ≠ DefaultSnapshotter →
  snapshot c (pSnapshotter plan) (pKey plan) (daemon w) = false →
  snapshot c DefaultSnapshotter (pKey plan) st = true ∧
  restore_pre_mount c plan (set_daemon st w) = Some (Ok false, set_daemon st w).
Proof.
  intros d Hm (_ & _ & rt & spec & binary & l & Hopts & _)%(plan_restore_Ok _ _ m) Hnew Hs Hold; [|done].
  rewrite Hopts in Hnew.
  assert (Hsn : ∀ s k, snapshot c s k st = bool_decide (s = DefaultSnapshotter ∧ k = pKey plan) || snapshot c s k (daemon w)).
  { intros s k. eapply (NewContainer_snapshot _ _ [WithImage _]) in Hnew; [exact Hnew|]. by repeat constructor. }
  split; [rewrite Hsn bool_decide_true //|].
  unfold restore_pre_mount, get, mbind, Go_bind. cbn.
  destruct (Mounts _ _ _ st) as [mounts|] eqn:Hmnt; [|done].
  apply Mounts_Ok in Hmnt. rewrite Hsn Hold bool_decide_false in Hmnt; [naive_solver|done].
Qed.
End clean.

(** ** The writable layer before the mount *)

Lemma WriteMarker_restored u fs fs' : WriteMarker u fs = Ok fs' → AlreadyRestored u fs' = true.
Proof.
  unfold WriteMarker, AlreadyRestored, create. intros H. apply bool_decide_eq_true. split_matches; [by eexists..|].
  rewrite lookup_insert_eq. by eexists.
Qed.

(** Once the layer is in place before the mount, restoring it again changes
    nothing: the marker stands beside the upper directory of the first overlay
    of the snapshot, and the second run stops there. *)
Theorem pre_mount_restore_idempotent c plan w w' :
  restore_pre_mount c plan w = Some (Ok true, w') → restore_pre_mount c plan w' = Some (Ok true, w').
Proof.
  intros H. destruct (restore_pre_mount_same _ _ _ _ _ H) as (_ & Hd & _). revert H. unfold restore_pre_mount.
  rewrite /mbind /Go_bind /= Hd. destruct (Mounts _ _ _ (daemon w)) as [mounts|]; [|done]. clear Hd.
  induction mounts as [|m mounts IH]; cbn [restore_mounts]; [done|]. case_decide; [done|].
  destruct (UpperDirFromMountOptions _) as [upper|]; [|done].
  destruct (AlreadyRestored _ (host w)) eqn:Hr; [intros [= <-]; by rewrite Hr|].
  destruct (DumpFs w) as [dump|]; [|done]. destruct (RestoreToUpperDir _ _ _) as [[[e|] fs]|]; [done| |done].
  destruct (WriteMarker _ fs) as [fs'|] eqn:Hw; [|done]. intros [= <-]. apply WriteMarker_restored in Hw. cbn. by rewrite Hw.
Qed.

(** ** Queries *)

Lemma query_one_cases c r x :
  (∃ msgs, query_one c r x = add_messages msgs r) ∨
  (∃ msgs id image rc s, x.2 = Ok (id, image) ∧
     query_one c r x = add_found (mkFound id image (client_address c) (client_namespace c) rc) s (add_messages msgs r)).
Proof.
  assert (∀ r, r = add_messages [] r) as Hnil by (intros []; unfold add_messages; by rewrite app_nil_r).
  unfold query_one. destruct (x.2) as [[id image]|e]; [|left; eauto].
  destruct (available _ _); [left; eexists; apply Hnil|]. case_decide.
  - destruct (query_runc _ _) as [[[msgs [|rc rcs]] states]|e]; [left; eauto|right|left; eauto]. by eexists msgs, id, image, _, _.
  - right. eexists [], id, image, None, None. split; [done|]. by rewrite -Hnil.
Qed.

Definition listed_id (x : string * gores (string * string)) : option string :=
  match x.2 with Ok (id, _) => Some id | Err _ => None end.

Lemma query_loop c l r :
  length (FoundContainers r) = length (States r) →
  let r' := foldl (query_one c) r l in
  length (FoundContainers r') = length (States r') ∧
  ∃ ids, fID <$> FoundContainers r' = (fID <$> FoundContainers r) ++ ids ∧ ids `sublist_of` omap listed_id l.
Proof.
  revert r. induction l as [|x l IH]; intros r Hr; cbn [foldl].
  { split; [done|]. exists []. by rewrite app_nil_r. }
  assert (omap listed_id (x :: l) = match listed_id x with Some id => id :: omap listed_id l | None => omap listed_id l end)
    as Ho by done.
  destruct (query_one_cases c r x) as [[msgs Hq]|(msgs & id & image & rc & s & Hx & Hq)]; rewrite Hq.
  - destruct (IH (add_messages msgs r) Hr) as (Hlen & ids & Hids & Hsub). split; [done|]. exists ids. split; [done|].
    rewrite Ho. destruct (listed_id x); [by apply sublist_cons|done].
  - destruct (IH (add_found (mkFound id image (client_address c) (client_namespace c) rc) s (add_messages msgs r)))
      as (Hlen & ids & Hids & Hsub).
    { simpl. rewrite !length_app. simpl. lia. }
    split; [done|]. exists (id :: ids). rewrite Hids Ho /listed_id Hx. simpl. rewrite fmap_app -app_assoc.
    split; [done|]. by apply sublist_skip.
Qed.

(** The answer to a query pairs every container with one state, and its
    containers are among those the daemon lists, in its order. *)
Theorem Query_pairs_states q d r :
  Query (Some q) d = Ok r →
  length (FoundContainers r) = length (States r) ∧
  ∃ c l, Containers c ((λ id, "id==" +:+ id) <$> IDs q) d = Ok l ∧
    (fID <$> FoundContainers r) `sublist_of` omap listed_id l.
Proof.
  unfold Query. intros H. split_matches.
  match goal with H : Containers ?c _ _ = Ok ?l |- _ =>
    destruct (query_loop c l (mkResp [] [] []) eq_refl) as (Hlen & ids & Hids & Hsub) end.
  split; [done|]. eexists _, _. split; [done|]. by rewrite Hids.
Qed.
End plugin.

(** ** A daemon with containers and snapshots, and the properties at work *)

Module Sample.

Record Store := mkStore { ctrs : gmap string Info; snaps : gset (string * string) }.

(** The snapshots that a list of options prepares, applied in order. *)
Fixpoint prepared (sn : string) (opts : list NewContainerOpt) : list (string * string) :=
  match opts with
  | [] => []
  | WithSnapshotter s :: opts => prepared s opts
  | WithNewSnapshot k _ :: opts => (sn, k) :: prepared sn opts
  | _ :: opts => prepared sn opts
  end.

Definition info_of (opts : list NewContainerOpt) : Info :=
  foldl (λ i o, match o with
                | WithImage s => mkInfo s (SnapshotKey i) (iSnapshotter i) (iRuntime i)
                | WithNewSnapshot k _ => mkInfo (iImage i) k (iSnapshotter i) (iRuntime i)
                | WithSnapshotter s => mkInfo (iImage i) (SnapshotKey i) s (iRuntime i)
                | WithRuntime r => mkInfo (iImage i) (SnapshotKey i) (iSnapshotter i) r
                | WithNewSpec _ => i
                end) (mkInfo "" "" DefaultSnapshotter "") opts.

Definition not_found : error := Errorf "not found".
Definition Find (id : string) (d : Store) : gores Info :=
  match ctrs d !! id with Some i => Ok i | None => Err not_found end.

(** Tasks are never created; [fails] makes the image unavailable. *)
#[local] Instance sample (fails : bool) : Daemon := {|
  D := Store;
  New _ _ := None;
  Runtime _ := "io.containerd.runc.v2";
  GetImage _ _ _ := if fails then Some not_found else None;
  NewContainer _ id opts d :=
    match ctrs d !! id with
    | Some _ => (Some (Errorf "already exists"), d)
    | None => (None, mkStore (<[id := info_of opts]> (ctrs d)) (list_to_set (prepared DefaultSnapshotter opts) ∪ snaps d))
    end;
  LoadContainer _ id d := err_of (Find id d);
  GetInfo _ id d := Find id d;
  ImageOf _ id d := match Find id d with Ok i => Ok (iImage i) | Err e => Err e end;
  SpecEnv _ _ _ := Ok [];
  UpdateSpecEnv _ _ _ d := (None, d);
  NewTask _ _ _ d := (Some (Errorf "no shim"), d);
  StartTask _ _ d := (Err not_found, d);
  TaskPid _ _ _ := Err not_found;
  DeleteTask _ _ d := d;
  DeleteContainer _ id d := (None, mkStore (delete id (ctrs d)) (snaps d));
  Mounts _ s k d :=
    if decide ((s, k) ∈ snaps d) then Ok [mkMount "bind" []; mkMount "overlay" ["rw"; "upperdir=/up/fs"]] else Err not_found;
  Containers _ _ d := Ok ((λ x, (x.1, Ok (x.1, iImage x.2))) <$> map_to_list (ctrs d));
  RuncContainer := string;
  ProcessState := string;
  query_runc id root := Ok ([], [id], ["running"]);
  Getf name := if decide (name = "containerd/runtime-runc") then Some (true, ["/bin/shim"]) else None;
  available _ _ := None;
  dump_fault _ _ := None;
  DEFAULT_ADDRESS := "/run/containerd/containerd.sock";
  config_json := Ok "{}";
  criu_json := Ok "{}";
  executable := Ok "/bin/cedana";
|}.

Lemma last_cons {A} (l : list A) x d : last l x = last (x :: l) d.
Proof. revert x. induction l as [|y l IH]; intros x; [done|]. cbn [last] in *. destruct l; [done|apply (IH x)]. Qed.

Lemma prepared_one sn pre key image post :
  Forall (λ o, match o with WithNewSnapshot _ _ => False | _ => True end) (pre ++ post) →
  prepared sn (pre ++ WithNewSnapshot key image :: post) =
    [(last (omap (λ o, match o with WithSnapshotter s => Some s | _ => None end) pre) sn, key)].
Proof.
  intros [Hpre Hpost]%Forall_app.
  assert (∀ s, prepared s post = []) as Hnil by (induction Hpost as [|o post Ho _ IH]; [done|]; intros s; by destruct o; simpl).
  revert sn. induction Hpre as [|o pre Ho _ IH]; intros sn; simpl; [by rewrite Hnil|].
  destruct o; simpl; rewrite ?IH; try done. f_equal. f_equal.
  apply last_cons.
Qed.

#[local] Instance sample_ok fails : DaemonOk (sample fails).
Proof.
  refine {| container := (λ _ id (d : @D (sample fails)), ctrs d !! id);
            snapshot := (λ _ s k (d : @D (sample fails)), bool_decide ((s, k) ∈ snaps d)) |}.
  - intros c id opts d d'. simpl. destruct (ctrs d !! id) eqn:Hi; [done|]. intros [= <-]. simpl. by rewrite lookup_insert_eq.
  - intros c id opts d d' e. simpl. destruct (ctrs d !! id) eqn:Hi; [|done]. by intros [= <- <-].
  - intros c id pre key image post d d'. simpl. destruct (ctrs d !! id); [done|]. intros [= <-] Hf s k. cbn [snaps].
    rewrite prepared_one //. unfold named_snapshotter. 
    destruct (decide (s = last (omap (λ o, match o with WithSnapshotter s => Some s | _ => None end) pre) DefaultSnapshotter ∧ k = key))
      as [[-> ->]|Hne].
    + rewrite (bool_decide_true (_ ∧ _)) // bool_decide_true //. set_solver.
    + rewrite (bool_decide_false _ Hne) /=. apply bool_decide_ext. set_solver.
  - intros c s k d m. simpl. case_decide; [by rewrite bool_decide_true|done].
  - intros c id d d'. simpl. intros [= <-]. simpl. by rewrite lookup_delete_eq.
Defined.

#[local] Existing Instance Overlay.Instance_.env.

Definition web : Info := mkInfo "docker.io/library/web:1" "web-key" "zfs" "io.containerd.runc.v2".
Definition up_root : FS := {[ ["up"] := mkInode KDir 493 0 0 ∅ 0; ["up"; "fs"] := mkInode KDir 493 0 0 ∅ 0 ]}.
Definition the_request (a : Action) (image : option string) : Req :=
  mkReq a "" "/dump" true (Some (mkDetails "" (Some (mkContainerd "" "" "web" image "" [] [] [] false false false)) None)).
Definition no_ctx : Ctx := mkCtx None None None.
Definition done_ {DM : Daemon} : Handler := λ _ w, Some (Ok NoCode, w).
Definition failing {DM : Daemon} : Handler := λ _ w, Some (Err not_found, w).
Abbreviation daemon0 := (sample false).

Definition dump0 : @World daemon0 := mkWorld (DM := daemon0) (the_request DUMP None) 0 (mkStore {["web" := web]} ∅) (Some ∅) up_root.
Definition dumped : @World daemon0 :=
  match chain (dump_middleware (λ _, [])) done_ no_ctx dump0 with Some (_, w) => w | None => dump0 end.
Definition restore0 : @World daemon0 := mkWorld (DM := daemon0) (the_request START_NEW None) 0 (mkStore ∅ ∅) (DumpFs dumped) up_root.
Definition restore1 : @World daemon0 :=
  match fill_restore_defaults restore0 with Some (_, w) => w | None => restore0 end.
Definition client0 : Client := mkClient "/run/containerd/containerd.sock" "default".
Definition plan0 : Plan :=
  mkPlan [WithImage (iImage web); WithNewSnapshot "web-key" (iImage web); WithSnapshotter "zfs";
          WithNewSpec (base_spec (iImage web) ++
            [WithEnv ["CEDANA_CONFIG={}"; "CEDANA_CHECKPOINT_PATH=/dump"; "CEDANA_CRIU_OPTS={}";
                      "CEDANA_EXECUTABLE_PATH=/bin/cedana"]]);
          WithRuntime "/bin/shim"] "web-key" "zfs".

Lemma containerd_roundtrip_witness :
  plan_restore client0 restore1 = Some (Ok plan0, restore1) ∧
  pKey plan0 = "web-key" ∧ pSnapshotter plan0 = "zfs" ∧
  ∃ l, @Getf daemon0 "containerd/runtime-runc" = Some (true, "/bin/shim" :: l).
Proof.
  split; [reflexivity|].
  destruct (containerd_roundtrip (DM := daemon0) (λ _, []) done_ no_ctx dump0 ∅ NoCode dumped)
    as (image & info & Hi & Hinfo & Hr); [reflexivity|reflexivity|reflexivity| |].
  { intros ctx1 w1 r w2. cbn. intros [= <- <-] m Hm. exists m. split; [done|]. by repeat constructor. }
  change (Ok (iImage web) = Ok image) in Hi. change (Ok web = Ok info) in Hinfo. simplify_eq.
  destruct (Hr restore0) as (wr' & Hf & _ & Hp); [reflexivity|reflexivity|done|done|vm_compute; lia|].
  change (Some (Ok (), restore1) = Some (Ok (), wr')) in Hf. simplify_eq.
  destruct (Hp client0 plan0 restore1 eq_refl) as (Hk & Hs & spec & binary & l & Ho & Hg).
  split; [exact Hk|]. split; [exact Hs|]. injection Ho as _ <-. by exists l.
Defined.
Definition lonely (n : nat) : list (@Round daemon0) := replicate n (mkRound (DM := daemon0) None None (mkStore ∅ ∅)).

Lemma upcoming_never_times_out_witness :
  wait_upcoming client0 "web" (lonely 1000) restore0 = None.
Proof.
  apply (upcoming_never_times_out (DM := daemon0) client0 "web" (lonely 1000) restore0).
  apply Forall_replicate. split; [done|]. split; [done|]. by eexists.
Defined.

(** The error and the world a handler ends with, given what to return otherwise. *)
Definition error_of {A B} (m : option (gores A * B)) : error :=
  match m with Some (Err e, _) => e | _ => not_found end.
Definition ends_in {A B} (b : B) (m : option (gores A * B)) : B := match m with Some (_, b) => b | None => b end.
Definition fails_ {A B} (m : option (gores A * B)) : bool := match m with Some (Err _, _) => true | _ => false end.

Lemma fails_Some {A B} (b : B) (m : option (gores A * B)) : fails_ m = true → m = Some (Err (error_of m), ends_in b m).
Proof. by destruct m as [[[|]?]|]. Qed.

(** A restore whose task cannot be created. *)
Definition restore_run : option (gores Code * @World daemon0) := chain restore_middleware Run no_ctx restore0.
Definition failed_restore : @World daemon0 := ends_in restore0 restore_run.

Lemma Run_keeps_details : keeps_details (DM := daemon0) Run.
Proof.
  intros ctx w r w'. unfold Run. intros (d & w1 & [-> ->]%the_details_Some & H)%Go_bind_Some.
  apply try_Some in H as [(e & _ & [-> _]%need_client_Some)|(c & w1 & [-> _]%need_client_Some & H)]; [done|].
  apply try_Some in H as [(e & _ & H)|([c' id] & w1 & (_ & _ & ->)%need_container_Ok & H)].
  { unfold need_container, fail in H. split_matches; by inv_go. }
  apply try_Some in H as [(e & _ & (st & e' & _ & ->)%calls_Err)|([] & w1 & (st & Hn & ->)%calls_Ok & H)]; done.
Qed.

Lemma failed_restore_cleans_up_witness :
  error_of restore_run = Status Internal "failed to create new task: no shim" ∧
  cleaned (DaemonOk0 := sample_ok false) restore0 failed_restore ∧ bool_decide (ctrs (daemon failed_restore) = ∅) = true.
Proof.
  split; [vm_compute; reflexivity|]. split; [|vm_compute; reflexivity].
  refine (failed_restore_cleans_up (DM := daemon0) Run no_ctx restore0 (error_of restore_run) failed_restore Run_keeps_details _ _).
  - by eexists.
  - apply (fails_Some restore0 restore_run). vm_compute. reflexivity.
Defined.

Definition run0 : @World daemon0 :=
  mkWorld (DM := daemon0)
    (mkReq START_NEW "" "" false (Some (mkDetails "" (Some (mkContainerd (client_address client0) "default" "web"
       (Some (iImage web)) "overlayfs" [] [] [] false false false)) None))) 0 (mkStore ∅ ∅) None up_root.
Definition run_opts : list NewContainerOpt :=
  [WithImage (iImage web); WithNewSnapshot "web" (iImage web); WithSnapshotter "overlayfs";
   WithNewSpec (base_spec (iImage web) ++ [WithEnv ["CEDANA_CONFIG={}"; "CEDANA_EXECUTABLE_PATH=/bin/cedana"]]);
   WithRuntime "/bin/shim"].
Definition run_store : Store := mkStore {["web" := info_of run_opts]} {[("overlayfs", "web")]}.

Lemma failed_run_leaves_container_witness :
  CreateContainer [] Run (mkCtx (Some client0) None None) run0 =
    Some (Err (Status Internal "failed to create new task: no shim"), set_daemon (DM := daemon0) run_store run0) ∧
  is_Some (ctrs run_store !! "web").
Proof.
  destruct (failed_run_leaves_container (DM := daemon0) [] (mkCtx (Some client0) None None) run0 run_opts run_store
    (Errorf "no shim") run_store) as (H & _ & Hc); [reflexivity..|]. split; [exact H|exact Hc].
Defined.

Lemma snapshotter_without_effect_witness :
  let st := mkStore {["web" := info_of (pOpts plan0)]} {[("overlayfs", "web-key")]} in
  restore_pre_mount client0 plan0 (set_daemon (DM := daemon0) st restore1) =
    Some (Ok false, set_daemon (DM := daemon0) st restore1).
Proof.
  intros st. refine (proj2 (snapshotter_without_effect (DM := daemon0) client0 restore1 (default ∅ (DumpFs restore1)) plan0 st _ _ _ _ _));
    [reflexivity|reflexivity|reflexivity|done|reflexivity].
Defined.

(** The default snapshotter, whose snapshot has an overlay. *)
Definition plan1 : Plan := mkPlan (pOpts plan0) "web-key" "overlayfs".
Definition prepared0 : @World daemon0 := set_daemon (DM := daemon0) (mkStore ∅ {[("overlayfs", "web-key")]}) restore1.
Definition prepared1 : @World daemon0 :=
  match restore_pre_mount client0 plan1 prepared0 with Some (_, w) => w | None => prepared0 end.

Lemma pre_mount_restore_idempotent_witness :
  AlreadyRestored ["up"; "fs"] (host prepared0) = false ∧ AlreadyRestored ["up"; "fs"] (host prepared1) = true ∧
  restore_pre_mount client0 plan1 prepared1 = Some (Ok true, prepared1).
Proof.
  split; [reflexivity|]. split; [reflexivity|].
  apply (pre_mount_restore_idempotent client0 plan1 prepared0 prepared1). reflexivity.
Defined.

Definition answer0 : @QueryResp daemon0 :=
  mkResp (DM := daemon0) [] [mkFound (DM := daemon0) "web" (iImage web) (client_address client0) "default" (Some "web")] [Some "running"].

Lemma Query_pairs_states_witness :
  length (FoundContainers answer0) = length (States answer0) ∧
  ∃ c l, @Containers daemon0 c ((λ id, "id==" +:+ id) <$> ["web"]) (daemon dump0) = Ok l ∧
    (fID <$> FoundContainers answer0) `sublist_of` omap listed_id l.
Proof. apply (Query_pairs_states (DM := daemon0) (mkQuery "" "" ["web"]) (daemon dump0) answer0). reflexivity. Defined.
End Sample.

End Containerd.
