(* ===== verification/Rootfs.v ===== *)
(** * Dumping the root file system of a container (plugins/containerd/internal/filesystem)

    [DumpRootfs] commits the writable layer of a container as a new image and
    pushes it: the layer is exported and applied to the snapshotter, and a
    configuration and a manifest that extend those of the base image are written
    to the content store ([dumpRootfs], image.go).  containerd is a third party:
    its services are the class [Services], what they are documented to do is
    [ServicesOk].  JSON and digests are parameters with their laws.  The adapter
    is written but used by no chain of the plugin.  [None] is a panic or a call
    that never returns.

    A dump that succeeds has committed an image with the layers of the base image
    and the new one, and the configuration to match ([committed_image]).  A failure
    to push is not reported ([push_failure_not_reported]); for most references to
    other registries the credentials of Docker Hub are used
    ([hub_credentials_elsewhere]).  When CRIU fails before it notifies of the
    dump, the finalizer waits for a result that nobody sends
    ([early_failure_hangs]). *)

From Stdlib Require Import Ascii.
From S2P Require Import Prelude GoLib Criu Swrk.

Module Rootfs.
Import GoLib Criu.
#[local] Arguments String.append : simpl never.

(** ** Images *)

Abbreviation Digest := string.
Definition EMPTY_GZ_LAYER : Digest := "sha256:4f4fb700ef54461cfa02571ae0db9a0dc1e0cdb5577484a6d75e68dc38e8acc1".
Definition MediaTypeDockerSchema2LayerGzip : string := "application/vnd.docker.image.rootfs.diff.tar.gzip".
Definition MediaTypeDockerSchema2Config : string := "application/vnd.docker.container.image.v1+json".
Definition MediaTypeDockerSchema2Manifest : string := "application/vnd.docker.distribution.manifest.v2+json".

(** The descriptors and documents of the OCI image format, as far as they are
    used; what is only copied is [iConfig]. *)
Record Descriptor := mkDesc { MediaType : string; DigestOf : Digest; Size : Z }.
#[export] Instance Descriptor_eq_dec : EqDecision Descriptor.
Proof. solve_decision. Defined.

Record History := mkHistory { hCreated : Z; CreatedBy : string; hAuthor : string; EmptyLayer : bool }.
Record Image := mkImage {
  Architecture : string; OS : string; Created : Z; Author : string; iConfig : string;
  DiffIDs : list Digest; Histories : list History;
}.
Record Manifest := mkManifest { mMediaType : string; mConfig : Descriptor; Layers : list Descriptor }.

(** [client.ContainerInfo] *)
Record Info := mkInfo { iImage : string; iSnapshotter : string; SnapshotKey : string }.

(** The services of containerd on its state [S]; snapshots are those of a
    snapshotter. *)
Class Services := {
  S : Type;
  Blob : Type;                (** bytes *)
  len : Blob → Z;
  GetInfo : S → gores Info;
  SpecArgs : S → gores (option (list string));
  GetImage : S → string → gores Descriptor;
  UpdateImage : string → Descriptor → S → option error * S;
  CreateImage : string → Descriptor → S → option error * S;
  ImageConfig : S → Descriptor → gores Descriptor;
  ReadBlob : S → Descriptor → gores Blob;
  WriteBlob : Digest → Blob → Descriptor → list (string * string) → S → option error * S;
  (** the size of a blob and its labels *)
  ContentInfo : S → Digest → gores (Z * gmap string string);
  CreateDiff : string → string → S → gores Descriptor * S;
  (** the snapshots that can be used by their name *)
  Committed : S → string → string → bool;
  Prepare : string → string → Digest → S → gores string * S;
  Apply : Descriptor → string → S → option error * S;
  Commit : string → string → string → S → option error * S;
  Remove : string → string → S → option error * S;
  Push : string → Descriptor → string → string → S → option error * S;
  PauseTask : S → option error * S;
  ResumeTask : S → option error * S;
  LoadTask : S → option error;
  (** the libraries *)
  ParseDigest : string → gores Digest;
  FromBytes : Blob → Digest;
  ChainID : list Digest → Digest;
  IsManifestType : string → bool;
  IsIndexType : string → bool;
  marshal_config : Image → Blob;
  unmarshal_config : Blob → gores Image;
  marshal_manifest : Manifest → Blob;
  unmarshal_manifest : Blob → gores Manifest;
  unmarshal_index : Blob → gores (list Descriptor);
  IsNotFound : error → bool;
  IsAlreadyExists : error → bool;
  (** the host *)
  platform : gores string;
  GOARCH : string;
  GOOS : string;
  Now : S → Z;
  uniquePart : S → string;
  docker_config : gores (gmap string string);
  base64_decode : string → gores string;
}.

(** What the libraries promise: the content store keeps what is written under
    its digest, images read back, a snapshot is there once it is committed, and
    an operation on one of them leaves the others as they are.  Digests are taken to
    have no collisions. *)
Class ServicesOk `{Services} := {
  FromBytes_inj : Inj (=) (=) FromBytes;
  config_json m : unmarshal_config (marshal_config m) = Ok m;
  manifest_json m : unmarshal_manifest (marshal_manifest m) = Ok m;
  manifest_type : IsManifestType MediaTypeDockerSchema2Manifest = true;
  ImageConfig_manifest s d b m :
    IsManifestType (MediaType d) = true → ReadBlob s d = Ok b → unmarshal_manifest b = Ok m → ImageConfig s d = Ok (mConfig m);
  ReadBlob_digest s d d' : DigestOf d = DigestOf d' → ReadBlob s d = ReadBlob s d';
  WriteBlob_read g b d l s s' x : WriteBlob g b d l s = (None, s') →
    ReadBlob s' x = if decide (DigestOf x = g) then Ok b else ReadBlob s x;
  WriteBlob_committed g b d l s s' sn n : (WriteBlob g b d l s).2 = s' → Committed s' sn n = Committed s sn n;
  Update_get n d s s' x : UpdateImage n d s = (None, s') → GetImage s' x = if decide (x = n) then Ok d else GetImage s x;
  Create_get n d s s' x : CreateImage n d s = (None, s') → GetImage s' x = if decide (x = n) then Ok d else GetImage s x;
  Update_rest n d s s' : (UpdateImage n d s).2 = s' →
    (∀ x, ReadBlob s' x = ReadBlob s x) ∧ (∀ sn x, Committed s' sn x = Committed s sn x);
  Create_rest n d s s' : (CreateImage n d s).2 = s' →
    (∀ x, ReadBlob s' x = ReadBlob s x) ∧ (∀ sn x, Committed s' sn x = Committed s sn x);
  Push_rest n d u p s s' : (Push n d u p s).2 = s' →
    (∀ x, GetImage s' x = GetImage s x) ∧ (∀ x, ReadBlob s' x = ReadBlob s x) ∧ (∀ sn x, Committed s' sn x = Committed s sn x);
  CreateDiff_keeps id sn s d b : ReadBlob s d = Ok b → ReadBlob (CreateDiff id sn s).2 d = Ok b;
  Prepare_keeps sn k p s d b : ReadBlob s d = Ok b → ReadBlob (Prepare sn k p s).2 d = Ok b;
  Apply_keeps l m s d b : ReadBlob s d = Ok b → ReadBlob (Apply l m s).2 d = Ok b;
  Commit_keeps sn n k s d b : ReadBlob s d = Ok b → ReadBlob (Commit sn n k s).2 d = Ok b;
  Commit_commits sn n k s s' e : Commit sn n k s = (e, s') →
    (e = None ∨ ∃ e', e = Some e' ∧ IsAlreadyExists e' = true) → Committed s' sn n = true;
}.

Section rootfs.
Context `{SV : Services}.

(** ** image.go *)

Definition readImageConfig (img : Descriptor) (s : S) : gores Image :=
  match ImageConfig s img with
  | Err e => Err e
  | Ok configDesc =>
      match ReadBlob s configDesc with
      | Err e => Err e
      | Ok p => unmarshal_config p
      end
  end.

Definition createDiff (id sn : string) (s : S) : gores (Descriptor * Digest) * S :=
  match CreateDiff id sn s with
  | (Err e, s) => (Err e, s)
  | (Ok newDesc, s) =>
      match ContentInfo s (DigestOf newDesc) with
      | Err e => (Err e, s)
      | Ok (size, labels) =>
          match labels !! "containerd.io/uncompressed" with
          | None => (Err (Errorf "invalid differ response with no diffID"), s)
          | Some diffIDStr =>
              match ParseDigest diffIDStr with
              | Err e => (Err e, s)
              | Ok diffID => (Ok (mkDesc MediaTypeDockerSchema2LayerGzip (DigestOf newDesc) size, diffID), s)
              end
          end
      end
  end.

Definition or_default (s dflt : string) : string := if decide (s = "") then dflt else s.

Definition generateCommitImageConfig (imgConfig : Image) (diffID : Digest) (s : S) : gores Image :=
  match SpecArgs s with
  | Err e => Err e
  | Ok args =>
      let createdBy := match args with Some args => StrJoin args " " | None => "" end in
      Ok (mkImage (or_default (Architecture imgConfig) GOARCH) (or_default (OS imgConfig) GOOS) (Now s) "cedana"
            (iConfig imgConfig) (DiffIDs imgConfig ++ [diffID])
            (Histories imgConfig ++ [mkHistory (Now s) createdBy "cedana" (bool_decide (diffID = EMPTY_GZ_LAYER))]))
  end.

(** The snapshot that was prepared is removed when this fails; that removing it
    fails is only logged. *)
Definition applyDiffLayer (name : string) (baseImg : Image) (sn : string) (diffDesc : Descriptor) (s : S) : option error * S :=
  let key := uniquePart s +:+ "-" +:+ name in
  match Prepare sn key (ChainID (DiffIDs baseImg)) s with
  | (Err e, s) => (Some e, s)
  | (Ok mount, s) =>
      match Apply diffDesc mount s with
      | (Some e, s) => (Some e, (Remove sn key s).2)
      | (None, s) =>
          match Commit sn name key s with
          | (Some e, s) => if IsAlreadyExists e then (None, s) else (Some e, (Remove sn key s).2)
          | (None, s) => (None, s)
          end
      end
  end.

(** The manifests of an index: the first one that can be read and has the
    configuration of the image's platform. *)
Fixpoint find_manifest (configDesc : Descriptor) (l : list Descriptor) (s : S) : gores (option Manifest) :=
  match l with
  | [] => Ok None
  | d :: l =>
      match ReadBlob s d with
      | Err _ => find_manifest configDesc l s
      | Ok b =>
          match unmarshal_manifest b with
          | Err e => Err e
          | Ok mani => if decide (configDesc = mConfig mani) then Ok (Some mani) else find_manifest configDesc l s
          end
      end
  end.

Definition readIndex (img : Descriptor) (s : S) : gores (list Descriptor) :=
  match ReadBlob s img with
  | Err e => Err e
  | Ok b => unmarshal_index b
  end.

(** No manifest may be found, which is no error. *)
Definition readManifest (img : Descriptor) (s : S) : gores (option Manifest) :=
  if IsManifestType (MediaType img) then
    match ReadBlob s img with
    | Err e => Err e
    | Ok b => match unmarshal_manifest b with Err e => Err e | Ok mani => Ok (Some mani) end
    end
  else if IsIndexType (MediaType img) then
    match readIndex img s with
    | Err e => Err e
    | Ok manifests =>
        match ImageConfig s img with
        | Err e => Err e
        | Ok configDesc => find_manifest configDesc manifests s
        end
    end
  else Ok None.

Definition blob_desc (mediaType : string) (b : Blob) : Descriptor := mkDesc mediaType (FromBytes b) (len b).
Definition gc_labels (configDesc : Descriptor) (layers : list Descriptor) : list (string * string) :=
  imap (λ i d, ("containerd.io/gc.ref.content." +:+ itoa (N.of_nat i), DigestOf d)) (configDesc :: layers).

(** Dereferences the manifest it reads. *)
Definition writeContentsForImage (snName : string) (baseImg : Descriptor) (newConfig : Image) (diffLayerDesc : Descriptor)
    : Go S (gores Descriptor) := λ s,
  let newConfigJSON := marshal_config newConfig in
  let configDesc := blob_desc MediaTypeDockerSchema2Config newConfigJSON in
  match readManifest baseImg s with
  | Err e => Some (Err e, s)
  | Ok baseMfst =>
      baseMfst ← baseMfst;
      let layers := Layers baseMfst ++ [diffLayerDesc] in
      let newMfstJSON := marshal_manifest (mkManifest MediaTypeDockerSchema2Manifest configDesc layers) in
      let newMfstDesc := blob_desc MediaTypeDockerSchema2Manifest newMfstJSON in
      match WriteBlob (DigestOf newMfstDesc) newMfstJSON newMfstDesc (gc_labels configDesc layers) s with
      | (Some e, s) => Some (Err e, s)
      | (None, s) =>
          match WriteBlob (DigestOf configDesc) newConfigJSON configDesc
                  [("containerd.io/gc.ref.snapshot." +:+ snName, ChainID (DiffIDs newConfig))] s with
          | (Some e, s) => Some (Err e, s)
          | (None, s) => Some (Ok newMfstDesc, s)
          end
      end
  end.

Definition pushImage (ref username secret : string) (s : S) : option error * S :=
  match GetImage s ref with
  | Err e => (Some (Errorf ("unable to resolve image to manifest: " +:+ Error e)), s)
  | Ok target => Push ref target username secret s
  end.

(** ** The credentials *)

Definition DEFAULT_REGISTRY : string := "index.docker.io".

Definition getRegistry (imageRef : string) : string :=
  let parts := Split imageRef slash in
  if decide (length parts = 1) then DEFAULT_REGISTRY
  else if decide (length parts = 2) then DEFAULT_REGISTRY
  else
    let first := nth 0 parts "" in
    if bool_decide (3 ≤ length parts) && (Contains first "." || Contains first ":") then
      if decide (first = "docker.io") then DEFAULT_REGISTRY else first
    else DEFAULT_REGISTRY.

(** [strings.SplitN(s, ":", 2)] with two parts. *)
Definition split_colon (s : string) : option (string * string) :=
  match Index s ":"%char with
  | Some i => Some (str_take i s, str_drop (Datatypes.S i) s)
  | None => None
  end.

Definition decodeAuth (auth : string) : gores (string * string) :=
  match base64_decode auth with
  | Err e => Err (Errorf ("failed to decode auth: " +:+ Error e))
  | Ok decoded => match split_colon decoded with Some p => Ok p | None => Err (Errorf "invalid auth format") end
  end.

Definition readDockerConfig (imageName : string) : gores (string * string) :=
  match docker_config with
  | Err e => Err e
  | Ok auths =>
      let registry := getRegistry imageName in
      match (match auths !! registry with Some a => Some a | None => auths !! ("https://" +:+ registry +:+ "/v1/") end) with
      | None => Err (Errorf ("no auth found for registry " +:+ registry))
      | Some auth =>
          match decodeAuth auth with
          | Err e => Err (Errorf ("failed to decode auth: " +:+ Error e))
          | Ok p => Ok p
          end
      end
  end.

(** ** The dump *)

(** [images.Update], or [images.Create] of an image that is not there. *)
Definition put_image (ref : string) (target : Descriptor) (s : S) : option error * S :=
  match UpdateImage ref target s with
  | (None, s) => (None, s)
  | (Some e, s) =>
      if negb (IsNotFound e) then (Some e, s)
      else
        match CreateImage ref target s with
        | (None, s) => (None, s)
        | (Some e, s) => (Some (Errorf ("failed to create new image " +:+ ref +:+ ": " +:+ Error e)), s)
        end
  end.

(** That the image cannot be pushed is only logged. *)
Definition push (ref username secret : string) (s : S) : S :=
  if decide (username = "" ∨ secret = "") then
    match readDockerConfig ref with
    | Err _ => s
    | Ok (username, secret) => (pushImage ref username secret s).2
    end
  else (pushImage ref username secret s).2.

Definition dumpRootfs (ref username secret : string) : Go S (option error) := λ s,
  match GetInfo s with
  | Err e => Some (Some (Errorf ("failed to get container info: " +:+ Error e)), s)
  | Ok info =>
      match GetImage s (iImage info) with
      | Err e => Some (Some (Errorf ("failed to get container base image: " +:+ Error e)), s)
      | Ok baseImg =>
          match platform with
          | Err e => Some (Some e, s)
          | Ok _ =>
              match readImageConfig baseImg s with
              | Err e => Some (Some e, s)
              | Ok baseImgConfig =>
                  match createDiff (SnapshotKey info) (iSnapshotter info) s with
                  | (Err e, s) => Some (Some (Errorf ("failed to export layer: " +:+ Error e)), s)
                  | (Ok (diffLayerDesc, diffID), s) =>
                      match generateCommitImageConfig baseImgConfig diffID s with
                      | Err e => Some (Some (Errorf ("failed to generate commit image config: " +:+ Error e)), s)
                      | Ok imageConfig =>
                          let rootfsID := ChainID (DiffIDs imageConfig) in
                          match applyDiffLayer rootfsID baseImgConfig (iSnapshotter info) diffLayerDesc s with
                          | (Some e, s) => Some (Some (Errorf ("failed to apply diff: " +:+ Error e)), s)
                          | (None, s) =>
                              '(r, s) ← writeContentsForImage (iSnapshotter info) baseImg imageConfig diffLayerDesc s;
                              match r with
                              | Err e => Some (Some e, s)
                              | Ok target =>
                                  match put_image ref target s with
                                  | (Some e, s) => Some (Some e, s)
                                  | (None, s) => Some (None, push ref username secret s)
                                  end
                              end
                          end
                      end
                  end
              end
          end
      end
  end.

(** ** The adapter *)

Record RefImage := mkRefImage { Name : string; Username : string; Secret : string }.
Record Req := mkReq { DumpAction_DUMP : bool; Rootfs_ : bool; RootfsOnly : bool; ID : string; rImage : option RefImage }.

(** The channel [rootfsErr], of capacity one, of the callback. *)
Inductive ErrChan := Empty | Holding (err : option error) | Closed.

Record World := mkWorld {
  services : S;
  rootfsErr : ErrChan;
  CRIUCallback : list RefImage;       (** the callbacks of this kind that were included *)
  Messages : list string;
}.
Definition set_services (s : S) (w : World) : World := mkWorld s (rootfsErr w) (CRIUCallback w) (Messages w).
Definition set_chan (c : ErrChan) (w : World) : World := mkWorld (services w) c (CRIUCallback w) (Messages w).
Definition Include (i : RefImage) (w : World) : World := mkWorld (services w) Empty (CRIUCallback w ++ [i]) (Messages w).
Definition say (m : string) (w : World) : World := mkWorld (services w) (rootfsErr w) (CRIUCallback w) (Messages w ++ [m]).

(** [<-rootfsErr]: a value is followed by the end of the channel, which its
    sender closes; nothing comes from a channel without sender. *)
Definition receive : Go World (option error) := λ w,
  match rootfsErr w with
  | Empty => None
  | Holding err => Some (err, set_chan Closed w)
  | Closed => Some (None, w)
  end.

Definition dump_services (i : RefImage) : Go World (option error) := λ w,
  '(err, s) ← dumpRootfs (Name i) (Username i) (Secret i) (services w);
  Some (err, set_services s w).

(** The goroutine works on containerd only and is waited for, so it runs when it
    is started. *)
Definition rootfs_PreDump (i : RefImage) : Go World (option error) :=
  err ← dump_services i; _ ← modify (set_chan (Holding err)); mret None.

Definition rootfs_callback (i : RefImage) : NotifyCallback World :=
  mkCallback None None None (Some (λ _ _, receive)) None (Some (λ _, rootfs_PreDump i)) (Some (λ _, receive))
    None None None None None None None None None None None "rootfs".

Definition Handler : Type := Go World (gores unit).

(** Adds the message of a dump that succeeded. *)
Definition announcing (name : string) (m : Handler) : Handler :=
  r ← m;
  match r with
  | Ok _ => _ ← modify (say ("Dumped rootfs to " +:+ name)); mret r
  | Err _ => mret r
  end.

Definition on_services {A} (f : S → A * S) : Go World A := λ w, let '(a, s) := f (services w) in Some (a, set_services s w).

(** The error of looking up the task is overwritten, and the task is nil then. *)
Definition rootfs_only (req : Req) (i : RefImage) : Handler :=
  w ← get;
  match LoadTask (services w) with
  | Some _ => block
  | None =>
      e ← on_services PauseTask;
      match e with
      | Some e => fail Internal ("failed to pause container " +:+ ID req +:+ ": " +:+ Error e)
      | None =>
          e ← dump_services i;
          _ ← on_services ResumeTask;
          match e with
          | Some e => failed "failed to dump rootfs" e
          | None => mret (Ok ())
          end
      end
  end.

Definition DumpRootfs (has_client has_container : bool) (req : Req) (next : Handler) : Handler :=
  if negb (Rootfs_ req || RootfsOnly req) || negb (DumpAction_DUMP req) then next
  else
    match rImage req with
    | None => fail InvalidArgument "image name must be provided for rootfs dump"
    | Some i =>
        if decide (Name i = "") then fail InvalidArgument "image name must be provided for rootfs dump"
        else if negb has_client then fail Internal "failed to get containerd client from context"
        else if negb has_container then fail Internal "failed to get container from context"
        else
          announcing (Name i)
            (if RootfsOnly req then rootfs_only req i
             else _ ← modify (Include i); next)
    end.

(** ** What a dump commits *)

Section commits.
Context {SO : ServicesOk}.

Definition keeps (s s' : S) : Prop := ∀ d b, ReadBlob s d = Ok b → ReadBlob s' d = Ok b.

Lemma createDiff_keeps id sn s : keeps s (createDiff id sn s).2.
Proof.
  unfold createDiff. intros d b Hd. pose proof (CreateDiff_keeps id sn s d b Hd) as H.
  destruct (CreateDiff id sn s) as [[newDesc|e] s1]; [|done]. by repeat case_match.
Qed.

(** The layer is in the snapshotter under the name that the image's layers
    determine. *)
Lemma applyDiffLayer_Some name baseImg sn diffDesc s s' :
  applyDiffLayer name baseImg sn diffDesc s = (None, s') → keeps s s' ∧ Committed s' sn name = true.
Proof.
  unfold applyDiffLayer. intros H.
  destruct (Prepare sn _ _ s) as [[mount|e] s1] eqn:Hp; [|done].
  destruct (Apply diffDesc mount s1) as [[e|] s2] eqn:Ha; [done|].
  assert (∀ s3, (Commit sn name (uniquePart s +:+ "-" +:+ name) s2).2 = s3 → keeps s s3) as Hk.
  { intros s3 <- d b Hd. apply Commit_keeps. replace s2 with (Apply diffDesc mount s1).2 by (by rewrite Ha).
    apply Apply_keeps. replace s1 with (Prepare sn (uniquePart s +:+ "-" +:+ name) (ChainID (DiffIDs baseImg)) s).2 by (by rewrite Hp).
    by apply Prepare_keeps. }
  destruct (Commit sn name _ s2) as [[e|] s3] eqn:Hc.
  - destruct (IsAlreadyExists e) eqn:Hae; [|done]. injection H as <-. split; [by apply Hk|].
    eapply Commit_commits; [exact Hc|]. right. by exists e.
  - injection H as <-. split; [by apply Hk|]. eapply Commit_commits; [exact Hc|by left].
Qed.

Lemma writeContents_Some sn base newConfig layer s m target s' :
  readManifest base s = Ok (Some m) → writeContentsForImage sn base newConfig layer s = Some (Ok target, s') →
  MediaType target = MediaTypeDockerSchema2Manifest ∧
  (∃ b m', ReadBlob s' target = Ok b ∧ unmarshal_manifest b = Ok m' ∧ Layers m' = Layers m ++ [layer] ∧
     ∃ c, ReadBlob s' (mConfig m') = Ok c ∧ unmarshal_config c = Ok newConfig) ∧
  ∀ x y, Committed s' x y = Committed s x y.
Proof.
  unfold writeContentsForImage. intros -> H. cbn [mbind option_bind] in H.
  set (cj := marshal_config newConfig) in *. set (cd := blob_desc MediaTypeDockerSchema2Config cj) in *.
  set (m' := mkManifest _ cd _) in *. set (mj := marshal_manifest m') in *.
  destruct (WriteBlob _ mj _ _ s) as [[e|] s1] eqn:Hw1; [done|].
  destruct (WriteBlob (DigestOf cd) cj _ _ s1) as [[e|] s2] eqn:Hw2; [done|]. injection H as <- <-.
  split; [done|]. split.
  - exists mj, m'. split.
    + rewrite (WriteBlob_read _ _ _ _ _ _ _ Hw2). case_decide as Hd.
      * simpl in Hd. by apply FromBytes_inj in Hd as ->.
      * rewrite (WriteBlob_read _ _ _ _ _ _ _ Hw1). by rewrite decide_True.
    + split; [apply manifest_json|]. split; [done|]. exists cj. split; [|apply config_json].
      rewrite (WriteBlob_read _ _ _ _ _ _ _ Hw2). by rewrite decide_True.
  - intros x y. transitivity (Committed s1 x y).
    + exact (WriteBlob_committed _ _ _ _ _ _ x y (f_equal snd Hw2)).
    + exact (WriteBlob_committed _ _ _ _ _ _ x y (f_equal snd Hw1)).
Qed.

Lemma put_image_Some ref target s s' : put_image ref target s = (None, s') →
  GetImage s' ref = Ok target ∧ (∀ x, ReadBlob s' x = ReadBlob s x) ∧ ∀ x y, Committed s' x y = Committed s x y.
Proof.
  unfold put_image. intros H. destruct (UpdateImage ref target s) as [[e|] s1] eqn:Hu.
  - destruct (IsNotFound e); simpl in H; [|done]. destruct (CreateImage ref target s1) as [[e'|] s2] eqn:Hc; [done|].
    injection H as <-. destruct (Update_rest ref target s s1) as [Hr Hk]; [by rewrite Hu|].
    destruct (Create_rest ref target s1 s2) as [Hr' Hk']; [by rewrite Hc|].
    split_and!; [|intros; by rewrite Hr' Hr|intros; by rewrite Hk' Hk].
    rewrite (Create_get _ _ _ _ _ Hc). by rewrite decide_True.
  - injection H as <-. destruct (Update_rest ref target s s1) as [Hr Hk]; [by rewrite Hu|].
    split_and!; [|done|done]. rewrite (Update_get _ _ _ _ _ Hu). by rewrite decide_True.
Qed.

Lemma push_rest ref u p s :
  (∀ x, GetImage (push ref u p s) x = GetImage s x) ∧ (∀ x, ReadBlob (push ref u p s) x = ReadBlob s x) ∧
  ∀ x y, Committed (push ref u p s) x y = Committed s x y.
Proof.
  assert (∀ u p, let s' := (pushImage ref u p s).2 in (∀ x, GetImage s' x = GetImage s x) ∧ (∀ x, ReadBlob s' x = ReadBlob s x) ∧
    ∀ x y, Committed s' x y = Committed s x y) as Hp.
  { intros u' p'. unfold pushImage. destruct (GetImage s ref) as [t|]; [|done]. by eapply Push_rest. }
  unfold push. case_decide; [|apply Hp]. destruct (readDockerConfig ref) as [[u' p']|]; [apply Hp|done].
Qed.

(** A dump that succeeds for an image that is a manifest has put an image under
    the reference: its layers are those of the base image and one more, its
    configuration is that of the base image with the matching entry, and the
    snapshot of all its layers is there. *)
Theorem committed_image ref u p s s' info base m0 c0 :
  GetInfo s = Ok info → GetImage s (iImage info) = Ok base → IsManifestType (MediaType base) = true →
  readManifest base s = Ok (Some m0) → readImageConfig base s = Ok c0 →
  dumpRootfs ref u p s = Some (None, s') →
  ∃ target m c layer diffID,
    GetImage s' ref = Ok target ∧
    readManifest target s' = Ok (Some m) ∧ Layers m = Layers m0 ++ [layer] ∧
    readImageConfig target s' = Ok c ∧ DiffIDs c = DiffIDs c0 ++ [diffID] ∧ iConfig c = iConfig c0 ∧
    Committed s' (iSnapshotter info) (ChainID (DiffIDs c)) = true.
Proof.
  intros Hinfo Hbase Hty Hm Hc H. unfold dumpRootfs in H. rewrite Hinfo Hbase Hc in H. destruct platform; [|done].
  destruct (createDiff _ _ s) as [[[layer diffID]|e] s1] eqn:Hdiff; [|done].
  assert (keeps s s1) as Hk1 by (replace s1 with (createDiff (SnapshotKey info) (iSnapshotter info) s).2 by (by rewrite Hdiff); apply createDiff_keeps).
  destruct (generateCommitImageConfig c0 diffID s1) as [c|e] eqn:Hgen; [|done].
  destruct (applyDiffLayer _ c0 _ layer s1) as [[e|] s2] eqn:Happ; [done|]. apply applyDiffLayer_Some in Happ as [Hk2 Hcom].
  destruct (writeContentsForImage _ base c layer s2) as [[r s3]|] eqn:Hw; [|done]. cbn [mbind option_bind] in H.
  destruct r as [target|e]; [|done]. destruct (put_image ref target s3) as [[e|] s4] eqn:Hput; [done|]. injection H as <-.
  assert (readManifest base s2 = Ok (Some m0)) as Hm2.
  { revert Hm. unfold readManifest. rewrite Hty. destruct (ReadBlob s base) as [b|] eqn:Hb; [|done]. by rewrite (Hk2 _ _ (Hk1 _ _ Hb)). }
  destruct (writeContents_Some _ _ _ _ _ _ _ _ Hm2 Hw) as (Hmt & (b & m & Hb & Hu & Hl & cj & Hcj & Huc) & Hcm).
  destruct (put_image_Some _ _ _ _ Hput) as (Hg & Hr4 & Hc4). destruct (push_rest ref u p s4) as (Hg5 & Hr5 & Hc5).
  assert (ReadBlob (push ref u p s4) target = Ok b) as Hb5 by (by rewrite Hr5 Hr4).
  exists target, m, c, layer, diffID. split; [by rewrite Hg5|].
  split; [unfold readManifest; by rewrite Hmt manifest_type Hb5 Hu|]. split; [done|].
  split; [unfold readImageConfig|].
  { rewrite (ImageConfig_manifest _ _ b m); [by rewrite Hmt manifest_type|done..|]. by rewrite Hr5 Hr4 Hcj. }
  unfold generateCommitImageConfig in Hgen. destruct (SpecArgs s1); [|done]. injection Hgen as <-.
  split; [done|]. split; [done|]. by rewrite Hc5 Hc4 Hcm.
Qed.
End commits.

(** A dump always returns when the image is a manifest or the index has one for
    the platform. *)
Lemma writeContents_returns sn base newConfig layer s :
  readManifest base s ≠ Ok None → is_Some (writeContentsForImage sn base newConfig layer s).
Proof.
  intros Hn. unfold writeContentsForImage. destruct (readManifest base s) as [[m|]|e]; [|done|done]. cbn [mbind option_bind].
  by repeat case_match.
Qed.

(** Without such a manifest the daemon stops: the missing one is dereferenced. *)
Theorem missing_manifest_panics sn base newConfig layer s :
  IsManifestType (MediaType base) = false →
  (IsIndexType (MediaType base) = false ∨
   ∃ l c, readIndex base s = Ok l ∧ ImageConfig s base = Ok c ∧ find_manifest c l s = Ok None) →
  writeContentsForImage sn base newConfig layer s = None.
Proof.
  intros Hty H. unfold writeContentsForImage, readManifest. rewrite Hty.
  destruct H as [->|(l & c & -> & -> & Hf)]; [done|]. rewrite Hf. by destruct (IsIndexType _).
Qed.

(** ** Credentials *)

Lemma Split_two a b : has_byte slash a = false → has_byte slash b = false → Split (a +:+ "/" +:+ b) slash = [a; b].
Proof. intros Ha Hb. change ("/" +:+ b) with (String slash b). by rewrite Split_app !Split_nosep. Qed.

(** For a reference of a registry and a name, without a path in between, the
    credentials are looked up, and pushed with, as those of Docker Hub. *)
Theorem hub_credentials_elsewhere registry name :
  has_byte slash registry = false → has_byte slash name = false →
  getRegistry (registry +:+ "/" +:+ name) = DEFAULT_REGISTRY ∧
  readDockerConfig (registry +:+ "/" +:+ name) = readDockerConfig name.
Proof.
  intros Hr Hn. assert (getRegistry (registry +:+ "/" +:+ name) = DEFAULT_REGISTRY) as Hreg by (unfold getRegistry; by rewrite Split_two).
  split; [done|]. unfold readDockerConfig. rewrite Hreg. unfold getRegistry. by rewrite (Split_nosep name).
Qed.

(** With a path in between the registry's own are. *)
Theorem own_credentials registry path name :
  has_byte slash registry = false → has_byte slash path = false → has_byte slash name = false →
  Contains registry "." || Contains registry ":" = true → registry ≠ "docker.io" →
  getRegistry (registry +:+ "/" +:+ path +:+ "/" +:+ name) = registry.
Proof.
  intros Hr Hp Hn Hc Hd. unfold getRegistry. change ("/" +:+ path +:+ "/" +:+ name) with (String slash (path +:+ "/" +:+ name)).
  rewrite Split_app Split_two // Split_nosep //. simpl. rewrite Hc /=. by case_decide.
Qed.

(** ** The callback under CRIU *)

(** When CRIU answers with the end of the dump before it has notified of it,
    the finalizer waits for a result that nobody sends. *)
Theorem early_failure_hangs i p pid x xs opts w :
  Swrk.prepare p = Ok pid → Swrk.answers p = x :: xs → Swrk.terminal x = true → rootfsErr w = Empty →
  Swrk.Dump p opts (callback_notify (rootfs_callback i)) w = None.
Proof.
  intros Hp Ha Ht Hw. unfold Swrk.Dump, Swrk.doSwrk, Swrk.doSwrkWithResp. rewrite Hp.
  set (args := Swrk.swrk_args p _).
  assert (∀ n req sent, ∃ r, Swrk.swrk_loop n req (Swrk.answers p) sent w = Some (r, w)) as Hl.
  { intros n req sent. rewrite Ha. cbn [Swrk.swrk_loop]. unfold Swrk.terminal in Ht.
    destruct (Swrk.sendAndRecv x) as [r|e]; [|by eexists].
    destruct (Swrk.Success r); simpl in *; [|by eexists]. rewrite Ht. by eexists. }
  assert (Swrk.swrk_body p pid Swrk.DUMP args w = None) as Hb.
  { unfold Swrk.swrk_body, args. simpl. unfold Swrk.deferred, mbind, Go_bind. simpl.
    match goal with |- context [Swrk.swrk_loop ?n ?req _ ?sent w] => destruct (Hl n req sent) as [[[resp err] sent'] ->] end.
    unfold NotifyCallback_FinalizeDump, call_hook. simpl. unfold mbind, Go_bind, receive. by rewrite Hw. }
  unfold mbind, Go_bind. unfold Swrk.deferred at 1. unfold mbind, Go_bind. by rewrite Hb.
Qed.

(** Once CRIU has notified of the dump, the hook after the dump returns the
    error of the root file system, and the finalizer does not wait. *)
Theorem rootfs_error_reported i w err s' :
  dumpRootfs (Name i) (Username i) (Secret i) (services w) = Some (err, s') →
  (_ ← rootfs_PreDump i; r ← receive; f ← receive; mret (r, f)) w =
    Some ((err, None), set_chan Closed (set_services s' w)).
Proof.
  intros Hd. unfold rootfs_PreDump, dump_services, mbind, Go_bind. rewrite Hd. cbn. reflexivity.
Qed.

(** ** The adapter *)

(** The whole dump includes the callback; that of the root file system alone
    dumps it between pausing and resuming the task, and does not go on. *)
Theorem DumpRootfs_cases req i next w :
  DumpAction_DUMP req = true → rImage req = Some i → Name i ≠ "" →
  (RootfsOnly req = false → Rootfs_ req = true →
   DumpRootfs true true req next w = announcing (Name i) next (Include i w)) ∧
  (RootfsOnly req = true → LoadTask (services w) = None →
   ∀ s1 err s2, PauseTask (services w) = (None, s1) → dumpRootfs (Name i) (Username i) (Secret i) s1 = Some (err, s2) →
   ∃ r w', DumpRootfs true true req next w = Some (r, w') ∧ services w' = (ResumeTask s2).2 ∧
     (is_ok r = true ↔ err = None) ∧ CRIUCallback w' = CRIUCallback w).
Proof.
  intros Ha Hi Hn. unfold DumpRootfs. rewrite Ha Hi. split.
  - intros Ho Hr. rewrite Ho Hr /=. by destruct (decide (Name i = "")).
  - intros Ho Ht s1 err s2 Hp Hd. rewrite Ho orb_true_r /=. destruct (decide (Name i = "")); [done|].
    unfold announcing, rootfs_only, on_services, dump_services, get, modify, mbind, Go_bind. rewrite Ht Hp. cbn. rewrite Hd. cbn.
    destruct (ResumeTask s2) as [e s3]. cbn. destruct err as [err|]; cbn; eexists _, _; (split; [done|]); by split_and!.
Qed.
End rootfs.

(** ** A containerd *)

Module Sample.

Inductive Doc := Cfg (c : Image) | Mfst (m : Manifest) | Idx (l : list Descriptor).

#[local] Instance Doc_eq_dec : EqDecision Doc.
Proof.
  assert (EqDecision History) by solve_decision. assert (EqDecision Image) by solve_decision.
  assert (EqDecision Manifest) by solve_decision. solve_decision.
Defined.

Definition desc_data (d : Descriptor) : string * string * Z := (MediaType d, DigestOf d, Size d).
Definition history_data (h : History) : Z * string * string * bool := (hCreated h, CreatedBy h, hAuthor h, EmptyLayer h).
Definition doc_data (x : Doc) : (string * string * Z * string * string * list string * list (Z * string * string * bool)) +
    ((string * (string * string * Z) * list (string * string * Z)) + list (string * string * Z)) :=
  match x with
  | Cfg c => inl (Architecture c, OS c, Created c, Author c, iConfig c, DiffIDs c, history_data <$> Histories c)
  | Mfst m => inr (inl (mMediaType m, desc_data (mConfig m), desc_data <$> Layers m))
  | Idx l => inr (inr (desc_data <$> l))
  end.

#[local] Instance desc_data_inj : Inj (=) (=) desc_data.
Proof. intros [] []. unfold desc_data. simpl. congruence. Qed.
#[local] Instance history_data_inj : Inj (=) (=) history_data.
Proof. intros [] []. unfold history_data. simpl. congruence. Qed.
#[local] Opaque desc_data history_data.
#[local] Instance doc_data_inj : Inj (=) (=) doc_data.
Proof.
  intros [[]|[]|l] [[]|[]|l']; simpl; try done.
  - intros [H Hh%(inj (fmap history_data))]%(inj inl)%pair_equal_spec. by simplify_eq.
  - intros [[-> ->%desc_data_inj]%pair_equal_spec ->%(inj (fmap desc_data))]%(inj inr)%(inj inl)%pair_equal_spec. done.
  - by intros ->%(inj inr)%(inj inr)%(inj (fmap desc_data)).
Qed.
#[local] Transparent desc_data history_data.

Fixpoint bits (p : positive) : string :=
  match p with xH => "" | xO p => "0" +:+ bits p | xI p => "1" +:+ bits p end.
Lemma bits_inj p q : bits p = bits q → p = q.
Proof. revert q. induction p as [p IH|p IH|]; intros [q|q|] H; try done; injection H as H; f_equal; by apply IH. Qed.

Record Store := mkStore {
  blobs : gmap string Doc; imgs : gmap string Descriptor; snaps : gset (string * string); pushed : list (string * string * string);
}.

Definition not_found : error := Errorf "not found".
Definition read (s : Store) (d : Descriptor) : gores Doc :=
  match blobs s !! DigestOf d with Some b => Ok b | None => Err not_found end.
Definition as_manifest (b : Doc) : gores Manifest := match b with Mfst m => Ok m | _ => Err (Errorf "not a manifest") end.

(** Nothing can be pushed; the credentials are kept. *)
#[local] Instance sample : Services := {|
  S := Store;
  Blob := Doc;
  len _ := 2%Z;
  GetInfo _ := Ok (mkInfo "base" "overlayfs" "key");
  SpecArgs _ := Ok (Some ["sh"; "-c"]);
  GetImage s n := match imgs s !! n with Some d => Ok d | None => Err not_found end;
  UpdateImage n d s :=
    match imgs s !! n with
    | Some _ => (None, mkStore (blobs s) (<[n := d]> (imgs s)) (snaps s) (pushed s))
    | None => (Some not_found, s)
    end;
  CreateImage n d s := (None, mkStore (blobs s) (<[n := d]> (imgs s)) (snaps s) (pushed s));
  ImageConfig s d := match read s d with Ok (Mfst m) => Ok (mConfig m) | _ => Err not_found end;
  ReadBlob := read;
  WriteBlob g b _ _ s := (None, mkStore (<[g := b]> (blobs s)) (imgs s) (snaps s) (pushed s));
  ContentInfo _ _ := Ok (7%Z, {["containerd.io/uncompressed" := "sha256:new"]});
  CreateDiff _ _ s := (Ok (mkDesc "layer" "sha256:layer" 7), s);
  Committed s sn n := bool_decide ((sn, n) ∈ snaps s);
  Prepare _ _ _ s := (Ok "mount", s);
  Apply _ _ s := (None, s);
  Commit sn n _ s := (None, mkStore (blobs s) (imgs s) ({[(sn, n)]} ∪ snaps s) (pushed s));
  Remove _ _ s := (None, s);
  Push n _ u p s := (Some (Errorf "denied"), mkStore (blobs s) (imgs s) (snaps s) (pushed s ++ [(n, u, p)]));
  PauseTask s := (None, s);
  ResumeTask s := (None, s);
  LoadTask _ := None;
  ParseDigest d := Ok d;
  FromBytes b := bits (encode (doc_data b));
  ChainID l := StrJoin l " ";
  IsManifestType t := bool_decide (t = MediaTypeDockerSchema2Manifest);
  IsIndexType t := bool_decide (t = "index");
  marshal_config := Cfg;
  unmarshal_config b := match b with Cfg c => Ok c | _ => Err (Errorf "not a configuration") end;
  marshal_manifest := Mfst;
  unmarshal_manifest := as_manifest;
  unmarshal_index b := match b with Idx l => Ok l | _ => Err (Errorf "not an index") end;
  IsNotFound e := bool_decide (Error e = "not found");
  IsAlreadyExists _ := false;
  platform := Ok "linux/amd64";
  GOARCH := "amd64";
  GOOS := "linux";
  Now _ := 0%Z;
  uniquePart _ := "1-a";
  docker_config := Ok {["index.docker.io" := "hub:secret"]};
  base64_decode s := Ok s;
|}.

#[local] Instance sample_ok : ServicesOk.
Proof.
  constructor; simpl; try done.
  - intros x y H%bits_inj%encode_inj. by apply doc_data_inj.
  - intros s d b m _ Hb Hm. rewrite Hb. destruct b; simpl in Hm; [done| |done]. by injection Hm as ->.
  - intros s d d' Hd. unfold read. by rewrite Hd.
  - intros g b d l s s' x [= <-]. unfold read. simpl. rewrite lookup_insert. by repeat case_decide.
  - intros g b d l s s' sn n <-. done.
  - intros n d s s' x H. destruct (imgs s !! n); [|done]. injection H as <-. simpl. rewrite lookup_insert. by repeat case_decide.
  - intros n d s s' x [= <-]. simpl. rewrite lookup_insert. by repeat case_decide.
  - intros n d s s' <-. by destruct (imgs s !! n).
  - by intros n d s s' <-.
  - by intros n d u p s s' <-.
  - intros sn n k s s' e [= <- <-] _. apply bool_decide_eq_true. simpl. set_solver.
Qed.

Definition base0 : Descriptor := mkDesc MediaTypeDockerSchema2Manifest "m" 1.
Definition config0 : Image := mkImage "amd64" "linux" 0 "me" "entry" ["d1"] [].
Definition manifest0 : Manifest := mkManifest MediaTypeDockerSchema2Manifest (mkDesc "config" "c" 1) [mkDesc "layer" "l1" 1].
Definition store0 : Store := mkStore {["m" := Mfst manifest0; "c" := Cfg config0]} {["base" := base0]} ∅ [].
Definition ref0 : string := "registry.example.com:5000/web".
Definition dumped0 : option (option error * Store) := dumpRootfs (SV := sample) ref0 "" "" store0.
Definition after0 : Store := match dumped0 with Some (_, s) => s | None => store0 end.

Lemma dumped0_ok : dumpRootfs (SV := sample) ref0 "" "" store0 = Some (None, after0).
Proof.
  assert (fst <$> dumped0 = Some None) as H by (vm_compute; reflexivity). fold dumped0. unfold after0. revert H.
  destruct dumped0 as [[e s]|]; [|done]. by intros [= ->].
Qed.

Lemma committed_image_witness :
  ∃ target m, @GetImage sample after0 ref0 = Ok target ∧ readManifest (SV := sample) target after0 = Ok (Some m) ∧ length (Layers m) = 2.
Proof.
  destruct (committed_image (SV := sample) ref0 "" "" store0 after0 (mkInfo "base" "overlayfs" "key") base0 manifest0 config0
    eq_refl eq_refl eq_refl eq_refl eq_refl dumped0_ok) as (target & m & c & layer & diffID & Hg & Hm & Hl & _).
  exists target, m. split; [exact Hg|]. split; [exact Hm|]. by rewrite Hl.
Defined.

(** The push was refused, and the credentials were those of another registry;
    the dump succeeded. *)
Example push_failure_not_reported :
  fst <$> dumped0 = Some None ∧ pushed after0 = [(ref0, "hub", "secret")] ∧ (@Push sample ref0 base0 "hub" "secret" store0).1 ≠ None.
Proof. split_and!; [vm_compute; reflexivity..|done]. Qed.

Lemma hub_credentials_elsewhere_witness : getRegistry ref0 = DEFAULT_REGISTRY ∧ readDockerConfig (SV := sample) ref0 = readDockerConfig (SV := sample) "web".
Proof. apply (hub_credentials_elsewhere (SV := sample) "registry.example.com:5000" "web"); reflexivity. Defined.

Definition failing : Swrk.CriuResp := Swrk.mkResp Swrk.DUMP false "no such process" 3 "" 0 (Ok 0%Z) 0 (Swrk.mkVersion 4 0 0 "").
Definition peer0 : Swrk.Peer := Swrk.mkPeer (Ok 9%Z) [Swrk.exchange_ok failing] None true.
Definition world0 : @World sample := mkWorld (SV := sample) store0 Empty [] [].
Definition opts0 : CriuOpts := mkCriuOpts "/dump" false false 5 false false.

Lemma early_failure_hangs_witness :
  Swrk.Dump peer0 opts0 (callback_notify (rootfs_callback (SV := sample) (mkRefImage ref0 "" ""))) world0 = None.
Proof. apply (early_failure_hangs (SV := sample) _ peer0 9 (Swrk.exchange_ok failing) []); reflexivity. Defined.
End Sample.
End Rootfs.
