(* ===== verification/EventStream.v ===== *)
(** * The checkpoint event stream of a Kubernetes node (plugins/k8s/internal/eventstream/rmq.go)

    The connection to the broker, the publisher and the consumer, which a
    mutex protects: any number of goroutines start publishers and consumers
    while others close the stream.  One step is one critical section or one
    call of the broker.  What happens to a checkpoint request is in
    CheckpointHandler. *)

From S2P Require Import Prelude.

Module Lifecycle.

(** ** State *)

(** The connection is handle 0; publishers and consumers get the next numbers. *)
Abbreviation handle := nat.

Inductive once := NotStarted | Running | Finished.
#[global] Instance once_eq_dec : EqDecision once.
Proof. solve_decision. Defined.

(** Where a goroutine is: in [StartCheckpointsPublisher], in
    [StartCheckpointsConsumer] or in [Close]. *)
Inductive pc :=
| PubStart | PubHasConn | PubCreated (h : handle)
| ConStart | ConHasConn | ConCreated (h : handle) | ConRuns (h : handle) | ConDefer (h : handle) (err : option error)
| CloseStart | Closing (todo : list handle)
| Returned (err : option error) | CloseReturned (err : option error).

Record State := mkState {
  Conn : option handle;
  checkpoints : option handle;
  checkpointRequests : option handle;
  closeOnce : once;
  closeErr : option error;
  (** handles that are not closed, and the next handle *)
  live : gset handle;
  next : handle;
  threads : list pc;
}.

Definition goto (i : nat) (p : pc) (s : State) : State :=
  mkState (Conn s) (checkpoints s) (checkpointRequests s) (closeOnce s) (closeErr s) (live s) (next s)
    (<[i := p]> (threads s)).
Definition close (h : handle) (s : State) : State :=
  mkState (Conn s) (checkpoints s) (checkpointRequests s) (closeOnce s) (closeErr s) (live s ∖ {[h]}) (next s) (threads s).
Definition create (s : State) : State :=
  mkState (Conn s) (checkpoints s) (checkpointRequests s) (closeOnce s) (closeErr s) ({[next s]} ∪ live s)
    (S (next s)) (threads s).
Definition set_checkpoints (o : option handle) (s : State) : State :=
  mkState (Conn s) o (checkpointRequests s) (closeOnce s) (closeErr s) (live s) (next s) (threads s).
Definition set_checkpointRequests (o : option handle) (s : State) : State :=
  mkState (Conn s) (checkpoints s) o (closeOnce s) (closeErr s) (live s) (next s) (threads s).
Definition set_once (o : once) (e : option error) (s : State) : State :=
  mkState (Conn s) (checkpoints s) (checkpointRequests s) o e (live s) (next s) (threads s).

(** [Close] takes the three handles under the lock. *)
Definition take_all (s : State) : State :=
  mkState None None None Running (closeErr s) (live s) (next s) (threads s).
Definition taken (s : State) : list handle :=
  option_list (checkpointRequests s) ++ option_list (checkpoints s) ++ option_list (Conn s).

Definition closed_conn : error := Errorf "rabbitmq connection is closed".

(** ** Operations, one step per critical section or call of the broker *)

Definition StartCheckpointsPublisher_read (s : State) : pc :=
  match Conn s with None => Returned (Some closed_conn) | Some _ => PubHasConn end.

Definition StartCheckpointsPublisher_register (i : nat) (publisher : handle) (s : State) : State :=
  match Conn s with
  | None => goto i (Returned (Some closed_conn)) (close publisher s)
  | Some _ =>
      match checkpoints s with
      | Some _ => goto i (Returned (Some (Errorf "checkpoints publisher is already running"))) (close publisher s)
      | None => goto i (Returned None) (set_checkpoints (Some publisher) s)
      end
  end.

Definition StartCheckpointsConsumer_read (s : State) : pc :=
  match Conn s with None => Returned (Some closed_conn) | Some _ => ConHasConn end.

Definition StartCheckpointsConsumer_register (i : nat) (consumer : handle) (s : State) : State :=
  match Conn s with
  | None => goto i (Returned (Some closed_conn)) (close consumer s)
  | Some _ =>
      match checkpointRequests s with
      | Some _ => goto i (Returned (Some (Errorf "checkpoints consumer is already running"))) (close consumer s)
      | None => goto i (ConRuns consumer) (set_checkpointRequests (Some consumer) s)
      end
  end.

Definition StartCheckpointsConsumer_defer (i : nat) (consumer : handle) (err : option error) (s : State) : State :=
  goto i (Returned err)
    (if decide (checkpointRequests s = Some consumer) then set_checkpointRequests None s else s).

(** [NewPublisher] and [NewConsumer] can fail.  [Run] returns nil only after
    the consumer has been closed, and a failing [Run] is followed by a close.
    Closing the connection (the last handle taken) can fail, in which case the
    error is kept.  A [Close] that finds the first one running waits for it. *)
Inductive step : State → State → Prop :=
| step_pub_read i s : threads s !! i = Some PubStart → step s (goto i (StartCheckpointsPublisher_read s) s)
| step_pub_new i s : threads s !! i = Some PubHasConn → step s (goto i (PubCreated (next s)) (create s))
| step_pub_fail i e s : threads s !! i = Some PubHasConn → step s (goto i (Returned (Some e)) s)
| step_pub_register i h s : threads s !! i = Some (PubCreated h) → step s (StartCheckpointsPublisher_register i h s)
| step_con_read i s : threads s !! i = Some ConStart → step s (goto i (StartCheckpointsConsumer_read s) s)
| step_con_new i s : threads s !! i = Some ConHasConn → step s (goto i (ConCreated (next s)) (create s))
| step_con_fail i e s : threads s !! i = Some ConHasConn → step s (goto i (Returned (Some e)) s)
| step_con_register i h s : threads s !! i = Some (ConCreated h) → step s (StartCheckpointsConsumer_register i h s)
| step_con_stopped i h s : threads s !! i = Some (ConRuns h) → h ∉ live s → step s (goto i (ConDefer h None) s)
| step_con_error i h e s : threads s !! i = Some (ConRuns h) → step s (goto i (ConDefer h (Some e)) (close h s))
| step_con_defer i h err s : threads s !! i = Some (ConDefer h err) → step s (StartCheckpointsConsumer_defer i h err s)
| step_close_first i s : threads s !! i = Some CloseStart → closeOnce s = NotStarted →
    step s (goto i (Closing (taken s)) (take_all s))
| step_close_handle i h l s : threads s !! i = Some (Closing (h :: l)) → step s (goto i (Closing l) (close h s))
| step_close_done i err s : threads s !! i = Some (Closing []) → step s (goto i (CloseReturned err) (set_once Finished err s))
| step_close_again i s : threads s !! i = Some CloseStart → closeOnce s = Finished →
    step s (goto i (CloseReturned (closeErr s)) s).

Definition starting (p : pc) : Prop := p = PubStart ∨ p = ConStart ∨ p = CloseStart.

(** [New] with the calls that are going to be made. *)
Definition init (ts : list pc) : State := mkState (Some 0) None None NotStarted None {[0]} 1 ts.
Definition reachable (ts : list pc) (s : State) : Prop := rtc step (init ts) s.

(** ** Ownership of the handles *)

Definition held (p : pc) : list handle :=
  match p with
  | PubCreated h | ConCreated h | ConRuns h => [h]
  | Closing l => l
  | _ => []
  end.

(** A consumer that is registered is run by a goroutine, or about to be unregistered. *)
Definition runs (h : handle) (p : pc) : Prop := p = ConRuns h ∨ ∃ e, p = ConDefer h e.

(** What the calls of [Close] are doing, and what they return. *)
Record closers (s : State) : Prop := {
  closers_returned i e : threads s !! i = Some (CloseReturned e) → closeOnce s = Finished ∧ e = closeErr s;
  closers_running i l : threads s !! i = Some (Closing l) → closeOnce s = Running;
  closers_once i j l l' : threads s !! i = Some (Closing l) → threads s !! j = Some (Closing l') → i = j;
}.

Record owned (s : State) : Prop := {
  (** a live handle is registered or in the hands of a goroutine *)
  owned_live h : h ∈ live s → Conn s = Some h ∨ checkpoints s = Some h ∨ ∃ i p, threads s !! i = Some p ∧ h ∈ held p;
  owned_consumer h : checkpointRequests s = Some h → ∃ i p, threads s !! i = Some p ∧ runs h p;
  (** the connection is there until somebody closes *)
  owned_conn : Conn s = None ↔ closeOnce s ≠ NotStarted;
  owned_closed : closeOnce s ≠ NotStarted → checkpoints s = None ∧ checkpointRequests s = None;
  owned_closers : closers s;
}.

Lemma insert_cases (ts : list pc) i p0 p1 j p :
  ts !! i = Some p0 → <[i := p1]> ts !! j = Some p → (j = i ∧ p = p1) ∨ (j ≠ i ∧ ts !! j = Some p).
Proof.
  intros Hi H. destruct (decide (j = i)) as [->|Hne]; [left|right].
  - rewrite list_lookup_insert_eq in H; [by eapply lookup_lt_Some|]. by simplify_eq.
  - by rewrite list_lookup_insert_ne in H.
Qed.

Lemma insert_new (ts : list pc) i p0 p1 : ts !! i = Some p0 → <[i := p1]> ts !! i = Some p1.
Proof. intros. apply list_lookup_insert_eq. by eapply lookup_lt_Some. Qed.

(** A goroutine that moves keeps what it had, or something else takes it over. *)
Lemma insert_keeps (P : pc → Prop) (ts : list pc) i p0 p1 :
  ts !! i = Some p0 → (P p0 → P p1) → (∃ j p, ts !! j = Some p ∧ P p) → ∃ j p, <[i := p1]> ts !! j = Some p ∧ P p.
Proof.
  intros Hi HP (j & p & Hj & Hp). destruct (decide (j = i)) as [->|Hne].
  - exists i, p1. rewrite (insert_new _ _ p0) //. simplify_eq. eauto.
  - exists j, p. by rewrite list_lookup_insert_ne.
Qed.

Lemma insert_gives (P : pc → Prop) (ts : list pc) i p0 p1 :
  ts !! i = Some p0 → P p1 → ∃ j p, <[i := p1]> ts !! j = Some p ∧ P p.
Proof. intros Hi HP. exists i, p1. by rewrite (insert_new _ _ p0). Qed.

Lemma closers_move s s' i p0 p1 :
  closers s → threads s !! i = Some p0 → threads s' = <[i := p1]> (threads s) →
  closeOnce s' = closeOnce s → closeErr s' = closeErr s →
  (∀ e, p1 = CloseReturned e → closeOnce s = Finished ∧ e = closeErr s) →
  (∀ l, p1 = Closing l → ∃ l0, p0 = Closing l0) → closers s'.
Proof.
  intros [Hret Hcng Honce] Hi Ht Ho He Hr Hclo. split; rewrite ?Ht ?Ho ?He.
  - intros j e Hj. apply (insert_cases _ _ p0) in Hj as [[-> Hp]|[_ Hj]]; eauto.
  - intros j l Hj. apply (insert_cases _ _ p0) in Hj as [[-> Hp]|[_ Hj]]; [|by eauto|done].
    destruct (Hclo l (eq_sym Hp)) as [l0 ->]. eauto.
  - intros j j' l l' Hj Hj'. apply (insert_cases _ _ p0) in Hj, Hj'; [|done..].
    destruct Hj as [[-> Hp]|[Hne Hj]], Hj' as [[-> Hp']|[Hne' Hj']]; [done| | |by eauto].
    + destruct (Hclo l (eq_sym Hp)) as [l0 ->]. eauto.
    + destruct (Hclo l' (eq_sym Hp')) as [l0 ->]. eauto.
Qed.

(** Steps that move a goroutine, which closes what it lets go of. *)
Lemma owned_move s s' i p0 p1 :
  owned s → threads s !! i = Some p0 → threads s' = <[i := p1]> (threads s) →
  Conn s' = Conn s → checkpoints s' = checkpoints s → checkpointRequests s' = checkpointRequests s →
  closeOnce s' = closeOnce s → closeErr s' = closeErr s →
  (∀ h, h ∈ live s' → h ∈ live s ∨ h ∈ held p1) → (∀ h, h ∈ live s' → h ∈ held p0 → h ∈ held p1) →
  (∀ h, runs h p0 → runs h p1) →
  (∀ e, p1 = CloseReturned e → closeOnce s = Finished ∧ e = closeErr s) →
  (∀ l, p1 = Closing l → ∃ l0, p0 = Closing l0) → owned s'.
Proof.
  intros [Hl Hc Hconn Hcl Hclosers] Hi Ht Hcn Hcp Hcr Ho He Hlive Hheld Hruns Hr Hclo.
  split; rewrite ?Ht ?Hcn ?Hcp ?Hcr ?Ho; [| |done|done|by eapply closers_move].
  - intros h Hh. destruct (Hlive h Hh) as [Hold|Hnew]; [|right; right; by eapply insert_gives].
    destruct (Hl h Hold) as [?|[?|?]]; [by left|by right; left|right; right].
    by eapply (insert_keeps (λ p, h ∈ held p)); [done|apply Hheld|].
  - intros h Hh. by eapply (insert_keeps (runs h)); [done|apply Hruns|apply Hc].
Qed.

Lemma owned_init ts : Forall starting ts → owned (init ts).
Proof.
  intros Hts. assert (Hstart : ∀ i p, ts !! i = Some p → starting p) by (intros; by eapply Forall_lookup_1).
  split; simpl; try done.
  - intros h ->%elem_of_singleton. by left.
  - split; simpl; intros *; intros Hi; destruct (Hstart _ _ Hi) as [?|[?|?]]; done.
Qed.

(** The consumer of a goroutine that ends is unregistered. *)
Lemma owned_unregister s i h e :
  owned s → threads s !! i = Some (ConDefer h e) → owned (StartCheckpointsConsumer_defer i h e s).
Proof.
  intros [Hl Hc Hconn Hcl Hclosers] Hi. unfold StartCheckpointsConsumer_defer.
  assert (Hl' : ∀ h0, h0 ∈ live s → Conn s = Some h0 ∨ checkpoints s = Some h0 ∨
    ∃ j p, <[i := Returned e]> (threads s) !! j = Some p ∧ h0 ∈ held p).
  { intros h0 Hh. destruct (Hl h0 Hh) as [?|[?|?]]; [by left|by right; left|right; right].
    by eapply (insert_keeps (λ p, h0 ∈ held p)). }
  case_decide as Hd; split; simpl; try done; try (by eapply closers_move).
  - intros Hs. by destruct (Hcl Hs).
  - intros h0 Hh0. destruct (Hc h0 Hh0) as (j & p & Hj & Hp). exists j, p.
    rewrite list_lookup_insert_ne //. intros <-. simplify_eq. destruct Hp as [?|[? ?]]; by simplify_eq.
Qed.

Lemma owned_register_publisher s i h :
  owned s → threads s !! i = Some (PubCreated h) → owned (StartCheckpointsPublisher_register i h s).
Proof.
  intros Ho Hi. unfold StartCheckpointsPublisher_register.
  destruct (Conn s) eqn:Hcn; [destruct (checkpoints s) eqn:Hcp|];
    try (eapply (owned_move s); try done; simpl; [set_solver|set_solver|by intros ? [?|[? ?]]]).
  destruct Ho as [Hl Hc Hconn Hcl Hclosers].
  assert (closeOnce s = NotStarted) as Hns by (apply dec_stable; intros Hne%Hconn; congruence).
  split; simpl; rewrite ?Hns; try done; try (by eapply closers_move).
  - intros h0 Hh. destruct (Hl h0 Hh) as [?|[?|Hex]]; [by left|congruence|].
    destruct (decide (h0 = h)) as [->|Hne]; [by right; left|]. right; right.
    eapply (insert_keeps (λ p, h0 ∈ held p)); [done| |done]. simpl. set_solver.
  - intros h0 Hh. eapply (insert_keeps (runs h0)); [done|by intros [?|[? ?]]|by apply Hc].
  - rewrite Hcn. by split.
Qed.

Lemma owned_register_consumer s i h :
  owned s → threads s !! i = Some (ConCreated h) → owned (StartCheckpointsConsumer_register i h s).
Proof.
  intros Ho Hi. unfold StartCheckpointsConsumer_register.
  destruct (Conn s) eqn:Hcn; [destruct (checkpointRequests s) eqn:Hcp|];
    try (eapply (owned_move s); try done; simpl; [set_solver|set_solver|by intros ? [?|[? ?]]]).
  destruct Ho as [Hl Hc Hconn Hcl Hclosers].
  assert (closeOnce s = NotStarted) as Hns by (apply dec_stable; intros Hne%Hconn; congruence).
  split; simpl; rewrite ?Hns; try done; try (by eapply closers_move).
  - intros h0 Hh. destruct (Hl h0 Hh) as [?|[?|Hex]]; [by left|by right; left|]. right; right.
    by eapply (insert_keeps (λ p, h0 ∈ held p)).
  - intros h0 [= <-]. eapply (insert_gives (runs h)); [done|by left].
  - rewrite Hcn. by split.
Qed.

Lemma owned_take_all s i :
  owned s → threads s !! i = Some CloseStart → closeOnce s = NotStarted →
  owned (goto i (Closing (taken s)) (take_all s)).
Proof.
  intros [Hl Hc Hconn Hcl [Hret Hcng Honce]] Hi Hns.
  assert (Hnone : ∀ j l, threads s !! j = Some (Closing l) → False) by (intros j l Hj; apply Hcng in Hj; congruence).
  split; simpl; try done.
  - intros h Hh. right; right. destruct (Hl h Hh) as [Hx|[Hx|Hex]].
    1,2: eapply insert_gives; [done|]; unfold taken; simpl; rewrite Hx; set_solver.
    eapply (insert_keeps (λ p, h ∈ held p)); [done|simpl; set_solver|done].
  - split; simpl.
    + intros j e Hj. apply (insert_cases _ _ CloseStart) in Hj as [[-> ?]|[_ Hj]]; [done| |done].
      apply Hret in Hj as [? _]. congruence.
    + intros j l Hj. done.
    + intros j j' l l' Hj Hj'. apply (insert_cases _ _ CloseStart) in Hj as [[-> ?]|[_ Hj]]; [|by exfalso; eauto|done].
      apply (insert_cases _ _ CloseStart) in Hj' as [[-> ?]|[_ Hj']]; [done|by exfalso; eauto|done].
Qed.

Lemma owned_finish s i err :
  owned s → threads s !! i = Some (Closing []) → owned (goto i (CloseReturned err) (set_once Finished err s)).
Proof.
  intros [Hl Hc Hconn Hcl [Hret Hcng Honce]] Hi. pose proof (Hcng _ _ Hi) as Hrun.
  assert (Hstarted : closeOnce s ≠ NotStarted) by congruence. destruct (Hcl Hstarted) as [Hcp Hcr].
  split; simpl; try done.
  - intros h Hh. destruct (Hl h Hh) as [?|[?|?]]; [by left|by right; left|right; right].
    eapply (insert_keeps (λ p, h ∈ held p)); [done| |done]. simpl. set_solver.
  - intros h Hh. congruence.
  - split; [done|]. intros _. by apply Hconn.
  - split; simpl.
    + intros j e Hj. apply (insert_cases _ _ (Closing [])) in Hj as [[-> ?]|[_ Hj]]; [by simplify_eq| |done].
      apply Hret in Hj as [? _]. congruence.
    + intros j l Hj. apply (insert_cases _ _ (Closing [])) in Hj as [[-> ?]|[Hne Hj]]; [done| |done].
      destruct Hne. by eapply Honce.
    + intros j j' l l' Hj Hj'. apply (insert_cases _ _ (Closing [])) in Hj as [[-> ?]|[_ Hj]]; [done| |done].
      apply (insert_cases _ _ (Closing [])) in Hj' as [[-> ?]|[_ Hj']]; [done|by eauto|done].
Qed.

Ltac moves := eapply owned_move; [done|done|done|done|done|done|done|done|simpl..];
  [set_solver|set_solver|try (by intros ? [?|[? ?]])|try done|try done].

Lemma step_owned s s' : step s s' → owned s → owned s'.
Proof.
  intros Hs Ho. destruct Hs as [i s Hi|i s Hi|i e s Hi|i h s Hi|i s Hi|i s Hi|i e s Hi|i h s Hi|i h s Hi Hd|i h e s Hi
    |i h err s Hi|i s Hi Hn|i h l s Hi|i err s Hi|i s Hi Hf].
  - unfold StartCheckpointsPublisher_read. destruct (Conn s) eqn:?; moves.
  - moves.
  - moves.
  - by apply owned_register_publisher.
  - unfold StartCheckpointsConsumer_read. destruct (Conn s) eqn:?; moves.
  - moves.
  - moves.
  - by apply owned_register_consumer.
  - moves. intros h0 [Heq|[? ?]]; simplify_eq. right. eauto.
  - moves. intros h0 [Heq|[? ?]]; simplify_eq. right. eauto.
  - by apply owned_unregister.
  - by apply owned_take_all.
  - moves. eauto.
  - by apply owned_finish.
  - moves. intros e [= ->]. done.
Qed.

Lemma reachable_owned ts s : Forall starting ts → reachable ts s → owned s.
Proof.
  intros Hts. unfold reachable. apply (rtc_ind_r (λ s, owned s)); [by apply owned_init|].
  intros y z _ Hs Hy. by eapply step_owned.
Qed.

Definition returned (p : pc) : Prop := ∃ e, p = Returned e ∨ p = CloseReturned e.

(** C16: Publishers and consumers can be started by any number of goroutines
    while others close the stream: when all the calls have returned and one of
    them was a close, no connection, publisher or consumer is left open, none
    is registered, and all the closes returned the same error; and without a
    close at most the connection and the registered publisher are open. *)
Theorem stream_releases_handles ts s :
  Forall starting ts → reachable ts s → Forall returned (threads s) →
  checkpointRequests s = None ∧
  (∀ h, h ∈ live s → Conn s = Some h ∨ checkpoints s = Some h) ∧
  (∀ i e, threads s !! i = Some (CloseReturned e) →
     live s = ∅ ∧ Conn s = None ∧ checkpoints s = None ∧ e = closeErr s).
Proof.
  intros Hts Hreach Hret. destruct (reachable_owned _ _ Hts Hreach) as [Hl Hc Hconn Hcl [Hcr _ _]].
  assert (Hdone : ∀ i p, threads s !! i = Some p → returned p) by (intros; by eapply Forall_lookup_1).
  assert (Hlive : ∀ h, h ∈ live s → Conn s = Some h ∨ checkpoints s = Some h).
  { intros h Hh. destruct (Hl h Hh) as [?|[?|(i & p & Hi & Hp)]]; [by left|by right|].
    destruct (Hdone _ _ Hi) as [e [->| ->]]; simpl in Hp; set_solver. }
  split_and!; [|done|].
  - destruct (checkpointRequests s) as [h|] eqn:Heq; [|done]. destruct (Hc h eq_refl) as (i & p & Hi & Hp).
    by destruct (Hdone _ _ Hi) as [e [->| ->]], Hp as [?|[? ?]].
  - intros i e Hi. destruct (Hcr _ _ Hi) as [Hfin ->].
    assert (Hn : closeOnce s ≠ NotStarted) by congruence.
    destruct (Hcl Hn) as [Hp _]. apply Hconn in Hn. split_and!; [|done..].
    apply elem_of_equiv_empty_L. intros h Hh. destruct (Hlive h Hh); congruence.
Qed.
End Lifecycle.

Module LifecycleRun.
Import Lifecycle.

(** A publisher is created while the stream is being closed. *)
Definition calls : list pc := [PubStart; CloseStart; ConStart].

Lemma run : ∃ s, reachable calls s ∧ Forall returned (threads s) ∧ threads s !! 1 = Some (CloseReturned None).
Proof.
  eexists. split; [|split].
  - eapply rtc_l; [by apply (step_pub_read 0)|]. cbn.
    eapply rtc_l; [by apply (step_pub_new 0)|]. cbn.
    eapply rtc_l; [by apply (step_close_first 1)|]. cbn.
    eapply rtc_l; [by apply (step_pub_register 0 1)|]. cbn.
    eapply rtc_l; [by apply (step_close_handle 1 0 [])|]. cbn.
    eapply rtc_l; [by apply (step_close_done 1 None)|]. cbn.
    eapply rtc_l; [by apply (step_con_read 2)|]. apply rtc_refl.
  - cbn. repeat constructor; eexists; by (left + right).
  - done.
Qed.

Lemma stream_releases_handles_witness : ∃ s, reachable calls s ∧ live s = ∅.
Proof.
  destruct run as (s & Hr & Ht & Hc). exists s. split; [done|].
  destruct (stream_releases_handles calls s) as (_ & _ & H); [|done|done|by apply (H 1 None)].
  apply Forall_forall. intros p Hp. unfold starting, calls in *. set_solver.
Defined.
End LifecycleRun.
