(* ===== verification/CheckpointHandler.v ===== *)
(** * Checkpoint requests of a Kubernetes node (plugins/k8s/internal/eventstream/rmq.go)

    What the consumer does with one request: its preparation ([prepare]) is a
    function, and the freezing, dumping and unfreezing of the containers of the
    pod a step relation, since the goroutines that freeze share the variable
    [err] of the handler.  The daemon, the propagator, the broker and the file
    system are parameters. *)

From Stdlib Require Import Ascii.
From S2P Require Import Prelude GoLib Profiling.

Module Handler.
Import GoLib Profiling.
#[local] Arguments String.append : simpl nomatch.

(** ** Messages *)

(** [criu.CriuOpts], as far as the handler sets it. *)
Record CriuOpts := mkCriuOpts {
  LeaveRunning : option bool; TcpEstablished : option bool; TcpSkipInFlight : option bool;
  LinkRemap : option bool; ManageCgroups : option bool; ManageCgroupsMode : option Z;
}.

Definition CG_NONE : Z := 1.
Definition defaultDumpOpts : CriuOpts :=
  mkCriuOpts (Some true) (Some true) (Some true) (Some true) (Some true) (Some CG_NONE).

Record Image := mkImage { ImageName : string; Username : string; Secret : string }.
Record Container := mkContainer {
  ID : string; Bundle : string; cImage : option Image; Address : string; Rootfs : bool; RootfsOnly : bool;
}.

Record checkpointOverrides := mkOverrides {
  oCRIUOpts : string; oDirectory : string; oCompression : string; oStreams : Z; oAsync : bool;
}.
Record checkpointReq := mkReq {
  PodName : string; Namespace : string; Kind : string; ActionId : string; Overrides : option checkpointOverrides;
}.
Record imageSecret := mkSecret { ImageSecret : string; ImageSource : string }.

Record DumpReq := mkDumpReq {
  rName : string; Type_ : string; Criu : CriuOpts; Containerd : Container;
  Compression : string; Dir : string; Streams : Z; Async : bool;
}.
Record ProcessState := mkProcState { GPUEnabled : bool; Platform : string }.
Record DumpResp := mkDumpResp { Paths : list string; rState : option ProcessState }.

Record info := mkInfo { iProfiling : option Data; TotalDuration : Z; TotalIO : Z; iError : string }.
Record checkpointInfo := mkCI {
  ciActionId : string; ciPodId : string; ciCheckpointId : string; ciName : string; ciStatus : string; ciPath : string;
  ciGPU : bool; ciPlatform : string; ciProfiling : option Data * Z * Z; ciInfo : info; ciOrder : nat;
}.

(** What the broker, the daemon, the propagator and the file system answer. *)
Class World := {
  decode_request : string → gores checkpointReq;
  (** the containers of the pods that match *)
  Query : string → string → gores (list (list Container));
  (** the environment in a spec *)
  LoadSpec : string → gores (list string);
  (** the checkpoint that the n-th request to the propagator creates *)
  Post : nat → gores string;
  get_secrets : gores string;
  decode_secret : string → gores imageSecret;
  decode_opts : string → gores CriuOpts;
  (** the calls for the n-th container *)
  Freeze : nat → option error;
  Dump : nat → gores (DumpResp * option Data);
  (** there is no publisher, or publishing fails *)
  publish_error : nat → option error;
  containerdAddress : string;
}.

Section handler.
Context {W : World}.

(** ** Preparation *)

Definition colon : Ascii.ascii := ":"%char.

Definition getImageSecret : gores imageSecret :=
  match get_secrets with
  | Err e => Err e
  | Ok data =>
      match decode_secret data with
      | Err e => Err e
      | Ok secret =>
          if decide (length (Split (ImageSecret secret) colon) <= 1)
          then Err (Errorf "invalid image secret received from propagator") else Ok secret
      end
  end.

(** Loads the spec of every container and creates its checkpoint: the
    checkpoints with the specs as far as it gets, and whether it failed. *)
Fixpoint create_checkpoints (i : nat) (containers : list Container) : list (string * list string) * bool :=
  match containers with
  | [] => ([], false)
  | c :: cs =>
      match LoadSpec (Join2 (Join2 "/host" (Bundle c)) "config.json") with
      | Err _ => ([], true)
      | Ok spec =>
          match Post i with
          | Err _ => ([], true)
          | Ok checkpointId =>
              let '(l, failed) := create_checkpoints (S i) cs in ((checkpointId, spec) :: l, failed)
          end
      end
  end.

Definition set_container (secret : option imageSecret) (rootfsOnly : bool) (checkpointId : string) (c : Container)
    : Container :=
  match secret with
  | Some s =>
      let parts := Split (ImageSecret s) colon in
      mkContainer (ID c) (Bundle c)
        (Some (mkImage (ImageSource s +:+ ":" +:+ checkpointId) (nth 0 parts "") (nth 1 parts "")))
        containerdAddress true rootfsOnly
  | None => mkContainer (ID c) (Bundle c) None containerdAddress (Rootfs c) (RootfsOnly c)
  end.

Definition dump_request (o : option checkpointOverrides) (checkpointId : string) (c : Container) : DumpReq :=
  match o with
  | None => mkDumpReq checkpointId "containerd" defaultDumpOpts c "" "" 0 false
  | Some o =>
      mkDumpReq checkpointId "containerd"
        (match decode_opts (oCRIUOpts o) with Ok opts => opts | Err _ => defaultDumpOpts end) c
        (oCompression o) (oDirectory o) (int32 (oStreams o)) (oAsync o)
  end.

Record Prepared := mkPrepared {
  pReq : checkpointReq;
  checkpointIdMap : list string;
  specMap : list (list string);
  dumpReqs : list DumpReq;
}.

(** The checkpoints that were created, and the requests unless something failed. *)
Definition prepare (body : string) : list string * option Prepared :=
  match decode_request body with
  | Err _ => ([], None)
  | Ok req =>
      match Query (PodName req) (Namespace req) with
      | Err _ | Ok [] | Ok ([] :: _) => ([], None)
      | Ok (containers :: _) =>
          let '(l, failed) := create_checkpoints 0 containers in
          if failed then (l.*1, None)
          else
            let rootfs := HasPrefix (Kind req) "rootfs" in
            let go secret :=
              let cs := zip_with (set_container secret (bool_decide (Kind req = "rootfsonly"))) l.*1 containers in
              (l.*1, Some (mkPrepared req l.*1 l.*2 (zip_with (dump_request (Overrides req)) l.*1 cs))) in
            if rootfs then match getImageSecret with Err _ => (l.*1, None) | Ok s => go (Some s) end else go None
      end
  end.

(** ** Publishing *)

Definition CheckpointName (spec : list string) : string :=
  foldl (λ name env, if HasPrefix env "CEDANA_CHECKPOINT=" then TrimPrefix env "CEDANA_CHECKPOINT=" else name) "" spec.

(** The totals over the flattened profile. *)
Definition add_totals (t : Z * Z) (c : Data) : Z * Z :=
  (if negb (Parallel c || Redundant c) then int64 (t.1 + Duration c) else t.1,
   if negb (Redundant c) then int64 (t.2 + IO c) else t.2).

Definition checkpoint_info (podId actionId checkpointId : string) (profilingData : option Data) (path : string)
    (state : option ProcessState) (order : nat) (spec : list string) (dumpErr : option error) : checkpointInfo :=
  let profile := Flatten <$> (Clean <$> profilingData) in
  let totals := match profile with Some p => foldl add_totals (0, 0)%Z (Components p) | None => (0, 0)%Z end in
  mkCI actionId podId checkpointId (CheckpointName spec)
    (match dumpErr with Some _ => "error" | None => "success" end)
    (match state with Some _ => path | None => "" end)
    (match state with Some s => GPUEnabled s | None => false end)
    (match state with Some s => Platform s | None => "" end)
    (profile, totals.1, totals.2)
    (mkInfo profile totals.1 totals.2 (match dumpErr with Some e => Error e | None => "" end)) order.

(** [publishCheckpoint]: the message that is sent, or the error. *)
Definition publishCheckpoint (podId actionId checkpointId : string) (profilingData : option Data) (path : string)
    (state : option ProcessState) (order : nat) (spec : list string) (dumpErr : option error) : gores checkpointInfo :=
  match publish_error order with
  | Some e => Err e
  | None => Ok (checkpoint_info podId actionId checkpointId profilingData path state order spec dumpErr)
  end.

(** ** Freezing, dumping and unfreezing *)

Inductive event := EFreeze (i : nat) | EDump (i : nat) | EPublish (m : checkpointInfo) | EUnfreeze (i : nat).

(** [Unfreezing k]: the deferred calls for the containers below [k] are left. *)
Inductive Stage := Freezing | Reporting | Dumping | Unfreezing (k : nat) | Acked | Crashed.

(** A goroutine that freezes has called when its number is in [called], and
    has then looked at [err] when it is in [tested]; one that dumps has called
    when it is in [dumped] and has published when it is in [published]. *)
Record State := mkState {
  stage : Stage;
  err : option error;
  errMap : gmap nat error;
  called : gset nat; tested : gset nat; dumped : gset nat; published : gset nat;
  trace : list event;
}.

Section run.
Context (p : Prepared).

Definition n : nat := length (dumpReqs p).
Definition all : gset nat := set_seq 0 n.

(** What is published for a container: an error when freezing failed ... *)
Definition report (i : nat) (e : error) : gores checkpointInfo :=
  publishCheckpoint (PodName (pReq p)) (ActionId (pReq p)) (nth i (checkpointIdMap p) "") None "" None i
    (nth i (specMap p) []) (Some e).

(** ... or the outcome of the dump; the first path of a response without
    paths is a panic. *)
Definition result (i : nat) : option (gores checkpointInfo) :=
  let publish := publishCheckpoint (PodName (pReq p)) (ActionId (pReq p)) (nth i (checkpointIdMap p) "") in
  let spec := nth i (specMap p) [] in
  match Dump i with
  | Err e => Some (publish None "" None i spec (Some e))
  | Ok (resp, profiling) =>
      match Paths resp with
      | [] => None
      | path :: _ => Some (publish profiling path (rState resp) i spec None)
      end
  end.

Definition sent (r : gores checkpointInfo) : list event :=
  match r with Ok m => [EPublish m] | Err _ => [] end.

Definition call_freeze (i : nat) (s : State) : State :=
  mkState (stage s) (Freeze i) (errMap s) ({[i]} ∪ called s) (tested s) (dumped s) (published s) (trace s ++ [EFreeze i]).
Definition test_err (i : nat) (s : State) : State :=
  mkState (stage s) (err s) (match err s with Some e => <[i := e]> (errMap s) | None => errMap s end)
    (called s) ({[i]} ∪ tested s) (dumped s) (published s) (trace s).
Definition call_dump (i : nat) (s : State) : State :=
  mkState (stage s) (err s) (errMap s) (called s) (tested s) ({[i]} ∪ dumped s) (published s) (trace s ++ [EDump i]).
Definition publish (i : nat) (r : gores checkpointInfo) (s : State) : State :=
  mkState (stage s) (err s) (errMap s) (called s) (tested s) (dumped s) ({[i]} ∪ published s) (trace s ++ sent r).
Definition unfreeze (i : nat) (s : State) : State :=
  mkState (Unfreezing i) (err s) (errMap s) (called s) (tested s) (dumped s) (published s) (trace s ++ [EUnfreeze i]).
Definition enter (st : Stage) (s : State) : State :=
  mkState st (err s) (errMap s) (called s) (tested s) (dumped s) (published s) (trace s).

Inductive step : State → State → Prop :=
| step_freeze i s : stage s = Freezing → i ∈ all → i ∉ called s → step s (call_freeze i s)
| step_test i s : stage s = Freezing → i ∈ called s → i ∉ tested s → i ∈ all → step s (test_err i s)
| step_frozen s : stage s = Freezing → all ⊆ tested s → errMap s = ∅ → step s (enter Dumping s)
| step_failed s : stage s = Freezing → all ⊆ tested s → errMap s ≠ ∅ → step s (enter Reporting s)
| step_report i e s : stage s = Reporting → errMap s !! i = Some e → i ∉ published s → step s (publish i (report i e) s)
| step_reported s : stage s = Reporting → dom (errMap s) ⊆ published s → step s (enter (Unfreezing n) s)
| step_dump i s : stage s = Dumping → i ∈ all → i ∉ dumped s → step s (call_dump i s)
| step_publish i r s : stage s = Dumping → i ∈ dumped s → i ∉ published s → i ∈ all → result i = Some r →
    step s (publish i r s)
| step_panic i s : stage s = Dumping → i ∈ dumped s → i ∉ published s → i ∈ all → result i = None → step s (enter Crashed s)
| step_dumped s : stage s = Dumping → all ⊆ published s → step s (enter (Unfreezing n) s)
| step_unfreeze k s : stage s = Unfreezing (S k) → step s (unfreeze k s)
| step_ack s : stage s = Unfreezing 0 → step s (enter Acked s).

(** [err] still holds what the preparation left there. *)
Definition start (e : option error) : State := mkState Freezing e ∅ ∅ ∅ ∅ ∅ [].
Definition reachable (s : State) : Prop := ∃ e, rtc step (start e) s.

(** ** What happened so far *)

Definition freeze_of (e : event) : option nat := match e with EFreeze i => Some i | _ => None end.
Definition dump_of (e : event) : option nat := match e with EDump i => Some i | _ => None end.
Definition publication_of (e : event) : option checkpointInfo := match e with EPublish m => Some m | _ => None end.
Definition unfreeze_of (e : event) : option nat := match e with EUnfreeze i => Some i | _ => None end.

(** What there is to publish for a container, given the errors of freezing. *)
Definition message (errs : gmap nat error) (i : nat) : list checkpointInfo :=
  match errs !! i with
  | Some e => match report i e with Ok m => [m] | Err _ => [] end
  | None => match result i with Some (Ok m) => [m] | _ => [] end
  end.
Definition messages (errs : gmap nat error) (l : list nat) : list checkpointInfo := concat (map (message errs) l).

(** The containers below this number are not unfrozen yet. *)
Definition to_unfreeze (st : Stage) : nat := match st with Unfreezing k => k | Acked => 0 | _ => n end.
Definition unfrozen (k : nat) : list event := EUnfreeze <$> rev (seq k (n - k)).

Definition stage_ok (s : State) : Prop :=
  match stage s with
  | Freezing => dumped s = ∅ ∧ published s = ∅
  | Reporting => all ⊆ tested s ∧ errMap s ≠ ∅ ∧ dumped s = ∅ ∧ published s ⊆ dom (errMap s)
  | Dumping | Crashed => all ⊆ tested s ∧ errMap s = ∅
  | Unfreezing k =>
      k <= n ∧ all ⊆ tested s ∧
      (errMap s ≠ ∅ ∧ dumped s = ∅ ∧ published s = dom (errMap s) ∨ errMap s = ∅ ∧ all ⊆ published s)
  | Acked =>
      all ⊆ tested s ∧
      (errMap s ≠ ∅ ∧ dumped s = ∅ ∧ published s = dom (errMap s) ∨ errMap s = ∅ ∧ all ⊆ published s)
  end.

Record Inv (s : State) : Prop := {
  inv_called : called s ⊆ all;
  inv_tested : tested s ⊆ called s;
  inv_errs : dom (errMap s) ⊆ tested s;
  inv_published : published s ⊆ all ∧ (errMap s = ∅ → published s ⊆ dumped s);
  inv_dumped : dumped s ⊆ all;
  inv_stage : stage_ok s;
  (** the shared error is the outcome of some call, and so is every recorded error *)
  inv_err : called s ≠ ∅ → ∃ j, j ∈ called s ∧ err s = Freeze j;
  inv_recorded i e : errMap s !! i = Some e → ∃ j, j ∈ called s ∧ Freeze j = Some e;
  inv_freezes : NoDup (omap freeze_of (trace s)) ∧ list_to_set (omap freeze_of (trace s)) = called s;
  inv_dumps : NoDup (omap dump_of (trace s)) ∧ list_to_set (omap dump_of (trace s)) = dumped s;
  inv_publications : ∃ l, NoDup l ∧ list_to_set l = published s ∧
    omap publication_of (trace s) = messages (errMap s) l;
  inv_unfreezes : ∃ tr, trace s = tr ++ unfrozen (to_unfreeze (stage s)) ∧ omap unfreeze_of tr = [];
}.

Lemma Inv_start e : Inv (start e).
Proof.
  split; simpl; try set_solver; try (split; [constructor|done]).
  - exists []. split_and!; [constructor|done|done].
  - exists []. unfold unfrozen. simpl. by rewrite Nat.sub_diag.
Qed.

Lemma Inv_enter st s :
  Inv s → to_unfreeze st = to_unfreeze (stage s) → stage_ok (enter st s) → Inv (enter st s).
Proof. intros [] Hu Hst. split; simpl; try done. by rewrite Hu. Qed.

(** An event that is not an unfreezing, before any of them. *)
Lemma unfreezes_snoc tr (e : list event) st :
  to_unfreeze st = n → omap unfreeze_of e = [] →
  (∃ tr0, tr = tr0 ++ unfrozen (to_unfreeze st) ∧ omap unfreeze_of tr0 = []) →
  ∃ tr0, tr ++ e = tr0 ++ unfrozen (to_unfreeze st) ∧ omap unfreeze_of tr0 = [].
Proof.
  intros -> He (tr0 & -> & Htr). unfold unfrozen. rewrite Nat.sub_diag /= app_nil_r.
  exists (tr0 ++ e). by rewrite app_nil_r omap_app Htr He.
Qed.

Lemma snoc_set (l : list nat) (i : nat) (x : gset nat) :
  NoDup l ∧ list_to_set l = x → i ∉ x → NoDup (l ++ [i]) ∧ list_to_set (l ++ [i]) = {[i]} ∪ x.
Proof.
  intros [Hnd <-] Hi. split; [|set_solver]. apply list.NoDup_app. split_and!; [done| |apply NoDup_singleton]. set_solver.
Qed.

Lemma messages_insert errs i e l : i ∉ l → messages (<[i := e]> errs) l = messages errs l.
Proof.
  intros Hi. unfold messages. f_equal. apply map_ext_in. intros j Hj%list_elem_of_In.
  unfold message. rewrite lookup_insert_ne //. by intros ->.
Qed.

Lemma Inv_freeze i s : Inv s → stage s = Freezing → i ∈ all → i ∉ called s → Inv (call_freeze i s).
Proof.
  intros [] Hs Hi Hc. unfold stage_ok in *. rewrite Hs in inv_stage0.
  split; simpl; try done.
  - clear - inv_called0 Hi. set_solver.
  - clear - inv_tested0. set_solver.
  - by rewrite /stage_ok /= Hs.
  - intros _. exists i. clear. set_solver.
  - intros j e Hj. destruct (inv_recorded0 _ _ Hj) as (k & Hk & ?). exists k. split; [|done]. clear - Hk. set_solver.
  - rewrite omap_app /=. by apply snoc_set.
  - by rewrite omap_app /= app_nil_r.
  - by rewrite omap_app /= app_nil_r.
  - apply unfreezes_snoc; [by rewrite Hs|done|done].
Qed.

Lemma Inv_test i s : Inv s → stage s = Freezing → i ∈ called s → i ∉ tested s → Inv (test_err i s).
Proof.
  intros [] Hs Hi Ht. unfold stage_ok in *. rewrite Hs in inv_stage0. destruct inv_stage0 as [Hd Hp].
  split; simpl; try done.
  - clear - inv_tested0 Hi. set_solver.
  - clear - inv_errs0. case_match; set_solver.
  - rewrite Hp. clear. set_solver.
  - by rewrite /stage_ok /= Hs.
  - intros j e. destruct (err s) as [e0|] eqn:He; [|apply inv_recorded0].
    rewrite lookup_insert_Some. intros [[-> ->]|[_ Hj]]; [|by eapply inv_recorded0].
    destruct inv_err0 as (k & Hk & ?); [clear - Hi; set_solver|]. exists k. split; [done|congruence].
  - destruct inv_publications0 as (l & Hnd & Hl & Hm). exists l. split_and!; [done|done|].
    destruct (err s); [|done]. rewrite messages_insert //.
    assert (l = []) as ->; [|by apply not_elem_of_nil]. destruct l; [done|]. clear - Hl Hp. set_solver.
Qed.

Lemma Inv_publish i r s :
  Inv s → stage s = Reporting ∨ stage s = Dumping → i ∈ all → i ∉ published s →
  (errMap s = ∅ → i ∈ dumped s) → (stage s = Reporting → i ∈ dom (errMap s)) →
  message (errMap s) i = match r with Ok m => [m] | Err _ => [] end →
  Inv (publish i r s).
Proof.
  intros [] Hs Hi Hp Hd Hr Hm. assert (to_unfreeze (stage s) = n) by (by destruct Hs as [-> | ->]).
  assert (Hpub : omap publication_of (sent r) = message (errMap s) i) by (rewrite Hm; by destruct r).
  split; simpl; try done.
  - clear - inv_published0 Hi Hd. set_solver.
  - unfold stage_ok in *. simpl. destruct Hs as [Hs|Hs]; rewrite Hs in inv_stage0 |- *; [|done].
    specialize (Hr Hs). clear - inv_stage0 Hr. set_solver.
  - rewrite omap_app. assert (omap freeze_of (sent r) = []) as -> by (by destruct r). by rewrite app_nil_r.
  - rewrite omap_app. assert (omap dump_of (sent r) = []) as -> by (by destruct r). by rewrite app_nil_r.
  - destruct inv_publications0 as (l & Hnd & Hl & Hms). exists (l ++ [i]). split_and!.
    + by apply (snoc_set l i (published s)).
    + by apply (snoc_set l i (published s)).
    + rewrite omap_app Hms Hpub. unfold messages. rewrite map_app concat_app /=. by rewrite app_nil_r.
  - apply unfreezes_snoc; [done|by destruct r|done].
Qed.

Lemma Inv_dump i s : Inv s → stage s = Dumping → i ∈ all → i ∉ dumped s → Inv (call_dump i s).
Proof.
  intros [] Hs Hi Hd. split; simpl; try done.
  - clear - inv_published0. set_solver.
  - clear - inv_dumped0 Hi. set_solver.
  - unfold stage_ok in *. simpl. by rewrite Hs in inv_stage0 |- *.
  - by rewrite omap_app /= app_nil_r.
  - rewrite omap_app /=. by apply snoc_set.
  - by rewrite omap_app /= app_nil_r.
  - apply unfreezes_snoc; [by rewrite Hs|done|done].
Qed.

Lemma Inv_unfreeze k s : Inv s → stage s = Unfreezing (S k) → Inv (unfreeze k s).
Proof.
  intros [] Hs. unfold stage_ok in inv_stage0. rewrite Hs in inv_stage0. destruct inv_stage0 as (Hk & Ht & Hor).
  split; simpl; try done.
  - split_and!; [lia|done|done].
  - by rewrite omap_app /= app_nil_r.
  - by rewrite omap_app /= app_nil_r.
  - by rewrite omap_app /= app_nil_r.
  - destruct inv_unfreezes0 as (tr & Htr & Hu). exists tr. split; [|done]. rewrite Htr Hs /=.
    unfold unfrozen. replace (n - k) with (S (n - S k)) by lia. simpl.
    by rewrite fmap_app (assoc_L (++)).
Qed.

Lemma handler_step_Inv s s' : step s s' → Inv s → Inv s'.
Proof.
  intros Hstep HI. pose proof HI as HI'. destruct Hstep as [i s Hs|i s Hs|s Hs Ht He|s Hs Ht He|i e s Hs He Hp|s Hs Hp
    |i s Hs|i r s Hs Hd Hp Hi Hr|i s Hs Hd Hp Hi Hr|s Hs Hp|k s Hs|s Hs].
  - by apply Inv_freeze.
  - by apply Inv_test.
  - apply Inv_enter; [done|by rewrite Hs|done].
  - apply Inv_enter; [done|by rewrite Hs|]. destruct HI' as [? ? ? ? ? Hst]. unfold stage_ok in *. rewrite Hs in Hst.
    destruct Hst as [Hd Hp]. simpl. rewrite Hp. set_solver.
  - assert (Hdom : i ∈ dom (errMap s)) by (by apply elem_of_dom).
    destruct HI' as [? ? ? ? ? Hst]. apply Inv_publish; [done|by left|set_solver|done| |done|].
    + intros Hem. rewrite Hem in He. done.
    + unfold message. by rewrite He.
  - apply Inv_enter; [done|by rewrite Hs|]. destruct HI' as [? ? ? ? ? Hst]. unfold stage_ok in *. rewrite Hs in Hst.
    destruct Hst as (Ht & He & Hd & Hsub). simpl. split_and!; [done|done|left; split_and!; [done|done|set_solver]].
  - by apply Inv_dump.
  - destruct HI' as [? ? ? ? ? Hst]. unfold stage_ok in Hst. rewrite Hs in Hst. destruct Hst as [Ht He].
    apply Inv_publish; [done|by right|done|done|done|by rewrite Hs|].
    unfold message. rewrite He lookup_empty Hr. by destruct r.
  - apply Inv_enter; [done|by rewrite Hs|]. destruct HI' as [? ? ? ? ? Hst]. unfold stage_ok in *. by rewrite Hs in Hst.
  - apply Inv_enter; [done|by rewrite Hs|]. destruct HI' as [? ? ? ? ? Hst]. unfold stage_ok in *. rewrite Hs in Hst.
    destruct Hst as [Ht He]. simpl. split_and!; [done|done|right; done].
  - by apply Inv_unfreeze.
  - apply Inv_enter; [done|by rewrite Hs|]. destruct HI' as [? ? ? ? ? Hst]. unfold stage_ok in *. rewrite Hs in Hst.
    destruct Hst as (_ & Ht & He). done.
Qed.

Lemma handler_reachable_Inv s : reachable s → Inv s.
Proof.
  intros [e Hr]. revert Hr. apply (rtc_ind_r (λ s, Inv s)); [apply Inv_start|].
  intros y z _ Hs Hy. by eapply handler_step_Inv.
Qed.

(** ** Every request is acknowledged *)

Definition rank (st : Stage) : nat :=
  match st with Freezing => n + 3 | Reporting | Dumping => n + 2 | Unfreezing k => k + 1 | Acked | Crashed => 0 end.
Definition left_in (x : gset nat) : nat := size (all ∖ x).
Definition measure (s : State) : nat :=
  left_in (called s) + left_in (tested s) + left_in (dumped s) + left_in (published s) + rank (stage s).

Lemma left_decreases i (x : gset nat) : i ∈ all → i ∉ x → left_in ({[i]} ∪ x) < left_in x.
Proof. intros. unfold left_in. apply subset_size. set_solver. Qed.

Lemma step_measure s s' : Inv s → step s s' → measure s' < measure s.
Proof.
  intros HI Hs. unfold measure. destruct Hs as [i s Hs Hi Hn|i s Hs Hc Hn Hi|s Hs|s Hs|i e s Hs He Hn|s Hs
    |i s Hs Hi Hn|i r s Hs Hd Hn Hi|i s Hs|s Hs|k s Hs|s Hs]; simpl.
  5: assert (i ∈ all) as Hi by (apply elem_of_dom_2 in He; destruct HI as [Hc Ht Hd]; by apply Hc, Ht, Hd).
  all: try (pose proof (left_decreases i _ Hi Hn); lia).
  all: rewrite Hs /=; lia.
Qed.

Lemma handler_terminates s : Inv s → Acc (flip step) s.
Proof.
  remember (measure s) as m eqn:Hm. revert s Hm. induction (lt_wf m) as [m _ IH]. intros s -> HI.
  constructor. intros s' Hs. unfold flip in Hs.
  eapply IH; [by apply step_measure|done|by eapply handler_step_Inv].
Qed.

Lemma all_or_missing (x : gset nat) : all ⊆ x ∨ ∃ i, i ∈ all ∧ i ∉ x.
Proof.
  destruct (decide (all ⊆ x)) as [|Hn]; [by left|right].
  destruct (set_choose_or_empty (all ∖ x)) as [[i Hi]|He]; [exists i; set_solver|]. destruct Hn. set_solver.
Qed.

Lemma handler_progress s : Inv s → stage s ≠ Acked → stage s ≠ Crashed → ∃ s', step s s'.
Proof.
  intros HI Ha Hc. destruct (stage s) as [| | |k| |] eqn:Hs; try done.
  - destruct (all_or_missing (called s)) as [Hall|(i & Hi & Hn)]; [|eexists; by eapply step_freeze].
    destruct (all_or_missing (tested s)) as [Ht|(i & Hi & Hn)]; [|eexists; eapply step_test; eauto].
    destruct (decide (errMap s = ∅)); eexists; [by apply step_frozen|by apply step_failed].
  - destruct (decide (dom (errMap s) ⊆ published s)) as [|Hn]; [eexists; by apply step_reported|].
    destruct (set_choose_or_empty (dom (errMap s) ∖ published s)) as [[i Hi]|He]; [|destruct Hn; set_solver].
    apply elem_of_difference in Hi as [[e He]%elem_of_dom Hi]. eexists. by eapply step_report.
  - destruct (all_or_missing (dumped s)) as [Hall|(i & Hi & Hn)]; [|eexists; by eapply step_dump].
    destruct (all_or_missing (published s)) as [Hp|(i & Hi & Hn)]; [eexists; by apply step_dumped|].
    destruct (result i) as [r|] eqn:Hr; eexists; [eapply step_publish|eapply step_panic]; eauto.
  - destruct k; eexists; [by apply step_ack|by apply step_unfreeze].
Qed.

Lemma never_crashes s :
  (∀ i resp prof, Dump i = Ok (resp, prof) → Paths resp ≠ []) → reachable s → stage s ≠ Crashed.
Proof.
  intros Hpaths [e Hr]. revert Hr. apply (rtc_ind_r (λ s, stage s ≠ Crashed)); [done|].
  intros y z _ Hs Hy. destruct Hs as [| | | | | | | |i s0 ? ? ? ? Hres| | |]; simpl; try congruence.
  exfalso. unfold result in Hres. destruct (Dump i) as [[resp prof]|] eqn:Hd; [|done].
  specialize (Hpaths _ _ _ Hd). by destruct (Paths resp).
Qed.


(** ** What a request does *)

Lemma omap_unfrozen {A} (f : event → option A) k : (∀ i, f (EUnfreeze i) = None) → omap f (unfrozen k) = [].
Proof. intros Hf. unfold unfrozen. induction (rev (seq k (n - k))); simpl; [done|]. by rewrite Hf. Qed.

Lemma set_seq_perm (l : list nat) : NoDup l → list_to_set l = all → l ≡ₚ seq 0 n.
Proof.
  intros Hnd Hl. apply NoDup_Permutation; [done|apply NoDup_seq|]. intros i.
  rewrite -(elem_of_list_to_set (C := gset nat)) Hl /all elem_of_set_seq elem_of_seq. done.
Qed.

Lemma messages_perm errs l l' : l ≡ₚ l' → messages errs l ≡ₚ messages errs l'.
Proof.
  intros Hp. unfold messages. induction Hp; simpl; [done|by f_equiv| |by etrans].
  rewrite !(assoc_L (++)). f_equiv. by rewrite (comm (++)).
Qed.


(** ** Pods of which the containers agree *)

(** When every call fails, no goroutine can miss it. *)
Lemma all_fail_recorded s :
  (∀ i, i ∈ all → Freeze i ≠ None) → reachable s → tested s ⊆ dom (errMap s).
Proof.
  intros Hf [e Hr]. assert (HI : Inv s) by (apply handler_reachable_Inv; by eexists). revert Hr HI.
  apply (rtc_ind_r (λ s, Inv s → tested s ⊆ dom (errMap s))); [done|].
  intros y z Hy Hs IH _. assert (HI : Inv y) by (apply handler_reachable_Inv; by eexists). specialize (IH HI).
  destruct Hs as [|i s0 Hs Hc Ht Hi| | | | | | | | | |]; simpl; try done.
  destruct HI as [Hca _ _ _ _ _ Herr _ _ _ _ _]. destruct Herr as (j & Hj & Heq); [clear - Hc; set_solver|].
  assert (Hj' : Freeze j ≠ None) by auto. rewrite -Heq in Hj'. destruct (err s0); [|done].
  rewrite dom_insert_L. clear - IH. set_solver.
Qed.

Lemma all_succeed_recorded s : (∀ i, i ∈ all → Freeze i = None) → reachable s → errMap s = ∅.
Proof.
  intros Hf Hr. destruct (handler_reachable_Inv _ Hr) as [Hca _ _ _ _ _ _ Hrec _ _ _ _].
  apply map_empty. intros i. apply eq_None_not_Some. intros [e He].
  destruct (Hrec _ _ He) as (j & Hj & Heq). rewrite Hf in Heq; [by apply Hca|done].
Qed.

Lemma agreed_publications s :
  reachable s → stage s = Acked → (∀ i, i ∈ all → Freeze i = None) ∨ (∀ i, i ∈ all → Freeze i ≠ None) →
  omap publication_of (trace s) ≡ₚ messages (errMap s) (seq 0 n) ∧
  ∀ i, i ∈ all → errMap s !! i = None ↔ Freeze i = None.
Proof.
  intros Hr Hs Hagree. destruct (handler_reachable_Inv _ Hr) as [Hc Ht He [Hp _] Hd Hst _ _ _ _ (lp & Hnd & Hlp & Hpub) _].
  unfold stage_ok in Hst. rewrite Hs in Hst. destruct Hst as [Hall Hor].
  assert (Hset : published s = all ∧ ∀ i, i ∈ all → errMap s !! i = None ↔ Freeze i = None).
  { destruct Hagree as [Hn|Hn].
    - pose proof (all_succeed_recorded _ Hn Hr) as Hem. destruct Hor as [[? _]|[_ Hpa]]; [done|].
      split; [set_solver|]. intros i Hi. by rewrite Hem lookup_empty Hn.
    - pose proof (all_fail_recorded _ Hn Hr) as Hdom. assert (Hrec : dom (errMap s) = all) by set_solver.
      split; [destruct Hor as [(_ & _ & ->)|[_ ?]]; [done|set_solver]|].
      intros i Hi. rewrite -not_elem_of_dom Hrec. specialize (Hn i Hi). naive_solver. }
  destruct Hset as [Hset Hiff]. split; [|done]. rewrite Hpub. apply messages_perm, set_seq_perm; congruence.
Qed.

Section agree.
Context (publishes : ∀ i, publish_error i = None)
        (paths_ok : ∀ i resp prof, Dump i = Ok (resp, prof) → Paths resp ≠ []).

Definition succeeded (errs : gmap nat error) (i : nat) : Prop := errs !! i = None ∧ ∃ r, Dump i = Ok r.

Lemma message_one errs i :
  ∃ m, message errs i = [m] ∧ ciCheckpointId m = nth i (checkpointIdMap p) "" ∧ ciOrder m = i ∧
    (ciStatus m = "success" ↔ succeeded errs i).
Proof.
  unfold message, report, result, publishCheckpoint, succeeded. rewrite publishes.
  destruct (errs !! i) as [e|]; [eexists; split_and!; try done; naive_solver|].
  destruct (Dump i) as [[resp prof]|e] eqn:Hd.
  - specialize (paths_ok _ _ _ Hd). destruct (Paths resp); [done|]. eexists. split_and!; try done. naive_solver.
  - eexists. split_and!; try done. split; [done|]. naive_solver.
Qed.

Lemma messages_ids errs l : ciCheckpointId <$> messages errs l = (λ i, nth i (checkpointIdMap p) "") <$> l.
Proof.
  induction l as [|i l IH]; [done|]. unfold messages in *. simpl. destruct (message_one errs i) as (m & -> & Hid & _).
  simpl. rewrite Hid. f_equal. exact IH.
Qed.

Lemma messages_status errs l m :
  m ∈ messages errs l → ciOrder m ∈ l ∧ (ciStatus m = "success" ↔ succeeded errs (ciOrder m)).
Proof.
  induction l as [|i l IH]; unfold messages in *; simpl; [by intros ?%elem_of_nil|].
  destruct (message_one errs i) as (m0 & -> & _ & Ho & Hs). simpl. rewrite !elem_of_cons.
  intros [->|Hm]; [rewrite Ho; auto|]. destruct (IH Hm). auto.
Qed.

Lemma nth_seq {A} (l : list A) d : (λ i, nth i l d) <$> seq 0 (length l) = l.
Proof.
  apply list_eq. intros i. rewrite list_lookup_fmap. destruct (decide (i < length l)) as [Hi|Hi].
  - rewrite lookup_seq_lt //=. apply lookup_lt_is_Some_2 in Hi as [x Hx]. rewrite Hx. f_equal.
    apply nth_lookup_Some with (d := d) in Hx. done.
  - rewrite lookup_seq_ge /=; [lia|]. symmetry. apply lookup_ge_None. lia.
Qed.
End agree.
End run.

Lemma create_checkpoints_length i cs l : create_checkpoints i cs = (l, false) → length l = length cs.
Proof.
  revert i l. induction cs as [|c cs IH]; intros i l; simpl; [by intros [= <-]|].
  destruct (LoadSpec _); [|done]. destruct (Post i); [|done]. destruct (create_checkpoints (S i) cs) as [l0 f] eqn:Hc.
  intros [= <- ->]. simpl. f_equal. by eapply IH.
Qed.

Lemma prepare_ids body ids p :
  prepare body = (ids, Some p) → checkpointIdMap p = ids ∧ length (dumpReqs p) = length ids.
Proof.
  unfold prepare. intros Hp. destruct (decode_request body) as [req|]; [|done].
  destruct (Query _ _) as [[|[|c cs] pods]|]; try done. destruct (create_checkpoints 0 (c :: cs)) as [l f] eqn:Hc.
  destruct f; [done|]. apply create_checkpoints_length in Hc.
  assert (Hlen : ∀ secret b, length (zip_with (dump_request (Overrides req)) l.*1
    (zip_with (set_container secret b) l.*1 (c :: cs))) = length l.*1).
  { intros. rewrite !length_zip_with length_fmap -Hc. lia. }
  destruct (HasPrefix _ _); [destruct getImageSecret|]; simplify_eq; split; try done; apply Hlen.
Qed.

(** C12: When the containers of a pod agree on being freezable or not (as a
    single container always does), the request is answered in full: the
    messages carry exactly the checkpoints that were created in the
    propagator, and one says success just when its container was frozen and
    dumped. *)
Theorem checkpoints_are_answered body ids p s :
  prepare body = (ids, Some p) → reachable p s → stage s = Acked →
  (∀ i, publish_error i = None) → (∀ i resp prof, Dump i = Ok (resp, prof) → Paths resp ≠ []) →
  (∀ i, i ∈ all p → Freeze i = None) ∨ (∀ i, i ∈ all p → Freeze i ≠ None) →
  ciCheckpointId <$> omap publication_of (trace s) ≡ₚ ids ∧
  ∀ m, m ∈ omap publication_of (trace s) →
    (ciStatus m = "success" ↔ Freeze (ciOrder m) = None ∧ ∃ r, Dump (ciOrder m) = Ok r).
Proof.
  intros [Hids Hn]%prepare_ids Hr Hs Hpub Hpaths Hagree.
  destruct (agreed_publications p s Hr Hs Hagree) as [Hperm Hiff]. split.
  - rewrite Hperm (messages_ids p Hpub Hpaths) Hids. unfold n. by rewrite Hn nth_seq.
  - intros m Hm. rewrite Hperm in Hm. apply (messages_status p Hpub Hpaths) in Hm as [Ho ->].
    unfold succeeded. rewrite Hiff //. apply elem_of_set_seq. apply elem_of_seq in Ho. lia.
Qed.

(** With two containers of which only the first cannot be frozen, the
    goroutines can be scheduled so that the failure is lost, since the second
    one overwrites the shared error before the first one looks at it, and the
    handler goes on to dump both; and also so that the second container, which
    is frozen, is blamed for the failure as well. *)
Theorem freeze_failure_lost p e :
  n p = 2 → Freeze 0 = Some e → Freeze 1 = None →
  (∃ s, reachable p s ∧ stage s = Dumping ∧ errMap s = ∅) ∧
  (∃ s, reachable p s ∧ stage s = Reporting ∧ errMap s = {[0 := e; 1 := e]}).
Proof.
  intros Hn H0 H1.
  assert (Hin : 0 ∈ all p ∧ 1 ∈ all p) by (unfold all; rewrite Hn !elem_of_set_seq; lia).
  assert (Hall : ∀ x : gset nat, 0 ∈ x → 1 ∈ x → all p ⊆ x).
  { intros x ? ? i. unfold all. rewrite Hn elem_of_set_seq. intros Hi. by destruct i as [|[|]]; [| |lia]. }
  destruct Hin as [Hin0 Hin1]. split; eexists; (split; [exists None|]).
  - eapply rtc_l; [apply (step_freeze p 0)|]; [done|done|set_solver|].
    eapply rtc_l; [apply (step_freeze p 1)|]; [done|done|set_solver|].
    eapply rtc_l; [apply (step_test p 0)|]; [done|set_solver|set_solver|done|].
    eapply rtc_l; [apply (step_test p 1)|]; [done|set_solver|set_solver|done|].
    eapply rtc_l; [apply step_frozen|apply rtc_refl]; [done|apply Hall; set_solver|]. simpl. by rewrite H1.
  - simpl. by rewrite H1.
  - eapply rtc_l; [apply (step_freeze p 1)|]; [done|done|set_solver|].
    eapply rtc_l; [apply (step_freeze p 0)|]; [done|done|set_solver|].
    eapply rtc_l; [apply (step_test p 1)|]; [done|set_solver|set_solver|done|].
    eapply rtc_l; [apply (step_test p 0)|]; [done|set_solver|set_solver|done|].
    eapply rtc_l; [apply step_failed|apply rtc_refl]; [done|apply Hall; set_solver|]. simpl. by rewrite H0.
  - simpl. rewrite H0. done.
Qed.

(** The credentials of the image registry are split at every colon, so a
    password that contains one is cut off there. *)
Theorem password_cut_at_colon source user password rest only checkpointId c :
  has_byte colon user = false → has_byte colon password = false →
  cImage (set_container (Some (mkSecret (user +:+ ":" +:+ password +:+ ":" +:+ rest) source)) only checkpointId c) =
    Some (mkImage (source +:+ ":" +:+ checkpointId) user password).
Proof.
  intros Hu Hp. unfold set_container. simpl. do 2 f_equal.
  - by rewrite (Split_append user).
  - by rewrite (Split_append user) //= (Split_append password).
Qed.
End handler.
End Handler.

Module HandlerRun.
Import Handler.

(** A pod with [k] containers that are frozen as [fz] says. *)
Definition world (k : nat) (fz : nat → option error) : World := {|
  decode_request _ := Ok (mkReq "pod" "ns" "rootfs" "a1" None);
  Query _ _ := Ok [replicate k (mkContainer "c" "b" None "" false false)];
  LoadSpec _ := Ok ["CEDANA_CHECKPOINT=nightly"];
  Post i := Ok (GoLib.itoa (N.of_nat i));
  get_secrets := Ok "";
  decode_secret _ := Ok (mkSecret "user:pass" "registry/app");
  decode_opts _ := Err (Errorf "no options");
  Freeze := fz;
  Dump i := Ok (mkDumpResp ["/dump"] (Some (mkProcState true "linux")), None);
  publish_error _ := None;
  containerdAddress := "/run/containerd.sock";
|}.

Definition request (w : World) : Prepared := default (mkPrepared (mkReq "" "" "" "" None) [] [] []) (prepare (W := w) "").2.

Definition good : World := world 1 (λ _, None).
Definition bad : World := world 2 (λ i, if decide (i = 0) then Some (Errorf "busy") else None).

Lemma paths_named i resp prof : @Dump good i = Ok (resp, prof) → Paths resp ≠ [].
Proof. by intros [= <- <-]. Qed.

Lemma run_good : ∃ s, reachable (W := good) (request good) s ∧ stage s = Acked.
Proof.
  eexists. split; [exists None|].
  - eapply rtc_l; [by apply (step_freeze (W := good) (request good) 0)|]. cbn.
    eapply rtc_l; [by apply (step_test (W := good) (request good) 0)|]. cbn.
    eapply rtc_l; [by apply (step_frozen (W := good) (request good))|]. cbn.
    eapply rtc_l; [by apply (step_dump (W := good) (request good) 0)|]. cbn.
    eapply rtc_l; [by eapply (step_publish (W := good) (request good) 0)|]. cbn.
    eapply rtc_l; [by apply (step_dumped (W := good) (request good))|]. cbn.
    eapply rtc_l; [by apply (step_unfreeze (W := good) (request good) 0)|]. cbn.
    eapply rtc_l; [by apply (step_ack (W := good) (request good))|]. apply rtc_refl.
  - done.
Qed.



Lemma checkpoints_are_answered_witness :
  ∃ s, stage s = Acked ∧ ciCheckpointId <$> omap publication_of (trace s) ≡ₚ ["0"].
Proof.
  destruct run_good as (s & Hr & Hs). exists s. split; [done|].
  apply (checkpoints_are_answered (W := good) "" ["0"] (request good) s); [done|done|done|done|apply paths_named|].
  by left.
Defined.

Lemma freeze_failure_lost_witness :
  (∃ s, reachable (W := bad) (request bad) s ∧ stage s = Dumping ∧ errMap s = ∅) ∧
  (∃ s, reachable (W := bad) (request bad) s ∧ stage s = Reporting ∧
        errMap s = {[0 := Errorf "busy"; 1 := Errorf "busy"]}).
Proof. by apply (freeze_failure_lost (W := bad) (request bad) (Errorf "busy")). Defined.

Lemma password_cut_at_colon_witness :
  cImage (set_container (W := good) (Some (mkSecret "user:pa:ss" "registry/app")) false "7"
            (mkContainer "c" "b" None "" false false)) = Some (mkImage "registry/app:7" "user" "pa").
Proof.
  by apply (password_cut_at_colon (W := good) "registry/app" "user" "pa" "ss" false "7"
              (mkContainer "c" "b" None "" false false)).
Defined.

(** A failure after some checkpoints were created leaves them without an answer. *)
Example abandoned_checkpoints :
  prepare (W := {| decode_request := @decode_request good; Query := @Query bad; LoadSpec := @LoadSpec good;
                   Post := λ i, if decide (i = 0) then Ok "ck0" else Err (Errorf "propagator");
                   get_secrets := @get_secrets good; decode_secret := @decode_secret good;
                   decode_opts := @decode_opts good; Freeze := @Freeze good; Dump := @Dump good;
                   publish_error := @publish_error good; containerdAddress := "" |}) "" = (["ck0"], None).
Proof. done. Qed.
End HandlerRun.
