(* ===== verification/PodQuery.v ===== *)
(** * Queries of pods (plugins/k8s)

    The query handler of the Kubernetes plugin asks the containerd plugin for
    all containers of the namespace of Kubernetes, reads from the spec of each
    which pod it belongs to, and groups those that match the request by pod.
    The containers come from [Containerd.Query]; loading a spec belongs to the
    runc plugin, which is not in the repository.  The pods are collected in a Go
    map, whose order is a [MapRange].  [None] is a panic.

    The answer is the partition of the matching containers into pods
    ([Query_groups_containers]), and each state belongs to the container at its
    position in the order of the listing.  A name of the request matches every
    pod whose name it begins, and the order of the pods is left open: the first
    pod can be any of them ([first_pod_arbitrary]), yet a checkpoint request takes the
    first one ([wrong_pod]). *)

From S2P Require Import Prelude GoLib Containerd CheckpointHandler.

Module PodQuery.
Import GoLib.
Import Containerd(Daemon, D, RuncContainer, ProcessState, available, Found, fRunc, fID, FoundContainers, States, Messages).
#[local] Arguments String.append : simpl never.

(** ** The pod of a container *)

(** [specs.Spec], as far as it is used; the process may be nil. *)
Record Spec := mkSpec { Process_Env : option (list string); sAnnotations : gmap string string }.
Record PodInfo := mkInfo {
  ID : string; Name : string; Namespace : string; UID : string; Image : string;
  Env : list string; Annotations : gmap string string; Type_ : string;
}.

Definition CRIO_CONTAINER_TYPE : string := "io.kubernetes.cri-o.ContainerType".
Definition CRIO_IMAGE_NAME : string := "io.kubernetes.cri-o.ImageName".
Definition CRIO_SANDBOX_NAMESPACE : string := "io.kubernetes.pod.namespace".
Definition CRIO_SANDBOX_NAME : string := "io.kubernetes.pod.name".
Definition CRIO_SANDBOX_ID : string := "io.kubernetes.cri-o.SandboxID".
Definition CONTAINER_TYPE : string := "io.kubernetes.cri.container-type".
Definition SANDBOX_ID : string := "io.kubernetes.cri.sandbox-id".
Definition SANDBOX_NAME : string := "io.kubernetes.cri.sandbox-name".
Definition SANDBOX_NAMESPACE : string := "io.kubernetes.cri.sandbox-namespace".
Definition SANDBOX_UID : string := "io.kubernetes.cri.sandbox-uid".
Definition IMAGE_NAME : string := "io.kubernetes.cri.image-name".
Definition SANDBOX_IMAGE_NAME : string := "io.kubernetes.cri.podsandbox.image-name".

Fixpoint GetFirstNonEmptyAnnotation (annotations : gmap string string) (keys : list string) : string :=
  match keys with
  | [] => ""
  | key :: keys =>
      match annotations !! key with
      | Some val => if decide (val = "") then GetFirstNonEmptyAnnotation annotations keys else val
      | None => GetFirstNonEmptyAnnotation annotations keys
      end
  end.

(** It never returns an error. *)
Definition PodInfoFromRunc (spec : Spec) : option (gores PodInfo) :=
  env ← Process_Env spec;
  let first := GetFirstNonEmptyAnnotation (sAnnotations spec) in
  Some (Ok {| ID := first [SANDBOX_ID; CRIO_SANDBOX_ID];
              Name := first [SANDBOX_NAME; CRIO_SANDBOX_NAME];
              Namespace := first [SANDBOX_NAMESPACE; CRIO_SANDBOX_NAMESPACE];
              UID := default "" (sAnnotations spec !! SANDBOX_UID);
              Image := first [IMAGE_NAME; CRIO_IMAGE_NAME; SANDBOX_IMAGE_NAME];
              Env := env; Annotations := sAnnotations spec;
              Type_ := first [CONTAINER_TYPE; CRIO_CONTAINER_TYPE] |}).

(** ** The query *)

Section query.
Context {DM : Daemon} `{MR : MapRange}.
(** The runc plugin: the bundle of a container, the loading of its spec and the
    name of the file. *)
Context (Bundle : RuncContainer → string) (LoadSpec : string → gores Spec) (SpecConfigFile : string).

Record K8sReq := mkReq { Names : list string; rNamespace : string; ContainerType : string }.
Record Pod := mkPod { PodID : string; PodName : string; PodNamespace : string; PodUID : string; PodContainers : list Found }.
Record Resp := mkResp { Pods : list Pod; rStates : list (option ProcessState); rMessages : list string }.

(** [containerd_utils.Runtime]. *)
Definition Runtime (c : Found) : string := match fRunc c with Some _ => "runc" | None => "unsupported" end.

(** The tests that skip a container. *)
Definition matches (req : K8sReq) (info : PodInfo) : bool :=
  (bool_decide (Names req = []) || existsb (HasPrefix (Name info)) (Names req)) &&
  (bool_decide (rNamespace req = "") || bool_decide (rNamespace req = Namespace info)) &&
  (bool_decide (ContainerType req = "") || bool_decide (ContainerType req = Type_ info)).

(** One container: the messages about it, and its pod unless it is skipped. *)
Definition inspect (req : K8sReq) (c : Found) : option (list string * option PodInfo) :=
  let runtime := Runtime c in
  if decide (runtime = "runc") then
    match fRunc c with
    | None => Some ([fID c +:+ ": missing runc details"], None)
    | Some runc =>
        match LoadSpec (Join2 (Bundle runc) SpecConfigFile) with
        | Err e => Some ([fID c +:+ ": failed to load runc spec: " +:+ Error e], None)
        | Ok spec =>
            info ← PodInfoFromRunc spec;
            match info with
            | Err e => Some ([fID c +:+ ": failed to get pod info from runc container: " +:+ Error e], None)
            | Ok info => Some ([], if matches req info then Some info else None)
            end
        end
    end
  else if decide (runtime = "unsupported") then Some ([fID c +:+ ": unsupported lower runtime"], None)
  else Some ([fID c +:+ ": unsupported lower runtime `" +:+ runtime +:+ "`"], None).

Definition add_container (c : Found) (p : Pod) : Pod :=
  mkPod (PodID p) (PodName p) (PodNamespace p) (PodUID p) (PodContainers p ++ [c]).
Definition new_pod (info : PodInfo) : Pod := mkPod (ID info) (Name info) (Namespace info) (UID info) [].
(** The pod of a container, made when it is not there yet. *)
Definition take_container (podMap : gmap string Pod) (x : PodInfo * Found) : gmap string Pod :=
  <[ID x.1 := add_container x.2 (default (new_pod x.1) (podMap !! ID x.1))]> podMap.

Record Acc := mkAcc { podMap : gmap string Pod; states : list (option ProcessState); messages : list string }.

(** The containers from the [i]-th on; the states are those of the answer of
    the containerd plugin. *)
Fixpoint pods_loop (req : K8sReq) (all : list (option ProcessState)) (i : nat) (l : list Found) (a : Acc) : option Acc :=
  match l with
  | [] => Some a
  | c :: l =>
      '(msgs, sel) ← inspect req c;
      match sel with
      | None => pods_loop req all (S i) l (mkAcc (podMap a) (states a) (messages a ++ msgs))
      | Some info =>
          s ← all !! i;
          pods_loop req all (S i) l (mkAcc (take_container (podMap a) (info, c)) (states a ++ [s]) (messages a ++ msgs))
      end
  end.

Definition CONTAINERD_NAMESPACE : string := "k8s.io".

Definition ContainerdClient_Query (q : option K8sReq) (d : D) : option (gores Resp) :=
  match available "QueryHandler" "containerd" with
  | Some e => Some (Err (Errorf ("failed to get containerd query handler: " +:+ Error e)))
  | None =>
      match Containerd.Query (Some (Containerd.mkQuery "" CONTAINERD_NAMESPACE [])) d with
      | Err e => Some (Err (Errorf ("failed to query containerd: " +:+ Error e)))
      | Ok answer =>
          req ← q;
          a ← pods_loop req (States answer) 0 (FoundContainers answer) (mkAcc ∅ [] (Messages answer));
          Some (Ok (mkResp (Range (podMap a)).*2 (states a) (messages a)))
      end
  end.

Inductive RuntimeClient := ContainerdClient | CrioClient.

Definition RUNTIME : string := "containerd".
Definition CurrentRuntimeClient (runtime : string) : gores RuntimeClient :=
  if decide (runtime = "containerd") then Ok ContainerdClient
  else if decide (runtime = "crio") then Ok CrioClient
  else Err (Errorf ("unsupported runtime: " +:+ runtime)).

Definition client_Query (c : RuntimeClient) (q : option K8sReq) (d : D) : option (gores Resp) :=
  match c with
  | ContainerdClient => ContainerdClient_Query q d
  | CrioClient => Some (Err (Errorf "not implemented"))
  end.

Definition Query (q : option K8sReq) (d : D) : option (gores Resp) :=
  match CurrentRuntimeClient RUNTIME with
  | Err e => Some (Err (Status Internal ("failed to get current k8s runtime client: " +:+ Error e)))
  | Ok c => client_Query c q d
  end.

(** ** What is selected *)

Definition select (req : K8sReq) (c : Found) : option (PodInfo * Found) :=
  match inspect req c with Some (_, Some info) => Some (info, c) | _ => None end.

Definition selected_state (req : K8sReq) (x : Found * option ProcessState) : option (option ProcessState) :=
  match select req x.1 with Some _ => Some x.2 | None => None end.

Lemma select_matches req c x : select req c = Some x → x.2 = c ∧ matches req x.1 = true.
Proof.
  unfold select, inspect. intros H. case_decide; [|by case_decide]. destruct (fRunc c); [|done]. destruct (LoadSpec _); [|done].
  unfold PodInfoFromRunc in H. destruct (Process_Env _); [|done]. cbn [mbind option_bind] in H.
  destruct (matches req _) eqn:Hm; [|done]. by injection H as <-.
Qed.

(** The pod of an ID, as the containers that are selected give it. *)
Definition pod_for (id : string) (sel : list (PodInfo * Found)) : option Pod :=
  match filter (λ x, ID x.1 = id) sel with
  | [] => None
  | (info, c) :: l => Some (mkPod id (Name info) (Namespace info) (UID info) (c :: l.*2))
  end.

Lemma pod_for_snoc id sel x : pod_for id (sel ++ [x]) =
  if decide (ID x.1 = id) then Some (add_container x.2 (default (new_pod x.1) (pod_for id sel))) else pod_for id sel.
Proof.
  unfold pod_for. rewrite list.filter_app list.filter_cons list.filter_nil. case_decide as Hid; [|by rewrite app_nil_r].
  destruct (filter _ sel) as [|[info c] l]; simpl.
  - subst id. destruct x as [info c]. reflexivity.
  - unfold add_container. simpl. by rewrite fmap_app.
Qed.

Lemma take_containers sel id : foldl take_container ∅ sel !! id = pod_for id sel.
Proof.
  induction sel as [|x sel IH] using rev_ind; [done|]. rewrite foldl_app pod_for_snoc. cbn [foldl].
  unfold take_container at 1. case_decide as Hid.
  - subst id. by rewrite lookup_insert_eq IH.
  - by rewrite lookup_insert_ne.
Qed.

Lemma pod_for_ID id sel p : pod_for id sel = Some p → PodID p = id.
Proof. unfold pod_for. destruct (filter _ _) as [|[info c] l]; [done|]. by intros [= <-]. Qed.

(** The loop selects what [select] does, with the states at the same places. *)
Lemma pods_loop_spec req all l : ∀ i a, length all = i + length l →
  (∀ c, c ∈ l → is_Some (inspect req c)) →
  ∃ a', pods_loop req all i l a = Some a' ∧
    podMap a' = foldl take_container (podMap a) (omap (select req) l) ∧
    states a' = states a ++ omap (selected_state req) (zip l (drop i all)).
Proof.
  induction l as [|c l IH]; intros i a Hlen Hins; cbn [length] in Hlen.
  { exists a. by rewrite /= app_nil_r. }
  destruct (Hins c) as [[msgs sel] Hi]; [by left|]. cbn [pods_loop]. rewrite Hi. cbn [mbind option_bind].
  destruct (lookup_lt_is_Some_2 all i) as [s Hs]; [lia|].
  assert (select req c = (λ info, (info, c)) <$> sel) as Hsel by (unfold select; rewrite Hi; by destruct sel).
  rewrite (drop_S _ _ _ Hs). cbn [zip zip_with omap list_omap]. unfold selected_state at 1. cbn [fst snd]. rewrite Hsel.
  assert (∀ c, c ∈ l → is_Some (inspect req c)) as Hins' by (intros c' ?; apply Hins; by right).
  destruct sel as [info|]; cbn [fmap option_fmap option_map].
  - rewrite Hs. cbn [mbind option_bind].
    destruct (IH (S i) (mkAcc (take_container (podMap a) (info, c)) (states a ++ [s]) (messages a ++ msgs))) as (a' & Hl & Hp & Hst);
      [lia|done|]. exists a'. split; [done|]. split; [by rewrite Hp|]. by rewrite Hst /= -app_assoc.
  - destruct (IH (S i) (mkAcc (podMap a) (states a) (messages a ++ msgs))) as (a' & Hl & Hp & Hst); [lia|done|].
    exists a'. split; [done|]. split; [by rewrite Hp|by rewrite Hst].
Qed.

Lemma inspect_is_Some req c :
  (∀ runc spec, fRunc c = Some runc → LoadSpec (Join2 (Bundle runc) SpecConfigFile) = Ok spec → is_Some (Process_Env spec)) →
  is_Some (inspect req c).
Proof.
  intros Hp. unfold inspect. case_decide; [|case_decide; done]. destruct (fRunc c) as [runc|]; [|done].
  destruct (LoadSpec _) as [spec|e] eqn:Hl; [|done]. destruct (Hp runc spec eq_refl Hl) as [env He].
  unfold PodInfoFromRunc. by rewrite He.
Qed.

Lemma length_selected_states req (l : list Found) ss :
  length l = length ss → length (omap (selected_state req) (zip l ss)) = length (omap (select req) l).
Proof.
  revert ss. induction l as [|c l IH]; intros [|s ss] Hlen; [done..|]. injection Hlen as Hlen.
  cbn [zip zip_with omap list_omap]. specialize (IH ss Hlen).
  unfold selected_state at 1. cbn [fst snd]. destruct (select req c); cbn [length]; by rewrite IH.
Qed.

(** What a query answers, in terms of the pods it collects. *)
Lemma Query_runs req d answer :
  available "QueryHandler" "containerd" = None →
  Containerd.Query (Some (Containerd.mkQuery "" CONTAINERD_NAMESPACE [])) d = Ok answer →
  (∀ c, c ∈ FoundContainers answer → is_Some (inspect req c)) →
  let sel := omap (select req) (FoundContainers answer) in
  ∃ msgs, Query (Some req) d = Some (Ok (mkResp (Range (foldl take_container ∅ sel)).*2
    (omap (selected_state req) (zip (FoundContainers answer) (States answer))) msgs)).
Proof.
  intros Ha Hq Hins sel. destruct (Containerd.Query_pairs_states _ _ _ Hq) as [Hlen _].
  destruct (pods_loop_spec req (States answer) (FoundContainers answer) 0 (mkAcc ∅ [] (Messages answer))) as (a' & Hl & Hp & Hst);
    [by rewrite Hlen|done|].
  exists (messages a'). unfold Query. change (CurrentRuntimeClient RUNTIME) with (Ok ContainerdClient).
  unfold client_Query, ContainerdClient_Query.
  rewrite Ha Hq. cbn [mbind option_bind]. rewrite Hl. cbn [mbind option_bind]. by rewrite Hp Hst drop_0.
Qed.

Lemma elem_of_collected sel p : p ∈ (Range (foldl take_container ∅ sel)).*2 ↔ pod_for (PodID p) sel = Some p.
Proof.
  rewrite list_elem_of_fmap. split.
  - intros ([id p'] & -> & Hin). apply elem_of_Range in Hin. rewrite take_containers in Hin. cbn [snd].
    by rewrite (pod_for_ID _ _ _ Hin).
  - intros Hp. exists (PodID p, p). split; [done|]. apply elem_of_Range. by rewrite take_containers.
Qed.

Lemma collected_IDs sel : PodID <$> (Range (foldl take_container ∅ sel)).*2 = (Range (foldl take_container ∅ sel)).*1.
Proof.
  rewrite -list_fmap_compose. apply list_fmap_ext. intros i [id p] Hin%list_elem_of_lookup_2. apply elem_of_Range in Hin.
  rewrite take_containers in Hin. by apply pod_for_ID in Hin.
Qed.

(** Unless a spec without process is loaded, a query answers the partition of
    the matching containers into pods: one pod for each ID, with the matching
    containers of this ID in the order of the listing.  The states are those of
    the matching containers, in the order of the listing. *)
Theorem Query_groups_containers req d answer :
  available "QueryHandler" "containerd" = None →
  Containerd.Query (Some (Containerd.mkQuery "" CONTAINERD_NAMESPACE [])) d = Ok answer →
  (∀ c runc spec, c ∈ FoundContainers answer → fRunc c = Some runc →
     LoadSpec (Join2 (Bundle runc) SpecConfigFile) = Ok spec → is_Some (Process_Env spec)) →
  let sel := omap (select req) (FoundContainers answer) in
  ∃ r, Query (Some req) d = Some (Ok r) ∧ NoDup (PodID <$> Pods r) ∧
    (∀ p, p ∈ Pods r ↔ pod_for (PodID p) sel = Some p) ∧
    rStates r = omap (selected_state req) (zip (FoundContainers answer) (States answer)) ∧
    length (rStates r) = length sel.
Proof.
  intros Ha Hq Hp sel. destruct (Query_runs req d answer Ha Hq) as [msgs Hr].
  { intros c Hc. apply inspect_is_Some. intros runc spec. by apply Hp. }
  eexists. split; [exact Hr|]. cbn [Pods rStates]. split; [rewrite collected_IDs; apply NoDup_Range_fst|].
  split; [intros p; apply elem_of_collected|]. split; [done|].
  destruct (Containerd.Query_pairs_states _ _ _ Hq) as [Hlen _]. by apply length_selected_states.
Qed.

(** Every pod that is answered matches the request: it has the namespace of the
    request and a name of it as a prefix, if they are given. *)
Theorem Query_pods_match req d answer r p :
  available "QueryHandler" "containerd" = None →
  Containerd.Query (Some (Containerd.mkQuery "" CONTAINERD_NAMESPACE [])) d = Ok answer →
  (∀ c, c ∈ FoundContainers answer → is_Some (inspect req c)) →
  Query (Some req) d = Some (Ok r) → p ∈ Pods r →
  (Names req = [] ∨ ∃ n, n ∈ Names req ∧ HasPrefix (PodName p) n = true) ∧
  (rNamespace req = "" ∨ rNamespace req = PodNamespace p) ∧ PodContainers p ≠ [].
Proof.
  intros Ha Hq Hins Hr Hin. destruct (Query_runs req d answer Ha Hq Hins) as [msgs Hr']. rewrite Hr' in Hr. simplify_eq.
  cbn [Pods] in Hin. apply elem_of_collected in Hin. unfold pod_for in Hin.
  destruct (filter _ _) as [|[info c] l] eqn:Hf; [done|]. injection Hin as <-. cbn [PodName PodNamespace PodContainers].
  assert ((info, c) ∈ omap (select req) (FoundContainers answer)) as Hsel.
  { assert ((info, c) ∈ filter (λ x : PodInfo * Found, ID x.1 = PodID p) (omap (select req) (FoundContainers answer))) as Hx
      by (rewrite Hf; left). by apply list_elem_of_filter in Hx as [_ Hx]. }
  apply list_elem_of_omap in Hsel as (c' & _ & Hsel). apply select_matches in Hsel as [_ Hm].
  unfold matches in Hm. apply andb_true_iff in Hm as [[Hn Hns]%andb_true_iff _]. split_and!; [| |done].
  - apply orb_true_iff in Hn as [Hn|Hn]; [left; by apply bool_decide_eq_true in Hn|right]. apply existsb_exists in Hn as (n & Hin' & Hn).
    exists n. by rewrite list_elem_of_In.
  - apply orb_true_iff in Hns as [Hn'|Hn']; apply bool_decide_eq_true in Hn'; auto.
Qed.
End query.

(** ** The order of the pods *)

(** The order that starts with a key, if the map has it. *)
Definition Range_from (key : string) {A} (m : gmap string A) : list (string * A) :=
  match m !! key with Some x => (key, x) :: map_to_list (delete key m) | None => map_to_list m end.

Lemma Range_from_perm key {A} (m : gmap string A) : Range_from key m ≡ₚ map_to_list m.
Proof. unfold Range_from. destruct (m !! key) as [x|] eqn:Hx; [|done]. by rewrite map_to_list_delete. Qed.

Definition starting_with (key : string) : MapRange := {| Range A := Range_from key; Range_perm A := Range_from_perm key |}.

(** Whichever pod a query answers, there is an order of the map in which it is
    the first one of the answer. *)
Theorem first_pod_arbitrary {DM : Daemon} {MR : MapRange} Bundle LoadSpec file req d answer r p :
  available "QueryHandler" "containerd" = None →
  Containerd.Query (Some (Containerd.mkQuery "" CONTAINERD_NAMESPACE [])) d = Ok answer →
  (∀ c, c ∈ FoundContainers answer → is_Some (inspect Bundle LoadSpec file req c)) →
  Query (MR := MR) Bundle LoadSpec file (Some req) d = Some (Ok r) → p ∈ Pods r →
  ∃ r', Query (MR := starting_with (PodID p)) Bundle LoadSpec file (Some req) d = Some (Ok r') ∧ head (Pods r') = Some p.
Proof.
  intros Ha Hq Hins Hr Hin. destruct (Query_runs (MR := MR) _ _ _ req d answer Ha Hq Hins) as [msgs Hr']. rewrite Hr' in Hr. simplify_eq.
  apply elem_of_collected in Hin.
  destruct (Query_runs (MR := starting_with (PodID p)) _ _ _ req d answer Ha Hq Hins) as [msgs' Hr'']. eexists. split; [exact Hr''|].
  cbn [Pods Range starting_with]. unfold Range_from. by rewrite take_containers Hin.
Qed.

(** ** A checkpoint request for a pod whose name begins that of another one *)

#[local] Instance daemon0 : Daemon := Containerd.Sample.sample false.
Definition bundle0 (c : RuncContainer) : string := c.

Definition web : Containerd.Info := Containerd.mkInfo "nginx" "key" "overlayfs" "io.containerd.runc.v2".
Definition store0 : D := Containerd.Sample.mkStore {["c1" := web; "c2" := web]} ∅.
Definition spec_of (id name : string) : Spec :=
  mkSpec (Some []) {[SANDBOX_ID := id; SANDBOX_NAME := name; SANDBOX_NAMESPACE := "default"; CONTAINER_TYPE := "container"]}.
Definition LoadSpec0 (path : string) : gores Spec :=
  if decide (path = "c1/config.json") then Ok (spec_of "s1" "web") else Ok (spec_of "s2" "web-2").
Definition answer0 : @Containerd.QueryResp daemon0 :=
  match @Containerd.Query daemon0 (Some (Containerd.mkQuery "" CONTAINERD_NAMESPACE [])) store0 with
  | Ok r => r
  | Err _ => Containerd.mkResp [] [] []
  end.
Definition Query0 (MR : MapRange) (name ns : string) : option (gores Resp) :=
  Query (MR := MR) bundle0 LoadSpec0 "config.json" (Some (mkReq [name] ns "container")) store0.

Lemma LoadSpec0_process path spec : LoadSpec0 path = Ok spec → is_Some (Process_Env spec).
Proof.
  assert (∀ id name, is_Some (Process_Env (spec_of id name))) as H by done.
  unfold LoadSpec0. destruct (decide _); intros [= <-]; apply H.
Qed.

Lemma answer0_ok : Containerd.Query (Some (Containerd.mkQuery "" CONTAINERD_NAMESPACE [])) store0 = Ok answer0.
Proof.
  assert (is_ok (@Containerd.Query daemon0 (Some (Containerd.mkQuery "" CONTAINERD_NAMESPACE [])) store0) = true) as H
    by (vm_compute; reflexivity).
  unfold answer0. revert H. by destruct (Containerd.Query _ store0).
Qed.

Lemma answer0_processes (c : @Found daemon0) runc spec :
  c ∈ FoundContainers answer0 → fRunc c = Some runc →
  LoadSpec0 (Join2 (bundle0 runc) "config.json") = Ok spec → is_Some (Process_Env spec).
Proof. intros _ _. apply LoadSpec0_process. Qed.

Example Query_groups_containers_witness :
  ∃ r, Query0 default_MapRange "web" "default" = Some (Ok r) ∧ NoDup (PodID <$> Pods r) ∧ length (rStates r) = 2.
Proof.
  destruct (Query_groups_containers bundle0 LoadSpec0 "config.json" (mkReq ["web"] "default" "container") store0 answer0
    eq_refl answer0_ok answer0_processes) as (r & Hr & Hnd & _ & _ & Hlen).
  exists r. split; [exact Hr|]. split; [exact Hnd|]. rewrite Hlen. vm_compute. reflexivity.
Defined.

(** The containers of a pod as a checkpoint request takes them. *)
Definition handler_containers (p : Pod) : list Handler.Container :=
  (λ c, Handler.mkContainer (fID c) (default "" (bundle0 <$> fRunc c)) None "" false false) <$> PodContainers p.
Definition handler_Query (MR : MapRange) (name ns : string) : gores (list (list Handler.Container)) :=
  match Query0 MR name ns with
  | Some (Ok r) => Ok (handler_containers <$> Pods r)
  | Some (Err e) => Err e
  | None => Err (Errorf "panic")
  end.
Definition world0 (MR : MapRange) : Handler.World := {|
  Handler.decode_request _ := Ok (Handler.mkReq "web" "default" "criu" "a1" None);
  Handler.Query := handler_Query MR;
  Handler.LoadSpec _ := Ok [];
  Handler.Post i := Ok (itoa (N.of_nat i));
  Handler.get_secrets := Ok "";
  Handler.decode_secret _ := Err (Errorf "none");
  Handler.decode_opts _ := Err (Errorf "none");
  Handler.Freeze _ := None;
  Handler.Dump _ := Err (Errorf "none");
  Handler.publish_error _ := None;
  Handler.containerdAddress := "";
|}.

(** Although there is a pod of the requested name, the container that is dumped
    for the request is that of the other pod. *)
Example wrong_pod :
  match Query0 (starting_with "s2") "web" "default" with
  | Some (Ok r) => (λ p, (PodName p, fID <$> PodContainers p)) <$> Pods r
  | _ => []
  end = [("web-2", ["c2"]); ("web", ["c1"])] ∧
  (λ pr, Handler.ID ∘ Handler.Containerd <$> Handler.dumpReqs pr) <$>
    (Handler.prepare (W := world0 (starting_with "s2")) "").2 = Some ["c2"].
Proof. split; vm_compute; reflexivity. Qed.
End PodQuery.
