(* ===== verification/Storage.v ===== *)
(** * Checkpoint storage

    The [Storage] interface (pkg/io/storage.go), its implementations on the
    local file system (internal/cedana/filesystem/storage.go) and on S3
    (plugins/storage-s3), and the adapters that put a dump into a storage and
    take it out again for a restore (internal/cedana/filesystem).
    The S3 service is the part of the world that holds buckets and objects.
    Logging and the profiling of the transfers are left out. *)

From S2P Require Import Prelude GoLib Criu Compression Files.
Import GoLib Criu Compression Files.

Module Storage.

(** The local files, the buckets and objects of the S3 service, the files of
    Cedana's own service ([CedanaStorage]), the paths of the response being
    built ([resp.Paths]) and the uploads handed to the daemon's wait group
    ([opts.WG.Go]), as (images directory, tarball, compression). *)
Record World := mkWorld {
  wfs : FS;
  buckets : gset string;
  objects : gmap (string * string) string;
  managed : gmap string string;
  Paths : list string;
  background : list (string * string * string);
}.

Definition set_fs (fs : FS) (w : World) : World :=
  mkWorld fs (buckets w) (objects w) (managed w) (Paths w) (background w).
Definition set_objects (o : gmap (string * string) string) (w : World) : World :=
  mkWorld (wfs w) (buckets w) o (managed w) (Paths w) (background w).
Definition set_managed (m : gmap string string) (w : World) : World :=
  mkWorld (wfs w) (buckets w) (objects w) m (Paths w) (background w).
Definition add_path (p : string) (w : World) : World :=
  mkWorld (wfs w) (buckets w) (objects w) (managed w) (Paths w ++ [p]) (background w).
Definition add_background (u : string * string * string) (w : World) : World :=
  mkWorld (wfs w) (buckets w) (objects w) (managed w) (Paths w) (background w ++ [u]).

(** The interface, as far as dumps and restores use it.  The bytes written to
    a created file are given to [Written] when they are written and again to
    [Closed] when it is closed, with the error the storage then reports. *)
Record Storage := mkStorage {
  IsRemote : bool;
  Open : string → World → gores Reader;
  Create : string → World → gores World;
  Written : string → string → World → World;
  Closed : string → string → World → option error * World;
  Delete : string → World → option error * World;
}.

(** ** The local file system *)

Definition fs_Open (path : string) (w : World) : gores Reader :=
  match wfs w !! resolve path with
  | Some (Reg data) => Ok (eof data)
  | Some Dir => Ok (mkReader "" (Some (os_error "read" (resolve path) "is a directory")))
  | _ => Err (Errorf ("failed to open file: " +:+
                Error (os_error "open" (resolve path) "no such file or directory")))
  end.

Definition fs_Create (path : string) (w : World) : gores World :=
  match Files.Create (resolve path) (wfs w) with
  | Ok fs => Ok (set_fs fs w)
  | Err e => Err (Errorf ("failed to create file: " +:+ Error e))
  end.

(** [os.Remove] of a file; a directory must be empty. *)
Definition fs_Delete (path : string) (w : World) : option error * World :=
  let p := resolve path in
  let fail what := (Some (Errorf ("failed to delete file: " +:+ Error (os_error "remove" p what))), w) in
  match wfs w !! p with
  | None => fail "no such file or directory"
  | Some Dir =>
      if decide (filter (λ k, p `prefix_of` k ∧ k ≠ p) (map_to_list (wfs w)).*1 = [])
      then (None, set_fs (delete p (wfs w)) w) else fail "directory not empty"
  | Some _ => (None, set_fs (delete p (wfs w)) w)
  end.

(** Bytes written to an open file are in the file at once; closing it for the
    first time does not fail. *)
Definition fs_storage : Storage := {|
  IsRemote := false;
  Open := fs_Open;
  Create := fs_Create;
  Written path data w := set_fs (<[resolve path := Reg data]> (wfs w)) w;
  Closed path data w := (None, w);
  Delete := fs_Delete;
|}.

(** ** S3 *)

Definition S3_PREFIX : string := "s3://".

(** [strings.SplitN(s, sep, 2)] when it has two parts. *)
Fixpoint Cut (s : string) (sep : Ascii.ascii) : option (string * string) :=
  match s with
  | EmptyString => None
  | String x s' =>
      if bool_decide (x = sep) then Some (EmptyString, s')
      else '(a, b) ← Cut s' sep; Some (String x a, b)
  end.

Definition s3_sanitizePath (path : string) : gores (string * string) :=
  if negb (HasPrefix path S3_PREFIX) then Err (Errorf ("path must start with " +:+ S3_PREFIX))
  else
    let path := TrimPrefix (TrimPrefix path S3_PREFIX) "/" in
    if decide (path = "") then Err (Errorf "path cannot be empty")
    else match Cut path slash with
         | None => Err (Errorf ("path must be of the form " +:+ S3_PREFIX +:+ "<bucket>/<key>"))
         | Some bk => Ok bk
         end.

(** [HeadBucket] fails for a bucket that does not exist. *)
Definition s3_bucket_check (bucket : string) (w : World) : gores unit :=
  if decide (bucket ∈ buckets w) then Ok tt
  else Err (Errorf ("failed to access bucket " +:+ bucket)).

(** [Storage.Open]; the object is requested by the first [File.Read]. *)
Definition s3_Open (path : string) (w : World) : gores Reader :=
  '(bucket, key) ← s3_sanitizePath path;
  _ ← s3_bucket_check bucket w;
  mret (match objects w !! (bucket, key) with
        | Some data => eof data
        | None => mkReader "" (Some (Errorf (bucket +:+ "/" +:+ key +:+ " does not exist")))
        end).

Definition s3_Create (path : string) (w : World) : gores World :=
  '(bucket, key) ← s3_sanitizePath path;
  _ ← s3_bucket_check bucket w;
  mret w.

(** [File.Close] waits for the upload, which [File.Write] starts with the
    first bytes: nothing written means nothing uploaded.  [upload] is what the
    service answers. *)
Definition s3_Closed (upload : option error) (path data : string) (w : World)
    : option error * World :=
  match s3_sanitizePath path with
  | Err _ => (None, w)
  | Ok (bucket, key) =>
      if decide (data = "") then (None, w)
      else match upload with
           | Some e => (errors_Join [Some (Errorf ("failed to upload object " +:+ bucket +:+ "/"
                          +:+ key +:+ ": " +:+ Error e))], w)
           | None => (None, set_objects (<[(bucket, key) := data]> (objects w)) w)
           end
  end.

Definition s3_Delete (path : string) (w : World) : option error * World :=
  match s3_sanitizePath path with
  | Err e => (Some e, w)
  | Ok _ => (Some (Errorf "this operation is currently not supported for s3 storage"), w)
  end.

Definition s3_storage (upload : option error) : Storage := {|
  IsRemote := true;
  Open := s3_Open;
  Create := s3_Create;
  Written path data w := w;
  Closed := s3_Closed upload;
  Delete := s3_Delete;
|}.

(** ** Dumping into a storage *)

(** What the adapters find around them: [os.TempDir], the configuration, the
    outcomes of [statfs], of [os.Chmod] and [os.Open] of the images directory,
    the faults of the destination while a tarball is written, whether the pipe
    worker's [Close] of the tarball comes before the one of the adapter, and
    the clock. *)
Record Env := mkEnv {
  TempDir : string;
  cfgCompression : string;
  cfgAsync : bool;
  statfs : string → gores bool;
  chmodErr : option error;
  openErr : option error;
  flt : fault;
  workerClosesFirst : bool;
  UnixNano : Z;
}.

Record DumpReq := mkDumpReq {
  rDir : string;
  rName : string;
  rCompression : string;
  rAsync : bool;
  rOpts : CriuOpts;
}.

Definition Internal_ (what : string) (e : error) : option error :=
  Some (Status Internal (what +:+ Error e)).

Definition isFuseFS (env : Env) (path : string) (stat : bool) : gores bool :=
  if negb stat then Ok false
  else match statfs env path with
       | Err e => Err (Errorf ("failed to get statfs for " +:+ path +:+ ": " +:+ Error e))
       | Ok b => Ok b
       end.

Section adapters.
Context `{Codecs, TarFormat} (env : Env) (st : Storage).

Definition remove_images (images : string) (w : World) : World :=
  set_fs (RemoveAll (resolve images) (wfs w)) w.

(** The closure [compress] of [DumpFilesystem].  On FUSE the pipe worker
    closes the tarball as well, and the second [Close] of a file fails. *)
Definition compress (dir images path compression : string) : Go World (option error) := λ w,
  match isFuseFS env dir (negb (IsRemote st)) with
  | Err e => Some (Some (Errorf ("failed to determine filesystem type: " +:+ Error e)), w)
  | Ok isFuse =>
      match Create st path w with
      | Err e => Some (Some (Errorf ("failed to create tarball in storage: " +:+ Error e)), w)
      | Ok w1 =>
          match Tar (wfs w1) images compression isFuse (flt env) with
          | None => None
          | Some (err, data) =>
              let w2 := Written st path data w1 in
              let '(err, w3) :=
                match err with
                | Some e => (Some (Errorf ("failed to create tarball: " +:+ Error e)),
                             remove_images images (Delete st path w2).2)
                | None => (None, remove_images images w2)
                end in
              let '(closeErr, w4) := Closed st path data w3 in
              let closeErr :=
                if isFuse && workerClosesFirst env
                then Some (os_error "close" (resolve path) "file already closed") else closeErr in
              Some (errors_Join [err; closeErr], w4)
          end
      end
  end.

(** [DumpFilesystem].  [next] gets the images directory and the CRIU callbacks.
    Inside the block that declares [ext, err], the deferred calls read and
    assign that inner [err], not the result: an asynchronous upload starts
    whatever [next] returned, and with leave-running the error of [compress]
    reaches nobody. *)
Definition DumpFilesystem (next : string → NotifyCallbackMulti World → Go World (option error))
    (req : DumpReq) (callbacks : NotifyCallbackMulti World) : Go World (option error) := λ w,
  let compression := if decide (rCompression req = "") then cfgCompression env else rCompression req in
  if negb (supported compression) then
    Some (Some (Status Unimplemented ("unsupported compression format '" +:+ compression +:+ "'")), w)
  else
  let async := (rAsync req || cfgAsync env) && IsRemote st in
  let dir := if IsRemote st then TempDir env else rDir req in
  match wfs w !! resolve dir with
  | None => Some (Some (Status InvalidArgument ("dump dir does not exist: " +:+ dir)), w)
  | Some _ =>
  let images := Join2 dir (rName req) in
  match Mkdir (resolve images) (wfs w) with
  | Err e => Some (Internal_ "failed to create dump dir: " e, w)
  | Ok fs1 =>
  let w1 := set_fs fs1 w in
  let body : option (option error * World) :=
    match chmodErr env, openErr env with
    | Some e, _ => Some (Internal_ "failed to chmod dump dir: " e, w1)
    | None, Some e => Some (Internal_ "failed to open dump dir: " e, w1)
    | None, None =>
        if IsRemote st || (negb (bool_decide (compression = "")) &&
                           negb (bool_decide (compression = "none"))) then
          match ExtForCompression compression with
          | Err e => Some (Some e, w1)
          | Ok ext =>
              let path := rDir req +:+ "/" +:+ rName req +:+ ".tar" +:+ ext in
              let w2 := add_path path w1 in
              if async then
                '(err, w3) ← next images callbacks w2;
                Some (err, add_background (images, path, compression) w3)
              else if LeaveRunning (rOpts req) then
                '(err, w3) ← next images callbacks w2;
                '(_, w4) ← compress (rDir req) images path compression w3;
                Some (err, w4)
              else
                next images (Include callbacks (Some
                  (mkCallback None None None None None None
                     (Some (λ _, compress (rDir req) images path compression))
                     None None None None None None None None None None None ""))) w2
          end
        else next images callbacks (add_path images w1)
    end in
  '(err, w') ← body;
  Some (err, if bool_decide (err ≠ None) || (IsRemote st && negb async)
             then remove_images images w' else w')
  end
  end.

(** A background upload, run to its end; its error is only logged. *)
Definition run_upload (dir : string) (u : string * string * string) : Go World unit := λ w,
  let '(images, path, compression) := u in
  '(_, w') ← compress dir images path compression w; Some (tt, w').

(** ** Restoring from a storage *)

Definition decompress (path images : string) (w : World) : option error * World :=
  match CompressionFromExt path with
  | Err e => (Some e, w)
  | Ok compression =>
      match Open st path w with
      | Err e => (Some (Errorf ("failed to open dump file: " +:+ Error e)), w)
      | Ok tarball =>
          let '(err, fs) := Untar tarball images compression (wfs w) in
          (match err with
           | Some e => errors_Join [Some (Errorf ("failed to decompress dump: " +:+ Error e)); None]
           | None => None
           end, set_fs fs w)
      end
  end.

Definition open_images (next : string → Go World (option error)) (images : string)
    : Go World (option error) := λ w,
  match openErr env with
  | Some e => Some (Internal_ "failed to open dump dir: " e, remove_images images w)
  | None => next images w
  end.

Definition RestoreFilesystem (next : string → Go World (option error)) (path : string)
    : Go World (option error) := λ w,
  match (if IsRemote st then Ok false
         else match wfs w !! resolve path with
              | None => Err (Status NotFound ("path error: " +:+ path))
              | Some n => Ok (match n with Dir => true | _ => false end)
              end) with
  | Err e => Some (Some e, w)
  | Ok isDir =>
      if negb (IsRemote st) && isDir then open_images next path w
      else
        let images := Join2 (TempDir env) ("restore-" +:+ itoaZ (UnixNano env)) in
        match Mkdir (resolve images) (wfs w) with
        | Err e => Some (Internal_ "failed to create restore dir: " e, w)
        | Ok fs1 =>
            match chmodErr env with
            | Some e => Some (Internal_ "failed to chmod restore dir: " e, set_fs fs1 w)
            | None =>
                '(err, w') ←
                  (let '(err, w2) := decompress path images (set_fs fs1 w) in
                   match err with
                   | Some e => Some (Some (Status Internal (Error e)), w2)
                   | None => open_images next images w2
                   end);
                Some (err, remove_images images w')
            end
        end
  end.
End adapters.

(** ** What a storage promises *)

(** [p] holds its own file: what is stored under [p] is read back, whatever
    happens to other files in between; creating and writing [p] changes no
    other local file, and none at all when the storage is remote. *)
Class StorageOk (st : Storage) := {
  created_frame : ∀ p w w1 data k, Create st p w = Ok w1 →
    IsRemote st = true ∨ k ≠ resolve p →
    wfs w1 !! k = wfs w !! k ∧ wfs (Written st p data w1) !! k = wfs w !! k;
  created_again : ∀ p w w1 fs q, Create st p w = Ok w1 →
    IsRemote st = true ∨ (fs !! resolve p = wfs w !! resolve p ∧
      is_dir fs (parent (resolve p)) = is_dir (wfs w) (parent (resolve p))) →
    ∃ w2, Create st p (add_path q (set_fs fs w)) = Ok w2;
  created_paths : ∀ p w w1 data, Create st p w = Ok w1 →
    Paths (Written st p data w1) = Paths w;
  closed_opens : ∀ p w w1 data fs, Create st p w = Ok w1 → data ≠ "" →
    IsRemote st = true ∨ fs !! resolve p = wfs (Written st p data w1) !! resolve p →
    ∃ w2, Closed st p data (set_fs fs (Written st p data w1)) = (None, w2) ∧
      wfs w2 = fs ∧ Paths w2 = Paths w ∧
      ∀ fs', IsRemote st = true ∨ fs' !! resolve p = fs !! resolve p →
        Open st p (set_fs fs' w2) = Ok (eof data);
  local_opens : ∀ p w data, IsRemote st = false → Open st p w = Ok (eof data) →
    ∃ d, wfs w !! resolve p = Some (Reg d);
}.

#[export] Instance fs_storage_ok : StorageOk fs_storage.
Proof.
  split; simpl; rewrite /fs_Create.
  - intros p w w1 data k Hc [?|Hk]; [done|].
    destruct (Files.Create _ _) as [fs|] eqn:E; simplify_eq/=.
    rewrite lookup_insert_ne //. rewrite /Files.Create in E.
    repeat case_match; simplify_eq; by rewrite lookup_insert_ne.
  - intros p w w1 fs q Hc [?|[Hp Hd]]; [done|]. rewrite /Files.Create /= Hp Hd in Hc |- *.
    repeat case_match; simplify_eq/=; eauto.
  - intros p w w1 data. by destruct (Files.Create _ _); intros [= <-].
  - intros p w w1 data fs Hc Hd [?|Hfs]; [done|]. eexists. split; [done|].
    destruct (Files.Create _ _) as [fs1|] eqn:E; simplify_eq/=.
    split_and!; [done|done|]. intros fs' [?|Hfs']; [done|].
    by rewrite /fs_Open /= Hfs' Hfs lookup_insert_eq.
  - intros p w data _. rewrite /fs_Open. repeat case_match; naive_solver.
Qed.

Lemma s3_Create_Ok p w w1 :
  s3_Create p w = Ok w1 →
  ∃ bucket key, s3_sanitizePath p = Ok (bucket, key) ∧ bucket ∈ buckets w ∧ w1 = w.
Proof.
  rewrite /s3_Create /s3_bucket_check. destruct (s3_sanitizePath p) as [[b key]|]; [|done].
  rewrite /mbind /gores_bind /=. case_decide; [|done]. intros [= <-]. by eauto.
Qed.

#[export] Instance s3_storage_ok : StorageOk (s3_storage None).
Proof.
  split; simpl.
  - by intros p w w1 data k (b & key & _ & _ & ->)%s3_Create_Ok _.
  - intros p w w1 fs q (b & key & Hp & Hb & ->)%s3_Create_Ok _.
    rewrite /s3_Create Hp /mbind /gores_bind /s3_bucket_check /= decide_True //. eauto.
  - by intros p w w1 data (b & key & _ & _ & ->)%s3_Create_Ok.
  - intros p w w1 data fs (b & key & Hp & Hb & ->)%s3_Create_Ok Hd _.
    rewrite /s3_Closed /s3_Open Hp /mbind /gores_bind decide_False //.
    eexists. split_and!; [done|done|done|]. intros fs' _.
    rewrite /s3_bucket_check /= decide_True //= lookup_insert_eq //.
  - done.
Qed.

(** A path of the form the documentation gives is split at its first slash. *)
Lemma s3_sanitizePath_ok bucket key :
  bucket ≠ "" → has_byte slash bucket = false →
  s3_sanitizePath (S3_PREFIX +:+ bucket +:+ "/" +:+ key) = Ok (bucket, key).
Proof.
  intros Hne Hs.
  assert (∀ b, has_byte slash b = false → Cut (b +:+ "/" +:+ key) slash = Some (b, key)) as Hcut.
  { induction b as [|x b IH]; intros Hb; [done|]. simpl in Hb. apply orb_false_elim in Hb as [Hx Hb].
    change ((String x b) +:+ "/" +:+ key) with (String x (b +:+ "/" +:+ key)).
    cbn [Cut]. by rewrite Hx IH. }
  rewrite /s3_sanitizePath /HasPrefix prefix_append. cbn [negb].
  destruct bucket as [|x b]; [done|].
  assert (TrimPrefix (TrimPrefix (S3_PREFIX +:+ (String x b) +:+ "/" +:+ key) S3_PREFIX) "/"
    = String x b +:+ "/" +:+ key) as ->.
  { change (TrimPrefix (S3_PREFIX +:+ String x b +:+ "/" +:+ key) S3_PREFIX)
      with (TrimPrefix (String x b +:+ "/" +:+ key) "").
    simpl in Hs. apply orb_false_elim in Hs as [Hx _].
    change (TrimPrefix (TrimPrefix (String x b +:+ "/" +:+ key) "") "/")
      with (if HasPrefix (String x (b +:+ "/" +:+ key)) "/" then TrimPrefix (b +:+ "/" +:+ key) ""
            else String x (b +:+ "/" +:+ key)).
    rewrite /HasPrefix. cbn [String.prefix].
    destruct (Ascii.ascii_dec _ x) as [<-|]; [by vm_compute in Hx|done]. }
  destruct (decide _) as [?|_]; [done|]. by rewrite Hcut.
Qed.

(** ** CRIU writing its images *)

(** The files of [T], by their path relative to the images directory. *)
Definition plant (D : path) (T fs : FS) : FS := kmap (app D) T ∪ fs.

(** The rest of a dump as far as storage sees it: CRIU writes the images and
    then runs the post-dump hooks. *)
Definition criu_dump (T : FS) (opts : CriuOpts) (images : string)
    (callbacks : NotifyCallbackMulti World) : Go World (option error) := λ w,
  Multi_PostDump callbacks opts (set_fs (plant (resolve images) T (wfs w)) w).

Definition fresh (D : path) (fs : FS) : Prop := map_Forall (λ k _, ¬ D `prefix_of` k) fs.
#[export] Instance fresh_dec D fs : Decision (fresh D fs).
Proof. rewrite /fresh. apply _. Defined.

Lemma fresh_lookup D fs rel : fresh D fs → fs !! (D ++ rel) = None.
Proof.
  intros Hf. apply eq_None_not_Some. intros [n Hn]. apply (Hf _ _ Hn). by apply prefix_app_r.
Qed.

#[export] Instance app_inj_ (D : path) : Inj (=) (=) (app D).
Proof. intros x y. apply app_inv_head. Qed.

Lemma plant_below D T fs rel :
  fresh D (delete D fs) → is_Some (T !! []) → plant D T fs !! (D ++ rel) = T !! rel.
Proof.
  intros Hf HT. rewrite /plant lookup_union lookup_kmap.
  destruct (T !! rel) as [n|] eqn:Hn; [by destruct (fs !! _)|].
  rewrite left_id. rewrite -(fresh_lookup D (delete D fs) rel Hf) lookup_delete_ne //.
  intros Heq. rewrite -{1}(app_nil_r D) in Heq. simplify_eq. rewrite Hn in HT. by destruct HT.
Qed.

Lemma plant_outside D T fs k : ¬ D `prefix_of` k → plant D T fs !! k = fs !! k.
Proof.
  intros Hk. rewrite /plant lookup_union_r //. apply lookup_kmap_None; [apply _|].
  intros rel ->. destruct Hk. by apply prefix_app_r.
Qed.

Lemma parent_app (D rel : path) : rel ≠ [] → parent (D ++ rel) = D ++ parent rel.
Proof.
  intros Hr. rewrite /parent length_app. destruct rel as [|c rel]; [done|].
  rewrite /= Nat.add_succ_r /= take_app_add' //.
Qed.

Lemma tree_ok_plant D T fs :
  fresh D (delete D fs) → tree_ok [] T → tree_ok D (plant D T fs).
Proof.
  intros Hf [Hroot Htree]. apply is_dir_true in Hroot.
  assert (∀ rel, plant D T fs !! (D ++ rel) = T !! rel) as Hp.
  { intros rel. apply plant_below; [done|]. by rewrite Hroot. }
  split; [by rewrite is_dir_true -Hroot -(Hp []) app_nil_r|].
  intros k n Hk [rel ->] Hne. rewrite Hp in Hk.
  assert (rel ≠ []) as Hr by (intros ->; by rewrite app_nil_r in Hne).
  destruct (Htree _ _ Hk) as (H1 & H2 & H3); [apply prefix_nil|done|].
  rewrite drop_app_length parent_app // is_dir_true Hp -is_dir_true. split_and!; done.
Qed.

Lemma Mkdir_Ok D fs fs1 :
  Mkdir D fs = Ok fs1 → fs !! D = None ∧ is_dir fs (parent D) = true ∧ fs1 = <[D := Dir]> fs.
Proof. rewrite /Mkdir. repeat case_match; naive_solver. Qed.

Lemma RemoveAll_lookup (D : path) (fs : FS) (k : path) :
  RemoveAll D fs !! k = if decide (D `prefix_of` k) then None else fs !! k.
Proof.
  rewrite /RemoveAll map_lookup_filter. destruct (fs !! k) as [n|] eqn:E; simpl; [|by case_decide].
  case_decide; case_guard; naive_solver.
Qed.

Lemma tree_ok_ext (D : path) (fs fs' : FS) :
  (∀ rel, fs' !! (D ++ rel) = fs !! (D ++ rel)) → tree_ok D fs → tree_ok D fs'.
Proof.
  intros Heq [Hroot Htree]. split.
  - rewrite is_dir_true -(app_nil_r D) Heq app_nil_r. by apply is_dir_true.
  - intros k n Hk [rel ->] Hne. rewrite Heq in Hk.
    assert (rel ≠ []) as Hr by (intros ->; by rewrite app_nil_r in Hne).
    destruct (Htree _ _ Hk) as (H1 & H2 & H3); [by apply prefix_app_r|done|].
    rewrite parent_app // is_dir_true in H1. rewrite parent_app // is_dir_true Heq. done.
Qed.

(** The environment raises no error. *)
Record quiet (env : Env) : Prop := {
  quiet_flt : flt env = NoFault;
  quiet_statfs : ∀ p, statfs env p = Ok false;
  quiet_chmod : chmodErr env = None;
  quiet_open : openErr env = None;
}.

Lemma prefix_neither (D : path) a b : a ≠ b → ¬ (D ++ [a]) `prefix_of` (D ++ [b]).
Proof.
  intros Hne [t Ht]. rewrite -app_assoc in Ht. apply app_inv_head in Ht. by simplify_eq/=.
Qed.

Section correctness.
Context `{Codecs, TarFormat} (st : Storage) `{!StorageOk st}.

(** What [compress] stores can be opened, and is the tarball of the images. *)
Lemma compress_ok env dir images p c ext w w1 :
  quiet env → ExtForCompression c = Ok ext → tree_ok (resolve images) (wfs w) →
  Create st p w = Ok w1 →
  IsRemote st = true ∨ ¬ resolve images `prefix_of` resolve p →
  ∃ wr fs w',
    NewCompressionWriter c = Ok wr ∧ tree_ok (resolve images) fs ∧
    (∀ rel, fs !! (resolve images ++ rel) = wfs w !! (resolve images ++ rel)) ∧
    compress env st dir images p c w = Some (None, w') ∧ Paths w' = Paths w ∧
    (∀ k, resolve images `prefix_of` k → wfs w' !! k = None) ∧
    (∀ k, ¬ resolve images `prefix_of` k → IsRemote st = true ∨ k ≠ resolve p →
       wfs w' !! k = wfs w !! k) ∧
    (∀ fs', IsRemote st = true ∨ fs' !! resolve p = wfs w' !! resolve p →
       Open st p (set_fs fs' w') =
         Ok (eof (wencode wr (tar_write (entry_of <$> Walk (resolve images) fs))))).
Proof.
  intros [Hf Hs _ _] Hext Hok Hc Hsep.
  assert (∀ rel, wfs w1 !! (resolve images ++ rel) = wfs w !! (resolve images ++ rel)) as Hsame.
  { intros rel. apply (created_frame _ _ _ "" _ Hc). destruct Hsep as [?|Hp]; [by left|right].
    intros Heq. destruct Hp. rewrite -Heq. by apply prefix_app_r. }
  pose proof (tree_ok_ext _ _ _ Hsame Hok) as Hok1.
  destruct (Tar_clean _ _ _ _ Hext Hok1) as (wr & Hwr & Htar).
  set (data := wencode wr _) in Htar.
  assert (data ≠ "") as Hdata.
  { eapply wencode_nonempty; [done|]. apply tar_trailer. }
  destruct (closed_opens p w w1 data (RemoveAll (resolve images) (wfs (Written st p data w1))) Hc Hdata)
    as (w' & Hcl & Hfs & Hpaths & Hopen).
  { destruct Hsep as [?|Hp]; [by left|right]. by rewrite RemoveAll_lookup decide_False. }
  exists wr, (wfs w1), w'. split_and!; [done|done|done| |done| | |].
  - rewrite /compress /isFuseFS Hs. destruct (negb (negb (IsRemote st))); rewrite Hc Hf Htar /=;
      rewrite /remove_images Hcl //.
  - intros k Hk. by rewrite Hfs RemoveAll_lookup decide_True.
  - intros k Hk Hkp. rewrite Hfs RemoveAll_lookup decide_False //.
    by apply (created_frame _ _ _ _ _ Hc).
  - intros fs' Hfs'. apply Hopen. by rewrite Hfs in Hfs'.
Qed.

(** The storage holds the images [T] under the path [p]. *)
Definition stores (p : string) (T : FS) (w : World) : Prop :=
  ∃ base c ext wr images fs,
    p = base +:+ ".tar" +:+ ext ∧ ExtForCompression c = Ok ext ∧
    NewCompressionWriter c = Ok wr ∧ tree_ok (resolve images) fs ∧
    (∀ rel, fs !! (resolve images ++ rel) = T !! rel) ∧
    ∀ fs', IsRemote st = true ∨ fs' !! resolve p = wfs w !! resolve p →
      Open st p (set_fs fs' w) =
        Ok (eof (wencode wr (tar_write (entry_of <$> Walk (resolve images) fs)))).

Lemma set_fs_id w : set_fs (wfs w) w = w.
Proof. by destruct w. Qed.

Lemma holds_fresh D c fs :
  dirs_to D fs → fresh (D ++ [c]) fs → holds (D ++ [c]) ∅ (<[D ++ [c] := Dir]> fs).
Proof.
  intros Hd Hf. split.
  - intros k Hk. destruct (decide (k = D ++ [c])) as [->|Hne]; [by rewrite lookup_insert_eq|].
    rewrite lookup_insert_ne //. apply Hd. destruct Hk as [t Ht].
    destruct t as [|d t _] using rev_ind; [by rewrite app_nil_r in Ht|].
    rewrite app_assoc in Ht. apply app_inj_tail in Ht as [-> _]. by exists t.
  - intros rel Hrel. rewrite lookup_empty lookup_insert_ne; [|by apply fresh_lookup].
    rewrite -{1}(app_nil_r (D ++ [c])). intros Heq%app_inv_head. by destruct Hrel.
  - intros rel. by rewrite lookup_empty.
Qed.

Definition restore_dir (env : Env) : string := "restore-" +:+ itoaZ (UnixNano env).

Lemma restore_dir_plain env : plain (restore_dir env) ∧ Contains (restore_dir env) ".." = false.
Proof.
  split; [split_and!; [done..|]|].
  - rewrite /restore_dir has_byte_append has_byte_itoaZ //.
  - apply Contains_no_dot. rewrite /restore_dir has_byte_append has_byte_itoaZ //.
Qed.

(** The directory a restore extracts to can be made. *)
Definition can_restore (env : Env) (w : World) : Prop :=
  quiet env ∧ HasPrefix (TempDir env) "/" = true ∧ dirs_to (resolve (TempDir env)) (wfs w) ∧
  fresh (resolve (TempDir env) ++ [restore_dir env]) (wfs w).

Lemma Mkdir_fresh (D : path) n fs :
  fresh (D ++ [n]) fs → fs !! D = Some Dir → Mkdir (D ++ [n]) fs = Ok (<[D ++ [n] := Dir]> fs).
Proof.
  intros Hfresh HD. rewrite /Mkdir -{1}(app_nil_r (D ++ [n])) (fresh_lookup _ _ [] Hfresh).
  rewrite /parent length_app Nat.add_1_r /= take_app_length.
  assert (is_dir fs D = true) as ->; [by apply is_dir_true|done].
Qed.

(** A tree put into a new directory is all there is in it. *)
Lemma planted (D : path) T fs :
  fresh D fs → tree_ok [] T →
  let fs' := plant D T (<[D := Dir]> fs) in
  tree_ok D fs' ∧ (∀ rel, fs' !! (D ++ rel) = T !! rel) ∧
  (∀ k, ¬ D `prefix_of` k → fs' !! k = fs !! k).
Proof.
  intros Hfresh HT fs'.
  assert (fresh D (delete D (<[D := Dir]> fs))) as Hfresh1.
  { rewrite delete_insert_eq. apply map_Forall_delete, Hfresh. }
  split; [by apply tree_ok_plant|]. split.
  - intros rel. apply plant_below; [done|]. destruct HT as [HT _]. apply is_dir_true in HT.
    by rewrite HT.
  - intros k Hk. rewrite /fs' plant_outside // lookup_insert_ne //. by intros <-; destruct Hk.
Qed.

Lemma restore_ok env next p T w :
  stores p T w → can_restore env w →
  let images := Join2 (TempDir env) (restore_dir env) in
  ∃ wr, RestoreFilesystem env st next p w =
      ('(err, w') ← next images wr; Some (err, remove_images images w')) ∧
    (∀ rel, wfs wr !! (resolve images ++ rel) = T !! rel) ∧
    (∀ k, ¬ resolve images `prefix_of` k → wfs wr !! k = wfs w !! k).
Proof.
  intros (base & c & ext & enc & src & fs & -> & Hext & Henc & Hok & HT & Hopen)
    ([_ _ Hchmod Hop] & Htmp & Hdirs & Hfresh).
  destruct (restore_dir_plain env) as [Hpl Hnd].
  pose proof (resolve_Join2_one _ _ Htmp Hpl Hnd) as Hres.
  set (images := Join2 (TempDir env) (restore_dir env)). cbv zeta. fold images in Hres.
  set (fs1 := <[resolve images := Dir]> (wfs w)).
  assert (holds (resolve images) ∅ fs1) as Hholds.
  { rewrite /fs1 Hres. by apply holds_fresh. }
  assert (HasPrefix images "/" = true) as Himg.
  { rewrite /images /Join2. destruct (TempDir env) as [|x t] eqn:Et; [done|].
    rewrite !filter_cons_True //=. rewrite /Clean.
    rewrite (HasPrefix_append (String x t) "/" (String slash (restore_dir env)) Htmp).
    apply prefix_append. }
  set (p := base +:+ ".tar" +:+ ext).
  destruct (Untar_Walk _ _ _ _ _ images fs1 Hext Henc Hok Himg Hholds)
    as (fs2 & Hu & Hin & Hout).
  assert (Mkdir (resolve images) (wfs w) = Ok fs1) as Hmk.
  { rewrite /fs1 Hres. apply Mkdir_fresh; [done|by apply Hdirs]. }
  assert (decompress st p images (set_fs fs1 w) = (None, set_fs fs2 (set_fs fs1 w))) as Hdec.
  { rewrite /decompress (CompressionFromExt_dumped base _ _ Hext) Hopen.
    - destruct (IsRemote st) eqn:Hr; [by left|right]. rewrite /fs1.
      destruct (local_opens p w (wencode enc (tar_write (entry_of <$> Walk (resolve src) fs))) Hr)
        as [d Hd].
      { rewrite -(set_fs_id w). apply Hopen. by right. }
      rewrite lookup_insert_ne //. intros Heq. rewrite -Heq Hres in Hd.
      rewrite -(app_nil_r (_ ++ [_])) (fresh_lookup _ _ [] Hfresh) in Hd. done.
    - cbn [wfs set_fs]. by rewrite Hu. }
  exists (set_fs fs2 (set_fs fs1 w)). split_and!.
  - rewrite /RestoreFilesystem. fold images.
    destruct (IsRemote st) eqn:Hr; simpl.
    + rewrite -/(restore_dir env) Hmk Hchmod Hdec /open_images Hop //.
    + destruct (local_opens p w (wencode enc (tar_write (entry_of <$> Walk (resolve src) fs))) Hr)
        as [d ->].
      { rewrite -(set_fs_id w). apply Hopen. by right. }
      rewrite -/(restore_dir env) Hmk Hchmod Hdec /open_images Hop //.
  - intros rel. by rewrite /= Hin HT.
  - intros k Hk. rewrite /= Hout // /fs1 lookup_insert_ne //. by intros <-; destruct Hk.
Qed.

Lemma stores_set_fs p T w fs : IsRemote st = true → stores p T w → stores p T (set_fs fs w).
Proof.
  intros Hr (base & c & ext & wr & images & fs0 & H1 & H2 & H3 & H4 & H5 & H6).
  exists base, c, ext, wr, images, fs0. split_and!; [done..|].
  intros fs' _. rewrite -(H6 fs'); [by left|by destruct w].
Qed.

Definition effective_compression (env : Env) (req : DumpReq) : string :=
  if decide (rCompression req = "") then cfgCompression env else rCompression req.

Definition dump_dir (env : Env) (req : DumpReq) : string :=
  if IsRemote st then TempDir env else rDir req.

Definition tarball (req : DumpReq) (ext : string) : string :=
  rDir req +:+ "/" +:+ rName req +:+ ".tar" +:+ ext.

(** A dump that is to be stored synchronously, as a tarball that can be
    created, from a directory that can be made. *)
Record can_dump (env : Env) (req : DumpReq) (ext : string) (w : World) : Prop := {
  cd_quiet : quiet env;
  cd_ext : ExtForCompression (effective_compression env req) = Ok ext;
  cd_stored : IsRemote st = true ∨ effective_compression env req ∉ [""; "none"];
  cd_sync : (rAsync req || cfgAsync env) && IsRemote st = false;
  cd_name : ok_name (rName req);
  cd_abs : HasPrefix (dump_dir env req) "/" = true;
  cd_dirs : dirs_to (resolve (dump_dir env req)) (wfs w);
  cd_fresh : fresh (resolve (dump_dir env req) ++ [rName req]) (wfs w);
  cd_create : is_ok (Create st (tarball req ext) w) = true;
}.

Lemma tarball_resolve req c ext :
  ok_name (rName req) → ExtForCompression c = Ok ext →
  resolve (tarball req ext) = resolve (rDir req) ++ [rName req +:+ ".tar" +:+ ext] ∧
  rName req +:+ ".tar" +:+ ext ≠ rName req.
Proof.
  intros [[(Hne & Hd & Hdd & Hsl) _] _] Hext.
  assert (has_byte slash ext = false) as He.
  { by destruct (ExtForCompression_Ok _ _ Hext) as [[_ ->]|[[_ ->]|[[_ ->]|[_ ->]]]]. }
  assert (String.length (rName req +:+ ".tar" +:+ ext) ≥ 4 + String.length (rName req)) as Hlen.
  { rewrite !length_append /=. lia. }
  split.
  - apply resolve_sub_one. split_and!.
    + intros Hs. rewrite Hs /= in Hlen. lia.
    + intros Hs. rewrite Hs /= in Hlen. lia.
    + intros Hs. rewrite Hs /= in Hlen. lia.
    + by rewrite !has_byte_append Hsl He.
  - intros Hs. rewrite Hs in Hlen. lia.
Qed.

Lemma supported_ext c ext : ExtForCompression c = Ok ext → supported c = true.
Proof.
  intros Hext. rewrite /supported bool_decide_eq_true.
  destruct (ExtForCompression_Ok _ _ Hext) as [[-> _]|[[-> _]|[[-> _]|[Hc _]]]];
    [set_solver..|]. rewrite /SUPPORTED_COMPRESSIONS. set_solver.
Qed.

(** The callbacks of the rest of the pipeline, as far as storage sees them. *)
Definition other_callbacks (cbs : NotifyCallbackMulti World) (opts : CriuOpts) : Prop :=
  ∀ w, Multi_PostDump cbs opts w = Some (None, w).

Lemma post_dump_compress cbs opts m w w' :
  other_callbacks cbs opts → m w = Some (None, w') →
  Multi_PostDump (Include cbs (Some (mkCallback None None None None None None
    (Some (λ _, m)) None None None None None None None None None None None ""))) opts w
  = Some (None, w').
Proof.
  intros Hc Hm. rewrite /Multi_PostDump /Include each_reversed_app /unless_err /mbind /Go_bind.
  rewrite each_reversed_singleton /= /NotifyCallback_PostDump /= /call_hook /= /mbind /Go_bind Hm.
  apply Hc.
Qed.

(** The way a dump takes through the adapter, with what its steps do. *)
Lemma dump_run env req ext cbs T w fs1 w' :
  can_dump env req ext w → other_callbacks cbs (rOpts req) →
  let images := Join2 (dump_dir env req) (rName req) in
  let p := tarball req ext in
  Mkdir (resolve images) (wfs w) = Ok fs1 →
  compress env st (rDir req) images p (effective_compression env req)
    (add_path p (set_fs (plant (resolve images) T fs1) w)) = Some (None, w') →
  DumpFilesystem env st (criu_dump T (rOpts req)) req cbs w =
    Some (None, if IsRemote st then remove_images images w' else w').
Proof.
  intros [Hq Hext Hst Hsync _ _ Hdirs _ _] Hcb images p Hmk Hcomp.
  set (c := effective_compression env req) in *. set (dir := dump_dir env req) in *.
  rewrite /DumpFilesystem. fold (effective_compression env req). fold c. fold (dump_dir env req).
  fold dir. rewrite (supported_ext _ _ Hext) /= (Hdirs (resolve dir)) //. fold images.
  rewrite Hmk (quiet_chmod _ Hq) (quiet_open _ Hq) Hext Hsync.
  assert (IsRemote st || (negb (bool_decide (c = "")) && negb (bool_decide (c = "none"))) = true) as ->.
  { destruct Hst as [->|Hst]; [done|]. rewrite !bool_decide_false ?orb_true_r //; set_solver. }
  fold (tarball req ext). fold p. rewrite andb_true_r. destruct (LeaveRunning (rOpts req)).
  - rewrite {1}/criu_dump Hcb /= Hcomp //.
  - rewrite /criu_dump (post_dump_compress _ _ _ _ w') //.
Qed.

Lemma dump_ok env req ext cbs T w :
  can_dump env req ext w → other_callbacks cbs (rOpts req) → tree_ok [] T →
  let images := resolve (dump_dir env req) ++ [rName req] in
  ∃ w', DumpFilesystem env st (criu_dump T (rOpts req)) req cbs w = Some (None, w') ∧
    Paths w' = Paths w ++ [tarball req ext] ∧ stores (tarball req ext) T w' ∧
    (∀ k, images `prefix_of` k → wfs w' !! k = None) ∧
    (∀ k, ¬ images `prefix_of` k → IsRemote st = true ∨ k ≠ resolve (tarball req ext) →
       wfs w' !! k = wfs w !! k).
Proof.
  intros Hcan Hcb HT D. pose proof Hcan as [Hq Hext Hst Hsync Hname Habs Hdirs Hfresh Hcr].
  set (c := effective_compression env req) in *. set (p := tarball req ext) in *.
  set (dir := dump_dir env req) in *. set (images := Join2 dir (rName req)).
  assert (resolve images = D) as Hres.
  { apply resolve_Join2_one; [done|apply Hname|apply Hname]. }
  destruct (tarball_resolve _ _ _ Hname Hext) as [Hp Hpn]. fold p in Hp.
  assert (IsRemote st = true ∨ ¬ D `prefix_of` resolve p) as Hsep.
  { rewrite /D /dir /dump_dir. destruct (IsRemote st); [by left|right].
    rewrite Hp. by apply prefix_neither. }
  assert (IsRemote st = true ∨ ¬ D `prefix_of` parent (resolve p)) as Hsep'.
  { rewrite /D /dir /dump_dir. destruct (IsRemote st); [by left|right].
    rewrite Hp /parent length_app Nat.add_1_r /= take_app_length.
    intros Hl%prefix_length. rewrite length_app /= in Hl. lia. }
  destruct (planted D T (wfs w) Hfresh HT) as (Hok & Hbelow & Hout).
  set (fs1 := <[D := Dir]> (wfs w)) in *. set (fs2 := plant D T fs1) in *.
  assert (Mkdir (resolve images) (wfs w) = Ok fs1) as Hmk.
  { rewrite Hres. apply Mkdir_fresh; [done|by apply Hdirs]. }
  destruct (Create st p w) as [wc|] eqn:Hcreate; [|done].
  destruct (created_again p w wc fs2 p Hcreate) as [w1 Hc1].
  { destruct Hsep as [?|Hs1]; [by left|]. destruct Hsep' as [?|Hs2]; [by left|right].
    rewrite /is_dir !Hout //. }
  set (w2 := add_path p (set_fs fs2 w)) in Hc1.
  destruct (compress_ok env (rDir req) images p c ext w2 w1 Hq Hext) as
    (enc & fs & w' & Henc & Hok' & Hsame & Hcomp & Hpaths & Hgone & Hrest & Hopen);
    [by rewrite Hres|done|by rewrite Hres|].
  rewrite Hres in Hgone, Hrest, Hsame.
  assert (stores p T w') as Hstores.
  { exists (rDir req +:+ "/" +:+ rName req), c, ext, enc, images, fs. split_and!; try done.
    - by rewrite /p /tarball !append_assoc.
    - intros rel. by rewrite Hres Hsame Hbelow. }
  assert (DumpFilesystem env st (criu_dump T (rOpts req)) req cbs w =
    Some (None, if IsRemote st then remove_images images w' else w')) as Hdump.
  { eapply (dump_run env req ext); [done..|]. fold dir images. by rewrite Hres. }
  exists (if IsRemote st then remove_images images w' else w'). split; [done|].
  destruct (IsRemote st) eqn:Hr; (split_and!; [by rewrite /= Hpaths| | |]); try done.
  - by apply stores_set_fs.
  - intros k Hk. by rewrite /= Hres RemoveAll_lookup decide_True.
  - intros k Hk _. rewrite /= Hres RemoveAll_lookup decide_False // Hrest //=; [by left|].
    by apply Hout.
  - intros k Hk [?|Hkp]; [done|]. rewrite Hrest //=; [by right|]. by apply Hout.
Qed.
End correctness.


(** A failed dump leaves nothing behind: whatever the storage, the
    environment, the callbacks and the rest of the pipeline do, when
    [DumpFilesystem] returns an error either it had not touched the file
    system at all or the images directory it made is gone. *)
Theorem failed_dump_cleans_up `{Codecs, TarFormat} env (st : Storage) next req cbs w e w' :
  DumpFilesystem env st next req cbs w = Some (Some e, w') →
  w' = w ∨
  ∀ k, resolve (Join2 (dump_dir st env req) (rName req)) `prefix_of` k → wfs w' !! k = None.
Proof.
  rewrite /DumpFilesystem -/(dump_dir st env req).
  destruct (negb _); [intros [= _ <-]; by left|].
  destruct (wfs w !! _); [|intros [= _ <-]; by left].
  destruct (Mkdir _ _) as [fs1|]; [|intros [= _ <-]; by left].
  match goal with |- context [mbind _ ?b] => destruct b as [[err w1]|]; [|done] end.
  intros [= -> <-]. right. intros k Hk. rewrite bool_decide_true //=.
  by rewrite RemoveAll_lookup decide_True.
Qed.

(** With leave-running, storing the images may fail unnoticed: the dump
    then reports success and a path, although [compress] returned an error,
    because the deferred assignment goes to a shadowed [err]. *)
Theorem leave_running_hides_storage_errors `{Codecs, TarFormat} env (st : Storage) req ext cbs T w
    fs1 e w1 :
  supported (effective_compression env req) = true →
  ExtForCompression (effective_compression env req) = Ok ext →
  IsRemote st = false → effective_compression env req ∉ [""; "none"] →
  chmodErr env = None → openErr env = None → LeaveRunning (rOpts req) = true →
  other_callbacks cbs (rOpts req) → is_dir (wfs w) (resolve (rDir req)) = true →
  Mkdir (resolve (Join2 (rDir req) (rName req))) (wfs w) = Ok fs1 →
  compress env st (rDir req) (Join2 (rDir req) (rName req)) (tarball req ext)
    (effective_compression env req)
    (set_fs (plant (resolve (Join2 (rDir req) (rName req))) T fs1) (add_path (tarball req ext) w)) =
    Some (Some e, w1) →
  DumpFilesystem env st (criu_dump T (rOpts req)) req cbs w = Some (None, w1).
Proof.
  intros Hsup Hext Hr Hc Hch Hop Hlr Hcb Hdir Hmk Hcomp. apply is_dir_true in Hdir.
  rewrite /DumpFilesystem -/(effective_compression env req) Hsup Hr /= Hdir Hmk Hch Hop Hext.
  rewrite !bool_decide_false; [set_solver..|]. rewrite andb_false_r Hlr /= -/(tarball req ext).
  assert (criu_dump T (rOpts req) (Join2 (rDir req) (rName req)) cbs
    (add_path (tarball req ext) (set_fs fs1 w)) =
    Some (None, set_fs (plant (resolve (Join2 (rDir req) (rName req))) T fs1)
                  (add_path (tarball req ext) w))) as ->.
  { rewrite /criu_dump Hcb. by destruct w. }
  by rewrite /= Hcomp.
Qed.

(** Two ways [compress] misreports what it stored on the local file
    system.  A write error that surfaces only when the compressor is closed is
    lost: [compress] succeeds and deletes the images although the file holds
    only the bytes written before the error.  On FUSE, where the pipe worker
    closes the tarball first, [compress] fails although the file holds the
    complete tarball, and the images are deleted as well. *)
Theorem compress_misreports `{Codecs, TarFormat} env dir images p c ext w fs1 :
  ExtForCompression c = Ok ext → tree_ok (resolve images) fs1 →
  ¬ resolve images `prefix_of` resolve p → Files.Create (resolve p) (wfs w) = Ok fs1 →
  (∀ e part, statfs env dir = Ok false → flt env = FailsLast e part →
    ∃ w', compress env fs_storage dir images p c w = Some (None, w') ∧
      fs_Open p w' = Ok (eof part) ∧
      ∀ k, resolve images `prefix_of` k → wfs w' !! k = None) ∧
  (statfs env dir = Ok true → flt env = NoFault → workerClosesFirst env = true →
    ∃ e data w', compress env fs_storage dir images p c w = Some (Some e, w') ∧
      Tar fs1 images c true NoFault = Some (None, data) ∧ fs_Open p w' = Ok (eof data) ∧
      ∀ k, resolve images `prefix_of` k → wfs w' !! k = None).
Proof.
  intros Hext Hok Hsep Hcr. split.
  - intros e part Hs Hf. destruct (Tar_clean _ _ _ _ Hext Hok) as (wr & Hwr & Htar).
    assert (Tar fs1 images c false (FailsLast e part) = Some (None, part)) as Ht.
    { revert Htar. rewrite /Tar /NewOptimizedCompressionWriter /= Hwr. case_match. intros. by simplify_eq. }
    rewrite /compress /isFuseFS /= Hs /fs_Create Hcr /= Hf Ht /=. eexists. split; [done|]. split.
    + rewrite /fs_Open /= RemoveAll_lookup decide_False // lookup_insert_eq //.
    + intros k Hk. by rewrite /= RemoveAll_lookup decide_True.
  - intros Hs Hf Hw.
    assert (∃ data, Tar fs1 images c true NoFault = Some (None, data)) as [data Ht].
    { rewrite /Tar /= (tar_entries_ok _ _ (Walk_ok _ _ Hok)) /walk_root.
      destruct Hok as [Hroot%is_dir_true _]. rewrite Hroot. by eexists. }
    rewrite /compress /isFuseFS /= Hs /fs_Create Hcr /= Hf Ht /= Hw.
    eexists _, data, _. split; [done|]. split; [done|]. split.
    + rewrite /fs_Open /= RemoveAll_lookup decide_False // lookup_insert_eq //.
    + intros k Hk. by rewrite /= RemoveAll_lookup decide_True.
Qed.

(** A checkpoint directory of the local file system is restored in place:
    nothing is copied and nothing is removed afterwards, except when the
    directory cannot be opened: then [RestoreFilesystem] deletes it, that is,
    the user's checkpoint. *)
Theorem restore_in_place `{Codecs, TarFormat} env next p w :
  wfs w !! resolve p = Some Dir →
  RestoreFilesystem env fs_storage next p w =
    match openErr env with
    | None => next p w
    | Some e => Some (Internal_ "failed to open dump dir: " e,
                  set_fs (RemoveAll (resolve p) (wfs w)) w)
    end.
Proof. intros Hp. rewrite /RestoreFilesystem /= Hp /= /open_images. by destruct (openErr env). Qed.

(** ** Witnesses *)
Import Sample.

Definition sample_env : Env :=
  mkEnv "/tmp" "lz4" false (λ _, Ok false) None None NoFault true 7.

Definition sample_req : DumpReq :=
  mkDumpReq "/dumps" "b" "" false (mkCriuOpts "" false true 42 true false).

(** CRIU's images: a core file and a directory with pages. *)
Definition sample_images : FS :=
  {[ [] := Dir; ["core-1.img"] := Reg "core"; ["gpu"] := Dir; ["gpu"; "pages.img"] := Reg "pages" ]}.

Definition sample_world : World := mkWorld Sample.fs {[ "bucket" ]} ∅ ∅ [] [].

Lemma quiet_sample : quiet sample_env.
Proof. by split. Qed.

Lemma can_dump_sample : can_dump fs_storage sample_env sample_req ".lz4" sample_world.
Proof.
  split; [apply quiet_sample|done|right; by_decide|done|by_decide|done| |by_decide|done].
  apply dirs_to_prefixes. by_decide.
Qed.


(** A dump that CRIU fails. *)
Definition failing_req : DumpReq :=
  mkDumpReq "/dumps" "b" "" false (mkCriuOpts "" false false 42 true false).

Lemma failed_dump_cleans_up_witness :
  ∃ w', DumpFilesystem sample_env fs_storage (λ _ _ w, Some (Some (Errorf "criu"), w))
      failing_req [] sample_world = Some (Some (Errorf "criu"), w') ∧
    (w' = sample_world ∨
     ∀ k, resolve (Join2 (dump_dir fs_storage sample_env failing_req) "b") `prefix_of` k →
       wfs w' !! k = None).
Proof.
  eexists. split; [vm_compute; reflexivity|].
  eapply (failed_dump_cleans_up sample_env fs_storage (λ _ _ w, Some (Some (Errorf "criu"), w))
    failing_req [] sample_world (Errorf "criu")).
  vm_compute. reflexivity.
Defined.

(** [statfs] fails. *)
Definition blind_env : Env :=
  mkEnv "/tmp" "lz4" false (λ _, Err (Errorf "EIO")) None None NoFault true 7.

Definition blind_result : World :=
  set_fs (plant ["dumps"; "b"] sample_images (<[["dumps"; "b"] := Dir]> Sample.fs))
    (add_path "/dumps/b.tar.lz4" sample_world).

Lemma leave_running_hides_storage_errors_witness :
  DumpFilesystem blind_env fs_storage (criu_dump sample_images (rOpts sample_req)) sample_req []
    sample_world = Some (None, blind_result) ∧
  compress blind_env fs_storage "/dumps" "/dumps/b" "/dumps/b.tar.lz4" "lz4" blind_result =
    Some (Some (Errorf "failed to determine filesystem type: failed to get statfs for /dumps: EIO"),
      blind_result).
Proof.
  split; [|reflexivity].
  apply (leave_running_hides_storage_errors blind_env fs_storage sample_req ".lz4" [] sample_images
    sample_world (<[["dumps"; "b"] := Dir]> Sample.fs)
    (Errorf "failed to determine filesystem type: failed to get statfs for /dumps: EIO"));
    [reflexivity|reflexivity|reflexivity|by_decide|reflexivity|reflexivity|reflexivity| |
     reflexivity|reflexivity|reflexivity].
  intros w. reflexivity.
Defined.

(** The disk is full when the compressor is closed. *)
Definition full_env : Env :=
  mkEnv "/tmp" "lz4" false (λ _, Ok false) None None (FailsLast (Errorf "ENOSPC") "L") true 7.

Lemma compress_misreports_witness :
  ∃ w', compress full_env fs_storage "/dumps" "/dumps/a" "/dumps/a.tar.lz4" "lz4" sample_world =
      Some (None, w') ∧
    fs_Open "/dumps/a.tar.lz4" w' = Ok (eof "L") ∧
    ∀ k, resolve "/dumps/a" `prefix_of` k → wfs w' !! k = None.
Proof.
  refine (proj1 (compress_misreports full_env "/dumps" "/dumps/a" "/dumps/a.tar.lz4" "lz4" ".lz4"
    sample_world (<[["dumps"; "a.tar.lz4"] := Reg ""]> Sample.fs) _ _ _ _) (Errorf "ENOSPC") "L" _ _);
    [reflexivity|by_decide|by_decide|reflexivity|reflexivity|reflexivity].
Defined.

Lemma restore_in_place_witness :
  RestoreFilesystem sample_env fs_storage (λ _ w, Some (None, w)) "/dumps/a" sample_world =
  Some (None, sample_world).
Proof.
  exact (restore_in_place sample_env (λ _ w, Some (None, w)) "/dumps/a" sample_world eq_refl).
Defined.

End Storage.
