(* ===== verification/CedanaStorage.v ===== *)
(** * Cedana's managed storage, and the listings of storages

    plugins/storage-cedana: a checkpoint is a file of Cedana's service, moved
    over HTTP with URLs that the service hands out; [file.go] starts the upload
    with the first write and waits for it in [Close].  The service is the class
    [Service], its promises are [ServiceOk]; its files are part of the world of
    [Storage], and the storage keeps the promises of [StorageOk], so what is
    proved of dumps and restores holds for it ([cedana_storage_ok]).

    [IsDir] and [ReadDir] of the local, the S3 and the managed storage, which a
    streamed restore uses: S3 lists what is below subdirectories as well
    ([s3_lists_below]). *)

From stdpp Require Import sorting.
From S2P Require Import Prelude GoLib Compression Files Storage.
Import GoLib Compression Files Storage.

Module CedanaStorage.
#[local] Arguments String.append : simpl nomatch.

Definition PATH_PREFIX : string := "cedana://".

(** What the service and the HTTP client answer.  A URL stands for a file of
    the service; [answer] is the status of the request that moves its content. *)
Class Service := {
  download_url : string → gores string;
  upload_url : string → gores string;
  list_dir : string → gmap string string → gores (list string);
  file_of : string → string;
  NewRequest : string → option error;          (** whether the URL makes a request *)
  get_answer : string → gores Z;
  put_answer : string → gores Z;
  status_text : Z → string;
}.

(** URLs parse and stand for the file they were asked for, a file that can be
    uploaded can be downloaded, and requests are answered. *)
Class ServiceOk `(Service) := {
  download_file : ∀ p u, download_url p = Ok u → file_of u = p ∧ NewRequest u = None ∧ get_answer u = Ok 200%Z;
  upload_file : ∀ p u, upload_url p = Ok u → file_of u = p ∧ NewRequest u = None ∧ put_answer u = Ok 200%Z;
  uploaded_downloads : ∀ p u, upload_url p = Ok u → ∃ u', download_url p = Ok u';
}.

Section storage.
Context `{SV : Service}.

(** ** Files *)

(** [done]: the channel that [Close] receives from; when the request for an
    upload could not be made, nobody closes it. *)
Inductive Upload := Unserved | Uploading.
Record File := mkFile { downloadURL : string; uploadURL : string; writer : option string; done : option Upload }.

Definition NewDownloadableFile (url : string) : File := mkFile url "" None None.
Definition NewUploadableFile (url : string) : File := mkFile "" url None None.

(** What reading the file to its end gives: the first read downloads it. *)
Definition file_contents (f : File) (m : gmap string string) : Reader :=
  let u := downloadURL f in
  match NewRequest u with
  | Some e => mkReader "" (Some e)
  | None =>
      match get_answer u with
      | Err e => mkReader "" (Some e)
      | Ok st =>
          if decide (st ≠ 200)%Z then mkReader "" (Some (Errorf ("failed to download: " +:+ status_text st)))
          else match m !! file_of u with
               | Some data => eof data
               | None => mkReader "" (Some (Errorf ("failed to download: " +:+ status_text 404)))
               end
      end
  end.

(** [pipe_err]: of making the pipe; [write_err]: the upload has ended early and
    closed it. *)
Definition Write (pipe_err write_err : option error) (data : string) (f : File) : gores Z * File :=
  let put (bytes : string) (f : File) :=
    match write_err with
    | Some e => (Err e, f)
    | None => (Ok (Z.of_nat (String.length data)), mkFile (downloadURL f) (uploadURL f) (Some (bytes +:+ data)) (done f))
    end in
  match writer f with
  | Some bytes => put bytes f
  | None =>
      match pipe_err with
      | Some e => (Err e, f)
      | None =>
          match NewRequest (uploadURL f) with
          | Some e => (Err e, mkFile (downloadURL f) (uploadURL f) (Some "") (Some Unserved))
          | None => put "" (mkFile (downloadURL f) (uploadURL f) (Some "") (Some Uploading))
          end
      end
  end.

(** What the goroutine of the upload sends, and the service's files after it. *)
Definition upload (url data : string) (m : gmap string string) : option error * gmap string string :=
  match put_answer url with
  | Err e => (Some (Errorf ("upload failed: " +:+ Error e)), m)
  | Ok st =>
      if decide (200 ≤ st < 300)%Z then (None, <[file_of url := data]> m)
      else (Some (Errorf ("upload failed with status: " +:+ status_text st)), m)
  end.

(** [None]: waits for a channel that nobody serves. *)
Definition Close (f : File) (m : gmap string string) : option (option error * gmap string string) :=
  match done f with
  | None => Some (None, m)
  | Some Unserved => None
  | Some Uploading =>
      let '(e, m) := upload (uploadURL f) (default "" (writer f)) m in Some (errors_Join [e], m)
  end.

(** ** The storage *)

Definition sanitizePath (path : string) : gores string :=
  if negb (HasPrefix path PATH_PREFIX) then Err (Errorf ("path must start with " +:+ PATH_PREFIX))
  else
    let path := TrimPrefix (TrimPrefix path PATH_PREFIX) "/" in
    if decide (path = "") then Err (Errorf "path cannot be empty") else Ok path.

Definition Open (path : string) (w : World) : gores Reader :=
  path ← sanitizePath path;
  match download_url path with
  | Err e => Err (Errorf ("failed to get download URL: " +:+ Error e))
  | Ok u => Ok (file_contents (NewDownloadableFile u) (managed w))
  end.

Definition created (path : string) : gores File :=
  path ← sanitizePath path;
  match upload_url path with
  | Err e => Err (Errorf ("failed to get upload URL: " +:+ Error e))
  | Ok u => Ok (NewUploadableFile u)
  end.
Definition Create (path : string) (w : World) : gores World := _ ← created path; Ok w.

(** Closing a file that has been created and has had [data] written to it in
    one piece, for URLs that make a request ([close_uploads] is the general
    case). *)
Definition Closed (path data : string) (w : World) : option error * World :=
  match created path with
  | Err _ => (None, w)
  | Ok f =>
      if decide (data = "") then (None, w)
      else let '(e, m) := upload (uploadURL f) data (managed w) in (errors_Join [e], set_managed m w)
  end.

Definition Delete (path : string) (w : World) : option error * World :=
  match sanitizePath path with
  | Err e => (Some e, w)
  | Ok _ => (Some (Errorf "this operation is currently not supported for cedana storage"), w)
  end.

Definition cedana_storage : Storage := {|
  Storage.IsRemote := true;
  Storage.Open := Open;
  Storage.Create := Create;
  Storage.Written path data w := w;
  Storage.Closed := Closed;
  Storage.Delete := Delete;
|}.

(** ** Listings: [IsDir] and [ReadDir] *)

Definition cedana_IsDir (path : string) : gores bool := _ ← sanitizePath path; Ok true.
Definition cedana_ReadDir (path : string) (w : World) : gores (list string) :=
  path ← sanitizePath path;
  match list_dir path (managed w) with
  | Err e => Err (Errorf ("failed to list directory: " +:+ Error e))
  | Ok l => Ok l
  end.
End storage.

Definition fs_IsDir (path : string) (w : World) : gores bool :=
  match wfs w !! resolve path with
  | None => Err (Errorf ("failed to stat path: " +:+ Error (os_error "stat" (resolve path) "no such file or directory")))
  | Some n => Ok (match n with Dir => true | _ => false end)
  end.
Definition child (dir k : path) : option string :=
  match drop (length dir) k with
  | [name] => if decide (dir `prefix_of` k) then Some name else None
  | _ => None
  end.
Definition fs_ReadDir (path : string) (w : World) : gores (list string) :=
  let dir := resolve path in
  match wfs w !! dir with
  | Some Dir => Ok (merge_sort String.le (omap (child dir) (map_to_list (wfs w)).*1))
  | Some _ => Err (Errorf ("failed to read directory: " +:+ Error (os_error "readdirent" dir "not a directory")))
  | None => Err (Errorf ("failed to read directory: " +:+ Error (os_error "open" dir "no such file or directory")))
  end.

Definition s3_IsDir (path : string) : gores bool := _ ← s3_sanitizePath path; Ok true.
(** The pages of the listing together: the keys of the bucket that begin with
    the prefix, in their order. *)
Definition s3_keys (bucket prefix : string) (w : World) : list string :=
  merge_sort String.le (omap (λ bk, if bool_decide (bk.1 = bucket) && HasPrefix bk.2 prefix then Some bk.2 else None)
    (map_to_list (objects w)).*1).
Definition s3_ReadDir (path : string) (w : World) : gores (list string) :=
  '(bucket, key) ← s3_sanitizePath path;
  let prefix := if HasSuffix key "/" then key else key +:+ "/" in
  if decide (bucket ∈ buckets w) then Ok (s3_keys bucket prefix w)
  else Err (Errorf ("failed to list objects in bucket " +:+ bucket)).

(** ** Files *)

Section files.
Context `{SV : Service}.

(** The writes of a file, none of which finds the pipe closed. *)
Definition write_all (chunks : list string) (f : File) : File :=
  foldl (λ f data, (Write None None data f).2) f chunks.

Lemma write_all_uploading chunks url bytes :
  NewRequest url = None →
  write_all chunks (mkFile "" url (Some bytes) (Some Uploading)) =
  mkFile "" url (Some (bytes +:+ StrJoin chunks "")) (Some Uploading).
Proof.
  intros Hn. revert bytes. induction chunks as [|c chunks IH]; intros bytes; [by rewrite /= append_nil_r|].
  unfold write_all in *. cbn [foldl]. cbn. rewrite IH. f_equal. f_equal. rewrite append_assoc. f_equal.
  destruct chunks; simpl; [by rewrite append_nil_r|done].
Qed.

(** Closing a file that was written uploads the bytes of all writes in order
    and reports how the upload went; a file that was not written is not
    uploaded.  When the URL makes no request, the write reports it and closing
    the file then never returns. *)
Theorem close_uploads url (m : gmap string string) :
  Close (NewUploadableFile url) m = Some (None, m) ∧
  (NewRequest url = None → ∀ c chunks, Close (write_all (c :: chunks) (NewUploadableFile url)) m =
     let '(e, m') := upload url (StrJoin (c :: chunks) "") m in Some (errors_Join [e], m')) ∧
  (∀ e c, NewRequest url = Some e → let '(r, f) := Write None None c (NewUploadableFile url) in
     r = Err e ∧ Close f m = None).
Proof.
  split; [done|]. split.
  - intros Hn c chunks.
    assert (write_all (c :: chunks) (NewUploadableFile url) = write_all chunks (mkFile "" url (Some c) (Some Uploading))) as ->.
    { unfold write_all. cbn [foldl]. f_equal. unfold Write. cbn. by rewrite Hn. }
    rewrite write_all_uploading // /Close. cbn [done writer uploadURL default].
    assert (c +:+ StrJoin chunks "" = StrJoin (c :: chunks) "") as ->; [|done].
    destruct chunks; simpl; [by rewrite append_nil_r|done].
  - intros e c Hn. unfold Write. cbn. by rewrite Hn.
Qed.

(** ** The storage keeps its promises *)

Lemma Create_Ok p w w1 :
  Create p w = Ok w1 → w1 = w ∧ ∃ q u, sanitizePath p = Ok q ∧ upload_url q = Ok u ∧ created p = Ok (NewUploadableFile u).
Proof.
  unfold Create. destruct (created p) as [f|] eqn:Hc; [|done]. intros [= <-]. split; [done|].
  unfold created in Hc. destruct (sanitizePath p) as [q|] eqn:Hq; [|done]. cbn in Hc.
  destruct (upload_url q) as [u|] eqn:Hu; [|done]. exists q, u. by rewrite Hc.
Qed.

#[export] Instance cedana_storage_ok `{!ServiceOk SV} : StorageOk cedana_storage.
Proof.
  split; simpl.
  - by intros p w w1 data k [-> _]%Create_Ok _.
  - intros p w w1 fs q [-> (p' & u & _ & _ & Hc)]%Create_Ok _. unfold Create. rewrite Hc. by eexists.
  - by intros p w w1 data [-> _]%Create_Ok.
  - intros p w w1 data fs [-> (q & u & Hq & Hu & Hc)]%Create_Ok Hd _.
    destruct (upload_file q u Hu) as (Hf & _ & Ha). destruct (uploaded_downloads q u Hu) as [u' Hu'].
    destruct (download_file q u' Hu') as (Hf' & Hn' & Ha').
    unfold Closed. rewrite Hc decide_False //. cbn [uploadURL NewUploadableFile]. unfold upload. rewrite Ha.
    destruct (decide (200 ≤ 200 < 300)%Z); [|lia]. eexists. split_and!; [done|done|done|].
    intros fs' _. unfold Open. rewrite Hq /mbind /gores_bind Hu' /file_contents.
    cbn [downloadURL NewDownloadableFile]. rewrite Hn' Ha'. destruct (decide (200 ≠ 200)%Z); [done|].
    by rewrite /= Hf Hf' lookup_insert_eq.
  - done.
Qed.
End files.

(** A path of the form the documentation gives names the file after the
    prefix, with or without a further slash. *)
Lemma sanitizePath_ok (p : string) : p ≠ "" → HasPrefix p "/" = false →
  sanitizePath (PATH_PREFIX +:+ p) = Ok p ∧ sanitizePath (PATH_PREFIX +:+ "/" +:+ p) = Ok p.
Proof.
  intros Hp Hs. unfold sanitizePath. rewrite /HasPrefix !prefix_append !TrimPrefix_append. cbn [negb].
  assert (TrimPrefix p "/" = p) as ->.
  { destruct p as [|x p]; [done|]. cbn [TrimPrefix]. by rewrite Hs. }
  rewrite decide_False // (TrimPrefix_append "/") decide_False //.
Qed.

(** ** Listings *)

(** What the local storage lists are the entries of the directory. *)
Lemma child_Some dir k name : child dir k = Some name ↔ k = dir ++ [name].
Proof.
  unfold child. split.
  - destruct (drop (length dir) k) as [|x [|]] eqn:Hd; [done| |done]. case_decide as Hp; [|done].
    intros [= ->]. destruct Hp as [l ->]. rewrite drop_app_length in Hd. by rewrite Hd.
  - intros ->. rewrite drop_app_length decide_True //. by apply prefix_app_r.
Qed.

Theorem fs_ReadDir_entries path w names :
  fs_ReadDir path w = Ok names →
  ∀ name, name ∈ names ↔ is_Some (wfs w !! (resolve path ++ [name])).
Proof.
  unfold fs_ReadDir. destruct (wfs w !! resolve path) as [[]|]; [|done..]. intros [= <-] name.
  rewrite merge_sort_Permutation list_elem_of_omap. split.
  - intros (k & ([k' n] & -> & Hk)%list_elem_of_fmap & Hc%child_Some).
    apply elem_of_map_to_list in Hk. simpl in Hc. subst k'. eauto.
  - intros [n Hn]. exists (resolve path ++ [name]). split; [|by apply child_Some].
    apply list_elem_of_fmap. exists (resolve path ++ [name], n). split; [done|]. by apply elem_of_map_to_list.
Qed.

(** What S3 lists are the keys below the directory, at any depth. *)
Theorem s3_ReadDir_keys path w bucket key names :
  s3_ReadDir path w = Ok names → s3_sanitizePath path = Ok (bucket, key) → HasSuffix key "/" = false →
  ∀ k, k ∈ names ↔ is_Some (objects w !! (bucket, k)) ∧ ∃ rest, k = key +:+ "/" +:+ rest.
Proof.
  intros H Hs Hk k. unfold s3_ReadDir in H. rewrite Hs /mbind /gores_bind Hk in H. case_decide; [|done]. injection H as <-.
  unfold s3_keys. rewrite merge_sort_Permutation list_elem_of_omap. split.
  - intros (bk & (kv & -> & Hkv)%list_elem_of_fmap & Hb). destruct kv as [[b k'] d]. apply elem_of_map_to_list in Hkv.
    simpl in Hb. destruct (bool_decide (b = bucket)) eqn:Hbb; [|done]. apply bool_decide_eq_true in Hbb as ->.
    destruct (HasPrefix k' _) eqn:Hp; [|done]. injection Hb as ->. split; [eauto|].
    apply HasPrefix_true in Hp as [rest ->]. exists rest. by rewrite append_assoc.
  - intros [[d Hd] [rest ->]]. exists (bucket, key +:+ "/" +:+ rest). split.
    + apply list_elem_of_fmap. exists ((bucket, key +:+ "/" +:+ rest), d). split; [done|]. by apply elem_of_map_to_list.
    + cbn [fst snd]. rewrite bool_decide_true //.
      assert (HasPrefix (key +:+ "/" +:+ rest) (key +:+ "/") = true) as ->; [|done].
      apply HasPrefix_true. exists rest. by rewrite append_assoc.
Qed.

(** The same files in a local directory and below a prefix of S3: the shard of
    a checkpoint inside the directory is listed by S3 only. *)
Example s3_lists_below :
  let w := mkWorld {[ [] := Dir; ["ckpt"] := Dir; ["ckpt"; "old"] := Dir; ["ckpt"; "old"; "img-0"] := Reg "x";
                      ["ckpt"; "img-0"] := Reg "y" ]} {["b"]} {[("b", "ckpt/old/img-0") := "x"; ("b", "ckpt/img-0") := "y"]} ∅ [] [] in
  fs_ReadDir "/ckpt" w = Ok ["img-0"; "old"] ∧
  s3_ReadDir "s3://b/ckpt" w = Ok ["ckpt/img-0"; "ckpt/old/img-0"].
Proof. split; vm_compute; reflexivity. Qed.

(** ** A service *)

#[export] Instance sample_service : Service := {
  download_url p := Ok p; upload_url p := Ok p; list_dir _ m := Ok (map_to_list m).*1; file_of u := u;
  NewRequest _ := None; get_answer _ := Ok 200%Z; put_answer _ := Ok 200%Z; status_text st := itoaZ st;
}.
#[export] Instance sample_service_ok : ServiceOk sample_service.
Proof. split; intros p u [= <-]; eauto. Qed.
End CedanaStorage.
