(* ===== verification/Vm.v ===== *)
(** * Checkpoints of virtual machines (internal/cedana/dump_vm.go, restore_vm.go)

    [Server.DumpVM] and [Server.RestoreVM] with the adapters and handlers of
    plugins/cloud-hypervisor: the handlers, the client of the hypervisor's API
    (pkg/clh/clh.go) and the copy of the sandbox's state (pkg/utils).  The
    hypervisor is a third party: its answers are [Hypervisor].  The files are
    those of [Files]; the descriptors of the network that a request brings are in
    the daemon's [fdStore], and [closed] records every close of a descriptor.

    A successful dump has paused the machine, copied its state, taken the
    snapshot and tried to resume it, in this order ([dump_vm_steps]); that
    resuming failed is never reported ([resume_failure_not_reported]).  A
    restore of a request whose descriptors are not stored takes away those of
    another one ([restore_takes_another_request]), and one that succeeds closes
    its descriptors twice ([restored_fds_closed_twice]).  [None] is a panic. *)

From S2P Require Import Prelude GoLib Files.

Module Vm.
Import GoLib Files.
#[local] Arguments String.append : simpl never.

(** ** Data *)

Record Kata := mkKata { VmSocket : string; VmID : string }.
Record DumpVMReq := mkDumpVM { dType : string; Dir_ : string; Details : option (option Kata) }.
(** [RestoredNetConfig], also of the message to the hypervisor. *)
Record NetConfig := mkNet { ncID : string; NumFDs : Z; Fds : list Z }.
Record RestoreVMReq := mkRestoreVM {
  rType : string; VMSnapshotPath : string; VMSocketPath : string; RestoredNetConfig : list NetConfig; RequestIDs : list string;
}.

(** The requests of the hypervisor's API, with their bodies. *)
Inductive Call := VmPause | VmSnapshot (destination_url : string) | VmRestore (source_url : string) (net_fds : list NetConfig) | VmResume.

(** The body of an answer: what reading it gives, and what %v prints of the
    reader that it is. *)
Record Body := mkBody { ReadAll : gores string; printed : string }.
(** The status and the body of an answer, or why there is none; and the state of
    the hypervisor after it. *)
Class Hypervisor (H : Type) := { answer : string → Call → H → gores (Z * Body) * H }.

Section vm.
Context {H : Type} `{HV : Hypervisor H} `{MR : MapRange}.

Record World := mkWorld {
  hypervisor : H;
  calls : list Call;
  files : FS;
  fdStore : gmap string (list Z);
  closed : list Z;
}.
Definition set_files (fs : FS) (w : World) : World := mkWorld (hypervisor w) (calls w) fs (fdStore w) (closed w).
Definition set_store (s : gmap string (list Z)) (w : World) : World := mkWorld (hypervisor w) (calls w) (files w) s (closed w).
Definition close_fds (l : list Z) (w : World) : World :=
  mkWorld (hypervisor w) (calls w) (files w) (fdStore w) (closed w ++ l).

(** ** The client of the hypervisor *)

Definition Do (socket : string) (c : Call) : Go World (gores (Z * Body)) := λ w,
  let '(r, h) := answer socket c (hypervisor w) in
  Some (r, mkWorld h (calls w ++ [c]) (files w) (fdStore w) (closed w)).

Definition StatusNoContent : Z := 204.
(** An answer other than [StatusNoContent] is an error; its text also quotes the
    data of the request, which is left out here. *)
Definition verdict (failed_ error_ : string) (r : gores (Z * Body)) : option error :=
  match r with
  | Err e => Some (Errorf (failed_ +:+ Error e))
  | Ok (st, body) =>
      match ReadAll body with
      | Err e => Some e
      | Ok text => if decide (st = StatusNoContent) then None else Some (Errorf (error_ +:+ itoaZ st +:+ ", " +:+ text))
      end
  end.
(** The requests without data do not read the body. *)
Definition verdict_plain (failed_ error_ : string) (r : gores (Z * Body)) : option error :=
  match r with
  | Err e => Some (Errorf (failed_ +:+ Error e))
  | Ok (st, body) =>
      if decide (st = StatusNoContent) then None else Some (Errorf (error_ +:+ itoaZ st +:+ ", " +:+ printed body))
  end.
Definition expect (v : gores (Z * Body) → option error) (m : Go World (gores (Z * Body))) : Go World (option error) :=
  r ← m; mret (v r).

Definition pause_verdict := verdict_plain "failed to execute pause request: " "error pausing VM: ".
Definition Pause (socket : string) : Go World (option error) := expect pause_verdict (Do socket VmPause).
Definition resume_verdict := verdict_plain "failed to execute resume request: " "error resuming VM: ".
Definition Resume (socket : string) : Go World (option error) := expect resume_verdict (Do socket VmResume).
Definition GetPID (socket : string) : gores Z := Ok 0%Z.

(** ** The copy of the sandbox's state *)

Definition copyFile (n : node) (dest : path) (fs : FS) : option error * FS :=
  match n with
  | Reg data =>
      match Create dest fs with
      | Err e => (Some (Errorf ("failed to create destination file: " +:+ Error e)), fs)
      | Ok fs => (None, <[dest := Reg data]> fs)
      end
  | _ => (Some (Errorf "failed to open source file"), fs)
  end.

Definition entry_name (src rel : path) : string := last (src ++ rel) "".

Fixpoint copy_entries (src destRoot : path) (l : list (path * node)) (fs : FS) : option error * FS :=
  match l with
  | [] => (None, fs)
  | (rel, n) :: l =>
      let dest := destRoot ++ rel in
      match n with
      | Dir =>
          match MkdirAll dest fs with
          | Err e => (Some e, fs)
          | Ok fs => copy_entries src destRoot l fs
          end
      | _ =>
          if decide (entry_name src rel = "persist.json") then
            match copyFile n dest fs with
            | (None, fs) => copy_entries src destRoot l fs
            | r => r
            end
          else copy_entries src destRoot l fs
      end
  end.

(** The source is walked as it was before the copy. *)
Definition CopyFiltered (src destRoot : path) (fs : FS) : option error * FS :=
  match fs !! src with
  | None => (Some (os_error "lstat" src "no such file or directory"), fs)
  | Some _ => copy_entries src destRoot (Walk src fs) fs
  end.

Definition sbsPath : string := "/run/vc/sbs".
Definition persist_dir (destinationURL : string) : path := resolve (Join2 (TrimPrefix destinationURL "file://") "persist").

Definition snapshot_verdict := verdict "failed to execute request: " "error snapshotting vm: ".
Definition Snapshot (destinationURL socket vmID : string) : Go World (option error) := λ w,
  match Mkdir (persist_dir destinationURL) (files w) with
  | Err e => Some (Some (Errorf ("failed to create destination directory: " +:+ Error e)), w)
  | Ok fs =>
      match CopyFiltered (resolve (Join2 sbsPath vmID)) (persist_dir destinationURL) fs with
      | (Some e, fs) => Some (Some e, set_files fs w)
      | (None, fs) =>
          expect snapshot_verdict (Do socket (VmSnapshot destinationURL)) (set_files fs w)
      end
  end.

Definition restore_verdict := verdict "" "error restoring vm: ".
(** Reads the descriptors of the first configuration; they are files that are
    closed when the function returns. *)
Definition Restore (dial : string → option error) (snapshotPath socket : string) (netConfigs : list NetConfig)
    : Go World (option error) := λ w,
  match dial socket with
  | Some e => Some (Some e, w)
  | None =>
      n ← head netConfigs;
      '(e, w) ← expect restore_verdict (Do socket (VmRestore snapshotPath netConfigs)) w;
      Some (e, close_fds (Fds n) w)
  end.

(** ** The handlers *)

(** The result of a handler: the process whose exit it waits for. *)
Definition Result : Type := gores Z.

Definition dump (req : DumpVMReq) : Go World Result := λ w,
  d ← Details req; k ← d;
  '(err, w) ← Pause (VmSocket k) w;
  match err with
  | Some e => fail Internal ("Checkpoint task failed: " +:+ Error e) w
  | None =>
      '(err, w) ← Snapshot (Dir_ req) (VmSocket k) (VmID k) w;
      let r := match err with
               | Some e => Err (Status Internal ("Checkpoint task failed during snapshot: " +:+ Error e))
               | None =>
                   (* the error of resuming is assigned after this has been decided *)
                   match GetPID (VmSocket k) with
                   | Err e => Err (Status Internal ("Failed to get PID: " +:+ Error e))
                   | Ok pid => Ok pid
                   end
               end in
      '(resumeErr, w) ← Resume (VmSocket k) w;
      Some (r, w)
  end.

(** The loop over the store: the key it was at last, and the descriptors. *)
Fixpoint find_fds (requestID id : string) (l : list (string * list Z)) : string * list Z :=
  match l with
  | [] => (id, [])
  | (key, fds) :: l => if decide (requestID = key) then (key, fds) else find_fds requestID key l
  end.

Definition set_fds (fds : list Z) (l : list NetConfig) : option (list NetConfig) :=
  match l with [] => None | n :: l => Some (mkNet (ncID n) (NumFDs n) fds :: l) end.

Definition restore (dial : string → option error) (req : RestoreVMReq) : Go World Result := λ w,
  if decide (1 < length (RequestIDs req))%nat then
    fail Internal "Restore vm task failed: more than one request ID provided, we do not support this yet" w
  else
    requestID ← head (RequestIDs req);
    let '(id, netFds) := find_fds requestID "" (Range (fdStore w)) in
    if decide (id = "") then fail Internal "Restore task failed: request ID not found in FD store" w
    else
      let w := set_store (delete id (fdStore w)) w in
      net ← set_fds netFds (RestoredNetConfig req);
      '(err, w) ← Restore dial (VMSnapshotPath req) (VMSocketPath req) net w;
      match err with
      | Some e => failed "Restore task failed during vmSnapshotter Restore" e w
      | None =>
          '(err, w) ← Resume (VMSocketPath req) w;
          match err with
          | Some e => failed "Restore task failed during vmSnapshotter Restore" e w
          | None =>
              match GetPID (VMSocketPath req) with
              | Err e => failed "Failed to get PID" e w
              | Ok pid => Some (Ok pid, close_fds netFds w)
              end
          end
      end.

(** ** The chains *)

Definition Handler (Req : Type) : Type := Req → Go World Result.
Definition Adapter (Req : Type) : Type := Handler Req → Handler Req.
Definition chain {Req} (middleware : list (Adapter Req)) (h : Handler Req) : Handler Req := foldr (λ a h, a h) h middleware.

Definition FillMissingDumpVMDefaults (cfgDir : string) : Adapter DumpVMReq := λ next req,
  next (mkDumpVM (dType req) (if decide (Dir_ req = "") then cfgDir else Dir_ req) (Details req)).
Definition ValidateDumpVMRequest : Adapter DumpVMReq := λ next req,
  if bool_decide (Details req = None) then fail InvalidArgument "missing details"
  else if decide (dType req = "") then fail InvalidArgument "missing type"
  else next req.
Definition PrepareDumpDir : Adapter DumpVMReq := λ next req,
  next (mkDumpVM (dType req) ("file://" +:+ Dir_ req) (Details req)).
Definition PrepareDumpDirForRestore : Adapter RestoreVMReq := λ next req,
  next (mkRestoreVM (rType req) ("file://" +:+ VMSnapshotPath req) (VMSocketPath req) (RestoredNetConfig req) (RequestIDs req)).

(** What plugins export for a type, or that they do not. *)
Definition pluginMiddleware {Req} (type_of : Req → string) (export : string → gores (list (Adapter Req))) : Adapter Req := λ next req,
  match export (type_of req) with
  | Err e => fail Unimplemented (Error e)
  | Ok middleware => chain middleware next req
  end.
Definition pluginHandler {Req} (type_of : Req → string) (export : string → gores (Handler Req)) : Handler Req := λ req,
  match export (type_of req) with Err e => fail Unimplemented (Error e) | Ok handler => handler req end.

Definition DumpVM (cfgDir : string) (middleware : string → gores (list (Adapter DumpVMReq)))
    (handler : string → gores (Handler DumpVMReq)) : Handler DumpVMReq :=
  chain [FillMissingDumpVMDefaults cfgDir; ValidateDumpVMRequest; pluginMiddleware dType middleware] (pluginHandler dType handler).
Definition RestoreVM (middleware : string → gores (list (Adapter RestoreVMReq)))
    (handler : string → gores (Handler RestoreVMReq)) : Handler RestoreVMReq :=
  chain [pluginMiddleware rType middleware] (pluginHandler rType handler).

(** What the plugin exports. *)
Definition DumpVMMiddleware : list (Adapter DumpVMReq) := [PrepareDumpDir].
Definition RestoreVMMiddleware : list (Adapter RestoreVMReq) := [PrepareDumpDirForRestore].
End vm.

(** ** What is copied *)

Lemma MkdirAll_from_makes todo pre fs fs' :
  MkdirAll_from pre todo fs = Ok fs' → todo ≠ [] → fs' !! (pre ++ todo) = Some Dir.
Proof.
  revert pre fs. induction todo as [|c todo IH]; intros pre fs Hm Hne; [done|]. simpl in Hm.
  rewrite cons_middle app_assoc.
  assert (∃ fs1, MkdirAll_from (pre ++ [c]) todo fs1 = Ok fs' ∧ fs1 !! (pre ++ [c]) = Some Dir) as (fs1 & H1 & Hd).
  { destruct (fs !! (pre ++ [c])) as [[]|] eqn:Hc; simplify_eq; [by eexists|].
    eexists. split; [exact Hm|]. by rewrite lookup_insert_eq. }
  destruct todo as [|c' todo]; [|by apply (IH _ fs1)]. simpl in H1. simplify_eq. by rewrite app_nil_r.
Qed.

Lemma MkdirAll_makes dest rel fs fs' :
  dirs_to dest fs → MkdirAll (dest ++ rel) fs = Ok fs' → fs' !! (dest ++ rel) = Some Dir.
Proof.
  intros Hd Hm. destruct (dest ++ rel) as [|c l] eqn:Hl.
  - unfold MkdirAll in Hm. simpl in Hm. simplify_eq. apply Hd. by exists (dest).
  - by apply (MkdirAll_from_makes (c :: l) [] fs).
Qed.

(** The entries that are copied: directories, and files named persist.json. *)
Definition copied (src rel : path) (n : node) : Prop :=
  n = Dir ∨ ∃ d, n = Reg d ∧ entry_name src rel = "persist.json".

Lemma copyFile_Some n dest fs fs' : copyFile n dest fs = (None, fs') → ∃ d fs1, n = Reg d ∧ Create dest fs = Ok fs1 ∧ fs' = <[dest := Reg d]> fs1.
Proof. unfold copyFile. destruct n as [|d|]; [done| |done]. destruct (Create dest fs) as [fs1|e] eqn:Hc; [|done]. intros [= <-]. eauto. Qed.

Lemma copyFile_grows D rel n fs fs' e : copyFile n (D ++ rel) fs = (e, fs') → grows_below D fs fs'.
Proof.
  unfold copyFile. destruct n as [|d|]; [by intros [= _ <-]| |by intros [= _ <-]].
  destruct (Create _ fs) as [fs1|e'] eqn:Hc; intros [= _ <-]; [|done].
  eapply Create_grows; [|exact Hc]. by apply prefix_app_r.
Qed.

Lemma copy_entries_grows src D l fs e fs' :
  dirs_to D fs → copy_entries src D l fs = (e, fs') → grows_below D fs fs'.
Proof.
  revert fs. induction l as [|[rel n] l IH]; intros fs Hd H; [by injection H as _ <-|]. cbn [copy_entries] in H.
  assert (∀ m, (if decide (entry_name src rel = "persist.json") then
      match copyFile m (D ++ rel) fs with (None, fs) => copy_entries src D l fs | r => r end
      else copy_entries src D l fs) = (e, fs') → grows_below D fs fs') as Hfile.
  { intros m Hm. case_decide; [|by apply IH]. destruct (copyFile m _ fs) as [[e1|] fs1] eqn:Hc.
    - injection Hm as _ <-. by eapply copyFile_grows.
    - etrans; [by eapply copyFile_grows|]. apply IH; [|done]. eapply dirs_to_grows; [done|by eapply copyFile_grows]. }
  destruct n as [|d|k]; [|by apply (Hfile (Reg d))|by apply (Hfile (Special k))].
  destruct (MkdirAll _ fs) as [fs1|e1] eqn:Hm; [|by injection H as _ <-].
  apply MkdirAll_grows in Hm; [|done]. etrans; [exact Hm|]. apply IH; [|done]. by eapply dirs_to_grows.
Qed.

(** A file that is there already is kept by the entries that follow. *)
Lemma copy_entries_keeps src D l fs fs' rel d :
  dirs_to D fs → copy_entries src D l fs = (None, fs') → rel ∉ l.*1 →
  fs !! (D ++ rel) = Some (Reg d) → fs' !! (D ++ rel) = Some (Reg d).
Proof.
  revert fs. induction l as [|[rel' n] l IH]; intros fs Hd H Hn Hr; [by injection H as <-|].
  cbn [copy_entries] in H. cbn [fmap list_fmap] in Hn. apply not_elem_of_cons in Hn as [Hne Hn].
  destruct n as [|d'|k].
  - destruct (MkdirAll _ fs) as [fs1|e1] eqn:Hm; [|done].
    apply (IH fs1); [eapply dirs_to_grows; [done|by eapply MkdirAll_grows]|done|done|].
    destruct (MkdirAll_from_spec _ _ _ _ Hm (D ++ rel)) as [->|(? & _)]; [done|congruence].
  - case_decide; [|by apply (IH fs)]. destruct (copyFile (Reg d') _ fs) as [[e1|] fs1] eqn:Hc; [done|].
    apply (IH fs1); [eapply dirs_to_grows; [done|by eapply copyFile_grows]|done|done|].
    apply copyFile_Some in Hc as (d0 & fs2 & _ & Hcr & ->).
    rewrite lookup_insert_ne; [by intros ?%app_inv_head|]. unfold Create in Hcr.
    repeat case_match; simplify_eq; (rewrite lookup_insert_ne; [by intros ?%app_inv_head|done]).
  - case_decide; [done|]. by apply (IH fs).
Qed.

Lemma copy_entries_copies src D l fs fs' :
  dirs_to D fs → NoDup l.*1 → copy_entries src D l fs = (None, fs') →
  Forall (λ e, copied src e.1 e.2 → fs' !! (D ++ e.1) = Some e.2) l.
Proof.
  intros Hd Hnd. revert fs Hd. induction l as [|[rel n] l IH]; intros fs Hd H; [constructor|].
  cbn [copy_entries] in H. cbn [fmap list_fmap] in Hnd. apply list.NoDup_cons in Hnd as [Hn Hnd].
  destruct n as [|d|k].
  - destruct (MkdirAll _ fs) as [fs1|e1] eqn:Hm; [|done].
    assert (dirs_to D fs1) as Hd1 by (eapply dirs_to_grows; [done|by eapply MkdirAll_grows]).
    constructor; [|by apply (IH Hnd fs1)]. intros _. simpl.
    apply (copy_entries_grows _ _ _ _ _ _ Hd1 H). by apply (MkdirAll_makes D rel fs).
  - case_decide as Hname.
    + destruct (copyFile (Reg d) _ fs) as [[e1|] fs1] eqn:Hc; [done|].
      assert (dirs_to D fs1) as Hd1 by (eapply dirs_to_grows; [done|by eapply copyFile_grows]).
      constructor; [|by apply (IH Hnd fs1)]. intros _. simpl. apply (copy_entries_keeps src D l fs1); [done..|].
      apply copyFile_Some in Hc as (d0 & fs2 & [= ->] & _ & ->). by rewrite lookup_insert_eq.
    + constructor; [|by apply (IH Hnd fs)]. intros [?|(d' & _ & ?)]; by simpl in *.
  - case_decide; [done|]. constructor; [|by apply (IH Hnd fs)]. intros [?|(d' & ? & _)]; by simpl in *.
Qed.

(** A copy that succeeds has every directory of the sandbox and every file
    persist.json of it, with its content, and touches nothing outside the
    destination. *)
Theorem CopyFiltered_copies src D fs fs' :
  dirs_to D fs → CopyFiltered src D fs = (None, fs') →
  grows_below D fs fs' ∧
  ∀ rel n, fs !! (src ++ rel) = Some n → copied src rel n → fs' !! (D ++ rel) = Some n.
Proof.
  unfold CopyFiltered. intros Hd H. destruct (fs !! src) as [n0|]; [|done]. split; [by eapply copy_entries_grows|].
  pose proof (copy_entries_copies src D _ fs fs' Hd (NoDup_Walk src fs) H) as Hall. rewrite list.Forall_forall in Hall.
  intros rel n Hn Hc. apply (Hall (rel, n)); [by apply elem_of_Walk|done].
Qed.

(** ** Dumps *)

Section dumps.
Context {H : Type} `{HV : Hypervisor H} `{MR : MapRange}.
Implicit Types w : World (H := H).

(** The world after a request of the API. *)
Definition requested (socket : string) (c : Call) w : World (H := H) :=
  mkWorld (answer socket c (hypervisor w)).2 (calls w ++ [c]) (files w) (fdStore w) (closed w).

Lemma expect_Do v socket c w :
  expect v (Do socket c) w = Some (v (answer socket c (hypervisor w)).1, requested socket c w).
Proof. unfold expect, Do, requested, mbind, Go_bind. by destruct (answer socket c (hypervisor w)). Qed.

(** What is taken before the snapshot, and the snapshot. *)
Lemma Snapshot_Some url socket vmID w :
  ∃ err w1, Snapshot url socket vmID w = Some (err, w1) ∧
    ((is_Some err ∧ calls w1 = calls w ∧ hypervisor w1 = hypervisor w) ∨
     (∃ fs fs', Mkdir (persist_dir url) (files w) = Ok fs ∧
        CopyFiltered (resolve (Join2 sbsPath vmID)) (persist_dir url) fs = (None, fs') ∧
        w1 = requested socket (VmSnapshot url) (set_files fs' w) ∧
        err = snapshot_verdict (answer socket (VmSnapshot url) (hypervisor w)).1)).
Proof.
  unfold Snapshot. destruct (Mkdir _ (files w)) as [fs|e] eqn:Hm; [|eexists _, _; split; [done|by left]].
  destruct (CopyFiltered _ _ fs) as [[e|] fs'] eqn:Hc; [eexists _, _; split; [done|by left]|].
  eexists _, _. split; [apply expect_Do|]. right. by exists fs, fs'.
Qed.

(** The whole chain with what the plugin exports. *)
Definition clh_dump (cfgDir : string) : Handler DumpVMReq :=
  DumpVM cfgDir (λ _, Ok DumpVMMiddleware) (λ _, Ok dump).
Definition dump_url (cfgDir : string) (req : DumpVMReq) : string :=
  "file://" +:+ (if decide (Dir_ req = "") then cfgDir else Dir_ req).


(** Once the snapshot is taken, whatever the hypervisor answers to the request
    to resume the machine, the dump reports success; the machine is left as that
    request leaves it. *)
Theorem resume_failure_not_reported req k w w2 :
  Details req = Some (Some k) →
  pause_verdict (answer (VmSocket k) VmPause (hypervisor w)).1 = None →
  Snapshot (Dir_ req) (VmSocket k) (VmID k) (requested (VmSocket k) VmPause w) = Some (None, w2) →
  dump req w = Some (Ok 0%Z, requested (VmSocket k) VmResume w2).
Proof.
  intros Hd Hp Hs. unfold dump. rewrite Hd. cbn [mbind option_bind]. unfold Pause. rewrite expect_Do Hp.
  cbn [mbind option_bind]. rewrite Hs. cbn [mbind option_bind]. unfold Resume. by rewrite expect_Do.
Qed.

(** Details without those of Kata are not refused: the handler panics. *)
Theorem dump_without_kata_panics cfgDir req w :
  dType req ≠ "" → Details req = Some None → clh_dump cfgDir req w = None.
Proof.
  intros Ht Hd. unfold clh_dump, DumpVM. simpl. unfold FillMissingDumpVMDefaults, ValidateDumpVMRequest. simpl. rewrite Hd.
  destruct (decide (dType req = "")); done.
Qed.
End dumps.

(** ** Restores *)

Lemma find_fds_found requestID id (l : list (string * list Z)) fds :
  NoDup l.*1 → (requestID, fds) ∈ l → find_fds requestID id l = (requestID, fds).
Proof.
  revert id. induction l as [|[k f] l IH]; intros id Hnd Hin; [by apply not_elem_of_nil in Hin|].
  cbn [find_fds]. apply list.NoDup_cons in Hnd as [Hn Hnd]. case_decide as Hk.
  - subst k. apply elem_of_cons in Hin as [Hin|Hin]; [by injection Hin as ->|].
    contradict Hn. by apply (list_elem_of_fmap_2 fst) in Hin.
  - apply elem_of_cons in Hin as [Hin|Hin]; [by injection Hin|]. by apply IH.
Qed.

Lemma last_cons_default {A} (l : list A) x d : List.last (x :: l) d = List.last l x.
Proof.
  revert x d. induction l as [|y l IH]; intros x d; [done|].
  change (List.last (y :: l) d = List.last (y :: l) x). by rewrite !IH.
Qed.

Lemma find_fds_missing requestID id (l : list (string * list Z)) :
  requestID ∉ l.*1 → find_fds requestID id l = (List.last l.*1 id, []).
Proof.
  revert id. induction l as [|[k f] l IH]; intros id Hn; [done|]. cbn [find_fds fmap list_fmap] in *.
  apply not_elem_of_cons in Hn as [Hk Hn]. rewrite decide_False // IH //. by rewrite last_cons_default.
Qed.

Lemma last_in (l : list string) (d : string) : l ≠ [] → List.last l d ∈ l.
Proof.
  induction l as [|x l IH]; [done|]. intros _. destruct l as [|y l]; [by left|]. right. by apply IH.
Qed.

Section restores.
Context {H : Type} `{HV : Hypervisor H} `{MR : MapRange} (dial : string → option error).
Implicit Types w : World (H := H).

Definition clh_restore : Handler RestoreVMReq := RestoreVM (λ _, Ok RestoreVMMiddleware) (λ _, Ok (restore dial)).
Definition restore_url (req : RestoreVMReq) : string := "file://" +:+ VMSnapshotPath req.
Definition with_fds (fds : list Z) (n : NetConfig) (ns : list NetConfig) : list NetConfig := mkNet (ncID n) (NumFDs n) fds :: ns.

Lemma clh_restore_runs req w : clh_restore req w =
  restore dial (mkRestoreVM (rType req) (restore_url req) (VMSocketPath req) (RestoredNetConfig req) (RequestIDs req)) w.
Proof. done. Qed.

(** The part of the handler after the descriptors have been found. *)
Lemma restore_from_found req w requestID id fds n ns :
  RequestIDs req = [requestID] → RestoredNetConfig req = n :: ns → dial (VMSocketPath req) = None →
  find_fds requestID "" (Range (fdStore w)) = (id, fds) → id ≠ "" →
  ∃ r w', clh_restore req w = Some (r, w') ∧ fdStore w' = delete id (fdStore w) ∧
    let call := VmRestore (restore_url req) (with_fds fds n ns) in
    match r with
    | Ok _ => calls w' = calls w ++ [call; VmResume] ∧ closed w' = closed w ++ fds ++ fds
    | Err _ => (calls w' = calls w ++ [call] ∨ calls w' = calls w ++ [call; VmResume]) ∧ closed w' = closed w ++ fds
    end.
Proof.
  intros Hid Hnet Hdial Hfind Hne. rewrite clh_restore_runs. unfold restore.
  cbn [RequestIDs RestoredNetConfig VMSocketPath VMSnapshotPath]. rewrite Hid Hnet. cbn [length head mbind option_bind].
  destruct (decide (1 < 1)%nat); [lia|]. rewrite Hfind decide_False //. cbn [set_fds mbind option_bind].
  set (w1 := set_store (delete id (fdStore w)) w).
  set (call := VmRestore (restore_url req) (with_fds fds n ns)).
  assert (Restore dial (restore_url req) (VMSocketPath req) (with_fds fds n ns) w1 =
    Some (restore_verdict (answer (VMSocketPath req) call (hypervisor w1)).1,
      close_fds fds (requested (VMSocketPath req) call w1))) as Hr.
  { unfold Restore. rewrite Hdial. cbn [with_fds head mbind option_bind]. fold (with_fds fds n ns). by rewrite expect_Do. }
  unfold with_fds in Hr at 1. rewrite Hr. cbn [mbind option_bind].
  destruct (restore_verdict _) as [e|].
  { eexists _, _. split; [done|]. split; [done|]. split; [by left|done]. }
  unfold Resume. rewrite expect_Do. cbn [mbind option_bind].
  destruct (resume_verdict (answer _ VmResume _).1) as [e|].
  - eexists _, _. split; [done|]. split; [done|]. split; [right|done]. simpl. by rewrite -app_assoc.
  - eexists _, _. split; [done|]. split; [done|]. simpl. by rewrite -!app_assoc.
Qed.

(** A restore whose descriptors are stored hands them to the hypervisor with
    the first network and takes them out of the store; when it succeeds it has
    closed each of them twice. *)
Theorem restored_fds_closed_twice req w id fds n ns :
  RequestIDs req = [id] → id ≠ "" → fdStore w !! id = Some fds →
  RestoredNetConfig req = n :: ns → dial (VMSocketPath req) = None →
  ∃ r w', clh_restore req w = Some (r, w') ∧ fdStore w' = delete id (fdStore w) ∧
    let call := VmRestore (restore_url req) (with_fds fds n ns) in
    match r with
    | Ok _ => calls w' = calls w ++ [call; VmResume] ∧ closed w' = closed w ++ fds ++ fds
    | Err _ => (calls w' = calls w ++ [call] ∨ calls w' = calls w ++ [call; VmResume]) ∧ closed w' = closed w ++ fds
    end.
Proof.
  intros Hid Hne Hs Hnet Hdial. apply (restore_from_found req w id id fds n ns); [done..| |done].
  apply find_fds_found; [apply NoDup_Range_fst|]. by apply elem_of_Range.
Qed.

(** A restore whose descriptors are not stored fails only when nothing is
    stored.  Otherwise it takes the descriptors of another request out of the
    store, which nobody closes, and restores the machine without any. *)
Theorem restore_takes_another_request req w id n ns :
  RequestIDs req = [id] → fdStore w !! id = None → fdStore w !! "" = None →
  RestoredNetConfig req = n :: ns → dial (VMSocketPath req) = None →
  (fdStore w = ∅ → ∃ e, clh_restore req w = Some (Err e, w)) ∧
  (fdStore w ≠ ∅ → ∃ other fds r w', other ≠ id ∧ fdStore w !! other = Some fds ∧
     clh_restore req w = Some (r, w') ∧ fdStore w' = delete other (fdStore w) ∧ closed w' = closed w ∧
     VmRestore (restore_url req) (with_fds [] n ns) ∈ calls w').
Proof.
  intros Hid Hs Hempty Hnet Hdial.
  assert (id ∉ (Range (fdStore w)).*1) as Hn.
  { intros ([k f] & -> & Hin)%list_elem_of_fmap. apply elem_of_Range in Hin. by rewrite /= Hin in Hs. }
  assert (find_fds id "" (Range (fdStore w)) = (List.last (Range (fdStore w)).*1 "", [])) as Hfind by by apply find_fds_missing.
  split.
  - intros He. assert (Range (fdStore w) = []) as Hnil.
    { rewrite He. apply length_zero_iff_nil. by rewrite length_Range map_size_empty. }
    rewrite clh_restore_runs. unfold restore. cbn [RequestIDs]. rewrite Hid. cbn [length head mbind option_bind].
    destruct (decide (1 < 1)%nat); [lia|]. rewrite Hnil. cbn. by eexists.
  - intros Hne. set (other := List.last (Range (fdStore w)).*1 "") in *.
    assert (other ∈ (Range (fdStore w)).*1) as Hin.
    { apply last_in. intros Hnil%fmap_nil_inv. apply Hne. apply map_size_empty_iff. by rewrite -length_Range Hnil. }
    assert (other ≠ id) as Ho by (intros ->; done).
    apply list_elem_of_fmap in Hin as ([k fds] & Hk & Hin). simpl in Hk. apply elem_of_Range in Hin. rewrite -Hk in Hin.
    assert (other ≠ "") as Hoe by (intros Hoe; rewrite Hoe in Hin; congruence).
    destruct (restore_from_found req w id other [] n ns Hid Hnet Hdial Hfind Hoe) as (r & w' & Hr & Hst & Hc).
    exists other, fds, r, w'. split; [done|]. split; [done|]. split; [done|]. split; [done|]. simpl in Hc.
    destruct r as [pid|e]; destruct Hc as [Hc Hcl]; rewrite app_nil_r in Hcl; (split; [done|]).
    + rewrite Hc. set_solver.
    + destruct Hc as [-> | ->]; set_solver.
Qed.

(** A request without an ID makes the handler panic. *)
Theorem restore_without_id_panics req w : RequestIDs req = [] → clh_restore req w = None.
Proof. intros Hid. rewrite clh_restore_runs. unfold restore. cbn [RequestIDs]. by rewrite Hid. Qed.
End restores.

(** ** A machine that does not resume *)

Definition no_body : Body := mkBody (Ok "") "{}".
Definition refusing : Hypervisor bool := {|
  answer _ c paused :=
    match c with
    | VmPause => (Ok (204%Z, no_body), true)
    | VmResume => (Ok (500%Z, no_body), paused)
    | _ => (Ok (204%Z, no_body), paused)
    end |}.
Definition sample_files : FS :=
  {[ [] := Dir; ["run"] := Dir; ["run"; "vc"] := Dir; ["run"; "vc"; "sbs"] := Dir; ["run"; "vc"; "sbs"; "vm1"] := Dir;
     ["run"; "vc"; "sbs"; "vm1"; "persist.json"] := Reg "state"; ["run"; "vc"; "sbs"; "vm1"; "log"] := Reg "text";
     ["dumps"] := Dir ]}.
Definition sample_vm : World := mkWorld false [] sample_files {["req-2" := [7%Z]]} [].
Definition sample_kata : Kata := mkKata "/run/clh.sock" "vm1".
Definition sample_dump : DumpVMReq := mkDumpVM "cloud-hypervisor" "/dumps" (Some (Some sample_kata)).
Definition sample_restore (id : string) : RestoreVMReq :=
  mkRestoreVM "cloud-hypervisor" "/dumps" "/run/clh.sock" [mkNet "net0" 1 []] [id].


(** The dump succeeded, the machine is paused. *)
Example left_paused :
  (hypervisor ∘ snd) <$> clh_dump (HV := refusing) "/tmp" sample_dump sample_vm = Some true ∧
  (λ r, files r.2 !! ["dumps"; "persist"; "persist.json"]) <$> clh_dump (HV := refusing) "/tmp" sample_dump sample_vm =
    Some (Some (Reg "state")) ∧
  (λ r, files r.2 !! ["dumps"; "persist"; "log"]) <$> clh_dump (HV := refusing) "/tmp" sample_dump sample_vm = Some None.
Proof. split_and!; vm_compute; reflexivity. Qed.

Example restored_fds_closed_twice_witness :
  ∃ r w', clh_restore (HV := refusing) (λ _, None) (sample_restore "req-2") sample_vm = Some (r, w') ∧ fdStore w' = ∅.
Proof.
  destruct (restored_fds_closed_twice (HV := refusing) (λ _, None) (sample_restore "req-2") sample_vm "req-2" [7%Z]
    (mkNet "net0" 1 []) [] eq_refl ltac:(done) ltac:(vm_compute; reflexivity) eq_refl eq_refl) as (r & w' & Hr & Hs & _).
  exists r, w'. split; [exact Hr|]. rewrite Hs. vm_compute. reflexivity.
Defined.

Example restore_takes_another_request_witness :
  ∃ other w' r, clh_restore (HV := refusing) (λ _, None) (sample_restore "req-1") sample_vm = Some (r, w') ∧
    fdStore w' = delete other {["req-2" := [7%Z]]} ∧ closed w' = [].
Proof.
  destruct (restore_takes_another_request (HV := refusing) (λ _, None) (sample_restore "req-1") sample_vm "req-1"
    (mkNet "net0" 1 []) [] eq_refl ltac:(vm_compute; reflexivity) ltac:(vm_compute; reflexivity) eq_refl eq_refl) as [_ H].
  destruct H as (other & fds & r & w' & _ & _ & Hr & Hs & Hc & _); [done|].
  exists other, w', r. split; [exact Hr|]. split; [exact Hs|exact Hc].
Defined.
End Vm.
