(* ===== verification/Job.v ===== *)
(** * Jobs (internal/cedana/job/job.go)

    A job wraps the protobuf message of a managed process.  The messages come
    from generated code outside the repository; the fields the daemon stores
    and reads back are kept.  What the operating system answers about processes
    and files is a [JobEnv].  The locks of a job make each method atomic. *)

From S2P Require Import Prelude GoLib.
Import GoLib.

Module Job.

(** ** Messages *)

Record CPU := mkCPU { PhysicalID : string; VendorID : string; Family : string; Count : Z }.

Record Host := mkHost {
  HID : string; MAC : string; Hostname : string; OS : string; Platform : string;
  KernelVersion : string; KernelArch : string; HCPU : option CPU; MemTotal : option Z;
}.

(** [daemon.ProcessState], as far as it is kept in the database. *)
Record ProcessState := mkState {
  PID : Z;
  Cmdline : string;
  StartTime : Z;
  WorkingDir : string;
  sStatus : string;
  sIsRunning : bool;
  sGPUEnabled : bool;
  sHost : option Host;
  UIDs : list Z;
  GIDs : list Z;
  Groups : list Z;
}.

(** [daemon.Details]: the JID and the rest, which only plugins look at. *)
Record Details := mkDetails { DetailsJID : option string; Payload : string }.

Record DJob := mkDJob {
  JID : string;
  Type_ : string;
  Log : string;
  JDetails : option Details;
  State : option ProcessState;
}.

Record Checkpoint := mkCheckpoint {
  CID : string; CJID : string; CPath : string; CTime : Z; CSize : Z;
}.

Definition empty_state : ProcessState :=
  mkState 0 "" 0 "" "" false false None [] [] [].

(** The getters of generated code, which read a nil message as empty. *)
Definition GetState (j : DJob) : ProcessState := default empty_state (State j).
Definition GetHostID (s : ProcessState) : string :=
  match sHost s with Some h => HID h | None => "" end.

Definition set_State (s : option ProcessState) (j : DJob) : DJob :=
  mkDJob (JID j) (Type_ j) (Log j) (JDetails j) s.
Definition set_PID (pid : Z) (s : ProcessState) : ProcessState :=
  mkState pid (Cmdline s) (StartTime s) (WorkingDir s) (sStatus s) (sIsRunning s)
    (sGPUEnabled s) (sHost s) (UIDs s) (GIDs s) (Groups s).
Definition set_Status (status : string) (running : bool) (s : ProcessState) : ProcessState :=
  mkState (PID s) (Cmdline s) (StartTime s) (WorkingDir s) status running
    (sGPUEnabled s) (sHost s) (UIDs s) (GIDs s) (Groups s).
Definition set_GPU (b : bool) (s : ProcessState) : ProcessState :=
  mkState (PID s) (Cmdline s) (StartTime s) (WorkingDir s) (sStatus s) (sIsRunning s)
    b (sHost s) (UIDs s) (GIDs s) (Groups s).

(** ** The operating system *)

Record JobEnv := mkEnv {
  (** [host.HostID] *)
  HostID : gores string;
  (** [process.NewProcess]: the command line of a process that exists *)
  NewProcess : Z → option (gores string);
  (** [utils.FillProcessState], the flag being [deep] *)
  FillProcessState : Z → ProcessState → bool → ProcessState;
  (** whether [os.Stat] finds a file *)
  file_exists : string → bool;
  Getpgid : Z → gores Z;
}.

(** ** Operations *)

Definition newJob (jid jobType : string) (host : Host) : DJob :=
  mkDJob jid jobType "" None (Some (mkState 0 "" 0 "" "" false false (Some host) [] [] [])).

Definition fromProto (j : DJob) : DJob :=
  mkDJob (JID j) (Type_ j) (Log j) (JDetails j) (State j).

Definition latestState (env : JobEnv) (deep : bool) (j : DJob) : ProcessState :=
  match State j with
  | None => set_Status "unknown" false empty_state
  | Some state =>
      let remote :=
        match HostID env with
        | Ok hostId => negb (bool_decide (GetHostID state = "")) &&
                       negb (bool_decide (GetHostID state = hostId))
        | Err _ => false
        end in
      if remote then set_Status "remote" false state
      else
        match NewProcess env (int32 (PID state)) with
        | None => set_Status "halted" false state
        | Some cmdline =>
            let stale := set_Status "stale" true state in
            if negb (bool_decide (Cmdline state = "")) &&
               negb (match cmdline with Ok c => bool_decide (Cmdline state = c) | Err _ => false end)
            then stale
            else FillProcessState env (PID state) stale deep
        end
  end.

Definition latestLog (env : JobEnv) (j : DJob) : string :=
  if file_exists env (Log j) then Log j else "".

(** [Sync] and [SyncDeep] without an explicit state. *)
Definition sync_job (env : JobEnv) (deep : bool) (j : DJob) : DJob :=
  mkDJob (JID j) (Type_ j) (latestLog env j) (JDetails j) (Some (latestState env deep j)).

Definition Sync (env : JobEnv) (state : option ProcessState) (j : DJob) : DJob :=
  match state with
  | Some s => mkDJob (JID j) (Type_ j) (latestLog env j) (JDetails j) (Some s)
  | None => sync_job env false j
  end.

Definition SyncDeep (env : JobEnv) (state : option ProcessState) (j : DJob) : DJob :=
  match state with
  | Some s => mkDJob (JID j) (Type_ j) (latestLog env j) (JDetails j) (Some s)
  | None => sync_job env true j
  end.

Definition SetPID (pid : Z) (j : DJob) : DJob := set_State (Some (set_PID pid (GetState j))) j.
Definition GetPID (j : DJob) : Z := PID (GetState j).

Definition GetPGID (env : JobEnv) (j : DJob) : Z :=
  let pid := GetPID j in
  if decide (pid = 0%Z) then 0%Z
  else match Getpgid env pid with Err _ => 0%Z | Ok pgid => uint32 pgid end.

Definition SetDetails (d : Details) (j : DJob) : DJob :=
  mkDJob (JID j) (Type_ j) (Log j) (Some (mkDetails (Some (JID j)) (Payload d))) (State j).
Definition SetLog (log : string) (j : DJob) : DJob :=
  mkDJob (JID j) (Type_ j) log (JDetails j) (State j).
Definition IsRunning (j : DJob) : bool := sIsRunning (GetState j).
Definition IsRemote (j : DJob) : bool := bool_decide (sStatus (GetState j) = "remote").
Definition Status (j : DJob) : string := sStatus (GetState j).
Definition GPUEnabled (j : DJob) : bool := sGPUEnabled (GetState j).
Definition SetGPUEnabled (b : bool) (j : DJob) : DJob :=
  set_State (Some (set_GPU b (GetState j))) j.

(** A job reported as running after a sync has a live process here: its
    recorded host, if any, is this machine and a process with its PID exists.
    A job of another machine is reported as remote and not running, and one
    whose process is gone as halted and not running. *)
Theorem synced_job_status env deep (j : DJob) s :
  State j = Some s →
  let s' := latestState env deep j in
  let other := ∃ id, HostID env = Ok id ∧ GetHostID s ≠ "" ∧ GetHostID s ≠ id in
  (sIsRunning s' = true → ¬ other ∧ is_Some (NewProcess env (int32 (PID s)))) ∧
  (other → sStatus s' = "remote" ∧ sIsRunning s' = false) ∧
  (¬ other → NewProcess env (int32 (PID s)) = None →
     sStatus s' = "halted" ∧ sIsRunning s' = false).
Proof.
  intros Hs s' other. subst s'. rewrite /latestState Hs.
  set (remote := match HostID env with Ok hostId => _ | Err _ => _ end).
  assert (remote = true ↔ other) as Hrem.
  { rewrite /remote /other. destruct (HostID env) as [id|e].
    - rewrite andb_true_iff !negb_true_iff !bool_decide_eq_false. naive_solver.
    - naive_solver. }
  destruct remote; [split_and!; naive_solver|].
  assert (¬ other) as Hno by (intros ?%Hrem; done).
  destruct (NewProcess env _) eqn:Hp; split_and!; naive_solver.
Qed.

Definition sample_job : DJob :=
  mkDJob "job1" "process" "" None
    (Some (mkState 42 "sleep" 0 "/" "" false false
      (Some (mkHost "host2" "m" "h" "linux" "p" "k" "a" None None)) [] [] [])).

Definition sample_env : JobEnv :=
  mkEnv (Ok "host1") (λ _, Some (Ok "sleep")) (λ _ s _, s) (λ _, true) (λ p, Ok p).

Lemma synced_job_status_witness :
  sStatus (latestState sample_env true sample_job) = "remote" ∧
  sIsRunning (latestState sample_env true sample_job) = false.
Proof.
  apply (synced_job_status sample_env true sample_job _ eq_refl).
  by exists "host1".
Defined.

End Job.
