(* ===== verification/Db.v ===== *)
(** * The job database (internal/db)

    [DB] is the interface of db.go as far as the job manager uses it, with what
    the manager relies on as laws.  [Sqlite] is db_sqlite.go over a model of
    the three tables of schema.sql: rows with the column types of the schema,
    its CHECK constraints and primary keys, and the join with the hosts table.
    The driver does not enforce foreign keys by default, so nothing cascades.
    Protobuf's JSON encoding is a parameter. *)

From Stdlib Require Import DecimalString DecimalN.
From S2P Require Import Prelude GoLib Job.
Import GoLib Job.

Module Db.

(** ** The interface

    A successful write of a job is read back as [stored], provided the database
    can list the job at all ([known]), and of a checkpoint as [cstored].  A
    failed call changes nothing. *)
Class DB (S : Type) := {
  PutJob : DJob → S → option error * S;
  ListJobs : S → gores (list DJob) * S;
  DeleteJob : string → S → option error * S;
  PutCheckpoint : Checkpoint → S → option error * S;
  ListCheckpointsByJIDs : list string → S → gores (list Checkpoint) * S;
  DeleteCheckpoint : string → S → option error * S;
}.

Class DBLaws (S : Type) `{DB S} := {
  dbjobs : S → gmap string DJob;
  dbckpts : S → gmap string Checkpoint;
  stored : S → DJob → DJob;
  known : S → DJob → Prop;
  cstored : Checkpoint → Checkpoint;
  put_job : ∀ j s e s', PutJob j s = (e, s') →
    dbckpts s' = dbckpts s ∧
    (e ≠ None → dbjobs s' = dbjobs s) ∧
    (e = None → known s j → dbjobs s' = <[JID j := stored s j]> (dbjobs s)) ∧
    (∀ jid, jid ≠ JID j → dbjobs s' !! jid = dbjobs s !! jid);
  delete_job : ∀ jid s e s', DeleteJob jid s = (e, s') →
    dbckpts s' = dbckpts s ∧
    dbjobs s' = match e with None => delete jid (dbjobs s) | Some _ => dbjobs s end;
  list_jobs : ∀ s r s', ListJobs s = (r, s') →
    dbjobs s' = dbjobs s ∧ dbckpts s' = dbckpts s ∧
    ∀ l, r = Ok l → Forall (λ j, dbjobs s !! JID j = Some j) l;
  put_ckpt : ∀ c s e s', PutCheckpoint c s = (e, s') →
    dbjobs s' = dbjobs s ∧
    dbckpts s' = match e with None => <[CID c := cstored c]> (dbckpts s) | Some _ => dbckpts s end;
  delete_ckpt : ∀ id s e s', DeleteCheckpoint id s = (e, s') →
    dbjobs s' = dbjobs s ∧
    dbckpts s' = match e with None => delete id (dbckpts s) | Some _ => dbckpts s end;
  list_ckpts : ∀ jids s r s', jids ≠ [] → ListCheckpointsByJIDs jids s = (r, s') →
    dbjobs s' = dbjobs s ∧ dbckpts s' = dbckpts s ∧
    ∀ l, r = Ok l → Forall (λ c, dbckpts s !! CID c = Some c ∧ CJID c ∈ jids) l;
}.

(** ** Lists of numbers in a column (pkg/utils/slice.go) *)

Definition Uint32ToStringSlice (l : list Z) : list string := itoaZ <$> l.

(** [fmt.Sscanf(v, "%d", &i)], which leaves 0 when there is no number. *)
Definition Sscanf_d (v : string) : Z :=
  match NilEmpty.uint_of_string v with
  | Some (Decimal.Nil) | None => 0
  | Some u => Z.of_N (N.of_uint u)
  end.

Definition StringToUint32Slice (l : list string) : list Z := Sscanf_d <$> l.

Definition join_ids (l : list Z) : string := StrJoin (Uint32ToStringSlice l) ",".
Definition split_ids (s : string) : list Z := StringToUint32Slice (Split s comma).

(** Milliseconds as the timestamps of the schema, in nanoseconds. *)
Definition time_of_millis (ms : Z) : Z := int64 (int64 ms * 1000000).
Definition UnixMilli (ns : Z) : Z := ns / 1000000.

(** ** Rows *)

Record JobRow := mkJobRow {
  rType : string; rGpuenabled : Z; rLog : string; rDetails : string; rPid : Z;
  rCmdline : string; rStarttime : Z; rWorkingdir : string; rStatus : string;
  rIsrunning : Z; rHostid : string; rUids : string; rGids : string; rGroups : string;
}.

Record HostRow := mkHostRow {
  hMac : string; hHostname : string; hOs : string; hPlatform : string;
  hKernelversion : string; hKernelarch : string; hCpuphysicalid : string;
  hCpuvendorid : string; hCpufamily : string; hCpucount : Z; hMemtotal : Z;
}.

Record CheckpointRow := mkCheckpointRow { cJid : string; cPath : string; cTime : Z; cSize : Z }.

Record Tables := mkTables {
  jobs : gmap string JobRow;
  hosts : gmap string HostRow;
  checkpoints : gmap string CheckpointRow;
}.

Module Sqlite.

Section sqlite.
(** [protojson.Marshal] and [Unmarshal] of [daemon.Details]; a nil message is
    written like an empty one. *)
Context (Marshal : option Details → string) (Unmarshal : string → gores Details).
Context `{MapRange}.

Definition constraint_error (what : string) : error := Errorf (what +:+ " constraint failed").

(** The CHECK constraints of the jobs table. *)
Definition job_checks (r : JobRow) : bool :=
  negb (bool_decide (rType r = "")) && bool_decide (0 < rPid r)%Z &&
  negb (bool_decide (rHostid r = "")).

Definition insert_job (jid : string) (r : JobRow) (t : Tables) : option error * Tables :=
  if negb (job_checks r) then (Some (constraint_error "CHECK"), t)
  else match jobs t !! jid with
       | Some _ => (Some (constraint_error "UNIQUE"), t)
       | None => (None, mkTables (<[jid := r]> (jobs t)) (hosts t) (checkpoints t))
       end.

(** UPDATE of a row that is absent changes nothing and does not fail. *)
Definition update_job (jid : string) (r : JobRow) (t : Tables) : option error * Tables :=
  match jobs t !! jid with
  | None => (None, t)
  | Some _ => if negb (job_checks r) then (Some (constraint_error "CHECK"), t)
              else (None, mkTables (<[jid := r]> (jobs t)) (hosts t) (checkpoints t))
  end.

(** jobs JOIN hosts, the rows in any order. *)
Definition joined (t : Tables) : list (string * JobRow * (string * HostRow)) :=
  omap (λ '(jid, r), h ← (hosts t !! rHostid r); Some ((jid, r), (rHostid r, h))) (Range (jobs t)).

Inductive row :=
| ListJobsRow (r : string * JobRow * (string * HostRow))
| ListJobsByIDsRow (r : string * JobRow * (string * HostRow))
| ListJobsByHostIDsRow (r : string * JobRow * (string * HostRow)).

Definition q_ListJobs (t : Tables) : list row := ListJobsRow <$> joined t.
Definition q_ListJobsByIDs (ids : list string) (t : Tables) : list row :=
  ListJobsByIDsRow <$> filter (λ r, r.1.1 ∈ ids) (joined t).
Definition q_ListJobsByHostIDs (ids : list string) (t : Tables) : list row :=
  ListJobsByHostIDsRow <$> filter (λ r, r.2.1 ∈ ids) (joined t).

Definition row_of_job (job : DJob) : JobRow :=
  let s := GetState job in
  mkJobRow (Type_ job) (if sGPUEnabled s then 1 else 0)%Z (Log job) (Marshal (JDetails job))
    (PID s) (Cmdline s) (time_of_millis (StartTime s)) (WorkingDir s) (sStatus s)
    (if sIsRunning s then 1 else 0)%Z (GetHostID s) (join_ids (UIDs s)) (join_ids (GIDs s))
    (join_ids (Groups s)).

Definition PutJob (job : DJob) (t : Tables) : option error * Tables :=
  match q_ListJobsByIDs [JID job] t with
  | _ :: _ => update_job (JID job) (row_of_job job) t
  | [] => insert_job (JID job) (row_of_job job) t
  end.

Definition fromDBHost (id : string) (h : HostRow) : Host :=
  mkHost id (hMac h) (hHostname h) (hOs h) (hPlatform h) (hKernelversion h) (hKernelarch h)
    (Some (mkCPU (hCpuphysicalid h) (hCpuvendorid h) (hCpufamily h) (int32 (hCpucount h))))
    (Some (uint64 (hMemtotal h))).

Definition fromDBJobRow (r : row) : gores DJob :=
  match r with
  | ListJobsRow r | ListJobsByIDsRow r =>
      let '((jid, job), (hid, h)) := r in
      details ← Unmarshal (rDetails job);
      mret (mkDJob jid (rType job) (rLog job) (Some details)
        (Some (mkState (uint32 (rPid job)) (rCmdline job) (uint64 (UnixMilli (rStarttime job)))
          (rWorkingdir job) (rStatus job) (bool_decide (0 < rIsrunning job)%Z)
          (bool_decide (0 < rGpuenabled job)%Z) (Some (fromDBHost hid h))
          (split_ids (rUids job)) (split_ids (rGids job)) (split_ids (rGroups job)))))
  | ListJobsByHostIDsRow _ => Err (Errorf "unknown row type")
  end.

(** The loops over the rows: the first error ends them. *)
Fixpoint from_rows (l : list row) : gores (list DJob) :=
  match l with
  | [] => Ok []
  | r :: l' => job ← fromDBJobRow r; rest ← from_rows l'; mret (job :: rest)
  end.

Definition ListJobs (jids : list string) (t : Tables) : gores (list DJob) :=
  match jids with
  | [] => from_rows (q_ListJobs t)
  | _ => from_rows (q_ListJobsByIDs jids t)
  end.

Definition ListJobsByHostIDs (hostIDs : list string) (t : Tables) : gores (list DJob) :=
  from_rows (q_ListJobsByHostIDs hostIDs t).

Definition DeleteJob (jid : string) (t : Tables) : option error * Tables :=
  (None, mkTables (delete jid (jobs t)) (hosts t) (checkpoints t)).

(** ** Hosts *)

Definition host_checks (h : HostRow) : bool :=
  forallb (λ s, negb (bool_decide (s = "")))
    [hMac h; hHostname h; hOs h; hPlatform h; hKernelversion h; hKernelarch h].

Definition PutHost (host : Host) (t : Tables) : option error * Tables :=
  match HCPU host, MemTotal host with
  | Some cpu, Some mem =>
      let r := mkHostRow (MAC host) (Hostname host) (OS host) (Platform host)
        (KernelVersion host) (KernelArch host) (PhysicalID cpu) (VendorID cpu) (Family cpu)
        (Count cpu) (int64 mem) in
      (* an existing row is updated, a missing one is created: both write [r] *)
      if negb (host_checks r) then (Some (constraint_error "CHECK"), t)
      else (None, mkTables (jobs t) (<[HID host := r]> (hosts t)) (checkpoints t))
  | _, _ => (Some (Errorf "CPU or Memory info missing"), t)
  end.

Definition ListHosts (ids : list string) (t : Tables) : list Host :=
  (λ '(id, h), fromDBHost id h) <$>
    match ids with [] => Range (hosts t) | _ => filter (λ kv, kv.1 ∈ ids) (Range (hosts t)) end.

Definition DeleteHost (id : string) (t : Tables) : option error * Tables :=
  (None, mkTables (jobs t) (delete id (hosts t)) (checkpoints t)).

(** ** Checkpoints *)

Definition row_of_checkpoint (c : Checkpoint) : CheckpointRow :=
  mkCheckpointRow (CJID c) (CPath c) (time_of_millis (CTime c)) (CSize c).

Definition PutCheckpoint (c : Checkpoint) (t : Tables) : option error * Tables :=
  if bool_decide (CJID c = "") then (Some (constraint_error "CHECK"), t)
  else (None, mkTables (jobs t) (hosts t) (<[CID c := row_of_checkpoint c]> (checkpoints t))).

Definition fromDBCheckpoint (id : string) (r : CheckpointRow) : Checkpoint :=
  mkCheckpoint id (cJid r) (cPath r) (UnixMilli (cTime r)) (cSize r).

(** The rows come ordered by time, which no caller depends on. *)
Definition ListCheckpoints (ids : list string) (t : Tables) : list Checkpoint :=
  (λ '(id, r), fromDBCheckpoint id r) <$>
    match ids with
    | [] => Range (checkpoints t)
    | _ => filter (λ kv, kv.1 ∈ ids) (Range (checkpoints t))
    end.

Definition ListCheckpointsByJIDs (jids : list string) (t : Tables) : list Checkpoint :=
  (λ '(id, r), fromDBCheckpoint id r) <$>
    match jids with
    | [] => Range (checkpoints t)
    | _ => filter (λ kv, cJid kv.2 ∈ jids) (Range (checkpoints t))
    end.

Definition DeleteCheckpoint (id : string) (t : Tables) : option error * Tables :=
  (None, mkTables (jobs t) (hosts t) (delete id (checkpoints t))).

(** ** Correctness *)

Lemma Sscanf_itoa z : (0 <= z)%Z → Sscanf_d (itoaZ z) = z.
Proof.
  intros Hz. rewrite /Sscanf_d /itoaZ decide_False; [lia|].
  rewrite /itoa NilEmpty.usu.
  assert (N.of_uint (N.to_uint (Z.to_N z)) = Z.to_N z) as Hn by apply Unsigned.of_to.
  destruct (N.to_uint (Z.to_N z)) eqn:E; rewrite ?Hn ?Z2N.id //.
  simpl in Hn. rewrite -Hn in E. done.
Qed.

Definition norm_ids (l : list Z) : list Z := match l with [] => [0%Z] | _ => l end.

Lemma split_join_ids l : Forall (λ z, (0 <= z)%Z) l → split_ids (join_ids l) = norm_ids l.
Proof.
  intros Hl. rewrite /split_ids /join_ids. destruct l as [|z l]; [done|].
  rewrite Split_Join; [done| |].
  - apply Forall_fmap, Forall_true. intros x. by apply has_byte_itoaZ.
  - rewrite /StringToUint32Slice /Uint32ToStringSlice -list_fmap_compose.
    rewrite /norm_ids. induction Hl as [|x l' Hx Hl IH]; [done|]. rewrite fmap_cons IH.
    by rewrite /= Sscanf_itoa.
Qed.

Definition time_ok (ms : Z) : Prop := (0 <= ms ∧ ms * 1000000 < 2 ^ 63)%Z.

Lemma UnixMilli_time_of_millis ms : time_ok ms → UnixMilli (time_of_millis ms) = ms.
Proof.
  rewrite /time_ok /UnixMilli /time_of_millis. intros Hms.
  rewrite (int64_id ms); [rewrite /in_int64; lia|].
  rewrite int64_id; [rewrite /in_int64; lia|]. by rewrite Z.div_mul.
Qed.

Lemma elem_of_joined t jid r hid h :
  ((jid, r), (hid, h)) ∈ joined t ↔
  jobs t !! jid = Some r ∧ hid = rHostid r ∧ hosts t !! hid = Some h.
Proof.
  rewrite /joined list_elem_of_omap. split.
  - intros ([jid' r'] & Hin%elem_of_Range & Hh).
    destruct (hosts t !! rHostid r') eqn:Hr; by simplify_eq/=.
  - intros (Hj & -> & Hh). exists (jid, r). split; [by apply elem_of_Range|]. by rewrite /= Hh.
Qed.

Lemma joined_NoDup t : NoDup ((λ r, r.1.1) <$> joined t).
Proof.
  rewrite /joined. pose proof (NoDup_Range_fst (jobs t)) as Hnd.
  induction (Range (jobs t)) as [|[jid r] l IH]; csimpl in *; [constructor|].
  apply list.NoDup_cons in Hnd as [Hn Hnd]. specialize (IH Hnd).
  destruct (hosts t !! rHostid r) as [h|]; simpl; [|done].
  constructor; [|done]. intros ([[jid' r'] [hid h']] & -> & Hin)%list_elem_of_fmap.
  apply list_elem_of_omap in Hin as ([jid2 r2] & Hin & Hh).
  destruct (hosts t !! rHostid r2); simplify_eq/=. apply Hn.
  by apply (list_elem_of_fmap_2 fst _ (jid', r')).
Qed.

(** The row of a job, if its host is known. *)
Definition job_row (t : Tables) (jid : string) : option (string * JobRow * (string * HostRow)) :=
  r ← (jobs t !! jid); h ← (hosts t !! rHostid r); Some ((jid, r), (rHostid r, h)).

Lemma q_ListJobsByIDs_one jid t :
  q_ListJobsByIDs [jid] t =
  match job_row t jid with Some r => [ListJobsByIDsRow r] | None => [] end.
Proof.
  rewrite /q_ListJobsByIDs /job_row.
  assert (∀ x, x ∈ joined t → x.1.1 = jid →
    filter (λ r, r.1.1 ∈ [jid]) (joined t) = [x]) as Hone.
  { intros x Hx <-. rewrite -(filter_key (λ r : string * JobRow * (string * HostRow), r.1.1) _ x (joined_NoDup t) Hx).
    apply list_filter_iff. intros y. apply list_elem_of_singleton. }
  assert ((∀ x, x ∈ joined t → x.1.1 ≠ jid) → filter (λ r, r.1.1 ∈ [jid]) (joined t) = []) as Hnone.
  { intros Hno. apply elem_of_nil_inv. intros x [Hk%list_elem_of_singleton Hx]%list_elem_of_filter.
    by apply (Hno x). }
  destruct (jobs t !! jid) as [r|] eqn:Hr; simpl.
  - destruct (hosts t !! rHostid r) as [h|] eqn:Hh; simpl.
    + by rewrite (Hone ((jid, r), (rHostid r, h))) // elem_of_joined.
    + rewrite Hnone //. intros [[jid' r'] [hid h']] (Hj & -> & Hh')%elem_of_joined. simpl.
      intros ->. simplify_eq.
  - rewrite Hnone //. intros [[jid' r'] [hid h']] (Hj & _)%elem_of_joined. simpl.
    intros ->. simplify_eq.
Qed.

Lemma PutJob_Ok j t t' :
  PutJob j t = (None, t') → 
  job_checks (row_of_job j) = true ∧
  t' = mkTables (<[JID j := row_of_job j]> (jobs t)) (hosts t) (checkpoints t).
Proof.
  rewrite /PutJob q_ListJobsByIDs_one /job_row /update_job /insert_job.
  destruct (jobs t !! JID j) as [r|] eqn:Hr; simpl.
  - destruct (hosts t !! rHostid r); simpl; destruct (job_checks _); naive_solver.
  - destruct (job_checks _); naive_solver.
Qed.

Lemma PutJob_Err j t e t' : PutJob j t = (Some e, t') → t' = t.
Proof.
  rewrite /PutJob q_ListJobsByIDs_one /job_row /update_job /insert_job.
  destruct (jobs t !! JID j) as [r|] eqn:Hr; simpl.
  - destruct (hosts t !! rHostid r); simpl; destruct (job_checks _); naive_solver.
  - destruct (job_checks _); naive_solver.
Qed.

Definition empty_details : Details := mkDetails None "".

(** Details survive JSON; a nil message comes back empty. *)
Definition json_ok : Prop := ∀ d, Unmarshal (Marshal d) = Ok (default empty_details d).

(** Values that fit the columns. *)
Definition job_ranges (j : DJob) : Prop :=
  let s := GetState j in
  in_uint32 (PID s) ∧ time_ok (StartTime s) ∧ Forall (λ z, (0 <= z)%Z) (UIDs s) ∧
  Forall (λ z, (0 <= z)%Z) (GIDs s) ∧ Forall (λ z, (0 <= z)%Z) (Groups s).

(** A job as it is read back, its host being the row of the hosts table. *)
Definition as_read (h : HostRow) (j : DJob) : DJob :=
  let s := GetState j in
  mkDJob (JID j) (Type_ j) (Log j) (Some (default empty_details (JDetails j)))
    (Some (mkState (PID s) (Cmdline s) (StartTime s) (WorkingDir s) (sStatus s) (sIsRunning s)
      (sGPUEnabled s) (Some (fromDBHost (GetHostID s) h))
      (norm_ids (UIDs s)) (norm_ids (GIDs s)) (norm_ids (Groups s)))).

Lemma fromDBJobRow_read h j :
  json_ok → job_ranges j →
  fromDBJobRow (ListJobsByIDsRow ((JID j, row_of_job j), (GetHostID (GetState j), h))) =
  Ok (as_read h j).
Proof.
  intros HJ (HP & HT & HU & HG & HGr). rewrite /= HJ /mbind /gores_bind.
  rewrite !split_join_ids // uint32_id // UnixMilli_time_of_millis //.
  assert (uint64 (StartTime (GetState j)) = StartTime (GetState j)) as ->.
  { rewrite /uint64 /wrap Z.mod_small //. rewrite /time_ok in HT. lia. }
  rewrite /as_read. by destruct (sIsRunning (GetState j)), (sGPUEnabled (GetState j)).
Qed.

Lemma from_rows_one r j : fromDBJobRow r = Ok j → from_rows [r] = Ok [j].
Proof. intros Hr. by rewrite /from_rows Hr. Qed.

Lemma from_rows_host_err l :
  from_rows (ListJobsByHostIDsRow <$> l) =
  match l with [] => Ok [] | _ => Err (Errorf "unknown row type") end.
Proof. by destruct l. Qed.
End sqlite.

(** C22: Jobs round trip through the database: a job whose values fit the
    columns and whose host is in the hosts table is, once [PutJob] succeeded,
    listed as it was written, with its host as the hosts table has it; the one
    exception are empty lists of user or group IDs, which come back as the
    list of the ID 0, that of root. *)
Theorem job_roundtrip Marshal Unmarshal `{MapRange} (j : DJob) t t' h :
  json_ok Marshal Unmarshal → job_ranges j →
  hosts t !! GetHostID (GetState j) = Some h →
  PutJob Marshal j t = (None, t') →
  ListJobs Unmarshal [JID j] t' = Ok [as_read h j].
Proof.
  intros HJ Hr Hh [_ ->]%PutJob_Ok. rewrite /ListJobs q_ListJobsByIDs_one /job_row /=.
  rewrite lookup_insert_eq /= Hh. cbn [mbind option_bind].
  by apply from_rows_one, (fromDBJobRow_read Marshal Unmarshal).
Qed.

(** [ListJobsByHostIDs] never lists a job: when a job of one of the hosts
    exists (and its host is known) the call fails with an unknown row type,
    and otherwise the list is empty. *)
Theorem ListJobsByHostIDs_fails Unmarshal `{MapRange} hostIDs t :
  let has_job := ∃ jid r h, jobs t !! jid = Some r ∧ rHostid r ∈ hostIDs ∧
    hosts t !! rHostid r = Some h in
  (has_job → ListJobsByHostIDs Unmarshal hostIDs t = Err (Errorf "unknown row type")) ∧
  (¬ has_job → ListJobsByHostIDs Unmarshal hostIDs t = Ok []).
Proof.
  intros has_job. rewrite /ListJobsByHostIDs /q_ListJobsByHostIDs from_rows_host_err. split.
  - intros (jid & r & h & Hj & Hin & Hh).
    assert (((jid, r), (rHostid r, h)) ∈ filter (λ r, r.2.1 ∈ hostIDs) (joined t)) as Hx.
    { apply list_elem_of_filter. split; [done|]. by apply elem_of_joined. }
    by destruct (filter _ _); [apply elem_of_nil in Hx|].
  - intros Hno. destruct (filter _ _) as [|[[jid r] [hid h]] l] eqn:E; [done|].
    exfalso. assert (((jid, r), (hid, h)) ∈ filter (λ r, r.2.1 ∈ hostIDs) (joined t)) as Hx
      by (rewrite E; left).
    apply list_elem_of_filter in Hx as [Hin (Hj & -> & Hh)%elem_of_joined]. apply Hno.
    by exists jid, r, h.
Qed.

(** ** SQLite implements the interface *)
Section instance.
Context (Marshal : option Details → string) (Unmarshal : string → gores Details).
Context (HJ : json_ok Marshal Unmarshal) `{MapRange}.

Definition sqlite_db : DB Tables := {|
  Db.PutJob := PutJob Marshal;
  Db.ListJobs t := (ListJobs Unmarshal [] t, t);
  Db.DeleteJob := DeleteJob;
  Db.PutCheckpoint := PutCheckpoint;
  Db.ListCheckpointsByJIDs jids t := (Ok (ListCheckpointsByJIDs jids t), t);
  Db.DeleteCheckpoint := DeleteCheckpoint;
|}.

Definition read_row (t : Tables) (jid : string) (r : JobRow) : option DJob :=
  h ← (hosts t !! rHostid r);
  match fromDBJobRow Unmarshal (ListJobsRow ((jid, r), (rHostid r, h))) with
  | Ok j => Some j
  | Err _ => None
  end.

Definition all_jobs (t : Tables) : gmap string DJob := map_imap (read_row t) (jobs t).
Definition all_ckpts (t : Tables) : gmap string Checkpoint :=
  map_imap (λ id r, Some (fromDBCheckpoint id r)) (checkpoints t).

Lemma fromDBJobRow_JID jid r hid h j :
  fromDBJobRow Unmarshal (ListJobsRow ((jid, r), (hid, h))) = Ok j → JID j = jid.
Proof. simpl. destruct (Unmarshal _); [|done]. by intros [= <-]. Qed.

Lemma from_rows_all_jobs t rows l :
  (∀ x, x ∈ rows → x ∈ joined t) → from_rows Unmarshal (ListJobsRow <$> rows) = Ok l →
  Forall (λ j, all_jobs t !! JID j = Some j) l.
Proof.
  revert l. induction rows as [|[[jid r] [hid h]] rows IH]; intros l Hin Hl.
  { simpl in Hl. simplify_eq. constructor. }
  rewrite fmap_cons in Hl. cbn [from_rows] in Hl.
  destruct (fromDBJobRow Unmarshal _) as [j|] eqn:Hj; [|done].
  rewrite /mbind /gores_bind in Hl.
  destruct (from_rows Unmarshal _) as [js|] eqn:Hjs; [|done].
  injection Hl as <-. constructor; [|apply IH; [|done]; intros; apply Hin; by right].
  destruct (proj1 (elem_of_joined t jid r hid h) (Hin _ ltac:(by left))) as (Hr & -> & Hh).
  rewrite (fromDBJobRow_JID _ _ _ _ _ Hj) /all_jobs map_lookup_imap Hr /= /read_row Hh.
  cbn [mbind option_bind]. by rewrite Hj.
Qed.

Lemma sqlite_put_job j t e t' :
  PutJob Marshal j t = (e, t') →
  all_ckpts t' = all_ckpts t ∧ (e ≠ None → all_jobs t' = all_jobs t) ∧
  (e = None → is_Some (hosts t !! GetHostID (GetState j)) →
    all_jobs t' = <[JID j := default j (read_row t (JID j) (row_of_job Marshal j))]> (all_jobs t)) ∧
  (∀ jid, jid ≠ JID j → all_jobs t' !! jid = all_jobs t !! jid).
Proof.
  intros HP. destruct e as [e|].
  { by rewrite (PutJob_Err _ _ _ _ _ HP). }
  destruct (PutJob_Ok _ _ _ _ HP) as [_ ->]. split_and!; [done|done| |].
  - intros _ [h Hh]. apply map_eq. intros jid. rewrite /all_jobs map_lookup_imap /=.
    destruct (decide (jid = JID j)) as [->|Hne].
    + rewrite !lookup_insert_eq /= /read_row /= Hh. cbn [mbind option_bind]. by rewrite HJ.
    + by rewrite !lookup_insert_ne // map_lookup_imap.
  - intros jid Hne. by rewrite /all_jobs !map_lookup_imap /= lookup_insert_ne.
Qed.

#[local] Existing Instance sqlite_db.

#[refine] Definition sqlite_laws : DBLaws Tables := {|
  dbjobs := all_jobs;
  dbckpts := all_ckpts;
  stored t j := default j (read_row t (JID j) (row_of_job Marshal j));
  known t j := is_Some (hosts t !! GetHostID (GetState j));
  cstored c := fromDBCheckpoint (CID c) (row_of_checkpoint c);
|}.
Proof.
  - apply sqlite_put_job.
  - intros jid s e s' [= <- <-]. split; [done|]. apply map_eq. intros k.
    rewrite /all_jobs map_lookup_imap /= !lookup_delete map_lookup_imap.
    by case_decide.
  - intros s r s' [= <- <-]. split_and!; [done|done|]. intros l Hl.
    by eapply from_rows_all_jobs.
  - intros c s e s'. rewrite /= /PutCheckpoint. case_bool_decide; intros [= <- <-]; [done|].
    split; [done|]. apply map_eq. intros k. rewrite /all_ckpts map_lookup_imap /=.
    destruct (decide (k = CID c)) as [->|Hne]; [by rewrite !lookup_insert_eq|].
    by rewrite !lookup_insert_ne // map_lookup_imap.
  - intros id s e s' [= <- <-]. split; [done|]. apply map_eq. intros k.
    rewrite /all_ckpts map_lookup_imap /= !lookup_delete map_lookup_imap.
    by case_decide.
  - intros jids s r s' Hne [= <- <-]. split_and!; [done|done|]. intros l [= <-].
    apply Forall_fmap, list.Forall_forall. intros [id r] Hin. rewrite /ListCheckpointsByJIDs in Hin.
    destruct jids as [|jid jids]; [done|].
    apply list_elem_of_filter in Hin as [Hj Hin%elem_of_Range]. simpl in *.
    by rewrite /all_ckpts map_lookup_imap Hin.
Defined.
End instance.

(** ** Witnesses *)

Definition sample_Marshal (d : option Details) : string :=
  let d := default empty_details d in serialize (DetailsJID d, Payload d).
Definition sample_Unmarshal (s : string) : gores Details :=
  match deserialize s : option (option string * string) with
  | Some (jid, p) => Ok (mkDetails jid p)
  | None => Err (Errorf "proto: syntax error")
  end.

Lemma sample_json_ok : json_ok sample_Marshal sample_Unmarshal.
Proof.
  intros d. rewrite /sample_Unmarshal /sample_Marshal deserialize_serialize.
  destruct d as [[jid p]|]; done.
Qed.

Definition sample_host : HostRow := mkHostRow "m" "h" "linux" "p" "k" "a" "0" "v" "f" 8 1024.
Definition sample_tables : Tables := mkTables ∅ {[ "host2" := sample_host ]} ∅.

Lemma job_roundtrip_witness :
  ∃ t', PutJob sample_Marshal sample_job sample_tables = (None, t') ∧
    ListJobs sample_Unmarshal ["job1"] t' = Ok [as_read sample_host sample_job] ∧
    UIDs (GetState sample_job) = [] ∧ UIDs (GetState (as_read sample_host sample_job)) = [0%Z].
Proof.
  eexists. split; [vm_compute; reflexivity|]. split; [|done].
  apply (job_roundtrip sample_Marshal sample_Unmarshal sample_job sample_tables).
  - apply sample_json_ok.
  - rewrite /job_ranges /in_uint32 /time_ok /=. split_and!; try lia; constructor.
  - reflexivity.
  - vm_compute. reflexivity.
Defined.

Lemma ListJobsByHostIDs_fails_witness :
  ∃ t', PutJob sample_Marshal sample_job sample_tables = (None, t') ∧
    ListJobsByHostIDs sample_Unmarshal ["host2"] t' = Err (Errorf "unknown row type").
Proof.
  eexists. split; [vm_compute; reflexivity|].
  apply (proj1 (ListJobsByHostIDs_fails sample_Unmarshal ["host2"] _)).
  eexists "job1", _, _. split; [vm_compute; reflexivity|]. split; [by left|reflexivity].
Defined.

End Sqlite.

End Db.
