(* ===== verification/DbPropagator.v ===== *)
(** * The remote database (internal/db/db_propagator.go)

    One HTTP request per method.  The propagator is outside the repository:
    [Service] is what it answers, [ServiceOk] that it is a store of resources
    under the paths the client uses.  For IDs that need no escaping in a URL
    the client then implements the tables of the interface
    ([propagator_is_a_table], [propagator_lists]); the code escapes nothing, so
    an ID with a question mark addresses another resource
    ([unescaped_id_hits_another]). *)

From Stdlib Require Import Ascii.
From S2P Require Import Prelude GoLib Job.

Module DbPropagator.
Import GoLib Job.
#[local] Arguments String.append : simpl nomatch.
#[local] Arguments str_take : simpl nomatch.

(** The resources and their collections. *)
Inductive Kind : Type → Type := KJob : Kind DJob | KCheckpoint : Kind Checkpoint | KHost : Kind Host.

Definition collection {A} (K : Kind A) : string :=
  match K with KJob => "jobs" | KCheckpoint => "checkpoints" | KHost => "hosts" end.
Definition ident {A} (K : Kind A) : A → string :=
  match K with KJob => JID | KCheckpoint => CID | KHost => HID end.

Inductive Method := GET | PUT | DELETE.
Record Request := mkRequest {
  rMethod : Method; URL : string; Authorization : string; ContentType : option string; Body : option string;
}.
Record Response := mkResponse { StatusCode : Z; Status_ : string; rBody : string }.
Definition StatusOK : Z := 200.

Record Connection := mkConnection { cURL : string; AuthToken : string }.

(** What the network, the service and the JSON encoders do. *)
Class Service := {
  S : Type;
  NewRequest : Method → string → option error;
  Do : Request → S → gores Response * S;
  Marshal : ∀ {A}, Kind A → A → gores string;
  Decode : ∀ {A}, Kind A → string → gores (list A);
}.

Section client.
Context `{SV : Service} (db : Connection).

Definition Bearer : string := "Bearer " +:+ AuthToken db.

(** Sends a request and reads the answer unless its status is another than OK. *)
Definition request (what : string) (r : Request) (s : S) : gores string * S :=
  match NewRequest (rMethod r) (URL r) with
  | Some e => (Err e, s)
  | None =>
      match Do r s with
      | (Err e, s) => (Err e, s)
      | (Ok resp, s) =>
          if decide (StatusCode resp = StatusOK) then (Ok (rBody resp), s)
          else (Err (Errorf ("failed to " +:+ what +:+ ": " +:+ Status_ resp)), s)
      end
  end.

Definition put {A} (K : Kind A) (what : string) (x : A) (s : S) : option error * S :=
  match Marshal K x with
  | Err e => (Some e, s)
  | Ok body =>
      let '(r, s) := request what (mkRequest PUT (cURL db +:+ "/" +:+ collection K +:+ "/" +:+ ident K x) Bearer
                                     (Some "application/json") (Some body)) s in
      (err_of r, s)
  end.

Definition list_ {A} (K : Kind A) (what param : string) (ids : list string) (s : S) : gores (list A) * S :=
  let url := cURL db +:+ "/" +:+ collection K in
  let url := match ids with [] => url | _ => url +:+ "?" +:+ param +:+ "=" +:+ StrJoin ids "," end in
  match request what (mkRequest GET url Bearer None None) s with
  | (Err e, s) => (Err e, s)
  | (Ok body, s) => (Decode K body, s)
  end.

Definition del {A} (K : Kind A) (what id : string) (s : S) : option error * S :=
  let '(r, s) := request what (mkRequest DELETE (cURL db +:+ "/" +:+ collection K +:+ "/" +:+ id) Bearer None None) s in
  (err_of r, s).

Definition PutJob (job : DJob) : S → option error * S := put KJob "put job" job.
Definition ListJobs (jids : list string) : S → gores (list DJob) * S := list_ KJob "list jobs" "jids" jids.
Definition ListJobsByHostIDs (hostIDs : list string) : S → gores (list DJob) * S := list_ KJob "list jobs" "host_ids" hostIDs.
Definition DeleteJob (jid : string) : S → option error * S := del KJob "delete job" jid.
Definition PutCheckpoint (c : Checkpoint) : S → option error * S := put KCheckpoint "create checkpoint" c.
Definition ListCheckpoints (ids : list string) : S → gores (list Checkpoint) * S :=
  list_ KCheckpoint "list checkpoints" "ids" ids.
Definition ListCheckpointsByJIDs (jids : list string) : S → gores (list Checkpoint) * S :=
  list_ KCheckpoint "list checkpoints" "jids" jids.
Definition DeleteCheckpoint (id : string) : S → option error * S := del KCheckpoint "delete checkpoint" id.
Definition PutHost (host : Host) : S → option error * S := put KHost "put host" host.
Definition ListHosts (ids : list string) : S → gores (list Host) * S := list_ KHost "list hosts" "ids" ids.
Definition DeleteHost (id : string) : S → option error * S := del KHost "delete host" id.

(** ** The service *)

(** A string before and after the first occurrence of a character. *)
Fixpoint cut (c : ascii) (s : string) : string * option string :=
  match s with
  | EmptyString => ("", None)
  | String x s => if bool_decide (x = c) then ("", Some s) else let '(a, b) := cut c s in (String x a, b)
  end.

(** How a server reads a URL below its base: the elements of the path and the
    parameters; [None] for other bases and URLs with escapes. *)
Definition route (url : string) : option (list string * list (string * string)) :=
  if has_byte "%" url || negb (HasPrefix url (cURL db +:+ "/")) then None
  else
    let '(u, _) := cut "#" (TrimPrefix url (cURL db +:+ "/")) in
    let '(path, query) := cut "?" u in
    Some (Split path slash,
          match query with
          | None => []
          | Some q => (λ kv, let '(k, v) := cut "=" kv in (k, default "" v)) <$> Split q "&"
          end).

(** The values by which a collection can be filtered. *)
Definition field {A} (K : Kind A) (param : string) : A → option string :=
  match K with
  | KJob => λ j, if decide (param = "jids") then Some (JID j)
                 else if decide (param = "host_ids") then Some (GetHostID (GetState j)) else None
  | KCheckpoint => λ c, if decide (param = "ids") then Some (CID c)
                        else if decide (param = "jids") then Some (CJID c) else None
  | KHost => λ h, if decide (param = "ids") then Some (HID h) else None
  end.

Definition matches {A} (K : Kind A) (x : A) (p : string * string) : bool :=
  match field K p.1 x with Some v => bool_decide (v ∈ Split p.2 comma) | None => false end.
Definition selected {A} (K : Kind A) (params : list (string * string)) (x : A) : bool := forallb (matches K x) params.

(** The service is a store of resources: PUT and DELETE of a path with a
    collection and an ID set and remove it, GET of a collection lists what the
    parameters select, and a request that is not answered with OK changes
    nothing. *)
Class ServiceOk := {
  view : ∀ {A}, Kind A → S → gmap string A;
  service_put : ∀ A (K : Kind A) r s resp s' id q x body,
    rMethod r = PUT → route (URL r) = Some ([collection K; id], q) → Body r = Some body → Marshal K x = Ok body →
    Do r s = (Ok resp, s') → StatusCode resp = StatusOK →
    view K s' = <[id := x]> (view K s) ∧ ∀ B (K' : Kind B), collection K' ≠ collection K → view K' s' = view K' s;
  service_delete : ∀ A (K : Kind A) r s resp s' id q,
    rMethod r = DELETE → route (URL r) = Some ([collection K; id], q) →
    Do r s = (Ok resp, s') → StatusCode resp = StatusOK →
    view K s' = delete id (view K s) ∧ ∀ B (K' : Kind B), collection K' ≠ collection K → view K' s' = view K' s;
  service_get : ∀ A (K : Kind A) r s resp s' q,
    rMethod r = GET → route (URL r) = Some ([collection K], q) →
    Do r s = (Ok resp, s') → StatusCode resp = StatusOK →
    (∀ B (K' : Kind B), view K' s' = view K' s) ∧
    ∀ l, Decode K (rBody resp) = Ok l → ∀ x, x ∈ l ↔ selected K q x = true ∧ ∃ id, view K s !! id = Some x;
  service_fail : ∀ r s res s', Do r s = (res, s') → (∀ resp, res = Ok resp → StatusCode resp ≠ StatusOK) →
    ∀ B (K' : Kind B), view K' s' = view K' s;
}.

(** IDs that mean themselves in a URL and in a list of IDs. *)
Definition reserved : list ascii := ["/"; "?"; "#"; "%"; "&"; "="; "+"; ","]%char.
Definition safe (s : string) : Prop := Forall (λ c, has_byte c s = false) reserved.

(** ** URLs *)

Lemma cut_none c s : has_byte c s = false → cut c s = (s, None).
Proof.
  induction s as [|x s IH]; simpl; [done|]. intros [Hx Hs]%orb_false_iff. apply bool_decide_eq_false in Hx.
  rewrite bool_decide_false; [by intros ->|]. by rewrite IH.
Qed.

Lemma cut_at c s t : has_byte c s = false → cut c (s +:+ String c t) = (s, Some t).
Proof.
  induction s as [|x s IH]; simpl; [by rewrite bool_decide_true|]. intros [Hx Hs]%orb_false_iff.
  apply bool_decide_eq_false in Hx. rewrite bool_decide_false; [by intros ->|]. by rewrite IH.
Qed.

(** The base of the service has no escapes. *)
Context (base_ok : has_byte "%" (cURL db) = false).

Lemma route_below rest :
  has_byte "%" rest = false → has_byte "#" rest = false →
  route (cURL db +:+ "/" +:+ rest) =
    let '(path, query) := cut "?" rest in
    Some (Split path slash,
          match query with
          | None => []
          | Some q => (λ kv, let '(k, v) := cut "=" kv in (k, default "" v)) <$> Split q "&"
          end).
Proof.
  intros Hp Hh. unfold route. rewrite -append_assoc.
  assert (has_byte "%" ((cURL db +:+ "/") +:+ rest) = false) as ->; [by rewrite !has_byte_append base_ok Hp|].
  assert (HasPrefix ((cURL db +:+ "/") +:+ rest) (cURL db +:+ "/") = true) as ->.
  { apply HasPrefix_true. by exists rest. }
  by rewrite TrimPrefix_append cut_none.
Qed.

Lemma safe_byte c s : safe s → c ∈ reserved → has_byte c s = false.
Proof. unfold safe. rewrite list.Forall_forall. auto. Qed.

Lemma collection_safe {A} (K : Kind A) : safe (collection K).
Proof. destruct K; by repeat constructor. Qed.

#[local] Hint Extern 1 (_ ∈ reserved) => (unfold reserved; set_solver) : core.
#[local] Hint Resolve collection_safe : core.

Lemma has_byte_path {A} (K : Kind A) id :
  safe id → ∀ c, c ∈ reserved → c ≠ slash → has_byte c (collection K +:+ "/" +:+ id) = false.
Proof.
  intros Hid c Hc Hs. rewrite !has_byte_append (safe_byte c id) // (safe_byte c (collection K)) //.
  rewrite /= bool_decide_false //.
Qed.

Lemma route_resource {A} (K : Kind A) id :
  safe id → route (cURL db +:+ "/" +:+ collection K +:+ "/" +:+ id) = Some ([collection K; id], []).
Proof.
  intros Hid.
  pose proof (has_byte_path K id Hid) as Hb.
  rewrite route_below; [by apply Hb; auto|by apply Hb; auto|]. rewrite cut_none; [by apply Hb; auto|].
  change ("/" +:+ id) with (String slash id).
  rewrite Split_append ?(Split_nosep id) //; by apply safe_byte; auto.
Qed.

(** A question mark ends the path. *)
Lemma route_resource_query {A} (K : Kind A) id rest :
  safe id → has_byte "%" rest = false → has_byte "#" rest = false →
  ∃ q, route (cURL db +:+ "/" +:+ collection K +:+ "/" +:+ id +:+ "?" +:+ rest) = Some ([collection K; id], q).
Proof.
  intros Hid Hp Hh.
  pose proof (has_byte_path K id Hid) as Hb.
  assert (collection K +:+ "/" +:+ id +:+ "?" +:+ rest = (collection K +:+ "/" +:+ id) +:+ String "?" rest) as ->
    by by rewrite !append_assoc.
  rewrite route_below.
  - rewrite has_byte_append Hb; [auto|done|]. simpl. by rewrite Hp.
  - rewrite has_byte_append Hb; [auto|done|]. simpl. by rewrite Hh.
  - rewrite cut_at; [by apply Hb; auto|]. eexists. change ("/" +:+ id) with (String slash id).
    rewrite Split_append ?(Split_nosep id) //; by apply safe_byte; auto.
Qed.

Lemma has_byte_join c ids : c ≠ comma → Forall (λ id, has_byte c id = false) ids → has_byte c (StrJoin ids ",") = false.
Proof.
  intros Hc. unfold StrJoin. induction 1 as [|id ids Hid Hids IH]; [done|]. destruct ids as [|id' ids]; [done|].
  change (String.concat "," (id :: id' :: ids)) with (id +:+ "," +:+ String.concat "," (id' :: ids)).
  rewrite !has_byte_append Hid IH /=. rewrite bool_decide_false //.
Qed.

Lemma route_collection {A} (K : Kind A) : route (cURL db +:+ "/" +:+ collection K) = Some ([collection K], []).
Proof.
  rewrite route_below; [by apply safe_byte; auto|by apply safe_byte; auto|].
  rewrite cut_none; [by apply safe_byte; auto|]. rewrite Split_nosep //. by apply safe_byte; auto.
Qed.

Lemma route_list {A} (K : Kind A) param ids :
  safe param → Forall safe ids → ids ≠ [] →
  route ((cURL db +:+ "/" +:+ collection K) +:+ "?" +:+ param +:+ "=" +:+ StrJoin ids ",") =
    Some ([collection K], [(param, StrJoin ids ",")]).
Proof.
  intros Hp Hids Hne.
  assert (∀ c, c ∈ reserved → c ≠ comma → has_byte c (StrJoin ids ",") = false) as Hb.
  { intros c Hc Hcm. apply has_byte_join; [done|]. eapply Forall_impl; [|exact Hids]. intros. by apply safe_byte. }
  assert (∀ c, c ∈ reserved → c ≠ comma → c ≠ "?"%char → c ≠ "="%char →
    has_byte c (collection K +:+ "?" +:+ param +:+ "=" +:+ StrJoin ids ",") = false) as Hall.
  { intros c Hc H1 H2 H3. rewrite !has_byte_append (safe_byte c param) // (safe_byte c (collection K)) // Hb //=.
    rewrite !bool_decide_false //. }
  rewrite !append_assoc. rewrite route_below; [by apply Hall; auto..|].
  change ("?" +:+ param +:+ "=" +:+ StrJoin ids ",") with (String "?" (param +:+ "=" +:+ StrJoin ids ",")).
  rewrite cut_at; [by apply safe_byte; auto|]. rewrite Split_nosep; [by apply safe_byte; auto|].
  rewrite Split_nosep.
  { rewrite !has_byte_append (safe_byte "&" param) ?Hb //; auto. }
  cbn [fmap list_fmap]. change ("=" +:+ StrJoin ids ",") with (String "=" (StrJoin ids ",")).
  rewrite cut_at //. by apply safe_byte; auto.
Qed.

Lemma StrJoin_Split ids : Forall safe ids → ids ≠ [] → Split (StrJoin ids ",") comma = ids.
Proof.
  intros Hids Hne. apply Split_Join; [done|]. eapply Forall_impl; [|exact Hids]. intros. by apply safe_byte; auto.
Qed.

(** ** The client as a table *)

Section table.
Context `{OK : ServiceOk}.

Lemma request_Ok what r s body s' :
  request what r s = (Ok body, s') → ∃ resp, Do r s = (Ok resp, s') ∧ StatusCode resp = StatusOK ∧ rBody resp = body.
Proof. unfold request. intros H. split_matches. eauto. Qed.

Lemma request_Err what r s e s' B (K : Kind B) : request what r s = (Err e, s') → view K s' = view K s.
Proof.
  unfold request. intros H. destruct (NewRequest _ _); [by simplify_eq|].
  destruct (Do r s) as [res s1] eqn:Hdo. eapply service_fail in Hdo.
  - destruct res; [case_decide|]; simplify_eq; done.
  - intros resp ->. case_decide; [done|]. done.
Qed.

Lemma put_table {A} (K : Kind A) what x s e s' :
  safe (ident K x) → put K what x s = (e, s') →
  view K s' = match e with None => <[ident K x := x]> (view K s) | Some _ => view K s end ∧
  ∀ B (K' : Kind B), collection K' ≠ collection K → view K' s' = view K' s.
Proof.
  intros Hid. unfold put. destruct (Marshal K x) as [body|] eqn:Hm; [|by intros; simplify_eq].
  destruct (request _ _ s) as [[b|e'] s1] eqn:Hr; intros [= <- <-]; simpl.
  - apply request_Ok in Hr as (resp & Hdo & Hst & _). refine (service_put _ K _ _ _ _ _ _ _ _ _ _ _ Hm Hdo Hst); [done|by apply route_resource|done].
  - split; [|intros B K' _]; by eapply request_Err.
Qed.

Lemma del_table {A} (K : Kind A) what id q s e s' :
  (∃ url, url = cURL db +:+ "/" +:+ collection K +:+ "/" +:+ id ∧ route url = Some ([collection K; q.1], q.2)) →
  del K what id s = (e, s') →
  view K s' = match e with None => delete q.1 (view K s) | Some _ => view K s end ∧
  ∀ B (K' : Kind B), collection K' ≠ collection K → view K' s' = view K' s.
Proof.
  intros (url & -> & Hroute). unfold del.
  destruct (request _ _ s) as [[b|e'] s1] eqn:Hr; intros [= <- <-]; simpl.
  - apply request_Ok in Hr as (resp & Hdo & Hst & _). refine (service_delete _ K _ _ _ _ _ _ _ _ Hdo Hst); [done|exact Hroute].
  - split; [|intros B K' _]; by eapply request_Err.
Qed.

Lemma list_table {A} (K : Kind A) what param ids s r s' :
  safe param → Forall safe ids → (∀ x, is_Some (field K param x)) → list_ K what param ids s = (r, s') →
  (∀ B (K' : Kind B), view K' s' = view K' s) ∧
  ∀ l, r = Ok l → ∀ x, x ∈ l ↔ (ids = [] ∨ ∃ v, field K param x = Some v ∧ v ∈ ids) ∧ ∃ id, view K s !! id = Some x.
Proof.
  intros Hp Hids Hf. unfold list_. destruct (request _ _ s) as [[b|e'] s1] eqn:Hr; intros [= <- <-].
  - apply request_Ok in Hr as (resp & Hdo & Hst & <-).
    destruct (decide (ids = [])) as [->|Hne].
    + eapply (service_get _ K) in Hdo as [Hv Hl]; [|done|apply route_collection|done].
      split; [done|]. intros l Hd x. rewrite (Hl _ Hd). simpl. naive_solver.
    + eapply (service_get _ K _ _ _ _ [(param, StrJoin ids ",")]) in Hdo as [Hv Hl]; [|done| |done].
      2:{ simpl. destruct ids; [done|]. by apply route_list. }
      split; [done|]. intros l Hd x. rewrite (Hl _ Hd). simpl. rewrite andb_true_r /matches /= StrJoin_Split //.
      destruct (Hf x) as [v ->]. rewrite bool_decide_eq_true. naive_solver.
  - split; [|done]. intros B K'. by eapply request_Err.
Qed.

(** With IDs that need no escaping, the methods that write are those of a
    table: they set and remove exactly the resource they name when they return
    nil, and change nothing when they return an error. *)
Theorem propagator_is_a_table s e s' :
  (∀ j, safe (JID j) → PutJob j s = (e, s') →
     view KJob s' = match e with None => <[JID j := j]> (view KJob s) | Some _ => view KJob s end ∧
     view KCheckpoint s' = view KCheckpoint s) ∧
  (∀ jid, safe jid → DeleteJob jid s = (e, s') →
     view KJob s' = match e with None => delete jid (view KJob s) | Some _ => view KJob s end ∧
     view KCheckpoint s' = view KCheckpoint s) ∧
  (∀ c, safe (CID c) → PutCheckpoint c s = (e, s') →
     view KCheckpoint s' = match e with None => <[CID c := c]> (view KCheckpoint s) | Some _ => view KCheckpoint s end ∧
     view KJob s' = view KJob s) ∧
  (∀ id, safe id → DeleteCheckpoint id s = (e, s') →
     view KCheckpoint s' = match e with None => delete id (view KCheckpoint s) | Some _ => view KCheckpoint s end ∧
     view KJob s' = view KJob s).
Proof.
  assert (∀ A (K : Kind A) what id, safe id → del K what id s = (e, s') →
    view K s' = match e with None => delete id (view K s) | Some _ => view K s end ∧
    ∀ B (K' : Kind B), collection K' ≠ collection K → view K' s' = view K' s) as Hdel.
  { intros A K what id Hid. apply (del_table K what id (id, [])). eexists. split; [done|]. by apply route_resource. }
  split_and!; intros x Hx H; (apply (put_table KJob) in H || apply (put_table KCheckpoint) in H ||
    apply (Hdel _ KJob) in H || apply (Hdel _ KCheckpoint) in H); try done; destruct H as [H Ho]; (split; [done|by apply Ho]).
Qed.

(** Listing with IDs that need no escaping returns exactly the stored
    resources that the IDs select, all of them for no IDs. *)
Theorem propagator_lists ids s :
  Forall safe ids →
  (∀ l s', ListJobs ids s = (Ok l, s') →
     ∀ j, j ∈ l ↔ (ids = [] ∨ JID j ∈ ids) ∧ ∃ id, view KJob s !! id = Some j) ∧
  (∀ l s', ListCheckpointsByJIDs ids s = (Ok l, s') →
     ∀ c, c ∈ l ↔ (ids = [] ∨ CJID c ∈ ids) ∧ ∃ id, view KCheckpoint s !! id = Some c).
Proof.
  intros Hids. split; intros l s' H x; apply list_table in H as [_ Hl];
    try (rewrite (Hl _ eq_refl x); simpl; naive_solver); try done; try (by repeat constructor); by eexists.
Qed.

(** The client does not escape IDs: deleting a job whose ID contains a question
    mark deletes the job named before it. *)
Theorem unescaped_id_hits_another id rest s s' :
  safe id → has_byte "%" rest = false → has_byte "#" rest = false →
  DeleteJob (id +:+ "?" +:+ rest) s = (None, s') → view KJob s' = delete id (view KJob s).
Proof.
  intros Hid Hp Hh H. destruct (route_resource_query KJob id rest Hid Hp Hh) as [q Hq].
  by eapply (del_table KJob _ _ (id, q)) in H as [H _]; [|eexists].
Qed.
End table.
End client.
End DbPropagator.

(** ** A service with one resource of each kind, stored under any IDs *)

Module PropagatorSample.
Import GoLib Job DbPropagator.

#[local] Instance CPU_eq : EqDecision CPU.
Proof. solve_decision. Defined.
#[local] Instance Host_eq : EqDecision Host.
Proof. solve_decision. Defined.
#[local] Instance ProcessState_eq : EqDecision ProcessState.
Proof. solve_decision. Defined.
#[local] Instance Details_eq : EqDecision Details.
Proof. solve_decision. Defined.
Definition Kind_eq {A} (K : Kind A) : EqDecision A.
Proof. destruct K; solve_decision. Defined.

Definition job0 : DJob := mkDJob "job-a" "process" "" None None.
Definition sample {A} (K : Kind A) : A :=
  match K with
  | KJob => job0
  | KCheckpoint => mkCheckpoint "ckpt-a" "job-a" "/dump" 0 0
  | KHost => mkHost "host-a" "" "" "" "" "" "" None None
  end.

Definition db0 : Connection := mkConnection "https://host/v1" "token".
Definition ok (body : string) : gores Response := Ok (mkResponse StatusOK "200 OK" body).
Definition not_found : gores Response := Ok (mkResponse 404 "404 Not Found" "").

(** The IDs in each collection. *)
Abbreviation store := (gmap string (gset string)).
Definition ids_in (coll : string) (s : store) : gset string := default ∅ (s !! coll).

Definition listing {A} (K : Kind A) (q : list (string * string)) (s : store) : gores Response :=
  ok (if selected K q (sample K) && bool_decide (ids_in (collection K) s ≠ ∅) then "1" else "0").

#[local] Instance service : Service := {|
  S := store;
  NewRequest _ _ := None;
  Do r s :=
    match rMethod r, route db0 (URL r) with
    | PUT, Some ([coll; id], _) => (ok "", <[coll := {[id]} ∪ ids_in coll s]> s)
    | DELETE, Some ([coll; id], _) => (ok "", <[coll := ids_in coll s ∖ {[id]}]> s)
    | GET, Some ([coll], q) =>
        (if decide (coll = "jobs") then listing KJob q s
         else if decide (coll = "checkpoints") then listing KCheckpoint q s
         else if decide (coll = "hosts") then listing KHost q s else not_found, s)
    | _, _ => (not_found, s)
    end;
  Marshal A K x := if Kind_eq K x (sample K) then Ok "x" else Err (Errorf "not encoded");
  Decode A K body := Ok (if decide (body = "1") then [sample K] else []);
|}.

Definition view0 {A} (K : Kind A) (s : store) : gmap string A := gset_to_gmap (sample K) (ids_in (collection K) s).

Lemma ids_in_insert coll coll' x (s : store) : ids_in coll' (<[coll := x]> s) = if decide (coll' = coll) then x else ids_in coll' s.
Proof. unfold ids_in. case_decide; subst; by simplify_map_eq. Qed.

Lemma listing_ok {A} (K : Kind A) q s l x :
  match listing K q s with Ok resp => Decode K (rBody resp) = Ok l | Err _ => False end →
  x ∈ l ↔ selected K q x = true ∧ ∃ id, view0 K s !! id = Some x.
Proof.
  assert (∀ id, view0 K s !! id = Some x ↔ id ∈ ids_in (collection K) s ∧ sample K = x) as Hv
    by (intros; apply lookup_gset_to_gmap_Some).
  setoid_rewrite Hv. unfold listing. simpl. intros [= <-].
  destruct (selected K q (sample K)) eqn:Hs; simpl.
  - case_bool_decide as Hne; simpl.
    + apply set_choose_L in Hne as [id Hid]. rewrite list_elem_of_singleton. naive_solver.
    + rewrite Hne. set_solver.
  - split; [by intros ?%elem_of_nil|]. by intros (? & id & _ & <-); congruence.
Qed.

#[local] Instance service_ok : ServiceOk db0.
Proof.
  refine {| view := @view0 |}.
  - intros A K r s resp s' id q x body Hm Hr _ Hx. simpl in *. rewrite Hm Hr. intros [= <- <-] _.
    destruct (Kind_eq K x (sample K)) as [->|]; [|done]. unfold view0. split.
    + rewrite ids_in_insert decide_True //. by rewrite gset_to_gmap_union_singleton.
    + intros B K' Hne. by rewrite ids_in_insert decide_False.
  - intros A K r s resp s' id q Hm Hr. simpl in *. rewrite Hm Hr. intros [= <- <-] _. unfold view0. split.
    + rewrite ids_in_insert decide_True //. by rewrite gset_to_gmap_difference_singleton.
    + intros B K' Hne. by rewrite ids_in_insert decide_False.
  - intros A K r s resp s' q Hm Hr Hdo Hst. cbn [Do service] in Hdo. rewrite Hm Hr in Hdo.
    injection Hdo as Hdo <-. split; [done|]. intros l Hl x. apply listing_ok.
    assert (listing K q s = Ok resp) as -> by by destruct K. done.
  - intros r s res s'. cbn [Do service]. destruct (rMethod r), (route db0 (URL r)) as [[[|a [|b [|c p]]] q]|];
      intros [= <- <-] Hno B K'; try done; by destruct (Hno _ eq_refl).
Defined.

Lemma job_a_safe : safe "job-a".
Proof. by repeat constructor. Qed.

(** Putting a job and listing it, and deleting it under another name. *)
Lemma propagator_is_a_table_witness :
  ∃ s, PutJob db0 job0 ∅ = (None, s) ∧ view db0 KJob s = <["job-a" := job0]> (view db0 KJob (∅ : store)).
Proof.
  eexists. split; [reflexivity|].
  refine (proj1 (proj1 (propagator_is_a_table (SV := service) db0 eq_refl ∅ None _) job0 job_a_safe eq_refl)).
Defined.

Definition stored : store := {["jobs" := {["job-a"]}]}.

Lemma propagator_lists_witness : job0 ∈ [job0] ∧ ListJobs db0 ["job-a"] stored = (Ok [job0], stored).
Proof.
  split; [|reflexivity].
  apply (proj1 (propagator_lists (SV := service) db0 eq_refl ["job-a"] stored ltac:(repeat constructor)) [job0] stored eq_refl job0).
  split; [right; by left|]. by exists "job-a".
Defined.

Lemma unescaped_id_hits_another_witness :
  ∃ s, DeleteJob db0 "job-a?force" stored = (None, s) ∧ view db0 KJob s = delete "job-a" (view db0 KJob stored).
Proof.
  eexists. split; [reflexivity|].
  refine (unescaped_id_hits_another (SV := service) db0 eq_refl "job-a" "force" stored _ job_a_safe eq_refl eq_refl eq_refl).
Defined.
End PropagatorSample.
