(* ===== verification/JobManager.v ===== *)
(** * The lazy job manager (internal/cedana/job/manager_lazy.go)

    State kept in memory, mirrored to a database by one background routine fed
    through a bounded channel.  The methods are programs of atomic steps on the
    shared maps and of sends to the channel, so that calls interleave with each
    other and with the routine; [Sys] and [step] are the whole manager.  Job
    objects are shared pointers, hence the heap.  Logging and custom clean-up
    handlers are left out; the wait for a job's exit is [ExitWatcher]. *)

From S2P Require Import Prelude GoLib Job Db.
Import GoLib Job Db.

Module JobManager.

Inductive action :=
| initialize
| putJob (jid : string)
| putCheckpoint (id : string)
| shutdown.

#[export] Instance action_eq_dec : EqDecision action.
Proof. solve_decision. Defined.

(** [make(chan action, 64)] *)
Definition PENDING_CAP : nat := 64.

Section manager.
Context {S : Type} `{DB S, MapRange}.

(** [jobs] maps a JID to the address of a job object.  Of the deleted jobs and
    checkpoints only the keys are ever used. *)
Record Manager := mkManager {
  jobs : gmap string nat;
  heap : gmap nat DJob;
  checkpoints : gmap string Checkpoint;
  deletedJobs : gset string;
  deletedCheckpoints : gset string;
  db : S;
}.

Definition set_jobs (x : gmap string nat) (m : Manager) : Manager :=
  mkManager x (heap m) (checkpoints m) (deletedJobs m) (deletedCheckpoints m) (db m).
Definition set_heap (x : gmap nat DJob) (m : Manager) : Manager :=
  mkManager (jobs m) x (checkpoints m) (deletedJobs m) (deletedCheckpoints m) (db m).
Definition set_checkpoints (x : gmap string Checkpoint) (m : Manager) : Manager :=
  mkManager (jobs m) (heap m) x (deletedJobs m) (deletedCheckpoints m) (db m).
Definition set_deletedJobs (x : gset string) (m : Manager) : Manager :=
  mkManager (jobs m) (heap m) (checkpoints m) x (deletedCheckpoints m) (db m).
Definition set_deletedCheckpoints (x : gset string) (m : Manager) : Manager :=
  mkManager (jobs m) (heap m) (checkpoints m) (deletedJobs m) x (db m).
Definition set_db (x : S) (m : Manager) : Manager :=
  mkManager (jobs m) (heap m) (checkpoints m) (deletedJobs m) (deletedCheckpoints m) x.

Definition Exists (m : Manager) (jid : string) : bool := bool_decide (is_Some (jobs m !! jid)).

Definition lookup_job (m : Manager) (jid : string) : option (nat * DJob) :=
  l ← (jobs m !! jid); j ← (heap m !! l); Some (l, j).

(** [m.jobs.Store(jid, job)] of a new object. *)
Definition store_job (jid : string) (j : DJob) (m : Manager) : Manager :=
  let l := fresh (dom (heap m)) in
  set_jobs (<[jid := l]> (jobs m)) (set_heap (<[l := j]> (heap m)) m).

Definition update_job (l : nat) (f : DJob → DJob) (m : Manager) : Manager :=
  set_heap (alter f l (heap m)) m.

(** ** Mirroring to the database *)

(** The loop of the [initialize] case. *)
Fixpoint init_jobs (l : list DJob) (m : Manager) : option error * Manager :=
  match l with
  | [] => (None, m)
  | proto :: l' =>
      let job := fromProto proto in
      if negb (bool_decide (JID job ∈ deletedJobs m)) && (negb (Exists m (JID job)) || IsRemote job)
      then
        let m1 := store_job (JID job) job m in
        match ListCheckpointsByJIDs [JID job] (db m1) with
        | (Err e, s) => (Some e, set_db s m1)
        | (Ok cs, s) =>
            init_jobs l' (set_checkpoints
              (foldl (λ acc c, <[CID c := c]> acc) (checkpoints m1) cs) (set_db s m1))
        end
      else init_jobs l' m
  end.

Definition syncWithDB (m : Manager) (a : action) : option error * Manager :=
  match a with
  | initialize =>
      match ListJobs (db m) with
      | (Err e, s) => (Some e, set_db s m)
      | (Ok l, s) => init_jobs l (set_db s m)
      end
  | putJob jid =>
      match lookup_job m jid with
      | Some (_, j) => let '(err, s) := PutJob j (db m) in (err, set_db s m)
      | None =>
          if decide (jid ∈ deletedJobs m) then
            let '(err, s) := DeleteJob jid (db m) in
            (err, match err with
                  | None => set_deletedJobs (deletedJobs m ∖ {[ jid ]}) (set_db s m)
                  | Some _ => set_db s m
                  end)
          else (None, m)
      end
  | putCheckpoint id =>
      match checkpoints m !! id with
      | Some c => let '(err, s) := PutCheckpoint c (db m) in (err, set_db s m)
      | None =>
          if decide (id ∈ deletedCheckpoints m) then
            let '(err, s) := DeleteCheckpoint id (db m) in
            (err, match err with
                  | None => set_deletedCheckpoints (deletedCheckpoints m ∖ {[ id ]}) (set_db s m)
                  | Some _ => set_db s m
                  end)
          else (None, m)
      end
  | shutdown => (None, m)
  end.

(** ** Methods *)

(** A method in progress: it returned, it dereferenced a nil job, it is about
    to update the shared state, or it is about to send to the channel. *)
Inductive prog :=
| Return (err : option error)
| Panic
| Update (f : Manager → Manager) (k : Manager → prog)
| Send (a : action) (k : prog).

(** A read of the shared state. *)
Definition Read (k : Manager → prog) : prog := Update id k.
Definition Do (f : Manager → Manager) (k : prog) : prog := Update f (λ _, k).

Context (env : JobEnv) (IsAttached : Z → bool).

Definition New (jid jobType : string) (host : Host) : prog :=
  if decide (jid = "") then Return (Some (Errorf "missing JID"))
  else Read (λ m,
    if Exists m jid then Return (Some (Errorf ("job " +:+ jid +:+ " already exists")))
    else Do (store_job jid (newJob jid jobType host)) (Return None)).

(** The tail of [Get] and of the loops of [List] and [ListByHostIDs], with [k]
    for what follows. *)
Definition refresh (deep : bool) (jid : string) (l : nat) (k : prog) : prog :=
  Do (update_job l (sync_job env deep))
    (Read (λ m,
      match heap m !! l with
      | Some j =>
          if negb (GPUEnabled j) && IsAttached (GetPID j)
          then Do (update_job l (SetGPUEnabled true)) (Send (putJob jid) k)
          else k
      | None => k
      end)).

Definition Get (jid : string) : prog :=
  Read (λ m, match lookup_job m jid with
             | None => Return None
             | Some (l, _) => refresh true jid l (Return None)
             end).

Fixpoint refresh_all (l : list (string * nat)) : prog :=
  match l with
  | [] => Return None
  | (jid, a) :: l' => refresh false jid a (refresh_all l')
  end.

Definition List (jids : list string) : prog :=
  Read (λ m, refresh_all
    (filter (λ kv, jids = [] ∨ kv.1 ∈ jids) (Range (jobs m)))).

Definition ListByHostIDs (hostIDs : list string) : prog :=
  Read (λ m, refresh_all
    (filter (λ kv, hostIDs = [] ∨
       match heap m !! kv.2 with Some j => GetHostID (GetState j) | None => "" end ∈ hostIDs)
       (Range (jobs m)))).

Definition Find (m : Manager) (pid : Z) : option (nat * DJob) :=
  head (omap (λ kv, j ← (heap m !! kv.2); if decide (GetPID j = pid) then Some (kv.2, j) else None)
    (Range (jobs m))).

Definition Manage (jid : string) (pid : Z) : prog :=
  Read (λ m,
    if negb (Exists m jid) then
      Return (Some (Errorf ("job " +:+ jid +:+ " does not exist. was it initialized?")))
    else if decide (pid = 0%Z) then
      Return (Some (Errorf ("invalid PID 0 for job " +:+ jid)))
    else Read (λ m,
      let go :=
        Read (λ m, match lookup_job m jid with
                   | None => Panic
                   | Some (l, _) =>
                       Do (update_job l (SetPID pid))
                         (Do (update_job l (sync_job env true)) (Send (putJob jid) (Return None)))
                   end) in
      match Find m pid with
      | Some (_, j) =>
          if decide (JID j = jid) then go
          else Return (Some (Errorf ("PID " +:+ itoaZ pid +:+
                 " is already being managed under job " +:+ jid)))
      | None => go
      end)).

Definition DeleteCheckpoint_then (id : string) (k : prog) : prog :=
  Read (λ m, match checkpoints m !! id with
             | None => k
             | Some _ =>
                 Do (λ m, set_checkpoints (delete id (checkpoints m)) m)
                   (Do (λ m, set_deletedCheckpoints ({[ id ]} ∪ deletedCheckpoints m) m)
                     (Send (putCheckpoint id) k))
             end).

Definition DeleteCheckpoint (id : string) : prog := DeleteCheckpoint_then id (Return None).

Definition ListCheckpoints (m : Manager) (jid : string) : list Checkpoint :=
  filter (λ c, CJID c = jid) (Range (checkpoints m)).*2.

Fixpoint delete_all (l : list Checkpoint) : prog :=
  match l with
  | [] => Return None
  | c :: l' => DeleteCheckpoint_then (CID c) (delete_all l')
  end.

Definition Delete (jid : string) : prog :=
  Read (λ m, match jobs m !! jid with
             | None => Return None
             | Some _ =>
                 Do (λ m, set_jobs (delete jid (jobs m)) m)
                   (Do (λ m, set_deletedJobs ({[ jid ]} ∪ deletedJobs m) m)
                     (Send (putJob jid) (Read (λ m, delete_all (ListCheckpoints m jid)))))
             end).

(** [AddCheckpoint]: per path the identifier, time and size it is given. *)
Fixpoint add_all (jid : string) (l : list (string * string * Z * Z)) : prog :=
  match l with
  | [] => Return None
  | (id, path, time, size) :: l' =>
      Do (λ m, set_checkpoints (<[id := mkCheckpoint id jid path time size]> (checkpoints m)) m)
        (Send (putCheckpoint id) (add_all jid l'))
  end.

Definition AddCheckpoint (jid : string) (l : list (string * string * Z * Z)) : prog :=
  Read (λ m, match lookup_job m jid with None => Return None | Some _ => add_all jid l end).

Definition GetCheckpoint (m : Manager) (id : string) : option Checkpoint := checkpoints m !! id.

(** [GetLatestCheckpoint]: the loop over the checkpoints of all jobs. *)
Fixpoint latest (jid : string) (l : list Checkpoint) (best : option Checkpoint)
    : option Checkpoint :=
  match l with
  | [] => best
  | c :: l' =>
      latest jid l'
        (if decide (CJID c = jid) then
           match best with
           | None => Some c
           | Some b => if decide (CTime b < CTime c)%Z then Some c else best
           end
         else best)
  end.

Definition GetLatestCheckpoint (m : Manager) (jid : string) : option Checkpoint :=
  latest jid (Range (checkpoints m)).*2 None.

(** [Sync]: takes the same lock as the background routine. *)
Definition Sync_ : prog :=
  Update (λ m, (syncWithDB m initialize).2) (λ m, Return (syncWithDB m initialize).1).

(** The signal [Kill] sends to a refreshed job, [custom] being the one the
    plugin of the job's type exports: the target and the signal. *)
Definition Kill_signal (SIGKILL : Z) (custom signal : option Z) (j : DJob) : gores (Z * Z) :=
  if negb (IsRunning j) then Err (Errorf ("job " +:+ JID j +:+ " is not running"))
  else
    let signalToUse := default (default SIGKILL custom) signal in
    let pid := GetPID j in
    if decide (pid ≠ 0%Z) then
      let pgid := GetPGID env j in
      let target := if decide (pgid = pid) then (- pgid)%Z else pid in
      Ok (target, signalToUse)
    else Err (Errorf ("job " +:+ JID j +:+ " is not running, PID " +:+ itoaZ pid +:+ " is not valid")).

(** ** The manager and its background routine *)

(** The routine waits for an action, or is about to send one to its own
    channel: one that failed, or the periodic [initialize]. *)
Inductive routine := Idle | Resend (a : action).

Record Sys := mkSys {
  man : Manager;
  pending : list action;
  threads : list prog;
  rt : routine;
}.

(** The calls the daemon makes. *)
Inductive api : prog → Prop :=
| api_New jid t h : api (New jid t h)
| api_Get jid : api (Get jid)
| api_List jids : api (List jids)
| api_ListByHostIDs ids : api (ListByHostIDs ids)
| api_Manage jid pid : api (Manage jid pid)
| api_Delete jid : api (Delete jid)
| api_AddCheckpoint jid l : api (AddCheckpoint jid l)
| api_DeleteCheckpoint id : api (DeleteCheckpoint id)
| api_Sync : api Sync_.

Inductive step : Sys → Sys → Prop :=
| step_call m q ts r p :
    api p → step (mkSys m q ts r) (mkSys m q (ts ++ [p]) r)
| step_update m q ts r i f k :
    ts !! i = Some (Update f k) →
    step (mkSys m q ts r) (mkSys (f m) q (<[i := k m]> ts) r)
| step_send m q ts r i a k :
    ts !! i = Some (Send a k) → length q < PENDING_CAP →
    step (mkSys m q ts r) (mkSys m (q ++ [a]) (<[i := k]> ts) r)
| step_recv m a q ts m' :
    syncWithDB m a = (None, m') →
    step (mkSys m (a :: q) ts Idle) (mkSys m' q ts Idle)
| step_recv_err m a q ts e m' :
    syncWithDB m a = (Some e, m') →
    step (mkSys m (a :: q) ts Idle) (mkSys m' q ts (Resend a))
| step_resend m q ts a :
    length q < PENDING_CAP →
    step (mkSys m q ts (Resend a)) (mkSys m (q ++ [a]) ts Idle)
| step_tick m q ts :
    step (mkSys m q ts Idle) (mkSys m q ts (Resend initialize)).

(** The last round at shutdown: every pending action once, errors dropped. *)
Fixpoint drain (q : list action) (m : Manager) : list error * Manager :=
  match q with
  | [] => ([], m)
  | a :: q' =>
      if decide (a = shutdown) then ([], m)
      else let '(err, m') := syncWithDB m a in
           let '(errs, m'') := drain q' m' in
           (option_list err ++ errs, m'')
  end.

(** A call that runs alone, with room in the channel: its result, the state it
    leaves and the actions it sent. *)
Fixpoint exec (p : prog) (m : Manager) : option (option error) * Manager * list action :=
  match p with
  | Return e => (Some e, m, [])
  | Panic => (None, m, [])
  | Update f k => exec (k m) (f m)
  | Send a k => let '(r, m', sent) := exec k m in (r, m', a :: sent)
  end.
End manager.

Arguments Manager : clear implicits.
Arguments Sys : clear implicits.
Arguments prog : clear implicits.

(** ** The database lags behind, but nothing is forgotten *)

Section invariant.
Context {S : Type} `{DB S} `{!DBLaws S} `{MapRange} (env : JobEnv) (IsAttached : Z → bool).
Implicit Types (m : Manager S) (p : prog S) (y : Sys S).

(** The method will send [a], whatever happens meanwhile. *)
Fixpoint will_send (a : action) (p : prog S) : Prop :=
  match p with
  | Return _ | Panic => False
  | Update _ k => ∀ m, will_send a (k m)
  | Send b k => a = b ∨ will_send a k
  end.

Definition inflight (y : Sys S) (a : action) : Prop :=
  a ∈ pending y ∨ (∃ p, p ∈ threads y ∧ will_send a p) ∨ rt y = Resend a.

(** The database has the checkpoint as it was read from it or written to it. *)
Definition persisted (m : Manager S) (id : string) (c : Checkpoint) : Prop :=
  dbckpts (db m) !! id = Some c ∨ dbckpts (db m) !! id = Some (cstored c).

Record Inv (y : Sys S) : Prop := {
  inv_key : ∀ id c, checkpoints (man y) !! id = Some c → CID c = id;
  inv_saved : ∀ id c, checkpoints (man y) !! id = Some c →
    persisted (man y) id c ∨ inflight y (putCheckpoint id);
  inv_deleted : ∀ id, id ∈ deletedCheckpoints (man y) → checkpoints (man y) !! id = None →
    inflight y (putCheckpoint id);
  inv_deleted_jobs : ∀ jid, jid ∈ deletedJobs (man y) → lookup_job (man y) jid = None →
    inflight y (putJob jid);
}.

(** What a step of a method may do to the state, [p] being what is left of it. *)
Record changes (m m' : Manager S) (p : prog S) : Prop := {
  ch_db : dbckpts (db m') = dbckpts (db m);
  ch_saved : ∀ id c, checkpoints m' !! id = Some c →
    checkpoints m !! id = Some c ∨
    (CID c = id ∧ (persisted m' id c ∨ will_send (putCheckpoint id) p));
  ch_deleted : ∀ id, id ∈ deletedCheckpoints m' → checkpoints m' !! id = None →
    (id ∈ deletedCheckpoints m ∧ checkpoints m !! id = None) ∨ will_send (putCheckpoint id) p;
  ch_deleted_jobs : ∀ jid, jid ∈ deletedJobs m' → lookup_job m' jid = None →
    (jid ∈ deletedJobs m ∧ lookup_job m jid = None) ∨ will_send (putJob jid) p;
}.

(** Every step of the method keeps the promises. *)
Fixpoint good (p : prog S) : Prop :=
  match p with
  | Return _ | Panic => True
  | Update f k => ∀ m, changes m (f m) (k m) ∧ good (k m)
  | Send _ k => good k
  end.

Lemma changes_refl m p : changes m m p.
Proof. split; auto. Qed.

Lemma good_Read k : (∀ m, good (k m)) → good (Read k).
Proof. intros Hk m. split; [apply changes_refl|apply Hk]. Qed.


(** Updates that touch neither the checkpoints nor the deleted sets and lose no job. *)
Lemma changes_jobs m m' p :
  checkpoints m' = checkpoints m → deletedCheckpoints m' = deletedCheckpoints m →
  deletedJobs m' = deletedJobs m → db m' = db m →
  (∀ jid, is_Some (lookup_job m jid) → is_Some (lookup_job m' jid)) →
  changes m m' p.
Proof.
  intros H1 H2 H3 H4 H5. split; rewrite ?H1 ?H2 ?H3 ?H4; auto.
  intros jid Hd Hn. left. split; [done|]. apply eq_None_not_Some. intros Hs%H5.
  rewrite Hn in Hs. by destruct Hs.
Qed.

Lemma lookup_update_job m l f jid :
  is_Some (lookup_job m jid) → is_Some (lookup_job (update_job l f m) jid).
Proof.
  rewrite /lookup_job /=. destruct (jobs m !! jid) as [a|]; [|by intros [? ?]]. simpl.
  rewrite lookup_alter. destruct (heap m !! a) as [j|] eqn:E; [|by intros [? ?]].
  intros _. case_decide as Hl; [rewrite Hl E|]; by eexists.
Qed.

Lemma lookup_store_job m jid j jid' :
  is_Some (lookup_job m jid') → is_Some (lookup_job (store_job jid j m) jid').
Proof.
  rewrite /lookup_job /=. intros Hs.
  destruct (decide (jid' = jid)) as [->|Hne]; [by rewrite lookup_insert_eq /= lookup_insert_eq|].
  rewrite lookup_insert_ne //. destruct (jobs m !! jid') as [a|]; [|by destruct Hs]. simpl in *.
  destruct (heap m !! a) as [j'|] eqn:Ha; [|by destruct Hs]. rewrite lookup_insert_ne; [|by rewrite Ha].
  intros <-. apply (is_fresh (dom (heap m))), elem_of_dom. by rewrite Ha.
Qed.

Lemma good_refresh deep jid l p : good p → good (refresh env IsAttached deep jid l p).
Proof.
  intros Hp m. split; [apply changes_jobs; auto using lookup_update_job|].
  apply good_Read. intros m'. case_match; [|done]. case_match; [|done].
  intros m2. split; [apply changes_jobs; auto using lookup_update_job|done].
Qed.

Lemma good_DeleteCheckpoint_then id p : good p → good (DeleteCheckpoint_then id p).
Proof.
  intros Hp. apply good_Read. intros m. case_match; [|done].
  intros m1. split.
  - split; simpl; try done.
    + intros id' c'. rewrite lookup_delete_Some. intros [_ ?]. by left.
    + intros id' Hd. rewrite lookup_delete_None. intros [<-|?]; [right|by left].
      intros m2. by left.
    + by left.
  - intros m2. split; [|done]. split; simpl; try done; [by left| |by left].
    intros id' [->%elem_of_singleton|Hd]%elem_of_union Hn; [right; by left|by left].
Qed.

Lemma good_delete_all l : good (delete_all l).
Proof. induction l as [|c l IH]; [done|]. by apply good_DeleteCheckpoint_then. Qed.

Lemma good_add_all jid l : good (add_all jid l).
Proof.
  induction l as [|[[[id path] time] size] l IH]; [done|]. intros m. split; [|done].
  split; simpl; try done; [| |by left].
  - intros id' c. rewrite lookup_insert_Some. intros [[<- <-]|[_ ?]]; [right|by left].
    split; [done|]. right. by left.
  - intros id' Hd. rewrite lookup_insert_None. intros [? _]. by left.
Qed.

Lemma good_refresh_all l : good (refresh_all env IsAttached l).
Proof. induction l as [|[jid a] l IH]; [done|]. by apply good_refresh. Qed.

Lemma good_Delete jid : good (Delete jid).
Proof.
  apply good_Read. intros m. case_match; [|done]. intros m1. split; [|intros m2; split].
  - split; simpl; try done; [by left|by left|].
    intros jid' Hd Hn. destruct (decide (jid' = jid)) as [->|Hne].
    + right. intros m2. by left.
    + left. split; [done|]. revert Hn. by rewrite /lookup_job /= lookup_delete_ne.
  - split; simpl; try done; [by left|by left|].
    intros jid' [->%elem_of_singleton|Hd]%elem_of_union Hn; [right; by left|by left].
  - simpl. apply good_Read. intros m3. apply good_delete_all.
Qed.

Lemma good_Manage jid pid : good (Manage env jid pid).
Proof.
  apply good_Read. intros m. case_match; [done|]. case_decide; [done|].
  apply good_Read. intros m1.
  assert (good (Read (λ m, match lookup_job m jid with
    | None => Panic
    | Some (l, _) => Do (update_job l (SetPID pid))
        (Do (update_job l (sync_job env true)) (Send (putJob jid) (Return None))) end))) as Hgo.
  { apply good_Read. intros m2. case_match; [|done]. case_match.
    intros m3. split; [apply changes_jobs; auto using lookup_update_job|].
    intros m4. split; [apply changes_jobs; auto using lookup_update_job|done]. }
  case_match; [|done]. case_match. by case_decide.
Qed.

Lemma foldl_insert_ckpts (cs : list Checkpoint) (acc : gmap string Checkpoint) id c :
  foldl (λ acc c, <[CID c := c]> acc) acc cs !! id = Some c →
  acc !! id = Some c ∨ (CID c = id ∧ c ∈ cs).
Proof.
  revert acc. induction cs as [|c' cs IH]; intros acc; simpl; [by left|].
  intros [Hc|[? ?]]%IH; [|right; split; [done|by right]].
  apply lookup_insert_Some in Hc as [[<- <-]|[_ ?]]; [right; split; [done|by left]|by left].
Qed.

Lemma foldl_insert_ckpts_dom (cs : list Checkpoint) (acc : gmap string Checkpoint) id :
  is_Some (acc !! id) → is_Some (foldl (λ acc c, <[CID c := c]> acc) acc cs !! id).
Proof.
  revert acc. induction cs as [|c' cs IH]; intros acc Hs; simpl; [done|]. apply IH.
  destruct (decide (CID c' = id)) as [<-|?]; [by rewrite lookup_insert_eq|by rewrite lookup_insert_ne].
Qed.

(** What [initialize] may do, complete or cut short by an error. *)
Record loads (m m' : Manager S) : Prop := {
  ld_jobs_db : dbjobs (db m') = dbjobs (db m);
  ld_db : dbckpts (db m') = dbckpts (db m);
  ld_ckpts : ∀ id c, checkpoints m' !! id = Some c →
    checkpoints m !! id = Some c ∨ (CID c = id ∧ dbckpts (db m) !! id = Some c);
  ld_keep : ∀ id, is_Some (checkpoints m !! id) → is_Some (checkpoints m' !! id);
  ld_dc : deletedCheckpoints m' = deletedCheckpoints m;
  ld_dj : deletedJobs m' = deletedJobs m;
  ld_lookup : ∀ jid, is_Some (lookup_job m jid) → is_Some (lookup_job m' jid);
}.

#[export] Instance loads_preorder : PreOrder loads.
Proof.
  split; [by split; auto|]. intros a b c [A0 A1 A2 A3 A4 A5 A6] [B0 B1 B2 B3 B4 B5 B6].
  split; try congruence; [|auto..].
  intros id x [?%A2|[? Hx]]%B2; [done|right]. by rewrite -A1.
Qed.

Lemma loads_store_job m jid j s' :
  dbjobs s' = dbjobs (db m) → dbckpts s' = dbckpts (db m) →
  loads m (set_db s' (store_job jid j m)).
Proof.
  intros H1 H2. split; simpl; auto. intros jid' Hs. by apply (lookup_store_job m jid j) in Hs.
Qed.

Lemma init_jobs_loads l m e m' : init_jobs l m = (e, m') → loads m m'.
Proof.
  revert m. induction l as [|j l IH]; intros m; simpl; [by intros [= _ <-]|].
  case_match; [|apply IH].
  destruct (ListCheckpointsByJIDs _ _) as [[cs|e'] s'] eqn:Hl;
    apply list_ckpts in Hl as (HJ & HC & HF); try done.
  - intros Hi%IH. etrans; [|exact Hi]. etrans; [by apply (loads_store_job m (JID j) (fromProto j) s')|].
    split; simpl; auto.
    + intros id c [?|[Hid Hc]]%foldl_insert_ckpts; [by left|right].
      specialize (HF _ eq_refl). rewrite list.Forall_forall in HF. destruct (HF _ Hc) as [Hd _].
      subst id. split; [done|]. by rewrite HC.
    + intros id. apply foldl_insert_ckpts_dom.
  - intros [= _ <-]. by apply (loads_store_job m (JID j) (fromProto j) s').
Qed.

Lemma initialize_loads m e m' : syncWithDB m initialize = (e, m') → loads m m'.
Proof.
  simpl. destruct (ListJobs (db m)) as [[l|e'] s'] eqn:Hl; apply list_jobs in Hl as (HJ & HC & _).
  - intros Hi%init_jobs_loads. etrans; [|exact Hi]. by split; simpl; auto.
  - intros [= _ <-]. by split; simpl; auto.
Qed.

Lemma loads_changes m m' p : loads m m' → changes m m' p.
Proof.
  intros [A0 A1 A2 A3 A4 A5 A6]. split; [done| | |].
  - intros id c [?|[? Hc]]%A2; [by left|right]. split; [done|]. left. left. by rewrite A1.
  - rewrite A4. intros id Hd Hn. left. split; [done|]. apply eq_None_not_Some.
    intros Hs%A3. rewrite Hn in Hs. by destruct Hs.
  - rewrite A5. intros jid Hd Hn. left. split; [done|]. apply eq_None_not_Some.
    intros Hs%A6. rewrite Hn in Hs. by destruct Hs.
Qed.

(** Every call keeps the promises. *)
Lemma api_good p : api env IsAttached p → good p.
Proof.
  destruct 1.
  - rewrite /New. case_decide; [done|]. apply good_Read. intros m. case_match; [done|].
    intros m1. split; [|done]. apply changes_jobs; auto using lookup_store_job.
  - apply good_Read. intros m. case_match; [|done]. case_match. by apply good_refresh.
  - apply good_Read. intros m. apply good_refresh_all.
  - apply good_Read. intros m. apply good_refresh_all.
  - apply good_Manage.
  - apply good_Delete.
  - apply good_Read. intros m. case_match; [|done]. apply good_add_all.
  - by apply good_DeleteCheckpoint_then.
  - intros m. split; [|done]. apply loads_changes.
    destruct (syncWithDB m initialize) as [e m'] eqn:E. by apply initialize_loads in E.
Qed.

(** A thread that moves on still owes what it owed, up to what it just sent. *)
Lemma inflight_thread m m' q q' ts r i p p' a :
  ts !! i = Some p → (will_send a p → will_send a p' ∨ a ∈ q') → (a ∈ q → a ∈ q') →
  inflight (mkSys m q ts r) a → inflight (mkSys m' q' (<[i := p']> ts) r) a.
Proof.
  intros Hi Hp Hq [?|[(t & Ht & Hs)|?]]; rewrite /inflight /=; [auto| |auto].
  apply list_elem_of_lookup in Ht as [n Hn].
  assert (i < length ts) as Hlt by by eapply lookup_lt_Some.
  destruct (decide (n = i)) as [->|Hne].
  - simplify_eq/=. destruct (Hp Hs) as [?|?]; [|by left]. right; left. exists p'. split; [|done].
    apply list_elem_of_lookup_2 with i. by apply list_lookup_insert_eq.
  - right; left. exists t. split; [|done]. apply list_elem_of_lookup_2 with n.
    by rewrite list_lookup_insert_ne.
Qed.

Lemma inflight_self m q ts r i p p' a :
  ts !! i = Some p → will_send a p' → inflight (mkSys m q (<[i := p']> ts) r) a.
Proof.
  intros Hi Hs. right; left. exists p'. split; [|done]. apply list_elem_of_lookup_2 with i.
  apply list_lookup_insert_eq. by eapply lookup_lt_Some.
Qed.

Lemma inflight_recv m a q ts m' a' :
  inflight (mkSys m (a :: q) ts Idle) a' → a' = a ∨ inflight (mkSys m' q ts Idle) a'.
Proof. intros [[?|?]%elem_of_cons|[?|?]]; [by left|right; by left|right; right; by left|done]. Qed.

Lemma Inv_update m q ts r i f k :
  ts !! i = Some (Update f k) → changes m (f m) (k m) →
  Inv (mkSys m q ts r) → Inv (mkSys (f m) q (<[i := k m]> ts) r).
Proof.
  intros Hi [C1 C2 C3 C4] [I1 I2 I3 I4].
  assert (∀ a, inflight (mkSys m q ts r) a →
    inflight (mkSys (f m) q (<[i := k m]> ts) r) a) as Hmono.
  { intros a. eapply inflight_thread; [done| |done]. intros Hs. left. apply Hs. }
  split; simpl in *.
  - intros id c [?%I1|[? _]]%C2; done.
  - intros id c [Hc|[_ [?|?]]]%C2; [|by left|right; by eapply inflight_self].
    destruct (I2 _ _ Hc) as [Hp|?]; [left|right; by apply Hmono]. by rewrite /persisted C1.
  - intros id Hd Hn. destruct (C3 id Hd Hn) as [[? ?]|?]; [by apply Hmono, I3|by eapply inflight_self].
  - intros jid Hd Hn. destruct (C4 jid Hd Hn) as [[? ?]|?]; [by apply Hmono, I4|by eapply inflight_self].
Qed.

(** What mirroring a job does, by its outcome. *)
Lemma putJob_effect m jid e m' :
  syncWithDB m (putJob jid) = (e, m') →
  checkpoints m' = checkpoints m ∧ deletedCheckpoints m' = deletedCheckpoints m ∧
  dbckpts (db m') = dbckpts (db m) ∧ (∀ j, lookup_job m' j = lookup_job m j) ∧
  ∀ j, j ∈ deletedJobs m' → lookup_job m j = None →
    j ∈ deletedJobs m ∧ (e = None → j ≠ jid).
Proof.
  intros Hs. simpl in Hs. destruct (lookup_job m jid) as [[l j]|] eqn:Hl.
  - destruct (PutJob j (db m)) as [e' s'] eqn:HP. apply put_job in HP as (HC & _). simplify_eq/=.
    split_and!; [done..|]. intros j' Hd Hn. split; [done|]. intros _ ->. congruence.
  - case_decide; [|simplify_eq; split_and!; [done..|]; intros j' Hd _; split; [done|]; by intros _ ->].
    destruct (DeleteJob jid (db m)) as [e' s'] eqn:HP. apply delete_job in HP as (HC & _).
    destruct e'; simplify_eq/=; split_and!; try done. set_solver.
Qed.

(** What mirroring a checkpoint does, by its outcome. *)
Lemma putCheckpoint_effect m id e m' :
  (∀ c, checkpoints m !! id = Some c → CID c = id) →
  syncWithDB m (putCheckpoint id) = (e, m') →
  (checkpoints m' = checkpoints m ∧ deletedJobs m' = deletedJobs m ∧
   ∀ j, lookup_job m' j = lookup_job m j) ∧
  (∀ id', id' ≠ id → dbckpts (db m') !! id' = dbckpts (db m) !! id') ∧
  (∀ c, e = None → checkpoints m !! id = Some c → persisted m' id c) ∧
  ∀ id', id' ∈ deletedCheckpoints m' → checkpoints m !! id' = None →
    id' ∈ deletedCheckpoints m ∧ (e = None → id' ≠ id).
Proof.
  intros Hid Hs. simpl in Hs. destruct (checkpoints m !! id) as [c|] eqn:Hl.
  - destruct (PutCheckpoint c (db m)) as [e' s'] eqn:HP. apply put_ckpt in HP as (_ & HC).
    specialize (Hid _ eq_refl). simplify_eq/=. split_and!; try done.
    + intros id' Hne. rewrite HC. destruct e; [done|]. by rewrite lookup_insert_ne.
    + intros c' He [= <-]. right. by rewrite /= HC He lookup_insert_eq.
    + intros id' Hd Hn. split; [done|]. intros _ ->. congruence.
  - case_decide; [|simplify_eq; split_and!; try done; intros id' Hd _; split; [done|]; by intros _ ->].
    destruct (Db.DeleteCheckpoint id (db m)) as [e' s'] eqn:HP. apply delete_ckpt in HP as (_ & HC).
    destruct e'; simplify_eq/=; rewrite HC; split_and!; try done.
    + intros id' Hne. by rewrite lookup_delete_ne.
    + intros id' Hd _. set_solver.
Qed.

(** Receiving an action: it is done, or kept by the routine. *)
Lemma Inv_recv m a q ts e m' :
  syncWithDB m a = (e, m') → Inv (mkSys m (a :: q) ts Idle) →
  Inv (mkSys m' q ts (match e with None => Idle | Some _ => Resend a end)).
Proof.
  intros Hs [I1 I2 I3 I4]. simpl in *.
  set (y' := mkSys m' q ts _).
  assert (∀ a', inflight (mkSys m (a :: q) ts Idle) a' → (e = None → a' ≠ a) → inflight y' a') as Hmono.
  { intros a' Hin%(inflight_recv _ _ _ _ m') Hne. destruct e as [e|].
    - destruct Hin as [->|[?|[?|?]]]; [by right; right|by left|by right; left|done].
    - destruct Hin as [->|?]; [by destruct (Hne eq_refl)|done]. }
  destruct a as [|jid|id|].
  - apply initialize_loads in Hs. apply (loads_changes _ _ (Return None)) in Hs as [C1 C2 C3 C4].
    split; simpl.
    + intros id c [?%I1|[? _]]%C2; done.
    + intros id c [Hc|[_ [?|[]]]]%C2; [|by left].
      destruct (I2 _ _ Hc) as [Hp|?]; [left; by rewrite /persisted C1|right; by apply Hmono].
    + intros id Hd Hn. destruct (C3 id Hd Hn) as [[? ?]|[]]. by apply Hmono; [apply I3|].
    + intros jid Hd Hn. destruct (C4 jid Hd Hn) as [[? ?]|[]]. by apply Hmono; [apply I4|].
  - destruct (putJob_effect _ _ _ _ Hs) as (E1 & E2 & E3 & E4 & E5).
    split; simpl; rewrite ?E1 ?E2.
    + done.
    + intros id c Hc. rewrite /persisted E3.
      destruct (I2 _ _ Hc) as [?|?]; [by left|right; by apply Hmono].
    + intros id Hd Hn. by apply Hmono; [apply I3|].
    + intros j Hd. rewrite E4. intros Hn. destruct (E5 _ Hd Hn) as [? Hne].
      apply Hmono; [by apply I4|]. intros He. specialize (Hne He). congruence.
  - destruct (putCheckpoint_effect _ _ _ _ (I1 id) Hs) as ((E1 & E2 & E3) & E4 & E6 & E7).
    split; simpl; rewrite ?E1 ?E2.
    + done.
    + intros id' c Hc. destruct (decide (id' = id)) as [->|Hne].
      * destruct e as [e|]; [|left; by apply E6].
        right. by right; right.
      * destruct (I2 _ _ Hc) as [Hp|?]; [left; by rewrite /persisted E4|right].
        apply Hmono; [done|]. intros _ [=]. done.
    + intros id' Hd Hn. destruct (E7 _ Hd Hn) as [? Hne].
      apply Hmono; [by apply I3|]. intros He. specialize (Hne He). congruence.
    + intros j Hd. rewrite E3. intros Hn. by apply Hmono; [apply I4|].
  - simplify_eq/=. split; simpl; [done| | |].
    + intros id c Hc. destruct (I2 _ _ Hc) as [?|?]; [by left|right]. by apply Hmono.
    + intros id Hd Hn. by apply Hmono; [apply I3|].
    + intros jid Hd Hn. by apply Hmono; [apply I4|].
Qed.

Lemma Inv_more m q q' ts ts' r r' :
  (∀ a, inflight (mkSys m q ts r) a → inflight (mkSys m q' ts' r') a) →
  Inv (mkSys m q ts r) → Inv (mkSys m q' ts' r').
Proof. intros Hmono [I1 I2 I3 I4]. split; simpl in *; naive_solver. Qed.

Lemma step_Inv y y' :
  step env IsAttached y y' → Inv y → Forall good (threads y) → Inv y' ∧ Forall good (threads y').
Proof.
  destruct 1 as [m q ts r p Hp|m q ts r i f k Hi|m q ts r i a k Hi Hlen|m a q ts m' Hs
    |m a q ts e m' Hs|m q ts a Hlen|m q ts]; simpl; intros HI HG.
  - split; [|apply Forall_app; split; [done|]; constructor; [by eapply api_good|constructor]].
    revert HI. apply Inv_more. intros a [?|[(p' & Hp' & ?)|?]]; [by left| |by right; right].
    right; left. exists p'. split; [|done]. apply elem_of_app. by left.
  - pose proof (Forall_lookup_1 _ _ _ _ HG Hi m) as [Hc Hg].
    split; [by apply Inv_update|by apply Forall_insert].
  - pose proof (Forall_lookup_1 _ _ _ _ HG Hi) as Hg. split; [|by apply Forall_insert].
    revert HI. apply Inv_more. intros a'. eapply inflight_thread; [done| |set_solver].
    intros [->|?]; [right; set_solver|by left].
  - split; [|done]. by apply (Inv_recv _ _ _ _ _ _ Hs).
  - split; [|done]. by apply (Inv_recv _ _ _ _ _ _ Hs).
  - split; [|done]. revert HI. apply Inv_more. intros a' [?|[?|[= ->]]]; [left; set_solver| |left; set_solver].
    by right; left.
  - split; [|done]. revert HI. apply Inv_more. intros a' [?|[?|?]]; [by left|by right; left|done].
Qed.

(** [NewManagerLazy]: empty maps, then a first synchronisation that succeeds. *)
Inductive started : Sys S → Prop :=
| started_intro s m :
    syncWithDB (mkManager ∅ ∅ ∅ ∅ ∅ s) initialize = (None, m) → started (mkSys m [] [] Idle).

Definition reachable (y : Sys S) : Prop := ∃ y0, started y0 ∧ rtc (step env IsAttached) y0 y.

Lemma reachable_Inv y : reachable y → Inv y.
Proof.
  intros (y0 & H0y & Hsteps).
  assert (Inv y0 ∧ Forall good (threads y0)) as HI.
  { destruct H0y as [s m Hs%initialize_loads]. split; [|constructor].
    destruct Hs as [A0 A1 A2 A3 A4 A5 A6]. split; simpl in *.
    - intros id c [Hc|[? _]]%A2; [|done]. by rewrite lookup_empty in Hc.
    - intros id c [Hc|[? Hc]]%A2; [by rewrite lookup_empty in Hc|]. left. left. by rewrite A1.
    - rewrite A4. set_solver.
    - rewrite A5. set_solver. }
  cut (Inv y ∧ Forall good (threads y)); [by intros [? _]|]. clear H0y.
  induction Hsteps as [y|y1 y2 y3 Hst Hsteps IH]; [done|].
  apply IH. destruct HI. by eapply step_Inv.
Qed.

Definition finished (p : prog S) : Prop := match p with Return _ | Panic => True | _ => False end.
End invariant.

(** ** Calls on their own *)

Section calls.
Context {S : Type} `{DB S} `{!DBLaws S} `{MapRange} (env : JobEnv).
Implicit Types m : Manager S.

Lemma latest_spec jid l best :
  (∀ b, best = Some b → CJID b = jid) →
  match latest jid l best with
  | Some c => CJID c = jid ∧ (best = Some c ∨ c ∈ l) ∧
      (∀ b, best = Some b → (CTime b <= CTime c)%Z) ∧
      (∀ c', c' ∈ l → CJID c' = jid → (CTime c' <= CTime c)%Z)
  | None => best = None ∧ ∀ c', c' ∈ l → CJID c' ≠ jid
  end.
Proof.
  revert best. induction l as [|c l IH]; intros best Hb; simpl.
  { destruct best as [b|]; [|split; [done|]; by intros c ?%elem_of_nil].
    split_and!; [by apply Hb|by left|intros ? [= ->]; done|by intros c ?%elem_of_nil]. }
  set (best' := if decide (CJID c = jid) then _ else best).
  assert (∀ b, best' = Some b → CJID b = jid) as Hb'.
  { rewrite /best'. intros b. case_decide; [|apply Hb]. destruct best as [b0|]; [case_decide|];
      intros [= <-]; [done|by apply Hb|done]. }
  specialize (IH best' Hb'). destruct (latest jid l best') as [d|] eqn:Hd.
  - destruct IH as (L1 & L2 & L3 & L4). split_and!; [done| | |].
    + destruct L2 as [L2|?]; [|right; by right]. revert L2. rewrite /best'.
      case_decide; [|by left]. destruct best; [case_decide|]; intros [= <-];
        auto using list_elem_of_here.
    + intros b ->. revert L3. rewrite /best'. case_decide as Hj; [case_decide|]; intros L3;
        [specialize (L3 c eq_refl); lia|by apply L3|by apply L3].
    + intros c' [->|Hc']%elem_of_cons Hj; [|by apply L4]. revert L3. rewrite /best' decide_True //.
      destruct best as [b|]; [case_decide|]; intros L3; [by apply L3|specialize (L3 b eq_refl); lia|by apply L3].
  - destruct IH as [L1 L2]. revert L1. rewrite /best'. case_decide.
    + destruct best; [case_decide|]; done.
    + intros ->. split; [done|]. intros c' [->|?]%elem_of_cons; [done|by apply L2].
Qed.

Lemma elem_of_ListCheckpoints m jid c :
  c ∈ ListCheckpoints m jid ↔ CJID c = jid ∧ ∃ id, checkpoints m !! id = Some c.
Proof.
  rewrite /ListCheckpoints list_elem_of_filter list_elem_of_fmap. split.
  - intros (? & [id c'] & -> & Hin%elem_of_Range). eauto.
  - intros (? & id & Hc). split; [done|]. exists (id, c). split; [done|]. by apply elem_of_Range.
Qed.

Definition keyed m : Prop := map_Forall (λ id c, CID c = id) (checkpoints m).

Lemma NoDup_ListCheckpoints m jid : keyed m → NoDup (CID <$> ListCheckpoints m jid).
Proof.
  intros Hk. rewrite /ListCheckpoints.
  assert (CID <$> (Range (checkpoints m)).*2 = (Range (checkpoints m)).*1) as Heq.
  { assert (Forall (λ kv, CID kv.2 = kv.1) (Range (checkpoints m))) as HF.
    { apply list.Forall_forall. intros [id c] Hc%elem_of_Range. by apply Hk. }
    induction HF as [|[id c] l Hid HF IH]; [done|]. rewrite !fmap_cons IH. by rewrite -Hid. }
  pose proof (NoDup_Range_fst (checkpoints m)) as Hnd. rewrite -Heq in Hnd. revert Hnd.
  generalize ((Range (checkpoints m)).*2) as l. clear. induction l as [|c l IH]; [done|].
  rewrite fmap_cons list.NoDup_cons. intros [Hc Hl]. rewrite filter_cons. case_decide; [|by apply IH].
  rewrite fmap_cons. apply list.NoDup_cons. split; [|by apply IH]. intros (c' & Heq & Hin)%list_elem_of_fmap.
  apply list_elem_of_filter in Hin as [_ Hin]. apply Hc. rewrite Heq. by apply list_elem_of_fmap_2.
Qed.

(** The loop of [Delete] over the checkpoints of the job. *)
Lemma exec_delete_all l m :
  NoDup (CID <$> l) → Forall (λ c, is_Some (checkpoints m !! CID c)) l →
  ∃ m', exec (delete_all l) m = (Some None, m', putCheckpoint ∘ CID <$> l) ∧
    jobs m' = jobs m ∧ deletedJobs m' = deletedJobs m ∧ db m' = db m ∧
    (∀ id, checkpoints m' !! id =
       if decide (id ∈ CID <$> l) then None else checkpoints m !! id) ∧
    (∀ id, id ∈ CID <$> l → id ∈ deletedCheckpoints m') ∧
    deletedCheckpoints m ⊆ deletedCheckpoints m'.
Proof.
  revert m. induction l as [|c l IH]; intros m Hnd Hin.
  { exists m. split_and!; try done. by intros id ?%elem_of_nil. }
  rewrite fmap_cons in Hnd. apply list.NoDup_cons in Hnd as [Hc Hnd].
  apply Forall_cons_1 in Hin as [[c' Hc'] Hin].
  set (m1 := set_deletedCheckpoints ({[CID c]} ∪ deletedCheckpoints m)
    (set_checkpoints (delete (CID c) (checkpoints m)) m)).
  destruct (IH m1 Hnd) as (m' & Hex & L1 & L2 & L3 & L4 & L5 & L6).
  { rewrite list.Forall_forall in Hin. apply list.Forall_forall. intros d Hd. simpl.
    rewrite lookup_delete_ne; [|by apply Hin]. intros Heq. apply Hc. rewrite Heq.
    by apply list_elem_of_fmap_2. }
  exists m'. split_and!; try done.
  - simpl. rewrite Hc' /=. fold m1. by rewrite Hex.
  - intros id. rewrite L4 /=. rewrite lookup_delete. repeat case_decide; set_solver.
  - intros id [->|?]%elem_of_cons; [apply L6; set_solver|by apply L5].
  - etrans; [|exact L6]. set_solver.
Qed.

(** Mirroring the deletion of checkpoints. *)
Lemma drain_deleted_checkpoints ids m m' :
  (∀ id, id ∈ ids → checkpoints m !! id = None ∧ id ∈ deletedCheckpoints m) → NoDup ids →
  drain (putCheckpoint <$> ids) m = ([], m') →
  dbjobs (db m') = dbjobs (db m) ∧
  ∀ id, dbckpts (db m') !! id = if decide (id ∈ ids) then None else dbckpts (db m) !! id.
Proof.
  revert m. induction ids as [|id ids IH]; intros m Hids Hnd Hd.
  { simpl in Hd. by simplify_eq. }
  apply list.NoDup_cons in Hnd as [Hid Hnd]. simpl in Hd.
  destruct (Hids id) as [Hn Hdel]; [by left|]. rewrite Hn decide_True // in Hd.
  destruct (Db.DeleteCheckpoint id (db m)) as [e s'] eqn:HD. apply delete_ckpt in HD as [HJ HC].
  destruct e as [e|]; [by destruct (drain _ _)|].
  destruct (drain _ _) as [errs m2] eqn:Hdr. simpl in Hd. simplify_eq.
  eapply IH in Hdr as [G1 G2]; [| |done]; cycle 1.
  { intros id' Hin. destruct (Hids id') as [? ?]; [by right|]. simpl. split; [done|].
    apply elem_of_difference. split; [done|]. intros ->%elem_of_singleton. done. }
  simpl in *. rewrite G1 HJ. split; [done|]. intros id'. rewrite G2 HC lookup_delete.
  repeat case_decide; set_solver.
Qed.
End calls.

(** C1: The database catches up: in every state the manager can reach, under any
    interleaving of calls, of database failures and of the background routine,
    an in-memory checkpoint that the database does not have, and a deletion
    that has not reached it, is in flight.  So once the channel is empty, the
    routine idle and no call in progress, every checkpoint in memory is in the
    database and no deletion of a checkpoint or job is outstanding. *)
Theorem quiescent_consistent {S} `{DBLaws S} `{MapRange} env IsAttached (y : Sys S) :
  reachable env IsAttached y →
  pending y = [] → rt y = Idle → Forall finished (threads y) →
  (∀ id c, checkpoints (man y) !! id = Some c → persisted (man y) id c) ∧
  (∀ id, id ∈ deletedCheckpoints (man y) → is_Some (checkpoints (man y) !! id)) ∧
  (∀ jid, jid ∈ deletedJobs (man y) → is_Some (lookup_job (man y) jid)).
Proof.
  intros [I1 I2 I3 I4]%reachable_Inv Hq Hr Hf.
  assert (∀ a, ¬ inflight y a) as Hno.
  { intros a [Ha|[(p & Hp & Hs)|Ha]]; [|apply list_elem_of_lookup in Hp as [n Hn]|].
    - rewrite Hq in Ha. by apply elem_of_nil in Ha.
    - apply (Forall_lookup_1 _ _ _ _ Hf) in Hn. by destruct p.
    - by rewrite Hr in Ha. }
  split_and!.
  - intros id c Hc. destruct (I2 _ _ Hc) as [?|Hin]; [done|]. by destruct (Hno _ Hin).
  - intros id Hd. destruct (checkpoints (man y) !! id) eqn:E; [done|].
    by destruct (Hno _ (I3 _ Hd E)).
  - intros jid Hd. destruct (lookup_job (man y) jid) eqn:E; [done|].
    by destruct (Hno _ (I4 _ Hd E)).
Qed.

(** The manager can lock itself up: when the routine has to put a failed
    action back (or to send its periodic action) while the channel is full, it
    waits for itself.  From then on nothing is received any more: the channel
    stays full and the routine stays where it is, forever. *)
Theorem full_channel_deadlocks {S} `{DB S} `{MapRange} env IsAttached (y y' : Sys S) a :
  rt y = Resend a → length (pending y) = PENDING_CAP →
  rtc (step env IsAttached) y y' →
  rt y' = Resend a ∧ pending y' = pending y.
Proof.
  intros Hr Hq Hs. induction Hs as [y|y1 y2 y3 Hst Hs IH]; [done|].
  destruct Hst; simpl in *; simplify_eq/=; try lia; by apply IH.
Qed.

(** [GetLatestCheckpoint] returns a checkpoint of the job that no other
    checkpoint of the job is newer than, and nil only if the job has none. *)
Theorem GetLatestCheckpoint_latest {S} `{DB S} `{MapRange} (m : Manager S) jid :
  match GetLatestCheckpoint m jid with
  | Some c => CJID c = jid ∧ (∃ id, checkpoints m !! id = Some c) ∧
      ∀ id c', checkpoints m !! id = Some c' → CJID c' = jid → (CTime c' <= CTime c)%Z
  | None => ∀ id c, checkpoints m !! id = Some c → CJID c ≠ jid
  end.
Proof.
  assert (∀ id c, checkpoints m !! id = Some c → c ∈ (Range (checkpoints m)).*2) as Hin.
  { intros id c Hc. by apply (list_elem_of_fmap_2 snd _ (id, c)), elem_of_Range. }
  pose proof (latest_spec jid (Range (checkpoints m)).*2 None) as Hl.
  rewrite /GetLatestCheckpoint. destruct (latest _ _ _) as [c|].
  - destruct Hl as (H1 & [?|H2] & _ & H4); [done|done|]. split_and!; [done| |by eauto].
    apply list_elem_of_fmap in H2 as ([id c'] & -> & Hc%elem_of_Range). by exists id.
  - destruct Hl as [_ Hn]; [done|]. intros id c Hc. by eapply Hn, Hin.
Qed.

(** C20: Deleting a job takes its checkpoints along, in memory at once and in
    the database once the actions it sent are processed without error: the job
    and all its checkpoints are then gone there, and nothing else is. *)
Theorem Delete_reaches_database {S} `{DBLaws S} `{MapRange} (m : Manager S) jid r m1 sent m2 :
  keyed m → is_Some (jobs m !! jid) →
  exec (Delete jid) m = (r, m1, sent) →
  drain sent m1 = ([], m2) →
  jobs m1 !! jid = None ∧ ListCheckpoints m1 jid = [] ∧
  (∀ jid', dbjobs (db m2) !! jid' = if decide (jid' = jid) then None else dbjobs (db m) !! jid') ∧
  (∀ id, dbckpts (db m2) !! id =
     if decide (id ∈ CID <$> ListCheckpoints m jid) then None else dbckpts (db m) !! id).
Proof.
  intros Hk [l Hl] Hex Hdr. set (L := ListCheckpoints m jid) in *.
  set (m0 := set_deletedJobs ({[jid]} ∪ deletedJobs m) (set_jobs (delete jid (jobs m)) m)).
  assert (NoDup (CID <$> L)) as HND by by apply NoDup_ListCheckpoints.
  destruct (exec_delete_all L m0 HND) as (m' & Hall & E1 & E2 & E3 & E4 & E5 & _).
  { apply list.Forall_forall. intros c [_ [id Hc]]%elem_of_ListCheckpoints. simpl.
    by rewrite (Hk _ _ Hc) Hc. }
  assert (exec (Delete jid) m = (Some None, m', putJob jid :: (putCheckpoint ∘ CID <$> L))) as Hd.
  { cbn [Delete Read exec]. rewrite Hl. cbn [Do Read exec].
    change (ListCheckpoints _ jid) with (ListCheckpoints m jid). fold L.
    match goal with |- context [exec (delete_all L) ?x] => change x with m0 end. by rewrite Hall. }
  rewrite Hd in Hex. simplify_eq. simpl in Hdr.
  assert (lookup_job m1 jid = None) as Hn by by rewrite /lookup_job E1 /= lookup_delete_eq.
  rewrite Hn decide_True in Hdr; [rewrite E2 /=; set_solver|].
  destruct (DeleteJob jid (db m1)) as [e s'] eqn:HD. apply delete_job in HD as [HC HJ].
  destruct e as [e|]; [by destruct (drain _ _)|].
  destruct (drain _ _) as [errs m3] eqn:Hdr2. simpl in Hdr. simplify_eq.
  rewrite (list_fmap_compose CID putCheckpoint) in Hdr2.
  apply drain_deleted_checkpoints in Hdr2 as [G1 G2]; [| |done]; cycle 1.
  { intros id Hin. simpl. rewrite E4 decide_True //. split; [done|by apply E5]. }
  simpl in *. rewrite E3 in HC, HJ. split_and!.
  - by rewrite E1 lookup_delete_eq.
  - apply elem_of_nil_inv. intros c [Hj [id Hc]]%elem_of_ListCheckpoints.
    rewrite E4 in Hc. case_decide as Hid; [done|]. apply Hid. rewrite -(Hk _ _ Hc).
    apply list_elem_of_fmap_2, elem_of_ListCheckpoints. eauto.
  - intros jid'. by rewrite G1 HJ lookup_delete; repeat case_decide.
  - intros id. by rewrite G2 HC.
Qed.

(** No two jobs share a PID, which the zero PID of a new job is not. *)
Definition unique_PIDs {S} (m : Manager S) : Prop :=
  ∀ jid1 jid2 l1 l2 j1 j2, lookup_job m jid1 = Some (l1, j1) → lookup_job m jid2 = Some (l2, j2) →
    GetPID j1 = GetPID j2 → GetPID j1 ≠ 0%Z → jid1 = jid2.

(** Job objects are not shared and carry the JID they are stored under. *)
Definition jobs_ok {S} (m : Manager S) : Prop :=
  (∀ jid l j, lookup_job m jid = Some (l, j) → JID j = jid) ∧
  (∀ jid1 jid2 l, jobs m !! jid1 = Some l → jobs m !! jid2 = Some l → jid1 = jid2).

Lemma lookup_update_job_eq {S} (m : Manager S) jid l j f :
  lookup_job m jid = Some (l, j) → lookup_job (update_job l f m) jid = Some (l, f j).
Proof.
  rewrite /lookup_job /=. destruct (jobs m !! jid) as [a|]; [|done]. simpl.
  destruct (heap m !! a) as [j'|] eqn:E; [|done]. intros [= -> ->].
  by rewrite lookup_alter_eq E.
Qed.

Lemma lookup_update_job_ne {S} (m : Manager S) jid jid' l f :
  (∀ jid1 jid2 l, jobs m !! jid1 = Some l → jobs m !! jid2 = Some l → jid1 = jid2) →
  jid' ≠ jid → jobs m !! jid = Some l →
  lookup_job (update_job l f m) jid' = lookup_job m jid'.
Proof.
  intros Hinj Hne Hl. rewrite /lookup_job /=. destruct (jobs m !! jid') as [a|] eqn:Ha; [|done].
  simpl. rewrite lookup_alter_ne //. intros <-. by destruct Hne; eapply Hinj.
Qed.

Lemma Find_None {S} `{MapRange} (m : Manager S) pid jid l j :
  Find m pid = None → lookup_job m jid = Some (l, j) → GetPID j ≠ pid.
Proof.
  rewrite /Find /lookup_job. intros Hf Hl Hp.
  destruct (jobs m !! jid) as [a|] eqn:Ha; [|done]. simpl in Hl.
  destruct (heap m !! a) as [j'|] eqn:Hj; [|done]. simpl in Hl. simplify_eq.
  match goal with H : head ?xs = None |- _ => assert ((l, j) ∈ xs) as Hin end.
  { apply list_elem_of_omap. exists (jid, l). split; [by apply elem_of_Range|].
    by rewrite /= Hj /= decide_True. }
  destruct (omap _ _); [by apply elem_of_nil in Hin|done].
Qed.

Lemma Find_Some {S} `{MapRange} (m : Manager S) pid l j :
  Find m pid = Some (l, j) → GetPID j = pid ∧ ∃ jid, lookup_job m jid = Some (l, j).
Proof.
  rewrite /Find. intros Hf. destruct (omap _ _) as [|x xs] eqn:E; [done|]. simpl in Hf. simplify_eq.
  assert ((l, j) ∈ (l, j) :: xs) as Hin by by left. rewrite -E in Hin.
  apply list_elem_of_omap in Hin as ([jid a] & Ha%elem_of_Range & Hj). simpl in Hj.
  destruct (heap m !! a) as [j'|] eqn:Hh; [|done]. simpl in Hj. case_decide; simplify_eq.
  split; [done|]. exists jid. by rewrite /lookup_job Ha /= Hh.
Qed.

(** The two updates of [Manage], on a job whose new PID nobody else has. *)
Lemma managed_unique {S} env (m : Manager S) jid pid l j :
  (∀ p s deep, PID (FillProcessState env p s deep) = p) →
  jobs_ok m → unique_PIDs m → lookup_job m jid = Some (l, j) →
  (∀ jid' l' j', jid' ≠ jid → lookup_job m jid' = Some (l', j') → GetPID j' ≠ pid) →
  let m' := update_job l (sync_job env true) (update_job l (SetPID pid) m) in
  unique_PIDs m' ∧ ∃ l j, lookup_job m' jid = Some (l, j) ∧ GetPID j = pid.
Proof.
  intros Hfill [_ Hinj] Hu Hl Hother m2. assert (jobs m !! jid = Some l) as Hj.
  { revert Hl. rewrite /lookup_job. destruct (jobs m !! jid) as [a|]; [|done]. simpl.
    destruct (heap m !! a); [|done]. by intros [= -> ->]. }
  pose proof (lookup_update_job_eq _ _ _ _ (sync_job env true)
    (lookup_update_job_eq _ _ _ _ (SetPID pid) Hl)) as Hself. fold m2 in Hself.
  assert (GetPID (sync_job env true (SetPID pid j)) = pid) as Hpid.
  { rewrite /sync_job /GetPID /GetState /= /latestState /=.
    repeat case_match; rewrite ?Hfill //. }
  split; [|eauto].
  assert (∀ jid', jid' ≠ jid → lookup_job m2 jid' = lookup_job m jid') as Hrest.
  { intros jid' Hne. rewrite /m2. rewrite !(lookup_update_job_ne _ jid jid') //. }
  intros jid1 jid2 l1 l2 j1 j2. destruct (decide (jid1 = jid)) as [->|H1], (decide (jid2 = jid)) as [->|H2].
  - done.
  - rewrite Hself Hrest //. intros [= <- <-] Hl2 Heq _. exfalso. eapply Hother; [exact H2|done|congruence].
  - rewrite Hself Hrest //. intros Hl1 [= <- <-] Heq _. exfalso. eapply Hother; [exact H1|done|congruence].
  - rewrite !Hrest //. apply Hu.
Qed.


Lemma init_jobs_keep {S} `{DBLaws S} (l : list DJob) (m : Manager S) e m' jid :
  init_jobs l m = (e, m') →
  jid ∈ deletedJobs m ∨
  (is_Some (jobs m !! jid) ∧ Forall (λ j, JID j = jid → IsRemote j = false) l) →
  jobs m' !! jid = jobs m !! jid ∧
  ∀ id c, checkpoints m' !! id = Some c → checkpoints m !! id = Some c ∨ CJID c ≠ jid.
Proof.
  revert m. induction l as [|j l IH]; intros m; simpl; [intros [= _ <-]; by auto|].
  destruct (negb _ && _) eqn:Hcond; intros Hi Hjid.
  - assert (JID j ≠ jid) as Hne.
    { rewrite andb_true_iff orb_true_iff !negb_true_iff /Exists !bool_decide_eq_false in Hcond.
      destruct Hcond as [Hd Hc]. intros Heq. subst jid. destruct Hjid as [?|[Hs Hl]]; [done|].
      apply Forall_cons_1 in Hl as [Hl _]. specialize (Hl eq_refl).
      destruct Hc as [Hc|Hc]; [done|]. change (IsRemote j = true) in Hc. congruence. }
    assert (∀ s, jobs (set_db s (store_job (JID j) (fromProto j) m)) !! jid = jobs m !! jid) as Hj.
    { intros s. by rewrite /= lookup_insert_ne. }
    destruct (ListCheckpointsByJIDs _ _) as [[cs|e'] s'] eqn:Hl; [|by simplify_eq; auto].
    apply list_ckpts in Hl as (_ & _ & HF); [|done]. specialize (HF _ eq_refl).
    apply IH in Hi as [G1 G2].
    + rewrite G1 Hj. split; [done|]. intros id c [Hc|?]%G2; [|by right].
      apply foldl_insert_ckpts in Hc as [?|[_ Hc]]; [by left|right].
      rewrite list.Forall_forall in HF. destruct (HF _ Hc) as [_ ->%list_elem_of_singleton].
      done.
    + destruct Hjid as [?|[? Hl]]; [by left|right]. apply Forall_cons_1 in Hl as [_ Hl].
      split; [|done]. by rewrite /= lookup_insert_ne.
  - apply IH in Hi; [done|]. destruct Hjid as [?|[? Hl]]; [by left|right].
    by apply Forall_cons_1 in Hl as [_ Hl].
Qed.

(** Synchronising with the database never brings back a job that was
    deleted here and never replaces a job that is here, unless the database
    lists it as remote; nor does it load checkpoints of such jobs.  The latter
    holds after a failed load as well: a job whose checkpoints could not be
    listed is kept, and its checkpoints are not looked up again. *)
Theorem initialize_keeps_local_jobs {S} `{DBLaws S} (m : Manager S) l s e m' jid :
  ListJobs (db m) = (Ok l, s) → syncWithDB m initialize = (e, m') →
  jid ∈ deletedJobs m ∨
  (is_Some (jobs m !! jid) ∧ Forall (λ j, JID j = jid → IsRemote j = false) l) →
  jobs m' !! jid = jobs m !! jid ∧
  ∀ id c, checkpoints m' !! id = Some c → checkpoints m !! id = Some c ∨ CJID c ≠ jid.
Proof.
  intros Hl Hs Hjid. simpl in Hs. rewrite Hl in Hs. by apply (init_jobs_keep l (set_db s m) e m' jid Hs).
Qed.

Lemma foldl_insert_ckpts_in (cs : list Checkpoint) (acc : gmap string Checkpoint) c :
  NoDup (CID <$> cs) → c ∈ cs → foldl (λ acc c, <[CID c := c]> acc) acc cs !! CID c = Some c.
Proof.
  revert acc. induction cs as [|d cs IH]; intros acc; [by intros _ ?%elem_of_nil|].
  rewrite fmap_cons. intros [Hd Hnd]%list.NoDup_cons [->|Hc]%elem_of_cons; [|by apply IH]. simpl.
  assert (∀ acc : gmap string Checkpoint, acc !! CID d = Some d →
    foldl (λ acc c, <[CID c := c]> acc) acc cs !! CID d = Some d) as Hkeep; [|apply Hkeep; by rewrite lookup_insert_eq].
  clear -Hd. induction cs as [|x cs IH]; intros acc Ha; [done|]. simpl. apply IH; [set_solver|].
  rewrite lookup_insert_ne //. set_solver.
Qed.

(** A deleted checkpoint can come back: while its deletion is on its way to
    the database, a synchronisation that (re)loads its job, because it is
    remote, puts the checkpoint back in memory, without looking at the deleted
    checkpoints as it does for jobs; the pending action then writes the
    checkpoint to the database again instead of deleting it. *)
Theorem deleted_checkpoint_comes_back {S} `{DBLaws S} (m : Manager S) j s cs s' c :
  ListJobs (db m) = (Ok [j], s) → IsRemote j = true → JID j ∉ deletedJobs m →
  ListCheckpointsByJIDs [JID j] s = (Ok cs, s') → NoDup (CID <$> cs) → c ∈ cs →
  CID c ∈ deletedCheckpoints m →
  ∃ m', syncWithDB m initialize = (None, m') ∧ checkpoints m' !! CID c = Some c ∧
    syncWithDB m' (putCheckpoint (CID c)) =
      ((PutCheckpoint c s').1, set_db (PutCheckpoint c s').2 m').
Proof.
  intros Hl Hr Hd Hc Hnd Hin Hdel. simpl. rewrite Hl /=.
  rewrite bool_decide_false //=. assert (IsRemote (fromProto j) = true) as -> by done.
  rewrite orb_true_r Hc. eexists. split; [done|]. simpl.
  rewrite foldl_insert_ckpts_in //. split; [done|]. by destruct (PutCheckpoint c s').
Qed.

(** [Kill] signals the job's process, or the process group it leads, with
    the caller's signal, else the plugin's, else SIGKILL; it never signals the
    daemon's own process group (target 0), and reaches every process (target
    -1) only for PID 1. *)
Theorem Kill_target env SIGKILL custom signal j target sig :
  in_uint32 (GetPID j) →
  Kill_signal env SIGKILL custom signal j = Ok (target, sig) →
  IsRunning j = true ∧ (target = GetPID j ∨ target = - GetPID j)%Z ∧ target ≠ 0%Z ∧
  (target = -1 → GetPID j = 1)%Z ∧
  sig = match signal, custom with Some x, _ => x | None, Some x => x | None, None => SIGKILL end.
Proof.
  intros Hpid. rewrite /Kill_signal /in_uint32 in Hpid |- *. destruct (IsRunning j); [|done]. simpl.
  case_decide; [|done]. case_decide as Hg; intros [= <- <-].
  - split_and!; [done|right; lia|lia|lia|]. by destruct signal, custom.
  - split_and!; [done|by left|lia|lia|]. by destruct signal, custom.
Qed.

(** ** Witnesses, over SQLite *)

#[local] Instance sample_db : DB Tables := Sqlite.sqlite_db Sqlite.sample_Marshal Sqlite.sample_Unmarshal.
#[local] Instance sample_laws : DBLaws Tables :=
  Sqlite.sqlite_laws Sqlite.sample_Marshal Sqlite.sample_Unmarshal Sqlite.sample_json_ok.

(** A remote job with one checkpoint, in the database. *)
Definition remote_job : DJob :=
  mkDJob "job1" "process" "" None
    (Some (mkState 42 "sleep" 0 "/" "remote" false false
      (Some (mkHost "host2" "m" "h" "linux" "p" "k" "a" None None)) [] [] [])).

Definition sample_ckpt : Checkpoint := mkCheckpoint "c1" "job1" "/dumps/a" 5 100.

Definition stored_tables : Tables :=
  (PutCheckpoint sample_ckpt (PutJob remote_job Sqlite.sample_tables).2).2.

Definition started_manager : Manager Tables :=
  (syncWithDB (mkManager ∅ ∅ ∅ ∅ ∅ stored_tables) initialize).2.

(** The checkpoint is deleted, and the deletion reaches the database. *)
Definition settled_manager : Manager Tables :=
  (syncWithDB
    (set_deletedCheckpoints ({[ "c1" ]} ∪ deletedCheckpoints started_manager)
      (set_checkpoints (delete "c1" (checkpoints started_manager)) started_manager))
    (putCheckpoint "c1")).2.

Lemma settled_reachable :
  reachable sample_env (λ _, false) (mkSys settled_manager [] [Return None] Idle).
Proof.
  exists (mkSys started_manager [] [] Idle). split.
  { apply (started_intro stored_tables). vm_compute. reflexivity. }
  assert (checkpoints started_manager !! "c1" = Some sample_ckpt) as Hc by (vm_compute; reflexivity).
  eapply rtc_l; [apply step_call, (api_DeleteCheckpoint _ _ "c1")|].
  eapply rtc_l; [apply (step_update _ _ _ _ _ _ 0); reflexivity|].
  cbn [insert list_insert app]. rewrite Hc.
  eapply rtc_l; [apply (step_update _ _ _ _ _ _ 0); reflexivity|].
  eapply rtc_l; [apply (step_update _ _ _ _ _ _ 0); reflexivity|].
  eapply rtc_l; [eapply (step_send _ _ _ _ _ _ 0); [reflexivity|simpl; rewrite /PENDING_CAP; lia]|].
  eapply rtc_l; [|apply rtc_refl].
  apply step_recv. vm_compute. reflexivity.
Qed.

Lemma quiescent_consistent_witness :
  let y := mkSys settled_manager [] [Return None] Idle in
  reachable sample_env (λ _, false) y ∧ dbckpts (db (man y)) !! "c1" = None ∧
  ∀ id, id ∈ deletedCheckpoints (man y) → is_Some (checkpoints (man y) !! id).
Proof.
  split; [apply settled_reachable|]. split; [vm_compute; reflexivity|].
  apply (quiescent_consistent sample_env (λ _, false) _ settled_reachable eq_refl eq_refl).
  repeat constructor.
Defined.

Definition full_sys : Sys Tables :=
  mkSys started_manager (replicate PENDING_CAP (putJob "job1")) [] (Resend initialize).

Definition full_sys' : Sys Tables :=
  mkSys started_manager (replicate PENDING_CAP (putJob "job1")) [Delete "job1"] (Resend initialize).

Lemma full_channel_deadlocks_witness :
  rtc (step sample_env (λ _, false)) full_sys full_sys' ∧
  rt full_sys' = Resend initialize ∧ pending full_sys' = replicate PENDING_CAP (putJob "job1").
Proof.
  assert (rtc (step sample_env (λ _, false)) full_sys full_sys') as Hs.
  { apply rtc_once, (step_call _ _ _ _ []), api_Delete. }
  split; [done|].
  exact (full_channel_deadlocks sample_env (λ _, false) full_sys full_sys' initialize eq_refl eq_refl Hs).
Defined.

Definition deleted_manager : Manager Tables := (exec (Delete "job1") started_manager).1.2.
Definition drained_manager : Manager Tables :=
  (drain [putJob "job1"; putCheckpoint "c1"] deleted_manager).2.

Lemma Delete_reaches_database_witness :
  is_Some (dbjobs (db started_manager) !! "job1") ∧ dbjobs (db drained_manager) !! "job1" = None ∧
  dbckpts (db drained_manager) !! "c1" = None.
Proof.
  split; [by eexists; vm_compute|].
  destruct (Delete_reaches_database started_manager "job1" (Some None) deleted_manager
    [putJob "job1"; putCheckpoint "c1"] drained_manager) as (_ & _ & HJ & HC).
  - apply (bool_decide_unpack _). vm_compute. exact I.
  - vm_compute. by eexists.
  - vm_compute. reflexivity.
  - vm_compute. reflexivity.
  - split; [by rewrite HJ|rewrite HC; vm_compute; reflexivity].
Defined.

Definition filling_env : JobEnv :=
  mkEnv (Ok "host1") (λ _, Some (Ok "sleep")) (λ p s _, set_PID p s) (λ _, true) (λ p, Ok p).

Definition one_job : Manager Tables :=
  store_job "j" (newJob "j" "process" (mkHost "host1" "m" "h" "linux" "p" "k" "a" None None))
    (mkManager ∅ ∅ ∅ ∅ ∅ Sqlite.sample_tables).

Lemma one_job_lookup jid l : jobs one_job !! jid = Some l → jid = "j".
Proof. rewrite /= lookup_insert_Some lookup_empty. naive_solver. Qed.

Lemma one_job_ok : jobs_ok one_job ∧ unique_PIDs one_job.
Proof.
  assert (∀ jid l j, lookup_job one_job jid = Some (l, j) → jid = "j") as Hj.
  { intros jid l j. rewrite /lookup_job. destruct (jobs one_job !! jid) eqn:E; [|done].
    by apply one_job_lookup in E. }
  split; [split|].
  - intros jid l j Hl. pose proof (Hj _ _ _ Hl) as ->. vm_compute in Hl. by simplify_eq.
  - intros j1 j2 l E1%one_job_lookup E2%one_job_lookup. congruence.
  - intros j1 j2 l1 l2 x1 x2 E1%Hj E2%Hj _ _. congruence.
Qed.


(** The deleted job of [deleted_manager] stays deleted. *)
Lemma initialize_keeps_local_jobs_witness :
  ∃ e m', syncWithDB deleted_manager initialize = (e, m') ∧ jobs m' !! "job1" = None.
Proof.
  eexists _, _. split; [vm_compute; reflexivity|].
  refine (eq_trans (proj1 (initialize_keeps_local_jobs deleted_manager _ _ None _ "job1" _ _ _)) _).
  - vm_compute. reflexivity.
  - vm_compute. reflexivity.
  - left. by_decide.
  - vm_compute. reflexivity.
Defined.

(** The checkpoint of [started_manager], deleted in memory. *)
Definition forgetful_manager : Manager Tables :=
  (exec (DeleteCheckpoint "c1") started_manager).1.2.

Lemma deleted_checkpoint_comes_back_witness :
  checkpoints forgetful_manager !! "c1" = None ∧
  ∃ m', syncWithDB forgetful_manager initialize = (None, m') ∧
    checkpoints m' !! "c1" = Some sample_ckpt.
Proof.
  split; [vm_compute; reflexivity|].
  assert (∃ j s, ListJobs (db forgetful_manager) = (Ok [j], s) ∧ IsRemote j = true ∧
    (JID j ∉ deletedJobs forgetful_manager) ∧
    ListCheckpointsByJIDs [JID j] s = (Ok [sample_ckpt], s)) as (j & s & H1 & H2 & H3 & H4).
  { eexists _, _. split_and!; [vm_compute; reflexivity|vm_compute; reflexivity|by_decide|
      vm_compute; reflexivity]. }
  destruct (deleted_checkpoint_comes_back forgetful_manager j s [sample_ckpt] s sample_ckpt H1 H2 H3 H4)
    as (m' & Hm & Hc & _).
  - by_decide.
  - by left.
  - by_decide.
  - eauto.
Defined.

Lemma Kill_target_witness :
  Kill_signal sample_env 9 None (Some 15%Z) (set_State (Some (set_Status "" true (GetState remote_job))) remote_job)
    = Ok ((-42)%Z, 15%Z) ∧ (-42 ≠ 0)%Z.
Proof.
  split; [vm_compute; reflexivity|].
  refine (proj1 (proj2 (proj2 (Kill_target sample_env 9 None (Some 15%Z)
    (set_State (Some (set_Status "" true (GetState remote_job))) remote_job) (-42)%Z 15%Z _ _)))).
  - split; by vm_compute.
  - vm_compute. reflexivity.
Defined.

End JobManager.
