(* ===== verification/ExitWatcher.v ===== *)
(** * The exit of a managed job (internal/cedana/job/manager_lazy.go, dump_adapters.go)

    [Manage] gives the job a new channel [done] and starts a goroutine that
    waits for the exit of the process, detaches the GPU, runs the clean-up of the
    plugin and closes the channel, on which a dump of the job waits ([Done]).
    The channel is a field of the job, which the goroutine reads when it sends
    and closes.  A transition system over one job: its goroutines, the waits of
    dumps, the processes, cancellations and further calls of [Manage] take steps
    in any order.

    As long as the job is managed again only when the goroutine of before has
    finished, no goroutine panics or stays behind an exited process, and a wait
    ends after the exit and the detachment ([exit_is_observed],
    [exited_job_finishes]).  That the process has exited, which is what a
    restore checks, is not enough: the goroutine of before closes the channel of
    the new one, and the daemon stops ([early_restore_panics]).  A job that has
    not been managed since the daemon was started has no channel, so a dump that
    waits for it never returns ([wait_without_channel]). *)

From S2P Require Import Prelude GoLib.

Module ExitWatcher.
Import GoLib.
#[local] Arguments String.append : simpl never.

(** A channel of capacity one. *)
Record Chan := mkChan { buf : option error; closed : bool }.

(** Where a goroutine is: in the select, waiting for the code after [Kill],
    before the detachment, before the clean-up, before closing the channel. *)
Inductive Stage := Selecting | WaitCode | Exited | Detached | CleanedUp | Finished.
Definition rank (s : Stage) : nat :=
  match s with Selecting => 0 | WaitCode => 1 | Exited => 2 | Detached => 3 | CleanedUp => 4 | Finished => 5 end.

Record Watcher := mkWatcher {
  wPID : Z;
  wCancelled : bool;    (** its lifetime *)
  wExited : bool;       (** whether the process has exited, so that the code can be received *)
  wStage : Stage;
}.
Definition at_stage (st : Stage) (w : Watcher) : Watcher := mkWatcher (wPID w) (wCancelled w) (wExited w) st.
Definition cancelled_ (w : Watcher) : Watcher := mkWatcher (wPID w) true (wExited w) (wStage w).
Definition exited_ (w : Watcher) : Watcher := mkWatcher (wPID w) (wCancelled w) true (wStage w).

(** A receive of a dump from a channel, which may be nil. *)
Inductive Waiter := WaitOn (ch : option nat) | Returned (ch : option nat) (r : option error).

(** The [i]-th goroutine was started with the [i]-th channel. *)
Record Sys := mkSys {
  in_table : bool;                (** whether the manager has the job *)
  jPID : Z;
  done_ : option nat;
  chans : list Chan;
  watchers : list Watcher;
  waiters : list Waiter;
  killed : list Z;                (** the processes that were sent a signal *)
  detached : list Z;              (** the processes whose GPU was detached *)
  panicked : bool;
}.

Definition set_watchers (l : list Watcher) (s : Sys) : Sys :=
  mkSys (in_table s) (jPID s) (done_ s) (chans s) l (waiters s) (killed s) (detached s) (panicked s).
Definition on_watcher (i : nat) (w : Watcher) (s : Sys) : Sys := set_watchers (<[i := w]> (watchers s)) s.
Definition on_chan (c : nat) (ch : Chan) (s : Sys) : Sys :=
  mkSys (in_table s) (jPID s) (done_ s) (<[c := ch]> (chans s)) (watchers s) (waiters s) (killed s) (detached s) (panicked s).
Definition on_waiter (j : nat) (w : Waiter) (s : Sys) : Sys :=
  mkSys (in_table s) (jPID s) (done_ s) (chans s) (watchers s) (<[j := w]> (waiters s)) (killed s) (detached s) (panicked s).
Definition add_waiter (w : Waiter) (s : Sys) : Sys :=
  mkSys (in_table s) (jPID s) (done_ s) (chans s) (watchers s) (waiters s ++ [w]) (killed s) (detached s) (panicked s).
Definition add_killed (l : list Z) (s : Sys) : Sys :=
  mkSys (in_table s) (jPID s) (done_ s) (chans s) (watchers s) (waiters s) (killed s ++ l) (detached s) (panicked s).
Definition add_detached (pid : Z) (s : Sys) : Sys :=
  mkSys (in_table s) (jPID s) (done_ s) (chans s) (watchers s) (waiters s) (killed s) (detached s ++ [pid]) (panicked s).
Definition delete_job (s : Sys) : Sys :=
  mkSys false (jPID s) (done_ s) (chans s) (watchers s) (waiters s) (killed s) (detached s) (panicked s).
Definition panic (s : Sys) : Sys :=
  mkSys (in_table s) (jPID s) (done_ s) (chans s) (watchers s) (waiters s) (killed s) (detached s) true.

(** [Manage], after its tests. *)
Definition Manage (pid : Z) (s : Sys) : Sys :=
  mkSys (in_table s) pid (Some (length (chans s))) (chans s ++ [mkChan None false])
    (watchers s ++ [mkWatcher pid false false Selecting]) (waiters s) (killed s) (detached s) (panicked s).

(** [Done]: the channel of a job that does not exist is closed. *)
Definition Done (s : Sys) : Waiter := if in_table s then WaitOn (done_ s) else Returned None None.

Section exit.
Context (job_type : string).

Definition cleanup_error (e : error) : error := Errorf ("Failed " +:+ job_type +:+ " cleanup: " +:+ Error e).

Inductive step (s : Sys) : Sys → Prop :=
(** The process exits; the lifetime is cancelled; the job is deleted. *)
| process_exits i w : watchers s !! i = Some w → step s (on_watcher i (exited_ w) s)
| lifetime_ends i w : watchers s !! i = Some w → step s (on_watcher i (cancelled_ w) s)
| job_deleted : step s (delete_job s)
(** [Kill] looks the job up again, and refuses one that is not running. *)
| watcher_kills i w sent : watchers s !! i = Some w → wStage w = Selecting → wCancelled w = true →
    sent = [] ∨ (in_table s = true ∧ sent = [jPID s]) →
    step s (add_killed sent (on_watcher i (at_stage WaitCode w) s))
| watcher_code i w : watchers s !! i = Some w → wStage w = Selecting ∨ wStage w = WaitCode → wExited w = true →
    step s (on_watcher i (at_stage Exited w) s)
| watcher_detaches i w : watchers s !! i = Some w → wStage w = Exited →
    step s (add_detached (wPID w) (on_watcher i (at_stage Detached w) s))
(** No plugin has a clean-up, or it succeeds. *)
| cleanup_done i w : watchers s !! i = Some w → wStage w = Detached → step s (on_watcher i (at_stage CleanedUp w) s)
(** It fails: the error is sent; a panic of the send is recovered where the
    plugin is called. *)
| cleanup_fails i w c ch e : watchers s !! i = Some w → wStage w = Detached →
    done_ s = Some c → chans s !! c = Some ch → buf ch = None → closed ch = false →
    step s (on_chan c (mkChan (Some (cleanup_error e)) false) (on_watcher i (at_stage CleanedUp w) s))
| cleanup_recovered i w c ch : watchers s !! i = Some w → wStage w = Detached →
    done_ s = Some c → chans s !! c = Some ch → closed ch = true →
    step s (on_watcher i (at_stage CleanedUp w) s)
(** [close(job.done)] *)
| watcher_closes i w c ch : watchers s !! i = Some w → wStage w = CleanedUp →
    done_ s = Some c → chans s !! c = Some ch → closed ch = false →
    step s (on_chan c (mkChan (buf ch) true) (on_watcher i (at_stage Finished w) s))
| close_of_closed i w c ch : watchers s !! i = Some w → wStage w = CleanedUp →
    done_ s = Some c → chans s !! c = Some ch → closed ch = true → step s (panic s)
(** A dump that waits for the job: [<-jobs.Done(jid)]. *)
| dump_waits : step s (add_waiter (Done s) s)
| wait_value j c ch e : waiters s !! j = Some (WaitOn (Some c)) → chans s !! c = Some ch → buf ch = Some e →
    step s (on_waiter j (Returned (Some c) (Some e)) (on_chan c (mkChan None (closed ch)) s))
| wait_closed j c ch : waiters s !! j = Some (WaitOn (Some c)) → chans s !! c = Some ch → buf ch = None → closed ch = true →
    step s (on_waiter j (Returned (Some c) None) s).

(** Steps of the whole; the job is managed anew only in states that [guard]
    allows.  No goroutine goes on after a panic. *)
Inductive run (guard : Sys → Prop) (s : Sys) : Sys → Prop :=
| run_step s' : panicked s = false → step s s' → run guard s s'
| run_manage pid : panicked s = false → in_table s = true → pid ≠ 0%Z → guard s → run guard s (Manage pid s).

(** A job that was just created, or read from the database. *)
Definition loaded (pid : Z) : Sys := mkSys true pid None [] [] [] [] [] false.
Definition reachable (guard : Sys → Prop) (s : Sys) : Prop := ∃ pid, rtc (run guard) (loaded pid) s.

(** The goroutines of before have finished. *)
Definition settled (s : Sys) : Prop := Forall (λ w, wStage w = Finished) (watchers s).
(** The processes of before have exited: what a restore checks. *)
Definition all_exited (s : Sys) : Prop := Forall (λ w, wExited w = true) (watchers s).

(** ** Managed one after the other *)

Record pair_ok (det : list Z) (w : Watcher) (ch : Chan) : Prop := {
  pair_closed : closed ch = true ↔ wStage w = Finished;
  pair_empty : (rank (wStage w) < 4)%nat → buf ch = None;
  pair_exited : (2 ≤ rank (wStage w))%nat → wExited w = true;
  pair_detached : (3 ≤ rank (wStage w))%nat → wPID w ∈ det;
}.

Definition wait_ok (ws : list Watcher) (x : Waiter) : Prop :=
  match x with
  | WaitOn (Some c) => (c < length ws)%nat
  | Returned (Some c) r => ∃ w, ws !! c = Some w ∧ (4 ≤ rank (wStage w))%nat ∧ (r = None → wStage w = Finished)
  | _ => True
  end.

Record ok (s : Sys) : Prop := {
  ok_panic : panicked s = false;
  ok_length : length (chans s) = length (watchers s);
  ok_done : done_ s = match length (watchers s) with O => None | S n => Some n end;
  ok_old i w : watchers s !! i = Some w → (S i < length (watchers s))%nat → wStage w = Finished;
  ok_pair i w ch : watchers s !! i = Some w → chans s !! i = Some ch → pair_ok (detached s) w ch;
  ok_waiters : Forall (wait_ok (watchers s)) (waiters s);
}.

Lemma ok_loaded pid : ok (loaded pid).
Proof. by constructor. Qed.

Lemma rank_5 st : (5 ≤ rank st)%nat → st = Finished.
Proof. destruct st; simpl; (done || lia). Qed.

Lemma working_is_last s i w : ok s → watchers s !! i = Some w → wStage w ≠ Finished →
  done_ s = Some i ∧ ∃ ch, chans s !! i = Some ch ∧ pair_ok (detached s) w ch.
Proof.
  intros Hok Hw Hn. pose proof (lookup_lt_Some _ _ _ Hw) as Hlt.
  assert (length (watchers s) = S i) as Hlen.
  { destruct (decide (S i < length (watchers s)))%nat; [|lia]. by destruct (Hn (ok_old _ Hok i w Hw ltac:(done))). }
  split; [by rewrite ok_done // Hlen|].
  destruct (lookup_lt_is_Some_2 (chans s) i) as [ch Hch]; [rewrite ok_length //|]. exists ch. split; [done|by eapply ok_pair].
Qed.

Lemma pair_ok_mono det det' w ch : pair_ok det w ch → det ⊆ det' → pair_ok det' w ch.
Proof. intros [] ?. constructor; auto. Qed.

(** A step that takes a goroutine on, and perhaps changes its channel. *)
Lemma ok_update s s' i w w' ch ch' :
  ok s → watchers s !! i = Some w → chans s !! i = Some ch →
  watchers s' = <[i := w']> (watchers s) → chans s' = <[i := ch']> (chans s) →
  done_ s' = done_ s → waiters s' = waiters s → detached s ⊆ detached s' → panicked s' = panicked s →
  (rank (wStage w) ≤ rank (wStage w'))%nat → pair_ok (detached s') w' ch' → ok s'.
Proof.
  intros Hok Hw Hch Hws Hcs Hd Hwt Hdet Hp Hr Hpair.
  assert (wStage w = Finished → wStage w' = Finished) as Hfin by (intros Hf; apply rank_5; rewrite Hf in Hr; simpl in Hr; lia).
  constructor.
  - by rewrite Hp ok_panic.
  - by rewrite Hws Hcs !length_insert ok_length.
  - by rewrite Hd Hws length_insert ok_done.
  - rewrite Hws length_insert. intros k x [(<- & <- & _)|[_ Hx]]%list_lookup_insert_Some Hlt; [|by eapply ok_old].
    apply Hfin. by eapply ok_old.
  - rewrite Hws Hcs. intros k x c Hx Hc. apply list_lookup_insert_Some in Hx as [(<- & <- & _)|[Hne Hx]].
    + apply list_lookup_insert_Some in Hc as [(_ & <- & _)|[? _]]; done.
    + rewrite list_lookup_insert_ne // in Hc. by eapply pair_ok_mono; [eapply ok_pair|].
  - rewrite Hws Hwt. eapply list.Forall_impl; [exact (ok_waiters _ Hok)|]. intros [[c|]|[c|] r]; simpl; [by rewrite length_insert|done| |done].
    intros (x & Hx & Hrx & Hfx). destruct (decide (c = i)) as [->|Hne].
    + exists w'. rewrite Hw in Hx. injection Hx as ->. rewrite list_lookup_insert_eq; [by eapply lookup_lt_Some|].
      split; [done|]. split; [lia|]. auto.
    + exists x. by rewrite list_lookup_insert_ne.
Qed.

(** A step that concerns a waiting dump only. *)
Lemma ok_waiters_update s l :
  ok s → Forall (wait_ok (watchers s)) l →
  ok (mkSys (in_table s) (jPID s) (done_ s) (chans s) (watchers s) l (killed s) (detached s) (panicked s)).
Proof. intros [] Hl. by constructor. Qed.

Lemma all_ranked s i w : ok s → watchers s !! i = Some w → ∃ ch, chans s !! i = Some ch ∧ pair_ok (detached s) w ch.
Proof.
  intros Hok Hw. destruct (lookup_lt_is_Some_2 (chans s) i) as [ch Hch].
  { rewrite ok_length //. by eapply lookup_lt_Some. }
  exists ch. split; [done|by eapply ok_pair].
Qed.

(** A goroutine goes on before it closes its channel, or closes it. *)
Lemma ok_advance s i w ch st ch' k det :
  ok s → watchers s !! i = Some w → chans s !! i = Some ch → pair_ok (detached s) w ch →
  (rank (wStage w) < rank st)%nat → detached s ⊆ det →
  (closed ch' = true ↔ st = Finished) → ((rank st < 4)%nat → buf ch' = buf ch) →
  ((rank (wStage w) < 2)%nat → (2 ≤ rank st)%nat → wExited w = true) →
  ((rank (wStage w) < 3)%nat → (3 ≤ rank st)%nat → wPID w ∈ det) →
  ok (mkSys (in_table s) (jPID s) (done_ s) (<[i := ch']> (chans s)) (<[i := at_stage st w]> (watchers s)) (waiters s)
        k det (panicked s)).
Proof.
  intros Hok Hw Hch [Hc He Hx Hd] Hr Hdet Hcl Hb Hex Hpid.
  eapply (ok_update s _ i w (at_stage st w) ch ch' Hok Hw Hch); simpl; [reflexivity..|done|reflexivity|lia|].
  constructor; simpl; [done| | |].
  - intros Hlt. rewrite Hb //. apply He. lia.
  - intros Hle. destruct (decide (rank (wStage w) < 2)%nat); [by apply Hex|apply Hx; lia].
  - intros Hle. destruct (decide (rank (wStage w) < 3)%nat); [by apply Hpid|apply Hdet, Hd; lia].
Qed.

Lemma ok_advance_plain s i w st k det :
  ok s → watchers s !! i = Some w → (rank (wStage w) < rank st < 5)%nat → detached s ⊆ det →
  ((rank (wStage w) < 2)%nat → (2 ≤ rank st)%nat → wExited w = true) →
  ((rank (wStage w) < 3)%nat → (3 ≤ rank st)%nat → wPID w ∈ det) →
  ok (mkSys (in_table s) (jPID s) (done_ s) (chans s) (<[i := at_stage st w]> (watchers s)) (waiters s) k det (panicked s)).
Proof.
  intros Hok Hw Hr Hdet Hex Hpid. destruct (all_ranked s i w Hok Hw) as (ch & Hch & Hp).
  rewrite -{1}(list_insert_id (chans s) i ch) //. apply (ok_advance s i w ch st ch); try done; [lia|].
  rewrite (pair_closed _ _ _ Hp). split; intros Hf; rewrite Hf in Hr; simpl in Hr; lia.
Qed.

(** A goroutine with a flag set. *)
Lemma ok_flag s i w w' :
  ok s → watchers s !! i = Some w → wStage w' = wStage w → wPID w' = wPID w → (wExited w = true → wExited w' = true) →
  ok (on_watcher i w' s).
Proof.
  intros Hok Hw Hst Hpid Hex. destruct (all_ranked s i w Hok Hw) as (ch & Hch & [Hc He Hx Hd]).
  eapply (ok_update s _ i w w' ch ch Hok Hw Hch); simpl; [reflexivity|by rewrite list_insert_id|reflexivity..|by rewrite Hst|].
  constructor; rewrite ?Hst ?Hpid; auto.
Qed.

Lemma ok_step s s' : ok s → step s s' → ok s'.
Proof.
  intros Hok H. destruct H as [i w Hw|i w Hw| |i w sent Hw Hst Hca Hsent|i w Hw Hst Hex|i w Hw Hst|i w Hw Hst
    |i w c ch e Hw Hst Hd Hc Hb Hcl|i w c ch Hw Hst Hd Hc Hcl|i w c ch Hw Hst Hd Hc Hcl|i w c ch Hw Hst Hd Hc Hcl
    | |j c ch e Hj Hc Hb|j c ch Hj Hc Hb Hcl].
  - by apply (ok_flag s i w).
  - by apply (ok_flag s i w).
  - by destruct Hok; constructor.
  - apply (ok_advance_plain s i w WaitCode); try done; rewrite ?Hst; simpl; lia.
  - apply (ok_advance_plain s i w Exited); try done; [destruct Hst as [-> | ->]; simpl; lia|simpl; lia].
  - apply (ok_advance_plain s i w Detached); try done; rewrite ?Hst; simpl; [lia|set_solver|lia|set_solver].
  - apply (ok_advance_plain s i w CleanedUp); try done; rewrite ?Hst; simpl; lia.
  - destruct (working_is_last s i w Hok Hw) as (Hdone & ch' & Hch' & Hp); [by rewrite Hst|]. simplify_eq.
    apply (ok_advance s c w ch CleanedUp); try done; rewrite ?Hst; simpl; lia.
  - destruct (working_is_last s i w Hok Hw) as (Hdone & ch' & Hch' & Hp); [by rewrite Hst|]. simplify_eq.
    apply (pair_closed _ _ _ Hp) in Hcl. congruence.
  - destruct (working_is_last s i w Hok Hw) as (Hdone & ch' & Hch' & Hp); [by rewrite Hst|]. simplify_eq.
    apply (ok_advance s c w ch Finished); try done; rewrite ?Hst; simpl; lia.
  - destruct (working_is_last s i w Hok Hw) as (Hdone & ch' & Hch' & Hp); [by rewrite Hst|]. simplify_eq.
    apply (pair_closed _ _ _ Hp) in Hcl. congruence.
  - apply ok_waiters_update; [done|]. apply Forall_app. split; [by apply ok_waiters|]. apply Forall_singleton.
    unfold Done. destruct (in_table s); [|done]. rewrite (ok_done _ Hok). destruct (length (watchers s)) eqn:Hl; [done|].
    simpl. rewrite Hl. lia.
  - assert (c < length (watchers s))%nat as Hlt by (rewrite -ok_length //; by eapply lookup_lt_Some).
    destruct (lookup_lt_is_Some_2 (watchers s) c Hlt) as [w Hw]. pose proof (ok_pair _ Hok c w ch Hw Hc) as Hp.
    assert (4 ≤ rank (wStage w))%nat as Hr.
    { destruct (decide (rank (wStage w) < 4)%nat) as [H4|]; [|lia]. by rewrite (pair_empty _ _ _ Hp H4) in Hb. }
    apply (ok_waiters_update (on_chan c (mkChan None (closed ch)) s)).
    + eapply (ok_update s _ c w w ch (mkChan None (closed ch)) Hok Hw Hc); simpl; [by rewrite list_insert_id|reflexivity..|].
      destruct Hp. constructor; simpl; [done|lia|done|done].
    + apply Forall_insert; [exact (ok_waiters _ Hok)|]. simpl. exists w. by split_and!.
  - assert (c < length (watchers s))%nat as Hlt by (rewrite -ok_length //; by eapply lookup_lt_Some).
    destruct (lookup_lt_is_Some_2 (watchers s) c Hlt) as [w Hw]. pose proof (ok_pair _ Hok c w ch Hw Hc) as Hp.
    apply (pair_closed _ _ _ Hp) in Hcl. apply ok_waiters_update; [done|].
    apply Forall_insert; [exact (ok_waiters _ Hok)|]. simpl. exists w. rewrite Hcl. simpl. split_and!; [done|lia|done].
Qed.

Lemma ok_manage s pid : ok s → settled s → ok (Manage pid s).
Proof.
  intros Hok Hset. unfold settled in Hset. rewrite list.Forall_forall in Hset.
  constructor; simpl.
  - by apply ok_panic.
  - by rewrite !length_app ok_length.
  - rewrite length_app /= Nat.add_1_r. by rewrite ok_length.
  - intros i w Hw Hlt. rewrite length_app /= in Hlt. apply lookup_snoc_Some in Hw as [[_ Hw]|[-> _]]; [|lia].
    apply Hset. by eapply list_elem_of_lookup_2.
  - pose proof (ok_length _ Hok) as Hlen. intros i w ch Hw Hch.
    apply lookup_snoc_Some in Hch as [[Hlt Hch]|[Hi <-]]; apply lookup_snoc_Some in Hw as [[Hlt' Hw]|[Hi' <-]]; try lia.
    + by eapply ok_pair.
    + constructor; simpl; (done || lia).
  - eapply list.Forall_impl; [exact (ok_waiters _ Hok)|]. intros [[c|]|[c|] r]; simpl; [rewrite length_app /=; lia|done| |done].
    intros (w & Hw & ?). exists w. split; [|done]. rewrite lookup_app_l //. by eapply lookup_lt_Some.
Qed.

Lemma ok_reachable s : reachable settled s → ok s.
Proof.
  intros [pid Hr]. revert Hr. apply (rtc_ind_r ok); [apply ok_loaded|]. intros x y _ Hxy Hx.
  destruct Hxy as [y _ Hs|pid' _ _ _ Hg]; [by eapply ok_step|by apply ok_manage].
Qed.


(** Then every goroutine whose process has exited can go on until it has
    finished, in at most five steps: a failed clean-up finds room for its error
    in the channel.  So can a
    dump that waits for a goroutine that has finished.  A goroutine that waits for
    a process that has not exited is the only one that stays. *)
Theorem exited_job_finishes s :
  reachable settled s →
  (∀ i w, watchers s !! i = Some w → wExited w = true → wStage w ≠ Finished →
     ∃ s' w', step s s' ∧ watchers s' !! i = Some w' ∧ (rank (wStage w) < rank (wStage w') ≤ 5)%nat) ∧
  (∀ i w e, watchers s !! i = Some w → wStage w = Detached →
     ∃ s', step s s' ∧ chans s' !! i = Some (mkChan (Some (cleanup_error e)) false) ∧ watchers s' !! i = Some (at_stage CleanedUp w)) ∧
  (∀ i w, watchers s !! i = Some w → wExited w = false → wStage w = Selecting ∨ wStage w = WaitCode) ∧
  (∀ j c w, waiters s !! j = Some (WaitOn (Some c)) → watchers s !! c = Some w → wStage w = Finished →
     ∃ s' r, step s s' ∧ waiters s' !! j = Some (Returned (Some c) r)).
Proof.
  intros Hok%ok_reachable. split_and!.
  - intros i w Hw Hex Hn. destruct (working_is_last s i w Hok Hw Hn) as (Hd & ch & Hch & Hp).
    pose proof (lookup_lt_Some _ _ _ Hw) as Hlt.
    assert (∀ st, <[i := at_stage st w]> (watchers s) !! i = Some (at_stage st w)) as Hl by (intros; by apply list_lookup_insert_eq).
    destruct (wStage w) eqn:Hst; [| | | | |done].
    + eexists _, _. split; [by eapply (watcher_code s i w); [|left|]|]. split; [apply Hl|]. simpl. lia.
    + eexists _, _. split; [by eapply (watcher_code s i w); [|right|]|]. split; [apply Hl|]. simpl. lia.
    + eexists _, _. split; [by eapply (watcher_detaches s i w)|]. split; [apply Hl|]. simpl. lia.
    + eexists _, _. split; [by eapply (cleanup_done s i w)|]. split; [apply Hl|]. simpl. lia.
    + assert (closed ch = false) as Hcl.
      { destruct (closed ch) eqn:Hcl; [|done]. apply (pair_closed _ _ _ Hp) in Hcl. congruence. }
      eexists _, _. split; [by eapply (watcher_closes s i w i ch)|]. split; [apply Hl|]. simpl. lia.
  - intros i w e Hw Hst. destruct (working_is_last s i w Hok Hw) as (Hd & ch & Hch & Hp); [by rewrite Hst|].
    eexists. split; [eapply (cleanup_fails s i w i ch e); try done|].
    + apply (pair_empty _ _ _ Hp). rewrite Hst. simpl. lia.
    + destruct (closed ch) eqn:Hcl; [|done]. apply (pair_closed _ _ _ Hp) in Hcl. congruence.
    + simpl. split; apply list_lookup_insert_eq; by eapply lookup_lt_Some.
  - intros i w Hw Hex. destruct (all_ranked s i w Hok Hw) as (ch & _ & Hp). pose proof (pair_exited _ _ _ Hp) as Hr.
    destruct (wStage w); [by left|by right|..]; simpl in Hr; exfalso; (assert (wExited w = true) by (apply Hr; lia)); congruence.
  - intros j c w Hj Hw Hf. destruct (all_ranked s c w Hok Hw) as (ch & Hch & Hp). apply (pair_closed _ _ _ Hp) in Hf.
    pose proof (lookup_lt_Some _ _ _ Hj) as Hlt.
    destruct (buf ch) as [e|] eqn:Hb.
    + eexists _, _. split; [by eapply wait_value|]. by apply list_lookup_insert_eq.
    + eexists _, _. split; [by eapply wait_closed|]. by apply list_lookup_insert_eq.
Qed.

(** A dump that waits for a job without channel never returns. *)
Theorem wait_without_channel guard s s' j :
  rtc (run guard) s s' → waiters s !! j = Some (WaitOn None) → waiters s' !! j = Some (WaitOn None).
Proof.
  intros Hr Hj. revert Hj. induction Hr as [s|s s1 s2 H1 _ IH]; [done|]. intros Hj. apply IH. clear IH.
  destruct H1 as [s1 _ H1|pid _ _ _ _]; [|done]. destruct H1; simpl; try done.
  - by apply lookup_app_l_Some.
  - rewrite list_lookup_insert_ne //. intros <-. congruence.
  - rewrite list_lookup_insert_ne //. intros <-. congruence.
Qed.

(** A job that has been deleted is not killed when the daemon stops. *)
Theorem deleted_job_survives guard s s' :
  rtc (run guard) s s' → in_table s = false → killed s' = killed s ∧ in_table s' = false.
Proof.
  intros Hr. induction Hr as [s|s s1 s2 H1 _ IH]; [done|]. intros Hd.
  assert (killed s1 = killed s ∧ in_table s1 = false) as [Hk Ht]; [|destruct (IH Ht); by rewrite -Hk].
  destruct H1 as [s1 _ H1|pid _ Ht _ _]; [|congruence]. destruct H1; simpl; try done.
  destruct H2 as [->|[? _]]; [by rewrite app_nil_r|congruence].
Qed.

(** A job read from the database that is dumped before it is managed anew: the
    dump does not return, also when the job exits. *)
Corollary unmanaged_dump_never_returns guard pid s :
  rtc (run guard) (add_waiter (Done (loaded pid)) (loaded pid)) s → waiters s !! 0 = Some (WaitOn None).
Proof. intros Hr. by eapply wait_without_channel. Qed.

(** A restore that begins when the process has exited but its goroutine has not
    finished: the goroutine closes the channel of the new process, and the one
    of the new process closes it again, which stops the daemon. *)
Theorem early_restore_panics pid pid' : pid ≠ 0%Z → pid' ≠ 0%Z →
  ∃ s, reachable all_exited s ∧ panicked s = true.
Proof.
  intros Hp Hp'. eexists. split; [exists pid|].
  - eapply rtc_l; [by apply (run_manage _ _ pid); [| | |constructor]|]. cbn.
    eapply rtc_l; [apply run_step; [done|by apply (process_exits _ 0)]|]. cbn.
    eapply rtc_l; [apply run_step; [done|by apply (watcher_code _ 0); [|left|]]|]. cbn.
    eapply rtc_l; [apply (run_manage _ _ pid'); [done..|by repeat constructor]|]. cbn.
    eapply rtc_l; [apply run_step; [done|by apply (watcher_detaches _ 0)]|]. cbn.
    eapply rtc_l; [apply run_step; [done|by apply (cleanup_done _ 0)]|]. cbn.
    eapply rtc_l; [apply run_step; [done|by eapply (watcher_closes _ 0)]|]. cbn.
    eapply rtc_l; [apply run_step; [done|by apply (process_exits _ 1)]|]. cbn.
    eapply rtc_l; [apply run_step; [done|by apply (watcher_code _ 1); [|left|]]|]. cbn.
    eapply rtc_l; [apply run_step; [done|by apply (watcher_detaches _ 1)]|]. cbn.
    eapply rtc_l; [apply run_step; [done|by apply (cleanup_done _ 1)]|]. cbn.
    eapply rtc_l; [apply run_step; [done|by eapply (close_of_closed _ 1)]|]. apply rtc_refl.
  - done.
Qed.
End exit.

(** ** The theorems at work *)

(** A dump waits for a job whose clean-up fails. *)
Lemma observed_run : ∃ s, reachable "process" settled s ∧
  waiters s = [Returned (Some 0) (Some (cleanup_error "process" (Errorf "busy")))].
Proof.
  eexists. split; [exists 7%Z|].
  - eapply rtc_l; [by apply (run_manage _ _ _ 10); [| | |constructor]|]. cbn.
    eapply rtc_l; [apply run_step; [done|apply dump_waits]|]. cbn.
    eapply rtc_l; [apply run_step; [done|by apply (process_exits _ _ 0)]|]. cbn.
    eapply rtc_l; [apply run_step; [done|by apply (watcher_code _ _ 0); [|left|]]|]. cbn.
    eapply rtc_l; [apply run_step; [done|by apply (watcher_detaches _ _ 0)]|]. cbn.
    eapply rtc_l; [apply run_step; [done|by eapply (cleanup_fails _ _ 0)]|]. cbn.
    eapply rtc_l; [apply run_step; [done|by eapply (wait_value _ _ 0)]|]. apply rtc_refl.
  - reflexivity.
Qed.


Lemma exited_job_finishes_witness :
  ∃ s, reachable "process" settled s ∧ ∀ i w, watchers s !! i = Some w → wExited w = true → wStage w ≠ Finished →
    ∃ s' w', step "process" s s' ∧ watchers s' !! i = Some w' ∧ (rank (wStage w) < rank (wStage w') ≤ 5)%nat.
Proof. destruct observed_run as (s & Hr & _). exists s. split; [exact Hr|]. apply (exited_job_finishes "process" s Hr). Defined.

Lemma early_restore_panics_witness : ∃ s, reachable "process" all_exited s ∧ panicked s = true.
Proof. apply (early_restore_panics "process" 10 11); done. Defined.

Lemma unmanaged_dump_never_returns_witness :
  waiters (add_waiter (Done (loaded 7)) (loaded 7)) !! 0 = Some (WaitOn None).
Proof. apply (unmanaged_dump_never_returns "process" (λ _, True) 7). apply rtc_refl. Defined.
End ExitWatcher.
