(* ===== verification/Endpoints.v ===== *)
(** * Job endpoints of the daemon (internal/cedana/job.go)

    Getting, listing, killing and deleting jobs and checkpoints: what the
    daemon does with the lazy manager of JobManager, each call of a method
    running alone.  Whether a process has streams to attach to, the signals of
    plugins and the outcome of kill(2) are arguments. *)

From S2P Require Import Prelude GoLib Job Db JobManager.

Module Endpoints.
Import GoLib Job JobManager.JobManager.

Definition LOG_ATTACHABLE : string := "[Attachable]".

Section endpoints.
Context {S : Type} `{Db.DB S, MapRange} (env : JobEnv) (IsAttached : Z → bool).
Implicit Types m : Manager S.

(** The jobs that [List] returns. *)
Definition listed (jids : list string) (m : Manager S) : list (string * nat) :=
  filter (λ kv, jids = [] ∨ kv.1 ∈ jids) (Range (jobs m)).

Section answers.
(** a process whose streams can be attached to, the host of the daemon *)
Context (has_slave : Z → bool) (hostID : string).

Definition with_Log (log : string) (j : DJob) : DJob := mkDJob (JID j) (Type_ j) log (JDetails j) (State j).

(** The copy that is answered. *)
Definition answer (j : DJob) : DJob :=
  if IsRunning j && has_slave (GetPID j) then with_Log LOG_ATTACHABLE j else j.

Definition Server_Get (jid : string) (m : Manager S) : gores DJob * Manager S * list action :=
  match lookup_job m jid with
  | None => (Err (Prelude.Status NotFound ("job " +:+ jid +:+ " not found")), m, [])
  | Some (l, _) =>
      let '(_, m', sent) := exec (Get env IsAttached jid) m in
      (match heap m' !! l with Some j => Ok (answer j) | None => Err (Errorf "") end, m', sent)
  end.

(** The jobs that [ListByHostIDs] returns. *)
Definition listed_hosts (hostIDs : list string) (m : Manager S) : list (string * nat) :=
  filter (λ kv, hostIDs = [] ∨
    match heap m !! kv.2 with Some j => GetHostID (GetState j) | None => "" end ∈ hostIDs) (Range (jobs m)).

Definition Server_List (remote : bool) (JIDs : list string) (m : Manager S) : list DJob * Manager S * list action :=
  let l := if remote then listed JIDs m else listed_hosts [hostID] m in
  let '(_, m', sent) := exec (if remote then List env IsAttached JIDs else ListByHostIDs env IsAttached [hostID]) m in
  (omap (λ kv, answer <$> heap m' !! kv.2) l, m', sent).

End answers.

Fixpoint delete_jobs (l : list (string * nat)) (m : Manager S) : list string * Manager S * list action :=
  match l with
  | [] => ([], m, [])
  | (jid, a) :: l =>
      match heap m !! a with
      | Some j =>
          if IsRunning j then
            let '(ms, m', sent) := delete_jobs l m in
            (("Job " +:+ JID j +:+ " is running, please kill it first") :: ms, m', sent)
          else if IsRemote j then
            let '(ms, m', sent) := delete_jobs l m in (("Cannot delete remote job " +:+ JID j) :: ms, m', sent)
          else
            let '(_, m1, sent1) := exec (Delete (JID j)) m in
            let '(ms, m', sent) := delete_jobs l m1 in
            (("Deleted job " +:+ JID j) :: ms, m', sent1 ++ sent)
      | None => delete_jobs l m
      end
  end.

Definition Server_Delete (JIDs : list string) (m : Manager S) : gores (list string) * Manager S * list action :=
  let '(_, m1, sent1) := exec (List env IsAttached JIDs) m in
  match listed JIDs m with
  | [] => (Err (Prelude.Status NotFound "no jobs found"), m1, sent1)
  | l => let '(ms, m', sent) := delete_jobs l m1 in (Ok ms, m', sent1 ++ sent)
  end.

Definition Server_GetCheckpoint (ID JID : option string) (m : Manager S) : gores (option Checkpoint) :=
  match ID, JID with
  | Some id, _ =>
      match GetCheckpoint m id with
      | None => Err (Prelude.Status NotFound "checkpoint not found")
      | Some c => Ok (Some c)
      end
  | None, Some jid => Ok (GetLatestCheckpoint m jid)
  | None, None => Err (Prelude.Status InvalidArgument "either ID or JID must be provided")
  end.

Definition Server_ListCheckpoints (JID : string) (m : Manager S) : list Checkpoint := ListCheckpoints m JID.

Definition Server_DeleteCheckpoint (ID : string) (m : Manager S) : option error * Manager S * list action :=
  if decide (ID = "") then (Some (Prelude.Status InvalidArgument "ID must be provided"), m, [])
  else match GetCheckpoint m ID with
       | None => (Some (Prelude.Status NotFound "checkpoint not found"), m, [])
       | Some _ => let '(_, m', sent) := exec (DeleteCheckpoint ID) m in (None, m', sent)
       end.

(** ** Listing changes no job but what it refreshes *)

(** The jobs are in the heap under their own names. *)
Definition named m : Prop := ∀ jid a, jobs m !! jid = Some a → ∃ j, heap m !! a = Some j ∧ JID j = jid.

Record refreshed (m m' : Manager S) : Prop := {
  ref_jobs : jobs m' = jobs m;
  ref_checkpoints : checkpoints m' = checkpoints m;
  ref_deleted : deletedJobs m' = deletedJobs m ∧ deletedCheckpoints m' = deletedCheckpoints m;
  ref_db : db m' = db m;
  ref_names a : JID <$> heap m' !! a = JID <$> heap m !! a;
}.

#[local] Instance refreshed_preorder : PreOrder refreshed.
Proof.
  split; [by split|]. intros x y z [H1 H2 [H3 H3'] H4 H5] [G1 G2 [G3 G3'] G4 G5].
  split; [congruence|congruence|split; congruence|congruence|]. intros a. by rewrite G5.
Qed.

Lemma refreshed_update a f m : (∀ j, JID (f j) = JID j) → refreshed m (update_job a f m).
Proof.
  intros Hf. split; simpl; try done. intros b. rewrite lookup_alter. case_decide as Hb; [|done]. subst.
  destruct (heap m !! b); simpl; [|done]. by rewrite Hf.
Qed.

Lemma sync_job_JID deep j : JID (sync_job env deep j) = JID j.
Proof. done. Qed.

Lemma exec_refresh deep jid a k m :
  ∃ m1 sent1, refreshed m m1 ∧ ∀ r m' sent, exec k m1 = (r, m', sent) →
    exec (refresh env IsAttached deep jid a k) m = (r, m', sent1 ++ sent).
Proof.
  unfold refresh. cbn [Do Read exec].
  set (m1 := update_job a (sync_job env deep) m).
  assert (Hm1 : refreshed m m1) by (apply refreshed_update; intros; apply sync_job_JID).
  destruct (heap m1 !! a) as [j|] eqn:Hj; [|by exists m1, []].
  destruct (negb (GPUEnabled j) && IsAttached (GetPID j)); [|by exists m1, []].
  exists (update_job a (SetGPUEnabled true) m1), [putJob jid]. split.
  - transitivity m1; [done|]. by apply refreshed_update.
  - intros r m' sent Hk. cbn [Do exec]. by rewrite Hk.
Qed.

Lemma exec_refresh_all l m : ∃ m' sent, exec (refresh_all env IsAttached l) m = (Some None, m', sent) ∧ refreshed m m'.
Proof.
  revert m. induction l as [|[jid a] l IH]; intros m; simpl; [by exists m, []|].
  destruct (exec_refresh false jid a (refresh_all env IsAttached l) m) as (m1 & sent1 & Hr & Hk).
  destruct (IH m1) as (m' & sent & He & Hr'). exists m', (sent1 ++ sent). split; [by apply Hk|].
  by transitivity m1.
Qed.

Lemma exec_List JIDs m : ∃ m' sent, exec (List env IsAttached JIDs) m = (Some None, m', sent) ∧ refreshed m m'.
Proof. unfold List. cbn [Read exec]. apply exec_refresh_all. Qed.

Lemma refreshed_named m m' : refreshed m m' → named m → named m'.
Proof.
  intros [Hj _ _ _ Hn] Hm jid a Ha. rewrite Hj in Ha. destruct (Hm _ _ Ha) as (j & Hh & <-).
  specialize (Hn a). rewrite Hh in Hn. destruct (heap m' !! a) as [j'|]; [|done]. simpl in Hn. exists j'. naive_solver.
Qed.

(** ** Deleting *)

Definition deletable (j : DJob) : bool := negb (IsRunning j) && negb (IsRemote j).

(** The jobs of a list that are going to be deleted. *)
Definition doomed (l : list (string * nat)) m : list string :=
  omap (λ kv, j ← heap m !! kv.2; if deletable j then Some kv.1 else None) l.

Lemma exec_delete_all_heap l m : heap (exec (delete_all l) m).1.2 = heap m.
Proof.
  revert m. induction l as [|c l IH]; intros m; [done|]. simpl. destruct (checkpoints m !! CID c); simpl; [|apply IH].
  match goal with |- context [exec (delete_all l) ?x] => specialize (IH x); destruct (exec (delete_all l) x) as [[? ?] ?] end.
  done.
Qed.

Lemma exec_Delete m jid a :
  keyed m → jobs m !! jid = Some a →
  ∃ m' sent, exec (Delete jid) m = (Some None, m', sent) ∧ jobs m' = delete jid (jobs m) ∧ heap m' = heap m ∧
    ∀ id, checkpoints m' !! id = (c ← checkpoints m !! id; if decide (CJID c = jid) then None else Some c).
Proof.
  intros Hk Ha. set (L := ListCheckpoints m jid).
  set (m0 := set_deletedJobs ({[jid]} ∪ deletedJobs m) (set_jobs (delete jid (jobs m)) m)).
  destruct (exec_delete_all L m0) as (m' & Hall & E1 & _ & _ & E4 & _ & _); [by apply NoDup_ListCheckpoints|..].
  { apply list.Forall_forall. intros c [_ [id Hc]]%elem_of_ListCheckpoints. simpl. by rewrite (Hk _ _ Hc) Hc. }
  exists m', (putJob jid :: (putCheckpoint ∘ CID <$> L)). split_and!; [|done| |].
  - cbn [Delete Read exec]. rewrite Ha. cbn [Do Read exec].
    change (ListCheckpoints _ jid) with (ListCheckpoints m jid). fold L.
    match goal with |- context [exec (delete_all L) ?x] => change x with m0 end. by rewrite Hall.
  - pose proof (exec_delete_all_heap L m0) as Hh. by rewrite Hall in Hh.
  - intros id. rewrite E4. change (checkpoints m0) with (checkpoints m).
    destruct (checkpoints m !! id) as [c|] eqn:Hc; simpl; [|by case_decide].
    assert (id ∈ CID <$> L ↔ CJID c = jid) as Hiff.
    { rewrite list_elem_of_fmap. split.
      - intros (c' & -> & [<- [id' Hc']]%elem_of_ListCheckpoints). pose proof (Hk _ _ Hc') as Hid. simpl in Hid.
        subst id'. by simplify_eq.
      - intros <-. exists c. split; [by rewrite (Hk _ _ Hc)|]. apply elem_of_ListCheckpoints. eauto. }
    repeat case_decide; tauto.
Qed.

Lemma keyed_subset m m' P `{!∀ c, Decision (P c)} :
  keyed m → (∀ id, checkpoints m' !! id = (c ← checkpoints m !! id; if decide (P c) then None else Some c)) → keyed m'.
Proof.
  intros Hk Hc id c Hid. rewrite Hc in Hid. destruct (checkpoints m !! id) as [c'|] eqn:He; [|done]. simpl in Hid.
  case_decide; simplify_eq. by apply (Hk _ _ He).
Qed.

Lemma doomed_names l m jid : jid ∈ doomed l m → jid ∈ l.*1.
Proof.
  unfold doomed. rewrite list_elem_of_omap. intros ([k a] & Hin & Hk). simpl in Hk.
  destruct (heap m !! a) as [j|]; [|done]. simpl in Hk. destruct (deletable j); [|done]. simplify_eq.
  apply list_elem_of_fmap. by exists (jid, a).
Qed.

Lemma delete_jobs_spec l m :
  keyed m → NoDup l.*1 →
  (∀ jid a, (jid, a) ∈ l → jobs m !! jid = Some a ∧ ∃ j, heap m !! a = Some j ∧ JID j = jid) →
  ∃ ms m' sent, delete_jobs l m = (ms, m', sent) ∧ length ms = length l ∧
    (∀ jid, jobs m' !! jid = if decide (jid ∈ doomed l m) then None else jobs m !! jid) ∧
    (∀ id, checkpoints m' !! id = (c ← checkpoints m !! id; if decide (CJID c ∈ doomed l m) then None else Some c)).
Proof.
  revert m. induction l as [|[jid a] l IH]; intros m Hk Hnd Hl.
  { exists [], m, []. split_and!; try done. intros id. by destruct (checkpoints m !! id). }
  simpl in Hnd. apply list.NoDup_cons in Hnd as [Hjid Hnd].
  destruct (Hl jid a) as (Ha & j & Hj & Hname); [by left|].
  assert (Hrest : ∀ k b, (k, b) ∈ l → jobs m !! k = Some b ∧ ∃ j, heap m !! b = Some j ∧ JID j = k)
    by (intros; apply Hl; by right).
  assert (Hskip : deletable j = false → doomed ((jid, a) :: l) m = doomed l m)
    by (intros Hd; unfold doomed; simpl; by rewrite Hj /= Hd).
  cbn [delete_jobs]. rewrite Hj. unfold deletable in Hskip.
  destruct (IsRunning j) eqn:Hrun; [|destruct (IsRemote j) eqn:Hrem].
  1,2: destruct (IH m Hk Hnd Hrest) as (ms & m' & sent & -> & Hlen & Hjs & Hcs); rewrite Hskip //;
    eexists _, _, _; split_and!; [done|by rewrite /= Hlen|done|done].
  destruct (exec_Delete m jid a Hk Ha) as (m1 & sent1 & Hex & Hj1 & Hh1 & Hc1). rewrite Hname Hex.
  assert (Hsame : doomed l m1 = doomed l m) by (unfold doomed; by rewrite Hh1).
  assert (Hd : doomed ((jid, a) :: l) m = jid :: doomed l m).
  { unfold doomed. simpl. rewrite Hj /=. unfold deletable. by rewrite Hrun Hrem. }
  destruct (IH m1) as (ms & m' & sent & -> & Hlen & Hjs & Hcs).
  { by apply (keyed_subset m m1 (λ c, CJID c = jid)). }
  { done. }
  { intros k b Hin. rewrite Hj1 Hh1. destruct (Hrest k b Hin) as [Hk' Hex']. split; [|done].
    rewrite lookup_delete_ne //. intros ->. apply Hjid, list_elem_of_fmap. by exists (k, b). }
  eexists _, _, _. split_and!; [done|by rewrite /= Hlen| |].
  - intros k. rewrite Hjs Hsame Hd Hj1 lookup_delete. repeat case_decide; set_solver.
  - intros id. rewrite Hcs Hsame Hd Hc1. destruct (checkpoints m !! id) as [c|]; simpl; [|done].
    repeat case_decide; simpl; try case_decide; set_solver.
Qed.

(** C21: The delete endpoint answers with one message per job that matches (all
    jobs, when none is named), or that there is none.  It deletes exactly the
    matching jobs that, once refreshed, neither run nor belong to another
    machine, together with all their checkpoints; every other job and every
    other checkpoint stays. *)
Theorem Server_Delete_outcome JIDs m :
  keyed m → named m →
  let m1 := (exec (List env IsAttached JIDs) m).1.2 in
  ∃ r m' sent, Server_Delete JIDs m = (r, m', sent) ∧ refreshed m m1 ∧
    match r with Ok ms => length ms = length (listed JIDs m) | Err _ => listed JIDs m = [] ∧ m' = m1 end ∧
    (∀ jid, jobs m' !! jid = if decide (jid ∈ doomed (listed JIDs m) m1) then None else jobs m !! jid) ∧
    (∀ id, checkpoints m' !! id =
       (c ← checkpoints m !! id; if decide (CJID c ∈ doomed (listed JIDs m) m1) then None else Some c)).
Proof.
  intros Hk Hn. destruct (exec_List JIDs m) as (m1 & sent1 & He & Hr). unfold Server_Delete. rewrite He. cbn [fst snd].
  pose proof (refreshed_named _ _ Hr Hn) as Hn1. pose proof Hr as [Hj Hc _ _ _].
  assert (Hk1 : keyed m1) by (unfold keyed in *; by rewrite Hc).
  assert (Hnd : NoDup (listed JIDs m).*1).
  { unfold listed. eapply sublist_NoDup; [apply (NoDup_Range_fst (jobs m))|]. apply fmap_sublist, sublist_filter. }
  assert (Hin : ∀ jid a, (jid, a) ∈ listed JIDs m → jobs m1 !! jid = Some a ∧ ∃ j, heap m1 !! a = Some j ∧ JID j = jid).
  { intros jid a [_ Ha%elem_of_Range]%list_elem_of_filter. rewrite -Hj in Ha. split; [done|]. by apply Hn1. }
  destruct (delete_jobs_spec (listed JIDs m) m1 Hk1 Hnd Hin) as (ms & m' & sent & Hd & Hlen & Hjs & Hcs).
  destruct (listed JIDs m) as [|x l] eqn:Hl.
  - simpl in Hd. simplify_eq. eexists _, m', _.
    split_and!; [done|done|by split|intros jid; by rewrite Hjs Hj|intros id; by rewrite Hcs Hc].
  - rewrite Hd. eexists _, m', _.
    split_and!; [done|done|done|intros jid; by rewrite Hjs Hj|intros id; by rewrite Hcs Hc].
Qed.

(** ** Killing *)

Lemma exec_Get jid m : ∃ m' sent, exec (Get env IsAttached jid) m = (Some None, m', sent) ∧ refreshed m m'.
Proof.
  unfold Get. cbn [Read exec]. destruct (lookup_job m jid) as [[a j]|]; [|by exists m, []].
  destruct (exec_refresh true jid a (Return None) m) as (m1 & sent1 & Hr & Hk).
  exists m1, (sent1 ++ []). split; [by apply Hk|done].
Qed.

Section killing.
(** [ManagerLazy.Kill], with the signal it sends. *)
Context (SIGKILL : Z) (plugin_signal : string → option Z) (kill : Z * Z → option error).

Definition Manager_Kill (jid : string) (m : Manager S)
    : option error * list (Z * Z) * Manager S * list action :=
  match lookup_job m jid with
  | None => (Some (Errorf ("job " +:+ jid +:+ " does not exist")), [], m, [])
  | Some (l, _) =>
      let '(_, m', sent) := exec (Get env IsAttached jid) m in
      match heap m' !! l with
      | None => (Some (Errorf ""), [], m', sent)
      | Some j =>
          match Kill_signal env SIGKILL (plugin_signal (Type_ j)) None j with
          | Err e => (Some e, [], m', sent)
          | Ok s => (kill s, [s], m', sent)
          end
      end
  end.

Fixpoint kill_jobs (l : list (string * nat)) (m : Manager S)
    : list string * list (Z * Z) * Manager S * list action :=
  match l with
  | [] => ([], [], m, [])
  | (jid, a) :: l =>
      match heap m !! a with
      | Some j =>
          if IsRunning j then
            if IsRemote j then
              let '(ms, ss, m', sent) := kill_jobs l m in
              (("Cannot kill remote job " +:+ JID j) :: ms, ss, m', sent)
            else
              let '(err, s1, m1, sent1) := Manager_Kill (JID j) m in
              let '(ms, ss, m', sent) := kill_jobs l m1 in
              (match err with
               | Some e => "Failed to kill job " +:+ JID j +:+ ": " +:+ Error e
               | None => "Killed job " +:+ JID j
               end :: ms, s1 ++ ss, m', sent1 ++ sent)
          else kill_jobs l m
      | None => kill_jobs l m
      end
  end.

Definition Server_Kill (JIDs : list string) (m : Manager S)
    : gores (list string) * list (Z * Z) * Manager S * list action :=
  let '(_, m1, sent1) := exec (List env IsAttached JIDs) m in
  match listed JIDs m with
  | [] => (Err (Prelude.Status NotFound "no jobs found"), [], m1, sent1)
  | l => let '(ms, ss, m', sent) := kill_jobs l m1 in (Ok ms, ss, m', sent1 ++ sent)
  end.

Lemma kill_jobs_refreshed l m : refreshed m (kill_jobs l m).1.2.
Proof.
  revert m. induction l as [|[jid a] l IH]; intros m; [done|]. cbn [kill_jobs].
  destruct (heap m !! a) as [j|]; [|apply IH]. destruct (IsRunning j); [|apply IH]. destruct (IsRemote j).
  { specialize (IH m). by destruct (kill_jobs l m) as [[[? ?] ?] ?]. }
  assert (Hm : refreshed m (Manager_Kill (JID j) m).1.2).
  { unfold Manager_Kill. destruct (lookup_job m (JID j)) as [[b j']|]; [|done].
    destruct (exec_Get (JID j) m) as (m' & sent & -> & Hr). destruct (heap m' !! b) as [j''|]; [|done].
    by destruct (Kill_signal _ _ _ _ j''). }
  destruct (Manager_Kill (JID j) m) as [[[err s1] m1] sent1]. specialize (IH m1).
  destruct (kill_jobs l m1) as [[[ms ss] m'] sent]. simpl in *. by transitivity m1.
Qed.

(** Killing forgets no job and no checkpoint. *)
Theorem Server_Kill_keeps_jobs JIDs m : refreshed m (Server_Kill JIDs m).1.2.
Proof.
  unfold Server_Kill. destruct (exec_List JIDs m) as (m1 & sent1 & -> & Hr).
  destruct (listed JIDs m) as [|x l]; [done|]. pose proof (kill_jobs_refreshed (x :: l) m1) as Hk.
  destruct (kill_jobs (x :: l) m1) as [[[ms ss] m'] sent]. simpl in *. by transitivity m1.
Qed.
End killing.
End endpoints.

(** ** Sample: a job that has ended, with a checkpoint, and the checkpoint of another job *)

Definition sample : Manager unit :=
  mkManager {["j" := 0]} {[0 := mkDJob "j" "process" "" None None]}
    {["c1" := mkCheckpoint "c1" "j" "/a" 1 1; "c2" := mkCheckpoint "c2" "k" "/b" 1 1]} ∅ ∅ ().

Lemma Server_Delete_outcome_witness :
  ∃ r m' sent, Server_Delete sample_env (λ _, false) ["j"] sample = (r, m', sent) ∧
    jobs m' !! "j" = None ∧ checkpoints m' !! "c1" = None ∧ is_Some (checkpoints m' !! "c2").
Proof.
  destruct (Server_Delete_outcome sample_env (λ _, false) ["j"] sample)
    as (r & m' & sent & Hd & _ & _ & Hj & Hc).
  - by_decide.
  - intros jid a Ha. change (jobs sample) with ({["j" := 0]} : gmap string nat) in Ha.
    apply lookup_singleton_Some in Ha as [<- <-]. by eexists.
  - exists r, m', sent. rewrite Hj !Hc. split_and!; [done|by vm_compute|by vm_compute|by eexists; vm_compute].
Defined.
End Endpoints.
