(* ===== verification/Streamer.v ===== *)
(** * The image streamer (internal/cedana/streamer)

    [fs.go]: the shards a dump is streamed into, the goroutines that move them
    between the pipes of the streamer process and the storage, and the request
    protocol on its socket.  [file.go]: files and listings of the streaming
    file system.  The streamer process, the pipes and the socket are outside
    the repository: what they answer is an argument. *)

From Stdlib Require Import Ascii.
From S2P Require Import Prelude GoLib Compression Files.
Import GoLib Compression.

Module Streamer.

Inductive Mode := READ_ONLY | WRITE_ONLY.

#[global] Instance Mode_eq_dec : EqDecision Mode.
Proof. solve_decision. Defined.

(** ** The shards *)

Definition IMG_FILE (i : Z) : string := "img-" +:+ itoaZ i.

(** The pattern is "img" at the start of the name, then any number of dashes. *)
Definition is_img (entry : string) : bool := HasPrefix entry "img".

(** [imgPaths]; [entries] is what [storage.ReadDir] returns. *)
Definition imgPaths (entries : gores (list string)) (dir : string) (mode : Mode) (streams : Z)
    : gores (list string) :=
  match mode with
  | READ_ONLY =>
      match entries with
      | Err e => Err e
      | Ok entries =>
          let matches := (λ entry, dir +:+ "/" +:+ entry) <$>
                         filter (λ e, is_img e = true) (Base <$> entries) in
          if decide (Z.of_nat (length matches) ≠ streams) then
            Err (Errorf ("expected " +:+ itoaZ streams +:+ " images, got " +:+
              itoaZ (Z.of_nat (length matches)) +:+ ". please specify correct number of streams"))
          else Ok matches
      end
  | WRITE_ONLY => Ok ((λ i, dir +:+ "/" +:+ IMG_FILE i) <$> seqZ 0 streams)
  end.

(** [IsStreamable]; [storage] is what [IsDir] and [ReadDir] of the storage
    return, or [None] for a nil storage. *)
Definition IsStreamable (storage : option (gores bool * gores (list string))) : gores Z :=
  match storage with
  | None => Err (Errorf "storage is nil")
  | Some (isDir, entries) =>
      match isDir with
      | Err e => Err (Errorf ("failed to check if path is a directory: " +:+ Error e))
      | Ok false => Ok 0%Z
      | Ok true =>
          match entries with
          | Err e => Err (Errorf ("failed to read dir: " +:+ Error e))
          | Ok entries =>
              Ok (int32 (Z.of_nat (length (filter (λ e, is_img e = true) (Base <$> entries)))))
          end
      end
  end.

(** ** Moving the shards

    One goroutine per shard moves its bytes, sends the error of doing so, if
    any, and then the result of closing the file, to a channel whose capacity
    is the number of shards; only then is it done.  [wait] first waits for all
    of them and then receives. *)

(** How the transfer of a shard ends, and the closing of its file. *)
Record ShardIO := mkShardIO { copyErr : option error; closeErr : option error }.

(** What the goroutine of a shard has to send. *)
Definition shard_sends (s : ShardIO) : list (option error) :=
  match copyErr s with None => [closeErr s] | Some e => [Some e; closeErr s] end.

(** The channel and, per goroutine, what it still has to send. *)
Record Transfer := mkTransfer {
  capacity : nat;
  ioErr : list (option error);
  shards : list (list (option error));
}.

Definition start_io (l : list ShardIO) : Transfer := mkTransfer (length l) [] (shard_sends <$> l).

Inductive io_step : Transfer → Transfer → Prop :=
| io_send cap buf ts1 ts2 e rest :
    length buf < cap →
    io_step (mkTransfer cap buf (ts1 ++ (e :: rest) :: ts2))
            (mkTransfer cap (buf ++ [e]) (ts1 ++ rest :: ts2)).

(** [io.Wait()] returns: every goroutine is done. *)
Definition io_done (t : Transfer) : Prop := Forall (λ s, s = []) (shards t).

#[global] Instance io_done_dec t : Decision (io_done t).
Proof. rewrite /io_done. apply _. Defined.

(** What [wait] returns once [io.Wait] has: [errors.Join] of the channel. *)
Definition wait_result (t : Transfer) : option error :=
  foldl (λ err e, errors_Join [err; e]) None (ioErr t).

(** ** The request protocol *)

(** [binary.LittleEndian] on four bytes. *)
Definition PutUint32 (z : Z) : list Z :=
  [z `mod` 256; (z `div` 2 ^ 8) `mod` 256; (z `div` 2 ^ 16) `mod` 256; (z `div` 2 ^ 24) `mod` 256]%Z.

Definition Uint32 (b : list Z) : Z :=
  match b with
  | [b0; b1; b2; b3] => (b0 + b1 * 2 ^ 8 + b2 * 2 ^ 16 + b3 * 2 ^ 24)%Z
  | _ => 0%Z
  end.

Inductive FileStatus := DOES_NOT_EXIST | NOT_READY | READY | OTHER_STATUS.

Record ReplyEntry := mkReply { Status_ : option FileStatus; Exists_ : bool }.

(** One reply on the socket: the bytes the first [Read] puts into the buffer
    of the size, how many bytes the second reads, and what they decode to. *)
Record ReplyIO := mkReplyIO {
  size_read : gores (list Z);
  data_read : gores Z;
  reply_entry : gores ReplyEntry;
}.

Definition does_not_exist (name : string) : error := Errorf ("file does not exist: " +:+ name).

(** [waitForStreamerReady]; it blocks when no more replies come. *)
Fixpoint waitForStreamerReady (name : string) (replies : list ReplyIO) : option (option error) :=
  match replies with
  | [] => None
  | r :: replies' =>
      match size_read r with
      | Err e => Some (Some (Errorf ("failed to read size from file response: " +:+ Error e)))
      | Ok b =>
          let size := Uint32 (take 4 (b ++ [0; 0; 0; 0])%Z) in
          match data_read r with
          | Err e => Some (Some (Errorf ("failed to read data from file response: " +:+ Error e)))
          | Ok n =>
              if decide (n ≠ size) then
                Some (Some (Errorf ("failed to read data from file response: expected " +:+ itoaZ size
                  +:+ " bytes, got " +:+ itoaZ n)))
              else
                match reply_entry r with
                | Err e => Some (Some (Errorf ("failed to unmarshal response: " +:+ Error e)))
                | Ok resp =>
                    match Status_ resp with
                    | None => if negb (Exists_ resp) then Some (Some (does_not_exist name))
                              else waitForStreamerReady name replies'
                    | Some DOES_NOT_EXIST => Some (Some (does_not_exist name))
                    | Some NOT_READY => waitForStreamerReady name replies'
                    | Some READY => Some None
                    | Some OTHER_STATUS =>
                        Some (Some (Errorf "recieved invalid file status from streamer"))
                    end
                end
          end
      end
  end.

(** What the system calls of one [openFd] return. *)
Record OpenIO := mkOpenIO {
  pipe : gores (Z * Z);
  marshal : option error;
  write_size : option error;
  write_data : option error;
  replies : list ReplyIO;
  conn_File : gores Z;
  sendmsg : option error;
}.

(** [openFd]: the descriptor and the descriptors open afterwards.  The
    streamer's end is closed in any case, ours when there is an error. *)
Definition openFd (mode : Mode) (name : string) (x : OpenIO) (fds : gset Z)
    : option (gores Z * gset Z) :=
  match pipe x with
  | Err e => Some (Err e, fds)
  | Ok (rFd, wFd) =>
      let fds := {[rFd; wFd]} ∪ fds in
      let streamerFd := if decide (mode = READ_ONLY) then wFd else rFd in
      let ourFd := if decide (mode = READ_ONLY) then rFd else wFd in
      let fail e := Some (Err e, fds ∖ {[ourFd; streamerFd]}) in
      match marshal x with
      | Some e => fail (Errorf ("failed to marshal request: " +:+ Error e))
      | None =>
      match write_size x with
      | Some e => fail (Errorf ("failed to write size to file request: " +:+ Error e))
      | None =>
      match write_data x with
      | Some e => fail (Errorf ("failed to write data to file request: " +:+ Error e))
      | None =>
          ready ← (if decide (mode = READ_ONLY) then waitForStreamerReady name (replies x)
                   else Some None);
          match ready with
          | Some e => fail e
          | None =>
          match conn_File x with
          | Err e => fail (Errorf ("failed to get file from connection: " +:+ Error e))
          | Ok sock =>
              (* the duplicate of the socket is open during the call only *)
              match sendmsg x with
              | Some e => fail (Errorf ("failed to send streamer fd: " +:+ Error e))
              | None => Some (Ok ourFd, fds ∖ {[streamerFd]})
              end
          end
          end
      end
      end
      end
  end.

(** ** Files *)

(** [File.Read], given what the system call read; [None] is [io.EOF]. *)
Definition File_Read (mode : Mode) (n : gores string) : gores (option string) :=
  if decide (mode ≠ READ_ONLY) then Err (Errorf "file is not open for reading")
  else match n with
       | Err e => Err e
       | Ok data => Ok (if decide (data = "") then None else Some data)
       end.

(** [File.Write] of [len] bytes, given what each system call wrote; it blocks
    when the system calls listed do not get it done. *)
Fixpoint write_loop (len total : Z) (writes : list (gores Z)) : option (Z * option error) :=
  if decide (total < len)%Z then
    match writes with
    | [] => None
    | Err e :: _ => Some (total, Some e)
    | Ok n :: writes' => write_loop len (total + n) writes'
    end
  else Some (total, None).

Definition File_Write (mode : Mode) (len : Z) (writes : list (gores Z)) : option (Z * option error) :=
  if decide (mode ≠ WRITE_ONLY) then Some (0%Z, Some (Errorf "file is not open for writing"))
  else write_loop len 0 writes.

(** [File.Close]: the pipe of the file, and the outcome of the system call. *)
Definition File_Close (fd : Z) (r : option error) : option error * Z :=
  if decide (fd < 0)%Z then (None, fd)
  else match r with None => (None, -1)%Z | Some e => (Some e, fd) end.

(** [Fs.glob] with its cache; [ask] is the exchange with the streamer. *)
Definition glob (mode : Mode) (pattern : string) (ask : gores (list string))
    (cache : gmap string (list string)) : gores (list string) * gmap string (list string) :=
  if decide (mode ≠ READ_ONLY) then
    (Err (Errorf "glob failed: streaming filesystem not open for reading"), cache)
  else match cache !! pattern with
       | Some cached => (Ok cached, cache)
       | None => match ask with
                 | Err e => (Err e, cache)
                 | Ok names => (Ok names, <[pattern := names]> cache)
                 end
       end.

Record Dir := mkDir { dirNames : list string; dirOffset : nat }.

Definition EOF : error := Errorf "EOF".

(** [File.Readdirnames] of a directory opened on the file system; [ask] is what
    the streamer would answer.  The names of a directory that were not read
    yet are a nil slice, as are those of an empty one. *)
Definition Readdirnames (mode : Mode) (name : string) (n : Z) (ask : gores (list string))
    (cache : gmap string (list string)) (f : Dir)
    : gores (list string) * gmap string (list string) * Dir :=
  if decide (mode ≠ READ_ONLY) then (Err (Errorf "readdirnames: not open for reading"), cache, f)
  else if decide (name ≠ "." ∧ name ≠ "/" ∧ name ≠ "") then
    (Err (Errorf "readdirnames: only root directory supported"), cache, f)
  else
    let '(r, cache, f) :=
      if decide (dirNames f = []) then
        let '(names, cache) := glob mode "*" ask cache in
        match names with
        | Err e => (Some (Errorf ("readdirnames: failed to list files: " +:+ Error e)), cache, f)
        | Ok names => (None, cache, mkDir names 0)
        end
      else (None, cache, f) in
    match r with
    | Some e => (Err e, cache, f)
    | None =>
        let all := length (dirNames f) in
        if decide (n <= 0)%Z then
          let names := drop (dirOffset f) (dirNames f) in
          (if decide (names = []) then Err EOF else Ok names, cache, mkDir (dirNames f) all)
        else if decide (all ≤ dirOffset f) then (Err EOF, cache, f)
        else
          let last := Nat.min (dirOffset f + Z.to_nat n) all in
          (Ok (take (last - dirOffset f) (drop (dirOffset f) (dirNames f))), cache, mkDir (dirNames f) last)
    end.

Definition unsent (t : Transfer) : nat := length (concat (shards t)).

Lemma io_step_sums t t' :
  io_step t t' →
  capacity t' = capacity t ∧ length (ioErr t') = S (length (ioErr t)) ∧
  unsent t = S (unsent t') ∧ length (ioErr t') ≤ capacity t'.
Proof.
  intros [cap buf ts1 ts2 e rest Hlt]. rewrite /unsent /= !concat_app /= !length_app /= !length_app. lia.
Qed.

Lemma io_steps_sums t t' :
  rtc io_step t t' → length (ioErr t) ≤ capacity t →
  capacity t' = capacity t ∧ length (ioErr t') + unsent t' = length (ioErr t) + unsent t ∧
  length (ioErr t') ≤ capacity t'.
Proof.
  induction 1 as [|t1 t2 t3 Hs Hrest IH]; intros Hle; [done|].
  destruct (io_step_sums _ _ Hs) as (? & ? & ? & ?). destruct IH as (? & ? & ?); lia.
Qed.

Lemma io_done_unsent t : io_done t ↔ unsent t = 0.
Proof.
  rewrite /io_done /unsent. induction (shards t) as [|s l IH]; simpl; [by split|].
  rewrite list.Forall_cons length_app IH. destruct s; simpl; [naive_solver|]. split; [by intros []|lia].
Qed.

Lemma io_can_step t : ¬ io_done t → length (ioErr t) < capacity t → ∃ t', io_step t t'.
Proof.
  destruct t as [cap buf ts]. rewrite /io_done /=. intros Hnd Hlt.
  apply not_Forall_Exists in Hnd; [|apply _].
  apply list.Exists_exists in Hnd as (s & Hin & Hs). destruct s as [|e rest]; [by destruct Hs|].
  apply list_elem_of_split in Hin as (ts1 & ts2 & ->). eexists. by constructor.
Qed.

Lemma unsent_start l :
  unsent (start_io l) = length l + length (filter (λ s, copyErr s ≠ None) l).
Proof.
  rewrite /unsent /start_io /=. induction l as [|s l IH]; csimpl; [done|].
  rewrite length_app IH filter_cons. rewrite /shard_sends. destruct (copyErr s); simpl; lia.
Qed.

(** Without interference the errors of closing arrive in any order. *)
Lemma wait_result_None t : wait_result t = None ↔ Forall (λ e, e = None) (ioErr t).
Proof.
  rewrite /wait_result. assert (∀ l err, foldl (λ err e, errors_Join [err; e]) err l = None ↔
    (l = [] → err = None) ∧ (l ≠ [] → err = None ∧ Forall (λ e, e = None) l)) as Hgo.
  { induction l as [|e l IH]; intros err; simpl; [naive_solver|]. rewrite IH.
    rewrite errors_Join_None !list.Forall_cons. destruct l; naive_solver. }
  rewrite Hgo. destruct (ioErr t); naive_solver.
Qed.

Lemma io_terminates t : sn io_step t.
Proof.
  remember (unsent t) as n eqn:Hn. revert t Hn.
  induction n as [n IH] using lt_wf_ind. intros t ->. constructor. intros t' Hs.
  apply (IH (unsent t')); [|done]. destruct (io_step_sums _ _ Hs) as (_ & _ & ? & _). lia.
Qed.

Lemma io_steps_perm t t' :
  rtc io_step t t' → ioErr t' ++ concat (shards t') ≡ₚ ioErr t ++ concat (shards t).
Proof.
  induction 1 as [|t1 t2 t3 [cap buf ts1 ts2 e rest _] Hrest IH]; [done|].
  rewrite IH /= !concat_app /= -app_assoc /=. by rewrite !Permutation_middle.
Qed.

(** *** The names of the shards *)

#[local] Arguments String.append : simpl nomatch.

(** A last element without dots has no extension. *)
Lemma Ext_none s t :
  has_byte slash t = false → has_byte dot t = false → Ext (s +:+ String slash t) = "".
Proof.
  intros Hs Hd. rewrite /Ext. generalize "" at 1. induction s as [|x s IH]; intros cur; simpl.
  - revert Hs Hd. induction t as [|x t IH]; simpl; [done|].
    intros [Hx ?]%orb_false_elim [Hx' ?]%orb_false_elim. rewrite Hx Hx'. by apply IH.
  - by repeat case_bool_decide.
Qed.

Lemma shard_compression `{Codecs} dir i c ext wr data :
  ExtForCompression c = Ok ext → NewCompressionWriter c = Ok wr →
  ∃ c', CompressionFromExt (dir +:+ "/" +:+ IMG_FILE i +:+ ext) = Ok c' ∧
    NewCompressionReader (eof (wencode wr data)) c' = Ok (eof data).
Proof.
  intros Hext Hwr. pose proof (reader_undoes_writer c ext wr data Hext Hwr) as Hread.
  rewrite /CompressionFromExt.
  destruct (ExtForCompression_Ok _ _ Hext) as [[-> ->]|[[-> ->]|[[-> ->]|[Hc ->]]]].
  1-3: eexists; split; [|exact Hread]; rewrite -!append_assoc Ext_append //.
  assert (∀ x, bool_decide (x ∈ ["-"; "0"; "1"; "2"; "3"; "4"; "5"; "6"; "7"; "8"; "9"]%char) = false →
    has_byte x "img-" = false → has_byte x (IMG_FILE i) = false) as Hb.
  { intros x Hx Hx'. by rewrite /IMG_FILE has_byte_append Hx' has_byte_itoaZ. }
  exists "none". rewrite append_nil_r Ext_none; [by apply Hb..|].
  split; [done|]. rewrite decide_True // in Hread.
Qed.

(** A streamed checkpoint is found again: when the directory of a dump
    holds its shards, in any order, and nothing else that is named like one,
    it is recognised as streamable with the number of streams of the dump,
    reading opens exactly the shards that were written, and for each of them
    the extension selects a reader that undoes the writer of the dump. *)
Theorem shards_roundtrip `{Codecs} (dir : string) (streams : Z) (c ext : string) wr
    (entries others : list string) :
  ExtForCompression c = Ok ext → NewCompressionWriter c = Ok wr → (2 <= streams < 2 ^ 31)%Z →
  Base <$> entries ≡ₚ ((λ i, IMG_FILE i +:+ ext) <$> seqZ 0 streams) ++ others →
  Forall (λ e, is_img e = false) others →
  ∃ written read,
    imgPaths (Err (Errorf "not listed")) dir WRITE_ONLY streams = Ok written ∧
    imgPaths (Ok entries) dir READ_ONLY streams = Ok read ∧
    read ≡ₚ (λ p, p +:+ ext) <$> written ∧
    IsStreamable (Some (Ok true, Ok entries)) = Ok streams ∧
    ∀ p data, p ∈ read → ∃ c', CompressionFromExt p = Ok c' ∧
      NewCompressionReader (eof (wencode wr data)) c' = Ok (eof data).
Proof.
  intros Hext Hwr Hn Hperm Hoth.
  set (shards := (λ i, IMG_FILE i +:+ ext) <$> seqZ 0 streams) in *.
  assert (filter (λ e, is_img e = true) (Base <$> entries) ≡ₚ shards) as Hf.
  { rewrite Hperm list.filter_app filter_all.
    - apply list.Forall_forall. intros e (i & -> & _)%list_elem_of_fmap. done.
    - assert (filter (λ e, is_img e = true) others = []) as ->; [|by rewrite app_nil_r].
      clear -Hoth. induction Hoth as [|e l He Hl IH]; [done|]. rewrite filter_cons_False // He //. }
  assert (Z.of_nat (length (filter (λ e, is_img e = true) (Base <$> entries))) = streams) as Hlen.
  { rewrite Hf /shards length_fmap length_seqZ. lia. }
  eexists _, _. split; [done|]. split; [|split; [|split]].
  - rewrite /imgPaths /= length_fmap decide_False; [by intros Hne; apply Hne|done].
  - rewrite Hf /shards -!list_fmap_compose. apply reflexive_eq, list_fmap_ext. intros j i _.
    by rewrite /= !append_assoc.
  - rewrite /IsStreamable Hlen int32_id //. lia.
  - intros p data (e & -> & He)%list_elem_of_fmap. rewrite Hf in He.
    apply list_elem_of_fmap in He as (i & -> & _). by apply (shard_compression dir i c ext wr).
Qed.

(** Streaming ends if and only if no transfer fails.  When the bytes of
    every shard were moved, every execution of the goroutines comes to an end,
    it ends with all of them done, and [wait] then returns an error exactly if
    closing one of the files failed.  When the transfer of a shard failed, its
    goroutine has two results to send; the channel has room for one per
    shard, and nobody receives before all are done: in no reachable state are
    all of them done, so that [wait], and the dump or restore with it, never
    returns. *)
Theorem wait_returns_iff_no_io_error (l : list ShardIO) :
  (Forall (λ s, copyErr s = None) l →
     sn io_step (start_io l) ∧
     ∀ t, rtc io_step (start_io l) t →
       ((∃ t', io_step t t') ∨ io_done t) ∧
       (io_done t → wait_result t = None ↔ Forall (λ s, closeErr s = None) l)) ∧
  (Exists (λ s, copyErr s ≠ None) l →
     ∀ t, rtc io_step (start_io l) t → ¬ io_done t).
Proof.
  split.
  - intros Hok. split; [apply io_terminates|]. intros t Hs.
    destruct (io_steps_sums _ _ Hs) as (Hcap & Hsum & Hle); [simpl; lia|].
    assert (filter (λ s, copyErr s ≠ None) l = []) as Hnone.
    { clear -Hok. induction Hok as [|s l Hs Hl IH]; [done|]. rewrite filter_cons_False //. naive_solver. }
    rewrite unsent_start Hnone /= Nat.add_0_r in Hsum. simpl in Hcap. split.
    + destruct (decide (io_done t)) as [Hd|Hd]; [by right|left].
      apply io_can_step; [done|]. rewrite io_done_unsent in Hd. lia.
    + intros Hd. rewrite wait_result_None. pose proof (io_steps_perm _ _ Hs) as Hp.
      apply io_done_unsent, nil_length_inv in Hd. rewrite Hd app_nil_r /= in Hp. rewrite Hp.
      clear -Hok. induction Hok as [|s l Hs Hl IH]; csimpl; [done|].
      rewrite /shard_sends Hs /= !list.Forall_cons IH. done.
  - intros Hex t Hs. destruct (io_steps_sums _ _ Hs) as (Hcap & Hsum & Hle); [simpl; lia|].
    rewrite unsent_start in Hsum. simpl in Hcap, Hsum. rewrite io_done_unsent.
    assert (filter (λ s, copyErr s ≠ None) l ≠ []) as Hne.
    { intros Hnil. apply list.Exists_exists in Hex as (s & Hin & Hx).
      by apply (filter_nil_not_elem_of _ _ _ Hnil Hx). }
    destruct (filter _ l); [done|]. simpl in Hsum. lia.
Qed.

(** *** The protocol *)

Lemma Uint32_PutUint32 z : in_uint32 z → Uint32 (PutUint32 z) = z.
Proof.
  rewrite /in_uint32 /Uint32 /PutUint32 => Hz.
  change (2 ^ 8)%Z with 256%Z. change (2 ^ 16)%Z with 65536%Z. change (2 ^ 24)%Z with 16777216%Z.
  change (2 ^ 32)%Z with 4294967296%Z in Hz. Z.to_euclidean_division_equations. lia.
Qed.

(** A complete reply that is not an error. *)
Definition good_reply (r : ReplyIO) (size : Z) (resp : ReplyEntry) : Prop :=
  in_uint32 size ∧ size_read r = Ok (PutUint32 size) ∧ data_read r = Ok size ∧
  reply_entry r = Ok resp.

Lemma reply_step name r size resp replies :
  good_reply r size resp →
  waitForStreamerReady name (r :: replies) =
    match Status_ resp with
    | None => if negb (Exists_ resp) then Some (Some (does_not_exist name))
              else waitForStreamerReady name replies
    | Some DOES_NOT_EXIST => Some (Some (does_not_exist name))
    | Some NOT_READY => waitForStreamerReady name replies
    | Some READY => Some None
    | Some OTHER_STATUS => Some (Some (Errorf "recieved invalid file status from streamer"))
    end.
Proof.
  intros (Hsz & H1 & H2 & H3). cbn [waitForStreamerReady]. rewrite H1 H2 H3.
  replace (take 4 (PutUint32 size ++ [0; 0; 0; 0]%Z)) with (PutUint32 size) by done.
  rewrite Uint32_PutUint32 // decide_False //. naive_solver.
Qed.

(** The replies before the streamer is ready. *)
Definition not_ready (r : ReplyIO) : Prop :=
  ∃ size resp, good_reply r size resp ∧
    (Status_ resp = Some NOT_READY ∨ Status_ resp = None ∧ Exists_ resp = true).

Lemma not_ready_skipped name rs replies :
  Forall not_ready rs → waitForStreamerReady name (rs ++ replies) = waitForStreamerReady name replies.
Proof.
  induction 1 as [|r rs (size & resp & Hg & Hst) Hrs IH]; [done|].
  rewrite -app_comm_cons (reply_step _ _ size resp) //.
  destruct Hst as [->|[-> ->]]; exact IH.
Qed.

(** Opening a file for reading waits until the streamer says that it is
    ready: any number of replies that say otherwise are skipped, and then
    "ready" or "does not exist" decides; a reply without a status that says the
    file exists is also skipped, so with a streamer that only sends those the
    call does not return.  Whatever happens, no descriptor is leaked: on
    success our end of the pipe is the only descriptor that is new, on an error
    there is none. *)
Theorem openFd_waits_and_leaks_nothing (mode : Mode) (name : string) (x : OpenIO) (fds : gset Z) :
  (∀ rFd wFd, pipe x = Ok (rFd, wFd) → (rFd ∉ fds) ∧ (wFd ∉ fds) ∧ rFd ≠ wFd) →
  (∀ r fds', openFd mode name x fds = Some (r, fds') →
     match r with
     | Ok fd => fds' = {[fd]} ∪ fds ∧ fd ∉ fds
     | Err _ => fds' = fds
     end) ∧
  (∀ rs size resp rest, Forall not_ready rs → good_reply resp size rest →
     (Status_ rest = Some READY →
        ∀ more, waitForStreamerReady name (rs ++ resp :: more) = Some None) ∧
     (Status_ rest = Some DOES_NOT_EXIST →
        ∀ more, waitForStreamerReady name (rs ++ resp :: more) = Some (Some (does_not_exist name)))) ∧
  (∀ rs, Forall not_ready rs → waitForStreamerReady name rs = None).
Proof.
  intros Hp. split; [|split].
  - intros r fds'. rewrite /openFd. destruct (pipe x) as [[rFd wFd]|e]; [|by intros [= <- <-]].
    destruct (Hp rFd wFd eq_refl) as (Hr & Hw & Hne).
    assert (({[rFd; wFd]} ∪ fds) ∖ {[rFd]} = {[wFd]} ∪ fds) by set_solver.
    assert (({[rFd; wFd]} ∪ fds) ∖ {[wFd]} = {[rFd]} ∪ fds) by set_solver.
    assert (({[rFd; wFd]} ∪ fds) ∖ {[rFd; wFd]} = fds) by set_solver.
    assert (({[rFd; wFd]} ∪ fds) ∖ {[wFd; rFd]} = fds) by set_solver.
    destruct mode; simpl.
    all: destruct (marshal x); [by intros [= <- <-]|].
    all: destruct (write_size x); [by intros [= <- <-]|].
    all: destruct (write_data x); [by intros [= <- <-]|].
    1: destruct (waitForStreamerReady name (replies x)) as [[e|]|]; simpl;
         [by intros [= <- <-]| |done].
    all: destruct (conn_File x); [|by intros [= <- <-]].
    all: destruct (sendmsg x); by intros [= <- <-].
  - intros rs size resp rest Hrs Hg.
    split; intros Hst more; rewrite not_ready_skipped // (reply_step _ _ size rest) // Hst //.
  - intros rs Hrs. rewrite -(app_nil_r rs) not_ready_skipped //.
Qed.

(** *** Listings *)

(** [k] calls of [Readdirnames] in a row: the names, and whether the end was
    reported. *)
Fixpoint read_pages (k : nat) (n : Z) (ask : gores (list string))
    (cache : gmap string (list string)) (f : Dir) : list string * bool :=
  match k with
  | O => ([], false)
  | S k' =>
      match Readdirnames READ_ONLY "." n ask cache f with
      | (Ok names, cache', f') =>
          let '(more, eof) := read_pages k' n ask cache' f' in (names ++ more, eof)
      | (Err _, _, _) => ([], true)
      end
  end.

Lemma read_pages_from k n ask cache names o :
  (0 < n)%Z → names ≠ [] → length names - o < k →
  read_pages k n ask cache (mkDir names o) = (drop o names, true).
Proof.
  intros Hn Hne. revert o. induction k as [|k IH]; intros o Hk; [lia|].
  cbn [read_pages]. rewrite /Readdirnames. cbn [dirNames dirOffset].
  destruct (decide (READ_ONLY ≠ READ_ONLY)) as [?|_]; [done|].
  destruct (decide _) as [?|_]; [naive_solver|]. destruct (decide (names = [])) as [?|_]; [done|].
  cbn [dirNames dirOffset]. destruct (decide (n <= 0)%Z) as [?|_]; [lia|]. case_decide as Hle; [by rewrite drop_ge|].
  set (m := Nat.min (o + Z.to_nat n) (length names)).
  rewrite IH; [rewrite /m; lia|]. f_equal.
  assert (m = o + (m - o)) as Hm by (rewrite /m; lia). rewrite {2}Hm.
  by rewrite -drop_drop take_drop.
Qed.

(** Reading a directory page by page gives its listing: with any page size,
    at most one call more than there are names returns all the names in order
    and then reports the end. *)
Theorem Readdirnames_pages (names : list string) (n : Z) :
  (0 < n)%Z →
  read_pages (S (length names)) n (Ok names) ∅ (mkDir [] 0) = (names, true).
Proof.
  intros Hn. destruct (decide (names = [])) as [->|Hne].
  { cbn [read_pages length]. rewrite /Readdirnames. cbn. rewrite decide_False; [lia|]. done. }
  rewrite -{3}(drop_0 names) -(read_pages_from (S (length names)) n (Ok names) {["*" := names]} names 0) //;
    [lia|].
  cbn [read_pages]. rewrite /Readdirnames. cbn [dirNames dirOffset].
  destruct (decide (names = [])) as [?|_]; done.
Qed.

(** *** Witnesses *)

#[local] Existing Instance Files.Files.Sample.codecs.

(** One shard of two fails to transfer. *)
Definition failing_io : list ShardIO :=
  [mkShardIO (Some (Errorf "EIO")) None; mkShardIO None None].

Lemma wait_returns_iff_no_io_error_witness :
  (∀ t, rtc io_step (start_io failing_io) t → ¬ io_done t) ∧
  sn io_step (start_io [mkShardIO None None]).
Proof.
  split.
  - apply (wait_returns_iff_no_io_error failing_io). by left.
  - apply (wait_returns_iff_no_io_error [mkShardIO None None]). by repeat constructor.
Defined.

Lemma shards_roundtrip_witness :
  ∃ written read,
    imgPaths (Err (Errorf "not listed")) "/ckpt" WRITE_ONLY 2 = Ok written ∧
    imgPaths (Ok ["img-1.lz4"; "img-0.lz4"; "stats"]) "/ckpt" READ_ONLY 2 = Ok read ∧
    read ≡ₚ (λ p, p +:+ ".lz4") <$> written ∧
    IsStreamable (Some (Ok true, Ok ["img-1.lz4"; "img-0.lz4"; "stats"])) = Ok 2%Z ∧
    ∀ p data, p ∈ read → ∃ c', CompressionFromExt p = Ok c' ∧
      NewCompressionReader (eof (lz4_NewWriter data)) c' = Ok (eof data).
Proof.
  apply (shards_roundtrip "/ckpt" 2 "lz4" ".lz4" (mkWriter lz4_NewWriter false)
    ["img-1.lz4"; "img-0.lz4"; "stats"] ["stats"]).
  - reflexivity.
  - reflexivity.
  - lia.
  - vm_compute. apply Permutation_swap.
  - repeat constructor.
Defined.

Definition ready_reply (s : option FileStatus) : ReplyIO :=
  mkReplyIO (Ok (PutUint32 2)) (Ok 2%Z) (Ok (mkReply s true)).

Definition sample_open : OpenIO :=
  mkOpenIO (Ok (5, 6)%Z) None None None
    [ready_reply (Some NOT_READY); ready_reply None; ready_reply (Some READY)] (Ok 7%Z) None.

Lemma openFd_witness :
  openFd READ_ONLY "pages-1.img" sample_open {[3%Z]} = Some (Ok 5%Z, {[5%Z]} ∪ {[3%Z]}) ∧
  waitForStreamerReady "pages-1.img" [ready_reply None; ready_reply None] = None.
Proof.
  destruct (openFd_waits_and_leaks_nothing READ_ONLY "pages-1.img" sample_open {[3%Z]})
    as (Hleak & _ & Hblock).
  { intros rFd wFd [= <- <-]. split_and!; by_decide. }
  split.
  - destruct (openFd READ_ONLY "pages-1.img" sample_open {[3%Z]}) as [[r fds']|] eqn:Hrun.
    + pose proof (Hleak _ _ eq_refl) as Hr. assert (r = Ok 5%Z) as ->.
      { vm_compute in Hrun. by injection Hrun as <- _. }
      destruct Hr as [-> _]. reflexivity.
    + vm_compute in Hrun. discriminate Hrun.
  - apply Hblock. repeat constructor; exists 2%Z, (mkReply None true); (split; [|by right]);
      by repeat split.
Defined.

End Streamer.
