(* ===== verification/StreamerStart.v ===== *)
(** * Starting the image streamer (internal/cedana/streamer/fs.go)

    What [NewStreamingFs] does once the transfer of the shards is set up: it
    starts the streamer, a goroutine scans what the streamer prints and sends on
    the channel [ready] when the streamer says that it listens, another one
    waits for the streamer to exit, and the function waits for whichever comes
    first and connects.  A transition system: the function, the two goroutines,
    the streamer and its caller take steps in any order.

    The function closes [ready] when it returns.  A streamer that says it
    listens after that makes the scanner send on a closed channel, which stops
    the daemon ([late_streamer_panics]); this cannot happen after a start that
    has been told so once ([ready_start_never_panics]). *)

From S2P Require Import Prelude GoLib.

Module StreamerStart.
Import GoLib.

Definition INIT_PROGRESS_MSG : string := "socket-init".

(** How the function returns. *)
Inductive Outcome := Cancelled | TimedOut (lastMsg : string) | DialFailed (lastMsg : string) | Connected.
Inductive Main := Selecting | Dialing | Returned (o : Outcome).
Inductive Scanner := Scanning | Sending | Stopped.

Record Start := mkStart {
  main : Main;
  scanner : Scanner;
  stderr : list string;       (** printed and not yet scanned *)
  running : bool;             (** the streamer *)
  exited : bool;              (** the channel that is closed when the streamer has been waited for *)
  ready : nat;                (** what the channel holds, at most one value *)
  cancelled : bool;           (** the context *)
  lastMsg : string;
  panicked : bool;
  printed : list string;      (** all that the streamer has printed so far *)
  told : bool;                (** whether the function has received from [ready] *)
}.
Definition on_main (m : Main) (s : Start) : Start :=
  mkStart m (scanner s) (stderr s) (running s) (exited s) (ready s) (cancelled s) (lastMsg s) (panicked s) (printed s) (told s).
Definition receive (n : nat) (s : Start) : Start :=
  mkStart Dialing (scanner s) (stderr s) (running s) (exited s) n (cancelled s) (lastMsg s) (panicked s) (printed s) true.
Definition on_ready (n : nat) (s : Start) : Start :=
  mkStart (main s) Scanning (stderr s) (running s) (exited s) n (cancelled s) (lastMsg s) (panicked s) (printed s) (told s).
Definition on_scanner (sc : Scanner) (lines : list string) (msg : string) (s : Start) : Start :=
  mkStart (main s) sc lines (running s) (exited s) (ready s) (cancelled s) msg (panicked s) (printed s) (told s).
Definition prints (l : string) (s : Start) : Start :=
  mkStart (main s) (scanner s) (stderr s ++ [l]) (running s) (exited s) (ready s) (cancelled s) (lastMsg s) (panicked s)
    (printed s ++ [l]) (told s).
Definition on_process (r e : bool) (lines : list string) (s : Start) : Start :=
  mkStart (main s) (scanner s) lines r e (ready s) (cancelled s) (lastMsg s) (panicked s) (printed s) (told s).
Definition cancel (s : Start) : Start :=
  mkStart (main s) (scanner s) (stderr s) (running s) (exited s) (ready s) true (lastMsg s) (panicked s) (printed s) (told s).
Definition panic (s : Start) : Start :=
  mkStart (main s) (scanner s) (stderr s) (running s) (exited s) (ready s) (cancelled s) (lastMsg s) true (printed s) (told s).

Definition just_started : Start := mkStart Selecting Scanning [] true false 0 false "" false [] false.

(** [defer close(ready)] *)
Definition ready_closed (s : Start) : bool := match main s with Returned _ => true | _ => false end.

Inductive step (s : Start) : Start → Prop :=
(** The streamer prints a line, or exits. *)
| print l : running s = true → step s (prints l s)
| process_exits : running s = true → step s (on_process false (exited s) (stderr s) s)
(** [cmd.Wait] returns after closing the pipe, whether or not it has been read to its end. *)
| waited k : running s = false → exited s = false → step s (on_process false true (take k (stderr s)) s)
| caller_cancels : step s (cancel s)
(** The scanner: nothing is printed any more, a line after the context has been cancelled, a line. *)
| scan_end : scanner s = Scanning → stderr s = [] → running s = false → step s (on_scanner Stopped [] (lastMsg s) s)
| scan_cancelled l lines : scanner s = Scanning → stderr s = l :: lines → cancelled s = true →
    step s (on_scanner Stopped lines (lastMsg s) s)
| scan_line l lines : scanner s = Scanning → stderr s = l :: lines → cancelled s = false →
    step s (on_scanner (if decide (l = INIT_PROGRESS_MSG) then Sending else Scanning) lines l s)
(** [ready <- true], which panics when the channel is closed. *)
| send : scanner s = Sending → ready_closed s = false → ready s = 0 →
    step s (on_ready 1 s)
| send_closed : scanner s = Sending → ready_closed s = true → step s (panic s)
(** The select. *)
| main_cancelled : main s = Selecting → cancelled s = true → step s (on_main (Returned Cancelled) s)
| main_timeout : main s = Selecting → step s (on_main (Returned (TimedOut (lastMsg s))) s)
| main_ready n : main s = Selecting → ready s = S n → step s (receive n s)
| main_exited : main s = Selecting → exited s = true → step s (on_main Dialing s)
(** The connection. *)
| dial_fails : main s = Dialing → step s (on_main (Returned (DialFailed (lastMsg s))) s)
| dial_succeeds : main s = Dialing → step s (on_main (Returned Connected) s).

(** No goroutine goes on after a panic. *)
Definition run (s s' : Start) : Prop := panicked s = false ∧ step s s'.
Definition reachable : Start → Prop := rtc run just_started.

(** ** When the scanner panics *)

Definition inits (l : list string) : nat := length (filter (λ m, m = INIT_PROGRESS_MSG) l).

Lemma inits_app l l' : inits (l ++ l') = (inits l + inits l')%nat.
Proof. unfold inits. by rewrite list.filter_app length_app. Qed.
Lemma inits_take k l : (inits (take k l) ≤ inits l)%nat.
Proof. rewrite -{2}(take_drop k l) inits_app. lia. Qed.
Lemma inits_cons m l : inits (m :: l) = ((if decide (m = INIT_PROGRESS_MSG) then 1 else 0) + inits l)%nat.
Proof. unfold inits. case_decide as H; [by rewrite filter_cons_True|by rewrite filter_cons_False]. Qed.

Definition sending (s : Start) : nat := match scanner s with Sending => 1 | _ => 0 end.

(** Every message that has been printed is at most in one place; a panic is one
    of the scanner, after the function has returned; the function connects
    when it has been told to, or when the streamer has exited. *)
Record inv (s : Start) : Prop := {
  inv_messages : (inits (stderr s) + sending s + ready s + (if told s then 1 else 0) ≤ inits (printed s))%nat;
  inv_panic : panicked s = true → scanner s = Sending ∧ ready_closed s = true;
  inv_dial : match main s with
             | Dialing | Returned (DialFailed _) | Returned Connected => told s = true ∨ exited s = true
             | _ => told s = false
             end;
}.

Lemma inv_started : inv just_started.
Proof. constructor; by vm_compute. Qed.

Lemma inv_run s s' : inv s → run s s' → inv s'.
Proof.
  intros [Hm Hp Hd] [Hn H]. inversion H; subst; constructor; simpl in *;
    unfold sending, ready_closed in *; simpl in *; try (rewrite ?inits_app); try done;
    try congruence; repeat match goal with E : scanner s = _ |- _ => rewrite E in Hm |- *
                           | E : main s = _ |- _ => rewrite E in Hd |- *
                           | E : ready s = _ |- _ => rewrite E in Hm |- *
                           | E : stderr s = _ |- _ => rewrite E in Hm |- * end; rewrite ?inits_cons in Hm; try done.
  all: try (case_decide; simpl; lia).
  all: try (pose proof (inits_take k (stderr s)); lia).
  all: try (destruct (main s) as [| |[]]; naive_solver).
  all: try (rewrite Hd in Hm; lia).
  all: naive_solver lia.
Qed.

Lemma start_inv_reachable s : reachable s → inv s.
Proof. apply (rtc_ind_r inv); [apply inv_started|]. intros y z _ Hr Hy. by apply (inv_run y). Qed.

(** A streamer that says at most once that it listens makes the daemon panic
    only when the function has returned without being told: after a timeout, a
    cancellation, or because the streamer has exited. *)
Theorem ready_start_never_panics s :
  reachable s → (inits (printed s) ≤ 1)%nat → (told s = true ∨ ready_closed s = false) → panicked s = false.
Proof.
  intros [Hm Hp _]%start_inv_reachable Hone Hor. destruct (panicked s); [|done].
  destruct (Hp eq_refl) as [Hs Hc]. destruct Hor as [Ht|Ht]; [|congruence].
  unfold sending in Hm. rewrite Hs Ht in Hm. lia.
Qed.

(** A start that connects was told to, or the streamer has already exited. *)
Theorem connected_was_told s :
  reachable s → main s = Returned Connected → told s = true ∨ exited s = true.
Proof. intros [_ _ Hd]%start_inv_reachable Hc. by rewrite Hc in Hd. Qed.

(** A streamer that says that it listens after the start has timed out, or one
    that says so and exits at once when the connection fails, stops the
    daemon. *)
Theorem late_streamer_panics :
  (∃ s m, reachable s ∧ main s = Returned (TimedOut m) ∧ printed s = [INIT_PROGRESS_MSG] ∧ panicked s = true) ∧
  (∃ s m, reachable s ∧ main s = Returned (DialFailed m) ∧ printed s = [INIT_PROGRESS_MSG] ∧ panicked s = true).
Proof.
  split; eexists _, _; split_and!.
  - eapply rtc_l; [split; [done|by apply main_timeout]|]. eapply rtc_l; [split; [done|by apply (print _ INIT_PROGRESS_MSG)]|].
    eapply rtc_l; [split; [done|by eapply scan_line]|]. apply rtc_once. split; [done|by apply send_closed].
  - done.
  - done.
  - done.
  - eapply rtc_l; [split; [done|by apply (print _ INIT_PROGRESS_MSG)]|]. eapply rtc_l; [split; [done|by apply process_exits]|].
    eapply rtc_l; [split; [done|by eapply scan_line]|]. eapply rtc_l; [split; [done|by apply (waited _ 0)]|].
    eapply rtc_l; [split; [done|by apply main_exited]|]. eapply rtc_l; [split; [done|by apply dial_fails]|].
    apply rtc_once. split; [done|by apply send_closed].
  - done.
  - done.
  - done.
Qed.
End StreamerStart.
