(* ===== verification/StreamerAdapters.v ===== *)
(** * Streaming a dump into a storage (internal/cedana/streamer)

    [dump_adapters.go] and [restore_adapters.go]: the adapters that replace
    those of the file system when a checkpoint is streamed.  Starting the
    streamer ([NewStreamingFs]) is a parameter: it fails, or gives the function
    that waits for the transfers, which may never return (Streamer.v). *)

From S2P Require Import Prelude GoLib Compression Criu Files Storage Streamer.
Import GoLib Compression Criu Files Storage Streamer.

Module StreamerAdapters.

(** The plugins a streamed dump or restore needs. *)
Record Installed := mkInstalled { criu_plugin : bool; streamer_plugin : bool }.

(** [NewStreamingFs]: whether the shards go to the local file system, the
    path, the mode and the compression. *)
Definition NewFs : Type :=
  bool → string → Mode → string → Go World (gores (Go World (option error))).

Definition no_criu : error :=
  Status FailedPrecondition
    "Streaming C/R requires the CRIU plugin to be installed. Default CRIU is not supported yet.".

Section adapters.
Context (env : Env) (st : Storage.Storage) (inst : Installed) (newFs : NewFs).

(** One goroutine of [upload]; the result of closing the remote file is
    dropped. *)
Definition upload_shard (images path ext : string) (i : Z) (w : World) : option error * World :=
  let localPath := Join2 images (IMG_FILE i +:+ ext) in
  let remotePath := path +:+ "/" +:+ IMG_FILE i +:+ ext in
  match Open fs_storage localPath w with
  | Err e => (Some (Errorf ("failed to open local shard " +:+ itoaZ i +:+ ": " +:+ Error e)), w)
  | Ok src =>
      match Storage.Create st remotePath w with
      | Err e => (Some (Errorf ("failed to create remote shard " +:+ itoaZ i +:+ ": " +:+ Error e)), w)
      | Ok w1 =>
          let w2 := Written st remotePath (rbytes src) w1 in
          let '(_, w3) := Closed st remotePath (rbytes src) w2 in
          (match rerr src with
           | Some e => Some (Errorf ("failed to upload shard " +:+ itoaZ i +:+ ": " +:+ Error e))
           | None => None
           end, w3)
      end
  end.

(** The goroutines work on different files and are waited for; they run in
    order here. *)
Fixpoint upload_shards (images path ext : string) (l : list Z) (err : option error) (w : World)
    : option error * World :=
  match l with
  | [] => (err, w)
  | i :: l' =>
      let '(e, w1) := upload_shard images path ext i w in
      upload_shards images path ext l' (match e with None => err | Some _ => errors_Join [err; e] end) w1
  end.

Definition upload (streams : Z) (images path compression : string) (w : World) : option error * World :=
  let ext := match ExtForCompression compression with Ok ext => ext | Err _ => "" end in
  let '(uploadErr, w1) := upload_shards images path ext (seqZ 0 streams) None w in
  (uploadErr, remove_images images w1).

(** [DumpFilesystem]; [next] gets the images directory. *)
Definition DumpFilesystem (next : string → Go World (option error)) (req : DumpReq)
    : Go World (option error) := λ w,
  let compression := if decide (rCompression req = "") then cfgCompression env else rCompression req in
  if negb (supported compression) then
    Some (Some (Status Unimplemented ("unsupported compression format '" +:+ compression +:+ "'")), w)
  else
  let async := (rAsync req || cfgAsync env) && IsRemote st in
  let dir := if IsRemote st then TempDir env else rDir req in
  match wfs w !! resolve dir with
  | None => Some (Some (Status InvalidArgument ("dump dir does not exist: " +:+ dir)), w)
  | Some _ =>
  let images := Join2 dir (rName req) in
  match Mkdir (resolve images) (wfs w) with
  | Err e => Some (Internal_ "failed to create dump dir: " e, w)
  | Ok fs1 =>
  let w1 := set_fs fs1 w in
  let path := rDir req +:+ "/" +:+ rName req in
  let body : option (option error * World) :=
    match chmodErr env, openErr env with
    | Some e, _ => Some (Internal_ "failed to chmod dump dir: " e, w1)
    | None, Some e => Some (Internal_ "failed to open dump dir: " e, w1)
    | None, None =>
        if negb (criu_plugin inst) then Some (Some no_criu, w1)
        else if negb (streamer_plugin inst) then
          Some (Some (Status FailedPrecondition
                  "Please install the streamer plugin to use streaming C/R"), w1)
        else
          '(r, w2) ← newFs async (if async then images else path) WRITE_ONLY compression w1;
          match r with
          | Err e => Some (Internal_ "failed to create streaming fs: " e, w2)
          | Ok waitForIO =>
              '(err, w3) ← next images (add_path path w2);
              '(ioErr, w4) ← waitForIO w3;
              let err := errors_Join [err; ioErr] in
              Some (err, if async && bool_decide (err = None)
                         then add_background (images, path, compression) w4 else w4)
          end
    end in
  '(err, w') ← body;
  Some (err, if bool_decide (err ≠ None) || (IsRemote st && negb async)
             then remove_images images w' else w')
  end
  end.

(** [RestoreFilesystem]; [temp] is the directory [os.MkdirTemp] makes. *)
Definition RestoreFilesystem (temp : string) (next : string → Go World (option error)) (path : string)
    : Go World (option error) := λ w,
  let prepared : gores (string * World) :=
    if negb (IsRemote st) then
      match wfs w !! resolve path with
      | None => Err (Status NotFound ("path error: " +:+ path))
      | Some Files.Dir => Ok (path, w)
      | Some _ => Err (Status InvalidArgument "path must be a directory containing streamed images")
      end
    else
      match Mkdir (resolve temp) (wfs w) with
      | Err e => Err (Status Internal ("failed to create temp restore dir: " +:+ Error e))
      | Ok fs1 => Ok (temp, set_fs fs1 w)
      end in
  match prepared with
  | Err e => Some (Some e, w)
  | Ok (images, w1) =>
      let body : option (option error * World) :=
        if negb (criu_plugin inst) then Some (Some no_criu, w1)
        else match openErr env with
        | Some e => Some (Internal_ "failed to open dump dir: " e, remove_images images w1)
        | None =>
            if negb (streamer_plugin inst) then
              Some (Some (Status FailedPrecondition ("Provided checkpoint path requires streaming. " +:+
                "Please install the streamer plugin to use streaming C/R")), w1)
            else
              '(r, w2) ← newFs false path READ_ONLY "" w1;
              match r with
              | Err e => Some (Internal_ "failed to create streaming fs: " e, w2)
              | Ok waitForIO =>
                  '(err, w3) ← next images w2;
                  '(ioErr, w4) ← waitForIO w3;
                  Some (errors_Join [err; ioErr], w4)
              end
        end in
      '(err, w') ← body;
      Some (err, if IsRemote st then remove_images images w' else w')
  end.

(** The images directory of a dump. *)
Definition images_of (req : DumpReq) : string :=
  Join2 (if IsRemote st then TempDir env else rDir req) (rName req).

Definition asynchronous (req : DumpReq) : bool := (rAsync req || cfgAsync env) && IsRemote st.

Lemma remove_images_gone images w k :
  resolve images `prefix_of` k → wfs (remove_images images w) !! k = None.
Proof. intros Hk. by rewrite /= RemoveAll_lookup decide_True. Qed.

Lemma errors_Join2_None e1 e2 : errors_Join [e1; e2] = None ↔ e1 = None ∧ e2 = None.
Proof. rewrite errors_Join_None !list.Forall_cons. naive_solver. Qed.

End adapters.

(** A computation that starts no upload. *)
Definition no_upload {A} (m : Go World A) : Prop :=
  ∀ v a v', m v = Some (a, v') → background v' = background v.

Definition compression_of (env : Env) (req : DumpReq) : string :=
  if decide (rCompression req = "") then cfgCompression env else rCompression req.

(** A path of [DumpFilesystem] that ends with an error at once. *)
Ltac early Hb :=
  injection Hb as <- <-; rewrite ?andb_false_r ?app_nil_r; simpl in *; split_and?; try done; try naive_solver.

(** ** Properties *)

(** C35: A streamed dump reports what went wrong and cleans up.  For an images
    directory that is new, whatever the rest of the pipeline and the transfers
    do: when the adapter returns nil, the dump succeeded and so did the
    transfer of its shards.  After an error, or for a remote storage that is
    written synchronously, nothing is left of the images directory.  An upload
    in the background is started exactly after an asynchronous dump that
    succeeded. *)
Theorem stream_dump_reports (env : Env) (st : Storage.Storage) (inst : Installed) (newFs : NewFs)
    (next : string → Go World (option error)) (req : DumpReq) (w w' : World) (err : option error) :
  let images := images_of env st req in
  (∀ k, resolve images `prefix_of` k → wfs w !! k = None) →
  (∀ lcl p mode c, no_upload (newFs lcl p mode c)) →
  (∀ lcl p mode c v wait v', newFs lcl p mode c v = Some (Ok wait, v') → no_upload wait) →
  no_upload (next images) →
  DumpFilesystem env st inst newFs next req w = Some (err, w') →
  (err = None → ∃ (wait : Go World (option error)) p u v v' v'',
     newFs (asynchronous env st req) p WRITE_ONLY (compression_of env req) u = Some (Ok wait, v) ∧
     next images (add_path (rDir req +:+ "/" +:+ rName req) v) = Some (None, v') ∧
     wait v' = Some (None, v'')) ∧
  (is_Some err ∨ IsRemote st = true ∧ asynchronous env st req = false →
     ∀ k, resolve images `prefix_of` k → wfs w' !! k = None) ∧
  background w' = background w ++
    (if asynchronous env st req && bool_decide (err = None)
     then [(images, rDir req +:+ "/" +:+ rName req, compression_of env req)] else []).
Proof.
  intros images Hfresh Hnew Hwait Hnext. rewrite /DumpFilesystem -/(asynchronous env st req).
  fold (images_of env st req) (compression_of env req).
  destruct (supported _); simpl; [|intros Hb; early Hb].
  destruct (wfs w !! resolve _) as [n|]; [|intros Hb; early Hb].
  destruct (Mkdir _ _) as [fs1|e]; [|intros Hb; early Hb].
  intros ((e & w1) & Hb & [= -> <-])%bind_Some.
  assert ((err = None → ∃ (wait : Go World (option error)) p u v v' v'',
     newFs (asynchronous env st req) p WRITE_ONLY (compression_of env req) u = Some (Ok wait, v) ∧
     next images (add_path (rDir req +:+ "/" +:+ rName req) v) = Some (None, v') ∧
     wait v' = Some (None, v'')) ∧
    background w1 = background w ++
      (if asynchronous env st req && bool_decide (err = None)
       then [(images, rDir req +:+ "/" +:+ rName req, compression_of env req)] else [])) as [H1 H2].
  { destruct (chmodErr env); [early Hb|]. destruct (openErr env); [early Hb|].
    destruct (criu_plugin inst); simpl in Hb; [|early Hb].
    destruct (streamer_plugin inst); simpl in Hb; [|early Hb].
    apply bind_Some in Hb as ((r & w2) & Hr & Hb). pose proof (Hnew _ _ _ _ _ _ _ Hr) as Hbg.
    destruct r as [wait|re]; [|early Hb].
    apply bind_Some in Hb as ((ne & w3) & Hn & Hb). apply bind_Some in Hb as ((ie & w4) & Hi & Hb).
    pose proof (Hnext _ _ _ Hn) as Hbg3. pose proof (Hwait _ _ _ _ _ _ _ Hr _ _ _ Hi) as Hbg4.
    injection Hb as <- <-. split.
    - intros [-> ->]%errors_Join2_None. by eexists _, _, _, _, _, _.
    - assert (background w4 = background w) as <- by (by rewrite Hbg4 Hbg3 /= Hbg).
      destruct (_ && _); [done|]. by rewrite app_nil_r. }
  split; [done|]. split.
  - intros Hor k Hk. rewrite -/images.
    assert (bool_decide (err ≠ None) || (IsRemote st && negb (asynchronous env st req)) = true) as ->.
    { destruct Hor as [[e ->]|[-> ->]]; [done|]. by rewrite orb_true_r. }
    by apply remove_images_gone.
  - by destruct (_ || _).
Qed.

(** A shard that is there to be read and whose object has a bucket. *)
Definition shard_ready (images path ext : string) (w : World) (i : Z) : Prop :=
  (∃ data, Open fs_storage (Join2 images (IMG_FILE i +:+ ext)) w = Ok (eof data)) ∧
  ∃ bucket key, s3_sanitizePath (path +:+ "/" +:+ IMG_FILE i +:+ ext) = Ok (bucket, key) ∧
    bucket ∈ buckets w.

Lemma failed_uploads e images path ext l w :
  Forall (shard_ready images path ext w) l →
  upload_shards (s3_storage (Some e)) images path ext l None w = (None, w).
Proof.
  induction 1 as [|i l ((data & Ho) & bucket & key & Hs & Hb) Hl IH]; [done|].
  cbn [upload_shards]. rewrite /upload_shard Ho /= /s3_Create Hs /= /s3_bucket_check decide_True //=.
  rewrite /s3_Closed Hs /=. by case_decide.
Qed.

(** The upload in the background that follows an asynchronous dump does
    not look at the result of closing the remote files.  On S3, where an upload
    that fails after the bytes were taken is reported by [Close]: although
    every single upload fails, [upload] returns nil, no object is stored, and
    the images directory, the only copy of the checkpoint, is removed. *)
Theorem failed_upload_loses_checkpoint (e : error) (streams : Z) (images path c ext : string) (w : World) :
  ExtForCompression c = Ok ext → Forall (shard_ready images path ext w) (seqZ 0 streams) →
  ∃ w', upload (s3_storage (Some e)) streams images path c w = (None, w') ∧
    objects w' = objects w ∧ ∀ k, resolve images `prefix_of` k → wfs w' !! k = None.
Proof.
  intros Hext Hr. rewrite /upload Hext failed_uploads //. eexists. split; [done|]. split; [done|].
  intros k Hk. by apply remove_images_gone.
Qed.

(** *** Witnesses *)

Definition sample_fs : FS :=
  <[["tmp"] := Files.Dir]> (<[["tmp"; "d"] := Files.Dir]>
    (<[["tmp"; "d"; "img-0"] := Reg "a"]> (<[["tmp"; "d"; "img-1"] := Reg "b"]> {[ [] := Files.Dir ]}))).

Definition sample_world : World := mkWorld sample_fs {["bkt"]} ∅ ∅ [] [].

Lemma failed_upload_loses_checkpoint_witness :
  ∃ w', upload (s3_storage (Some (Errorf "503"))) 2 "/tmp/d" "s3://bkt/d" "none" sample_world = (None, w') ∧
    objects w' = ∅ ∧ ∀ k, resolve "/tmp/d" `prefix_of` k → wfs w' !! k = None.
Proof.
  apply (failed_upload_loses_checkpoint (Errorf "503") 2 "/tmp/d" "s3://bkt/d" "none" "" sample_world).
  - reflexivity.
  - repeat constructor; simpl.
    + exists "a". vm_compute. reflexivity.
    + exists "bkt", "d/img-0". split; [vm_compute; reflexivity|by_decide].
    + exists "b". vm_compute. reflexivity.
    + exists "bkt", "d/img-1". split; [vm_compute; reflexivity|by_decide].
Defined.

Definition sample_env : Env :=
  mkEnv "/tmp" "none" false (λ _, Ok false) None None NoFault false 0.

Definition sample_dump : DumpReq :=
  mkDumpReq "s3://bkt" "e" "lz4" true (mkCriuOpts "" true false 7 false false).

Definition sample_newFs : NewFs := λ _ _ _ _, mret (Ok (mret None)).

Definition sample_final : World :=
  mkWorld (<[["tmp"; "e"] := Files.Dir]> sample_fs) {["bkt"]} ∅ ∅ ["s3://bkt/e"]
    [("/tmp/e", "s3://bkt/e", "lz4")].

Lemma stream_dump_reports_witness :
  background sample_final = [] ++ [("/tmp/e", "s3://bkt/e", "lz4")].
Proof.
  refine (proj2 (proj2 (stream_dump_reports sample_env (s3_storage None) (mkInstalled true true)
    sample_newFs (λ _, mret None) sample_dump sample_world sample_final None _ _ _ _ _))).
  - intros k Hk. assert (map_Forall (λ k _, ¬ resolve "/tmp/e" `prefix_of` k) sample_fs) as Hall by by_decide.
    destruct (wfs sample_world !! k) eqn:Hl; [|reflexivity]. destruct (Hall _ _ Hl Hk).
  - intros lcl p mode c v a v' Hrun. rewrite /sample_newFs /mret /Go_ret in Hrun. by simplify_eq.
  - intros lcl p mode c v wait v' Hrun. rewrite /sample_newFs /mret /Go_ret in Hrun. simplify_eq/=.
    intros u a u' Hu. rewrite /Go_ret in Hu. by simplify_eq.
  - intros v a v' Hrun. rewrite /mret /Go_ret in Hrun. by simplify_eq.
  - vm_compute. reflexivity.
Defined.
End StreamerAdapters.
