(* ===== verification/Gpu.v ===== *)
(** * GPU controllers (internal/cedana/gpu)

    [controller.go]: the controllers, the pool of them and its
    synchronisation with the sockets in the file system.  [manager_simple.go]
    and [manager_pool.go]: attaching a controller to a process and keeping a
    number of free controllers ready.

    A controller is a pointer in the code; here it is named by its ID and the
    object behind it is the entry of the pool.  The controller process itself
    (cedana-gpu), file locks (gofrs/flock) and the process table (gopsutil) are
    outside the repository: they are the fields of [Env] and the class
    [FileLock].  A computation that dereferences nil has no result, as one
    that blocks forever. *)

From S2P Require Import Prelude GoLib.
Import GoLib.

Module Gpu.

#[local] Open Scope Z_scope.

(** ** File locks

    A lock value is a handle and what the system knows about its file.  The
    laws are those of flock(2): a handle that holds the lock gets it again. *)
Class FileLock := {
  flock : Type;
  flock_New : string → flock;
  TryLock : flock → bool * flock;
  Locked : flock → bool;
  Unlock : flock → flock;
}.

Class FileLockLaws `{FileLock} : Prop := {
  New_free path : Locked (flock_New path) = false;
  TryLock_got f f' : TryLock f = (true, f') → Locked f' = true;
  TryLock_refused f f' : TryLock f = (false, f') → f' = f ∧ Locked f = false;
  TryLock_again f : Locked f = true → TryLock f = (true, f);
  Unlock_free f : Locked (Unlock f) = false;
  Unlock_undoes f f' : TryLock f = (true, f') → Locked f = false → Unlock f' = f;
}.

(** A lock file: whether this handle holds it and whether another process does. *)
Record lock_file := mkLockFile { lock_path : string; mine : bool; taken : bool }.

#[export] Instance plain_lock : FileLock := {
  flock := lock_file;
  flock_New path := mkLockFile path false false;
  TryLock f := if mine f then (true, f)
               else if taken f then (false, f)
               else (true, mkLockFile (lock_path f) true (taken f));
  Locked f := mine f;
  Unlock f := mkLockFile (lock_path f) false (taken f);
}.

#[export] Instance plain_lock_laws : FileLockLaws.
Proof.
  split; simpl.
  - done.
  - intros [p [] []] f'; simpl; naive_solver.
  - intros [p [] []] f'; simpl; naive_solver.
  - by intros [p [] t].
  - done.
  - intros [p [] []] f'; simpl; naive_solver.
Qed.

(** ** Data *)

(** The file name of [CONTROLLER_SOCKET_FORMATTER]. *)
Definition CONTROLLER_SOCKET_NAME (id : string) : string :=
  "cedana-gpu-controller-" +:+ id +:+ ".sock".
Definition CONTROLLER_SOCKET (dir id : string) : string := dir +:+ "/" +:+ CONTROLLER_SOCKET_NAME id.
Definition CONTROLLER_ADDRESS (dir id : string) : string := "unix://" +:+ CONTROLLER_SOCKET dir id.
Definition CONTROLLER_SHM_FILE (id : string) : string := "/dev/shm/cedana-gpu." +:+ id.
Definition CONTROLLER_MISC_DIR (id : string) : string := "/dev/shm/cedana-gpu." +:+ id +:+ ".misc".
Definition CONTROLLER_BOOKING_LOCK_FILE (id : string) : string :=
  "/dev/shm/cedana-gpu." +:+ id +:+ ".booking".
Definition LOG_DIR (dir id : string) : string := dir +:+ "/cedana-gpu." +:+ id.
Definition MAX_SYNC_FAILURES : Z := 2.
Definition SIGTERM : Z := 15.
Definition SIGKILL : Z := 9.

Record InfoResp := mkInfo {
  InfoPID : Z; InfoAttachedPID : Z; InfoShmSize : Z; InfoShmName : string; InfoVersion : string;
}.

(** What the daemon reads of its surroundings: its configuration and
    credentials, directories and files, the process table, and what the
    controller at an address answers. *)
Record Env := mkEnv {
  cfg_SockDir : string;
  cfg_LogDir : string;
  cfg_ShmSize : Z;
  cfg_Debug : bool;
  Getuid : Z;
  Getgid : Z;
  Getpid : Z;
  ReadDir : string → gores (list string);
  Stat : string → gores (Z * Z);          (** the owner of a file *)
  proc_status : Z → gores (list string);  (** the states of a process *)
  exits : Z → bool;                       (** the process exits on SIGTERM *)
  NewClient : string → option error;
  Info : string → gores InfoResp;
  AttachReq : string → Z → option error;
  FreezeReq : string → option error;
  UnfreezeReq : string → option error;
  gpu_binary : option string;             (** the first binary of the installed plugin *)
}.

(** [utils.PidRunning] *)
Definition PidRunning (E : Env) (pid : Z) : bool :=
  match proc_status E (int32 pid) with
  | Err _ => false
  | Ok s => negb (bool_decide ("zombie" ∈ s))
  end.

Inductive controllerStatus := CONTROLLER_STALE | CONTROLLER_FREE | CONTROLLER_BUSY.

#[global] Instance controllerStatus_eq_dec : EqDecision controllerStatus.
Proof. solve_decision. Defined.

(** [utils.GRPCError] and [utils.GRPCErrorShort]; [extra] is "" when the
    caller gives none. *)
Definition GRPCError (err : error) (extra : string) : error :=
  match err with
  | Status c msg =>
      if decide (TrimSpace extra = "") then Errorf (code_String c +:+ ": " +:+ msg)
      else Errorf (code_String c +:+ ": " +:+ msg +:+ ": " +:+ TrimSpace extra)
  | _ => err
  end.

Definition GRPCErrorShort (err : error) (extra : string) : error :=
  match err with
  | Status c _ =>
      if decide (TrimSpace extra = "") then Errorf (code_String c)
      else Errorf (code_String c +:+ ": " +:+ TrimSpace extra)
  | _ => err
  end.

Section gpu.
Context `{FL : FileLock} `{MR : MapRange}.

Record controller := mkController {
  ID : string;
  PID : Z;
  ParentPID : Z;
  Address : string;
  AttachedPID : Z;
  ShmSize : Z;
  ShmName : string;
  UID : Z;
  GID : Z;
  Version : string;
  ErrBuf : option string;      (** None is the nil buffer *)
  Booking : flock;
  Termination : bool;          (** the mutex is held *)
  Terminating : bool;
  syncFails : Z;
  ClientConn : bool;           (** a client connection exists *)
}.

(** [bytes.Buffer.String], on a nil buffer too. *)
Definition ErrBuf_String (c : controller) : string :=
  match ErrBuf c with None => "<nil>" | Some s => s end.

(** Updates of one or a few fields. *)
Definition set_Booking (f : flock) (c : controller) : controller :=
  mkController (ID c) (PID c) (ParentPID c) (Address c) (AttachedPID c) (ShmSize c) (ShmName c)
    (UID c) (GID c) (Version c) (ErrBuf c) f (Termination c) (Terminating c) (syncFails c)
    (ClientConn c).
Definition set_Termination (b : bool) (c : controller) : controller :=
  mkController (ID c) (PID c) (ParentPID c) (Address c) (AttachedPID c) (ShmSize c) (ShmName c)
    (UID c) (GID c) (Version c) (ErrBuf c) (Booking c) b (Terminating c) (syncFails c)
    (ClientConn c).
Definition set_AttachedPID (pid : Z) (c : controller) : controller :=
  mkController (ID c) (PID c) (ParentPID c) (Address c) pid (ShmSize c) (ShmName c)
    (UID c) (GID c) (Version c) (ErrBuf c) (Booking c) (Termination c) (Terminating c) (syncFails c)
    (ClientConn c).
Definition set_syncFails (n : Z) (c : controller) : controller :=
  mkController (ID c) (PID c) (ParentPID c) (Address c) (AttachedPID c) (ShmSize c) (ShmName c)
    (UID c) (GID c) (Version c) (ErrBuf c) (Booking c) (Termination c) (Terminating c) n
    (ClientConn c).
Definition set_ClientConn (b : bool) (c : controller) : controller :=
  mkController (ID c) (PID c) (ParentPID c) (Address c) (AttachedPID c) (ShmSize c) (ShmName c)
    (UID c) (GID c) (Version c) (ErrBuf c) (Booking c) (Termination c) (Terminating c) (syncFails c)
    b.
Definition set_process (pid ppid : Z) (stderr : string) (c : controller) : controller :=
  mkController (ID c) pid ppid (Address c) (AttachedPID c) (ShmSize c) (ShmName c)
    (UID c) (GID c) (Version c) (Some stderr) (Booking c) (Termination c) (Terminating c) (syncFails c)
    (ClientConn c).
Definition set_info (info : InfoResp) (c : controller) : controller :=
  mkController (ID c) (InfoPID info) (ParentPID c) (Address c)
    (if decide (InfoAttachedPID info ≠ 0) then InfoAttachedPID info else AttachedPID c)
    (InfoShmSize info) (InfoShmName info)
    (UID c) (GID c) (InfoVersion info) (ErrBuf c) (Booking c) (Termination c) (Terminating c)
    (syncFails c) (ClientConn c).

(** The pool and the traces its operations leave in the system. *)
Record world := mkWorld {
  pool : gmap string controller;
  removed : list string;         (** the paths removed *)
  signals : list (Z * Z);        (** the signals sent: process, signal *)
}.

Definition set_pool (f : gmap string controller → gmap string controller) (w : world) : world :=
  mkWorld (f (pool w)) (removed w) (signals w).

(** Changes the controller behind the pointer [id]. *)
Definition update (id : string) (f : controller → controller) : Go world unit :=
  modify (set_pool (alter f id)).

(** ** A controller *)

Definition Status_ (E : Env) (c : controller) : controllerStatus * string :=
  if (bool_decide (syncFails c < MAX_SYNC_FAILURES) && PidRunning E (PID c)) then
    if decide (AttachedPID c = 0) then
      let shmSizeMatches := bool_decide (ShmSize c = uint64 (cfg_ShmSize E)) in
      let credentialsMatch := bool_decide (UID c = uint32 (Getuid E)) &&
                              bool_decide (GID c = uint32 (Getgid E)) in
      if shmSizeMatches && credentialsMatch then (CONTROLLER_FREE, "controller free and compatible")
      else if negb shmSizeMatches then
        (CONTROLLER_STALE, "controller shm size mismatch (expected " +:+ itoaZ (cfg_ShmSize E)
           +:+ ", got " +:+ itoaZ (ShmSize c) +:+ ")")
      else
        (CONTROLLER_STALE, "controller credentials mismatch (expected " +:+ itoaZ (Getuid E)
           +:+ ":" +:+ itoaZ (Getgid E) +:+ ", got " +:+ itoaZ (UID c) +:+ ":"
           +:+ itoaZ (GID c) +:+ ")")
    else if PidRunning E (AttachedPID c) then (CONTROLLER_BUSY, "attached process is running")
    else (CONTROLLER_STALE, "attached process not running")
  else (CONTROLLER_STALE, "controller process not running").

(** [controller.Book], on the object. *)
Definition controller_Book (E : Env) (c : controller) : bool * controller :=
  let '(acquired, f) := TryLock (Booking c) in
  if negb acquired then (false, set_Booking f c)
  else
    let c := set_Booking f c in
    if decide (fst (Status_ E c) = CONTROLLER_FREE) then (true, c)
    else (false, set_Booking (Unlock f) c).

(** [controller.Sync], on the object; [Info] and [WaitForInfo] differ in how
    long they wait and in how they report an error. *)
Definition controller_Sync (E : Env) (wait : bool) (c : controller) : option error * controller :=
  if decide (Address c = "") then (Some (Errorf "controller address is not set"), c)
  else
    let dial := if ClientConn c then None else NewClient E (Address c) in
    match dial with
    | Some e =>
        (Some (Errorf ("failed to create GPU controller client: "
           +:+ Error (GRPCErrorShort e (ErrBuf_String c)))), c)
    | None =>
        let c := set_ClientConn true c in
        match Info E (Address c) with
        | Err e => (Some (if wait then GRPCErrorShort e (ErrBuf_String c) else e), c)
        | Ok info => (None, set_info info c)
        end
    end.

(** The object behind a pointer; a nil or dangling one is not dereferenced. *)
Definition deref (id : string) : Go world controller :=
  w ← get; match pool w !! id with Some c => mret c | None => block end.

(** Runs an operation on the object and stores what it became. *)
Definition on {A} (id : string) (f : controller → A * controller) : Go world A :=
  c ← deref id; let '(a, c') := f c in _ ← update id (λ _, c'); mret a.

(** [controller.Attach]; without a client connection it dereferences nil. *)
Definition controller_Attach (E : Env) (id : string) (pid : Z) : Go world (option error) :=
  c ← deref id;
  if ClientConn c then
    match AttachReq E (Address c) pid with
    | Some e => mret (Some (GRPCErrorShort e (ErrBuf_String c)))
    | None => _ ← update id (set_AttachedPID pid); mret None
    end
  else block.

(** ** The pool *)

Definition pool_Get (id : string) : Go world (option controller) :=
  w ← get; mret (pool w !! id).

Definition pool_Find (attachedPID : Z) (P : gmap string controller) : option controller :=
  snd <$> head (filter (λ kv, AttachedPID (kv.2) = attachedPID) (Range P)).

(** What [List] counts a controller as: a booked one is busy. *)
Definition classify (E : Env) (c : controller) : controllerStatus :=
  if Locked (Booking c) then CONTROLLER_BUSY else fst (Status_ E c).

Record listing := mkListing {
  free : list string; busy : list string; stale : list string; staleReason : list string;
}.

Definition list_step (E : Env) (l : listing) (kv : string * controller) : listing :=
  let '(id, c) := kv in
  if Locked (Booking c) then mkListing (free l) (busy l ++ [id]) (stale l) (staleReason l)
  else
    let '(status, reason) := Status_ E c in
    match status with
    | CONTROLLER_FREE => mkListing (free l ++ [id]) (busy l) (stale l) (staleReason l)
    | CONTROLLER_BUSY => mkListing (free l) (busy l ++ [id]) (stale l) (staleReason l)
    | CONTROLLER_STALE => mkListing (free l) (busy l) (stale l ++ [id]) (staleReason l ++ [reason])
    end.

Definition pool_List (E : Env) (P : gmap string controller) : listing :=
  foldl (list_step E) (mkListing [] [] [] []) (Range P).

(** [FindStringSubmatch] of the socket pattern, whose group and whose dot
    before "sock" match any bytes but a newline: the leftmost match, the group
    as long as possible. *)
Fixpoint greedy_sock (s : string) : option string :=
  match s with
  | EmptyString => None
  | String x s' =>
      if bool_decide (x = Ascii.ascii_of_nat 10) then None
      else match greedy_sock s' with
           | Some g => Some (String x g)
           | None => if HasPrefix s' "sock" then Some EmptyString else None
           end
  end.

Definition SOCKET_PREFIX : string := "cedana-gpu-controller-".

Fixpoint socket_id (s : string) : option string :=
  match (if HasPrefix s SOCKET_PREFIX
         then greedy_sock (String.substring (String.length SOCKET_PREFIX) (String.length s) s)
         else None) with
  | Some g => Some g
  | None => match s with EmptyString => None | String _ s' => socket_id s' end
  end.

(** One entry of the socket directory.  The clients are refreshed in
    goroutines of their own, each changing only the controller of its socket;
    here they run in the order of the directory. *)
Definition sync_entry (E : Env) (name : string) : Go world unit :=
  match socket_id name with
  | None => mret ()
  | Some id =>
      if decide (id = "") then mret ()
      else
        c ← pool_Get id;
        let c :=
          match c with
          | Some c => Some c
          | None =>
              match Stat E (CONTROLLER_SOCKET (cfg_SockDir E) id) with
              | Err _ => None
              | Ok (uid, gid) =>
                  Some (mkController id 0 0 (CONTROLLER_ADDRESS (cfg_SockDir E) id) 0 0 "" uid gid ""
                    None (flock_New (CONTROLLER_BOOKING_LOCK_FILE id)) false false 0 false)
              end
          end in
        match c with
        | None => mret ()
        | Some c =>
            if Locked (Booking c) then mret ()
            else
              let '(err, c') := controller_Sync E false c in
              let c' := match err with
                        | None => set_syncFails 0 c'
                        | Some _ => set_syncFails (syncFails c' + 1) c'
                        end in
              modify (set_pool <[id := c']>)
        end
  end.

Fixpoint each {A} (f : A → Go world unit) (l : list A) : Go world unit :=
  match l with [] => mret () | x :: l' => _ ← f x; each f l' end.

Definition pool_Sync (E : Env) : Go world (option error) :=
  match ReadDir E (cfg_SockDir E) with
  | Err e => mret (Some (Errorf ("failed to read GPU sock directory: " +:+ Error e)))
  | Ok list => _ ← each (sync_entry E) list; mret None
  end.

(** [pool.Book]: the first free controller that can be booked. *)
Fixpoint book_first (E : Env) (ids : list string) : Go world (option string) :=
  match ids with
  | [] => mret None
  | id :: ids' =>
      ok ← on id (controller_Book E);
      if (ok : bool) then mret (Some id) else book_first E ids'
  end.

Definition pool_Book (E : Env) : Go world (option string) :=
  w ← get; book_first E (free (pool_List E (pool w))).

(** The deferred calls of [Terminate], last deferred first. *)
Definition clean_up (E : Env) (id : string) (w : world) : world :=
  mkWorld (delete id (pool w))
    (removed w ++ [CONTROLLER_MISC_DIR id; CONTROLLER_SHM_FILE id;
                   CONTROLLER_SOCKET (cfg_SockDir E) id; CONTROLLER_BOOKING_LOCK_FILE id])
    (signals w).

Definition send_signal (pid sig : Z) (w : world) : world :=
  mkWorld (pool w) (removed w) (signals w ++ [(pid, sig)]).

(** A child is reaped, which takes until it exits; for another process the
    wait is bounded by a timeout. *)
Definition pool_Terminate (E : Env) (id : string) : Go world unit :=
  c ← pool_Get id;
  match c with
  | None => mret ()
  | Some c =>
      if Termination c then block
      else if Terminating c then mret ()
      else if decide (PID c = 0) then modify (clean_up E id)
      else
        _ ← modify (send_signal (PID c) SIGTERM);
        if decide (ParentPID c = Getpid E ∧ exits E (PID c) = false) then block
        else modify (clean_up E id)
  end.

(** [utils.Getenv] *)
Definition Getenv (env : list string) (key : string) : string :=
  default "" (head (omap (λ e, CutPrefix e (key +:+ "=")) (reverse env))).

(** How one spawn goes: the identifier drawn, the outcome of creating the log
    directory, the process started or why it was not, and what it wrote to its
    standard error while the daemon connected to it. *)
Record Spawning := mkSpawning {
  NewString : string;
  EnsureLogDir : option error;
  Start : gores Z;
  Stderr : string;
}.

Definition spawned (E : Env) (id : string) (f : flock) : controller :=
  mkController id 0 0 (CONTROLLER_ADDRESS (cfg_SockDir E) id) 0 0 "" (uint32 (Getuid E))
    (uint32 (Getgid E)) "" (Some "") f false false 0 false.

Definition pool_Spawn (E : Env) (sp : Spawning) (env : list string) : Go world (gores string) :=
  let id := NewString sp in
  let isHealthCheck := bool_decide (Getenv env "CEDANA_GPU_HEALTH_CHECK" = "1") in
  let logErr := if negb isHealthCheck && negb (bool_decide (cfg_LogDir E = ""))
                then EnsureLogDir sp else None in
  match logErr with
  | Some e => mret (Err (Errorf ("failed to create GPU controller log directory: " +:+ Error e)))
  | None =>
      let '(locked, f) := TryLock (flock_New (CONTROLLER_BOOKING_LOCK_FILE id)) in
      if negb locked then
        _ ← modify (λ w, mkWorld (pool w) (removed w ++ [CONTROLLER_BOOKING_LOCK_FILE id]) (signals w));
        mret (Err (Errorf "failed to lock GPU controller booking"))
      else
        _ ← modify (set_pool <[id := spawned E id f]>);
        match Start sp with
        | Err e =>
            _ ← pool_Terminate E id;
            mret (Err (Errorf ("failed to start GPU controller: " +:+ Error (GRPCErrorShort e ""))))
        | Ok pid =>
            _ ← update id (set_process (uint32 pid) (uint32 (Getpid E)) (Stderr sp));
            err ← on id (controller_Sync E true);
            match err with
            | None => mret (Ok id)
            | Some e =>
                _ ← pool_Terminate E id;
                mret (Err (Errorf ("failed to connect to GPU controller: " +:+ Error e)))
            end
        end
  end.

(** ** The simple manager *)

(** What the plugin manager knows of the gpu plugin. *)
Record GpuPlugin := mkGpuPlugin { Installed : bool; BinaryPaths : list string }.

(** [ManagerSimple.Attach] up to its return; [sp] is how a spawn would go and
    [bin] what [os.Stat] says of the binary. *)
Definition Attach (E : Env) (plugin : GpuPlugin) (bin : option error) (sp : Spawning)
    : Go world (gores string) :=
  if negb (Installed plugin) then
    mret (Err (Errorf "Please install the GPU plugin to use GPU support"))
  else
    match BinaryPaths plugin with
    | [] => block
    | _ :: _ =>
        match bin with
        | Some e => mret (Err e)
        | None =>
            booked ← pool_Book E;
            match booked with
            | Some id => mret (Ok id)
            | None => pool_Spawn E sp []
            end
        end
    end.

(** The goroutine [Attach] leaves behind, once the process started with the
    PID [Some pid] or the context was cancelled or the channel closed. *)
Definition Attach_finish (E : Env) (id : string) (pid : option Z) : Go world unit :=
  ok ← match pid with
       | None => mret false
       | Some pid =>
           _ ← update id (set_AttachedPID pid);
           err ← controller_Attach E id pid;
           mret (bool_decide (err = None))
       end;
  if (ok : bool) then update id (λ c, set_Booking (Unlock (Booking c)) c)
  else pool_Terminate E id.

Definition Detach (E : Env) (pid : Z) : Go world (option error) :=
  w ← get;
  match pool_Find pid (pool w) with
  | None => mret (Some (Errorf ("no GPU controller found attached to PID " +:+ itoaZ pid)))
  | Some c =>
      acquired ← on (ID c) (λ c, let '(b, f) := TryLock (Booking c) in (b, set_Booking f c));
      if negb acquired then
        mret (Some (Errorf ("GPU controller attached to PID " +:+ itoaZ pid +:+ " is busy")))
      else _ ← pool_Terminate E (ID c); mret None
  end.

Definition IsAttached (pid : Z) : Go world bool :=
  w ← get; mret (bool_decide (is_Some (pool_Find pid (pool w)))).

Definition GetID (pid : Z) : Go world string :=
  w ← get; mret (match pool_Find pid (pool w) with None => "" | Some c => ID c end).

Definition Freeze (E : Env) (pid : Z) : Go world (option error) :=
  w ← get;
  match pool_Find pid (pool w) with
  | None => mret (Some (Errorf ("no GPU controller found attached to PID " +:+ itoaZ pid)))
  | Some c => if ClientConn c then mret (FreezeReq E (Address c)) else block
  end.

Definition Unfreeze (E : Env) (pid : Z) : Go world (option error) :=
  w ← get;
  match pool_Find pid (pool w) with
  | None => mret (Some (Errorf ("no GPU controller found attached to PID " +:+ itoaZ pid)))
  | Some c => if ClientConn c then mret (UnfreezeReq E (Address c)) else block
  end.

(** [ManagerSimple.Sync] *)
Definition ManagerSimple_Sync (E : Env) (syncing : bool) : Go world (option error) :=
  if syncing then mret None else pool_Sync E.

(** ** The manager of a pool of free controllers *)

Record ManagerPool := mkManagerPool {
  poolSize : Z; m_free : Z; m_busy : Z; m_stale : Z;
}.

(** Clears a stale controller unless somebody booked it. *)
Definition clear_stale (E : Env) (id : string) : Go world unit :=
  acquired ← on id (λ c, let '(b, f) := TryLock (Booking c) in (b, set_Booking f c));
  if (acquired : bool) then pool_Terminate E id else mret ().

(** Spawns a controller for the pool and sets it free. *)
Definition spawn_free (E : Env) (sp : Spawning) : Go world unit :=
  match gpu_binary E with
  | None => block
  | Some _ =>
      r ← pool_Spawn E sp [];
      match r with
      | Err _ => mret ()
      | Ok id => update id (λ c, set_Booking (Unlock (Booking c)) c)
      end
  end.

(** Terminates a controller if it is still free. *)
Definition drop_free (E : Env) (id : string) : Go world unit :=
  ok ← on id (controller_Book E);
  if (ok : bool) then pool_Terminate E id else mret ().

(** [ManagerPool.Sync].  A caller that finds a synchronisation in progress
    ([syncing]) waits for it and returns nil.  [sps] is how the spawns go, in
    order; the goroutines that spawn or terminate touch different controllers
    and run one after the other here. *)
Definition ManagerPool_Sync (E : Env) (sps : list Spawning) (syncing : bool) (m : ManagerPool)
    : Go world (option error * ManagerPool) :=
  if syncing then mret (None, m)
  else
  err ← pool_Sync E;
  match err with
  | Some e => mret (Some (Errorf ("failed to sync GPU controllers: " +:+ Error e)), m)
  | None =>
      w ← get;
      let l := pool_List E (pool w) in
      let nfree := Z.of_nat (length (free l)) in
      let m := mkManagerPool (poolSize m) nfree (Z.of_nat (length (busy l)))
                 (Z.of_nat (length (stale l))) in
      if cfg_Debug E then mret (None, m)
      else
        _ ← each (clear_stale E) (stale l);
        _ ← (if decide (nfree < poolSize m) then
               each (spawn_free E) (take (Z.to_nat (poolSize m - nfree)) sps)
             else if decide (nfree > poolSize m) then
               (* slicing with a negative bound panics *)
               if decide (poolSize m < 0) then block
               else each (drop_free E) (drop (Z.to_nat (poolSize m)) (free l))
             else mret ());
        mret (None, m)
  end.

(** ** Lemmas *)

Implicit Types (E : Env) (P : gmap string controller) (id : string) (c : controller) (w : world).

Definition ids_of (E : Env) (s : controllerStatus) (l : list (string * controller)) : list string :=
  (filter (λ kv, classify E kv.2 = s) l).*1.

Lemma list_fold_spec E l acc :
  let r := foldl (list_step E) acc l in
  free r = free acc ++ ids_of E CONTROLLER_FREE l ∧
  busy r = busy acc ++ ids_of E CONTROLLER_BUSY l ∧
  stale r = stale acc ++ ids_of E CONTROLLER_STALE l.
Proof.
  cbv zeta. revert acc. induction l as [|[id c] l IH]; intros acc.
  { by rewrite !app_nil_r. }
  cbn [foldl]. destruct (IH (list_step E acc (id, c))) as (-> & -> & ->).
  rewrite /ids_of !filter_cons /list_step /classify /=.
  destruct (Locked (Booking c)); [|destruct (Status_ E c) as [[] reason]]; simpl;
    by rewrite -!app_assoc.
Qed.

Lemma elem_of_ids E s P id :
  id ∈ ids_of E s (Range P) ↔ ∃ c, P !! id = Some c ∧ classify E c = s.
Proof.
  rewrite /ids_of list_elem_of_fmap. split.
  - intros ([k c] & -> & [Hs Hin]%list_elem_of_filter). exists c. split; [by apply elem_of_Range|done].
  - intros (c & Hc & Hs). exists (id, c). split; [done|]. apply list_elem_of_filter.
    split; [done|]. by apply elem_of_Range.
Qed.

Lemma NoDup_ids E s P : NoDup (ids_of E s (Range P)).
Proof.
  rewrite /ids_of. eapply sublist_NoDup; [apply (NoDup_Range_fst P)|].
  apply fmap_sublist, sublist_filter.
Qed.

Lemma pool_List_free E P : free (pool_List E P) = ids_of E CONTROLLER_FREE (Range P).
Proof. by destruct (list_fold_spec E (Range P) (mkListing [] [] [] [])) as (? & _). Qed.
Lemma pool_List_stale E P : stale (pool_List E P) = ids_of E CONTROLLER_STALE (Range P).
Proof. by destruct (list_fold_spec E (Range P) (mkListing [] [] [] [])) as (_ & _ & ?). Qed.
Lemma pool_List_busy E P : busy (pool_List E P) = ids_of E CONTROLLER_BUSY (Range P).
Proof. by destruct (list_fold_spec E (Range P) (mkListing [] [] [] [])) as (_ & ? & _). Qed.

(** The number of controllers of a kind, from any list of them. *)
Lemma length_ids E s P (l : list string) :
  NoDup l → (∀ id, id ∈ l ↔ ∃ c, P !! id = Some c ∧ classify E c = s) →
  length (ids_of E s (Range P)) = length l.
Proof.
  intros Hl Hin. apply Permutation_length, NoDup_Permutation; [apply NoDup_ids|done|].
  intros id. by rewrite elem_of_ids Hin.
Qed.

#[local] Arguments update : simpl never.
#[local] Arguments on : simpl never.

(** ** Single steps *)

Context `{FLL : !FileLockLaws}.

(** A controller that [Terminate] can clear: nobody holds its termination
    lock, and if it is a child of the daemon it exits on SIGTERM. *)
Definition clearable E c : Prop :=
  Termination c = false ∧ Terminating c = false ∧
  (PID c ≠ 0 → ParentPID c = Getpid E → exits E (PID c) = true).

(** No other process has booked it. *)
Definition bookable c : Prop := fst (TryLock (Booking c)) = true.

Lemma set_pool_alter id f w c :
  pool w !! id = Some c → set_pool (alter f id) w = set_pool <[id := f c]> w.
Proof.
  intros Hc. rewrite /set_pool. f_equal. apply map_eq. intros j.
  destruct (decide (id = j)) as [->|Hne].
  - by rewrite lookup_alter_eq Hc lookup_insert_eq.
  - by rewrite lookup_alter_ne // lookup_insert_ne.
Qed.

Lemma on_Some {A} id (f : controller → A * controller) w c :
  pool w !! id = Some c →
  on id f w = Some (fst (f c), set_pool <[id := snd (f c)]> w).
Proof.
  intros Hc. rewrite /on /deref /mbind /Go_bind /= Hc /mret /Go_ret.
  destruct (f c) as [a c'] eqn:Hf. rewrite /update /modify /=.
  by rewrite (set_pool_alter _ _ _ c Hc).
Qed.

Lemma Terminate_clears E id c w :
  pool w !! id = Some c → clearable E c →
  ∃ w', pool_Terminate E id w = Some ((), w') ∧ pool w' = delete id (pool w) ∧
    (∀ f, f ∈ [CONTROLLER_MISC_DIR id; CONTROLLER_SHM_FILE id;
               CONTROLLER_SOCKET (cfg_SockDir E) id; CONTROLLER_BOOKING_LOCK_FILE id] →
          f ∈ removed w') ∧
    (PID c ≠ 0 → (PID c, SIGTERM) ∈ signals w').
Proof.
  intros Hc (Ht & Hg & Hx). rewrite /pool_Terminate /pool_Get /mbind /Go_bind /= Hc.
  rewrite /mret /Go_ret Ht Hg. case_decide as Hp.
  - eexists. split; [done|]. split; [done|]. split; [|done].
    intros f Hf. simpl. apply elem_of_app. by right.
  - rewrite /modify /=. case_decide as Hd.
    { destruct Hd as [Hpp He]. rewrite Hx // in He. }
    eexists. split; [done|]. split; [done|]. split.
    + intros f Hf. simpl. apply elem_of_app. by right.
    + intros _. simpl. apply elem_of_app. right. by apply list_elem_of_singleton.
Qed.

Lemma clear_stale_clears E id c w :
  pool w !! id = Some c → clearable E c → bookable c →
  ∃ w', clear_stale E id w = Some ((), w') ∧ pool w' = delete id (pool w).
Proof.
  intros Hc Hcl Hb. rewrite /clear_stale /mbind /Go_bind (on_Some _ _ _ _ Hc).
  rewrite /bookable in Hb. destruct (TryLock (Booking c)) as [b f] eqn:Hl. simpl in *. subst b.
  edestruct (Terminate_clears E id (set_Booking f c) (set_pool <[id:=set_Booking f c]> w))
    as (w' & -> & Hp & _); [by rewrite /= lookup_insert_eq|done|].
  exists w'. split; [done|]. by rewrite Hp /= delete_insert_eq.
Qed.

Lemma Status_set_Booking E f c : Status_ E (set_Booking f c) = Status_ E c.
Proof. done. Qed.

(** A free controller nobody else has booked can be booked. *)
Lemma Book_free E c :
  classify E c = CONTROLLER_FREE → bookable c →
  ∃ f, controller_Book E c = (true, set_Booking f c) ∧ Locked f = true.
Proof.
  rewrite /classify /bookable /controller_Book. destruct (Locked (Booking c)); [done|].
  intros Hs Hb. destruct (TryLock (Booking c)) as [b f] eqn:Hl. simpl in *. subst b.
  rewrite Status_set_Booking decide_True //. exists f. split; [done|]. by eapply TryLock_got.
Qed.

Lemma drop_free_clears E id c w :
  pool w !! id = Some c → clearable E c → bookable c → classify E c = CONTROLLER_FREE →
  ∃ w', drop_free E id w = Some ((), w') ∧ pool w' = delete id (pool w).
Proof.
  intros Hc Hcl Hb Hf. rewrite /drop_free /mbind /Go_bind (on_Some _ _ _ _ Hc).
  destruct (Book_free E c Hf Hb) as (f & -> & _). simpl.
  edestruct (Terminate_clears E id (set_Booking f c) (set_pool <[id:=set_Booking f c]> w))
    as (w' & -> & Hp & _); [by rewrite /= lookup_insert_eq|done|].
  exists w'. split; [done|]. by rewrite Hp /= delete_insert_eq.
Qed.

(** A loop that takes the controllers [ids] out of the pool. *)
Lemma each_clears (f : string → Go world unit) (ok : controller → Prop) ids w :
  (∀ id c w, pool w !! id = Some c → ok c →
     ∃ w', f id w = Some ((), w') ∧ pool w' = delete id (pool w)) →
  NoDup ids → (∀ id, id ∈ ids → ∃ c, pool w !! id = Some c ∧ ok c) →
  ∃ w', each f ids w = Some ((), w') ∧
    ∀ id, pool w' !! id = if decide (id ∈ ids) then None else pool w !! id.
Proof.
  intros Hf Hnd. revert w. induction Hnd as [|id ids Hid Hnd IH]; intros w Hin.
  { exists w. split; [done|]. intros id. case_decide as Hd; [|done].
    by apply elem_of_nil in Hd. }
  destruct (Hin id) as (c & Hc & Hok); [by constructor|].
  destruct (Hf id c w Hc Hok) as (w1 & Hstep & Hp).
  destruct (IH w1) as (w2 & Hrest & Hlk).
  { intros j Hj. destruct (Hin j) as (c' & Hc' & Hok'); [by constructor|].
    exists c'. rewrite Hp lookup_delete_ne //. by intros ->. }
  exists w2. split; [by rewrite /= /mbind /Go_bind Hstep|]. intros j. rewrite Hlk Hp.
  destruct (decide (j = id)) as [->|Hne].
  - rewrite decide_False // lookup_delete_eq decide_True //. by constructor.
  - rewrite lookup_delete_ne //. apply decide_ext. rewrite elem_of_cons. naive_solver.
Qed.

(** ** Spawning *)

(** A spawn that succeeds: the process starts, its socket answers, and what it
    reports makes it a free controller. *)
Definition good_spawn E (sp : Spawning) : Prop :=
  EnsureLogDir sp = None ∧
  fst (TryLock (flock_New (CONTROLLER_BOOKING_LOCK_FILE (NewString sp)))) = true ∧
  (∃ pid, Start sp = Ok pid) ∧
  NewClient E (CONTROLLER_ADDRESS (cfg_SockDir E) (NewString sp)) = None ∧
  (∃ info, Info E (CONTROLLER_ADDRESS (cfg_SockDir E) (NewString sp)) = Ok info ∧
     InfoAttachedPID info = 0 ∧ InfoShmSize info = uint64 (cfg_ShmSize E) ∧
     PidRunning E (InfoPID info) = true).

(** What a successful spawn leaves in the pool. *)
Definition ready E (sp : Spawning) (f : flock) (pid : Z) (info : InfoResp) : controller :=
  set_info info (set_ClientConn true
    (set_process (uint32 pid) (uint32 (Getpid E)) (Stderr sp) (spawned E (NewString sp) f))).

Lemma Address_nonempty dir id : CONTROLLER_ADDRESS dir id ≠ "".
Proof. done. Qed.

Lemma set_pool_insert_twice id c1 c2 w :
  set_pool <[id := c1]> (set_pool <[id := c2]> w) = set_pool <[id := c1]> w.
Proof. rewrite /set_pool /=. f_equal. apply insert_insert_eq. Qed.

Lemma Spawn_ok E sp w :
  good_spawn E sp →
  ∃ f pid info, Locked f = true ∧
    Info E (CONTROLLER_ADDRESS (cfg_SockDir E) (NewString sp)) = Ok info ∧
    pool_Spawn E sp [] w =
      Some (Ok (NewString sp), set_pool <[NewString sp := ready E sp f pid info]> w).
Proof.
  intros (Hlog & Hl & (pid & Hs) & Hd & info & Hi & _). rewrite /pool_Spawn Hlog.
  destruct (TryLock _) as [b f] eqn:Hf. simpl in Hl. subst b.
  exists f, pid, info. split; [by eapply TryLock_got|]. split; [done|].
  assert ((if negb (bool_decide (Getenv [] "CEDANA_GPU_HEALTH_CHECK" = "1"))
             && negb (bool_decide (cfg_LogDir E = "")) then @None error else None) = None) as ->
    by by case_match.
  rewrite Hs /mbind /Go_bind /=.
  erewrite set_pool_alter; [|by rewrite /= lookup_insert_eq]. rewrite set_pool_insert_twice.
  erewrite on_Some; [|by rewrite /= lookup_insert_eq]. rewrite set_pool_insert_twice.
  rewrite /controller_Sync /= Hd Hi /= //.
Qed.

Lemma spawn_free_adds E sp w :
  is_Some (gpu_binary E) → good_spawn E sp →
  ∃ c, spawn_free E sp w = Some ((), set_pool <[NewString sp := c]> w) ∧
    classify E c = CONTROLLER_FREE.
Proof.
  intros [b Hb] Hg. rewrite /spawn_free Hb /mbind /Go_bind.
  destruct (Spawn_ok E sp w Hg) as (f & pid & info & Hf & Hi & ->).
  destruct Hg as (_ & _ & _ & _ & info' & Hi' & Ha & Hshm & Hrun).
  rewrite Hi in Hi'. injection Hi' as <-.
  eexists. split.
  { rewrite /update /modify. erewrite set_pool_alter; [|by rewrite /= lookup_insert_eq]. by rewrite set_pool_insert_twice. }
  rewrite /classify /= Unlock_free /Status_ /= Hrun Ha Hshm.
  repeat (rewrite bool_decide_true; [done|]). done.
Qed.

Lemma each_spawns E sps w :
  is_Some (gpu_binary E) → Forall (good_spawn E) sps → NoDup (NewString <$> sps) →
  ∃ w', each (spawn_free E) sps w = Some ((), w') ∧
    ∀ id, if decide (id ∈ NewString <$> sps)
          then ∃ c, pool w' !! id = Some c ∧ classify E c = CONTROLLER_FREE
          else pool w' !! id = pool w !! id.
Proof.
  intros Hb. revert w. induction sps as [|sp sps IH]; intros w Hg Hnd.
  { exists w. split; [done|]. intros id. case_decide as Hd; [|done]. by apply elem_of_nil in Hd. }
  apply Forall_cons_1 in Hg as [Hg Hgs]. apply list.NoDup_cons in Hnd as [Hid Hnd].
  destruct (spawn_free_adds E sp w Hb Hg) as (c & Hstep & Hc).
  destruct (IH (set_pool <[NewString sp := c]> w) Hgs Hnd) as (w' & Hrest & Hlk).
  exists w'. split; [by rewrite /= /mbind /Go_bind Hstep|]. intros j. specialize (Hlk j).
  rewrite fmap_cons. destruct (decide (j ∈ NewString <$> sps)) as [Hj|Hj].
  - rewrite decide_True; [by constructor|]. done.
  - destruct (decide (j = NewString sp)) as [->|Hne].
    + rewrite decide_True; [by constructor|]. exists c. by rewrite Hlk /= lookup_insert_eq.
    + rewrite decide_False; [rewrite elem_of_cons; naive_solver|].
      by rewrite Hlk /= lookup_insert_ne.
Qed.

(** ** Keeping the pool at its size *)

(** The pool after the stale controllers were cleared. *)
Lemma stale_cleared E w :
  (∀ id c, pool w !! id = Some c → classify E c ≠ CONTROLLER_BUSY → clearable E c ∧ bookable c) →
  ∃ w', each (clear_stale E) (stale (pool_List E (pool w))) w = Some ((), w') ∧
    ∀ id c, pool w' !! id = Some c ↔ pool w !! id = Some c ∧ classify E c ≠ CONTROLLER_STALE.
Proof.
  intros Hok. rewrite pool_List_stale.
  destruct (each_clears (clear_stale E) (λ c, clearable E c ∧ bookable c)
    (ids_of E CONTROLLER_STALE (Range (pool w))) w) as (w' & Hrun & Hlk).
  - intros id c w0 Hc [? ?]. by eapply clear_stale_clears.
  - apply NoDup_ids.
  - intros id (c & Hc & Hs)%elem_of_ids. exists c. split; [done|]. apply (Hok id); [done|]. by rewrite Hs.
  - exists w'. split; [done|]. intros id c. rewrite Hlk. case_decide as Hd.
    + apply elem_of_ids in Hd as (c' & Hc' & Hs). split; [done|]. intros [Hc ?]. naive_solver.
    + rewrite elem_of_ids in Hd. naive_solver.
Qed.

(** The pool after the missing controllers were spawned. *)
Lemma spawned_up E sps w :
  is_Some (gpu_binary E) → Forall (good_spawn E) sps → NoDup (NewString <$> sps) →
  Forall (λ sp, pool w !! NewString sp = None) sps →
  ∃ w', each (spawn_free E) sps w = Some ((), w') ∧
    length (free (pool_List E (pool w'))) = (length (free (pool_List E (pool w))) + length sps)%nat ∧
    ∀ id c, classify E c ≠ CONTROLLER_FREE → pool w' !! id = Some c ↔ pool w !! id = Some c.
Proof.
  intros Hb Hg Hnd Hfresh. destruct (each_spawns E sps w Hb Hg Hnd) as (w' & Hrun & Hlk).
  assert (∀ id, id ∈ NewString <$> sps → pool w !! id = None) as Hnew.
  { intros id (sp & -> & Hsp)%list_elem_of_fmap. rewrite list.Forall_forall in Hfresh. by apply Hfresh. }
  exists w'. split; [done|]. split.
  - rewrite !pool_List_free.
    rewrite (length_ids _ _ _ (ids_of E CONTROLLER_FREE (Range (pool w)) ++ (NewString <$> sps))).
    + apply list.NoDup_app. split; [apply NoDup_ids|]. split; [|done].
      intros id (c & Hc & _)%elem_of_ids Hid. rewrite (Hnew id) // in Hc.
    + intros id. rewrite elem_of_app elem_of_ids. specialize (Hlk id). specialize (Hnew id).
      case_decide as Hd; [naive_solver|]. rewrite Hlk. naive_solver.
    + by rewrite length_app length_fmap.
  - intros id c Hc. specialize (Hlk id). specialize (Hnew id).
    case_decide as Hd; [naive_solver|]. by rewrite Hlk.
Qed.

(** The pool after the surplus was terminated. *)
Lemma trimmed_down E n l w :
  NoDup l → (∀ id, id ∈ l ↔ ∃ c, pool w !! id = Some c ∧ classify E c = CONTROLLER_FREE) →
  (∀ id c, pool w !! id = Some c → classify E c = CONTROLLER_FREE → clearable E c ∧ bookable c) →
  ∃ w', each (drop_free E) (drop n l) w = Some ((), w') ∧
    length (free (pool_List E (pool w'))) = (n `min` length l)%nat ∧
    ∀ id c, classify E c ≠ CONTROLLER_FREE → pool w' !! id = Some c ↔ pool w !! id = Some c.
Proof.
  intros Hnd Hl Hok. rewrite -(take_drop n l) in Hnd.
  apply list.NoDup_app in Hnd as (Hndt & Hdisj & Hndd).
  assert (∀ id, id ∈ l ↔ id ∈ take n l ∨ id ∈ drop n l) as Hsplit.
  { intros id. by rewrite -{1}(take_drop n l) elem_of_app. }
  destruct (each_clears (drop_free E)
    (λ c, clearable E c ∧ bookable c ∧ classify E c = CONTROLLER_FREE) (drop n l) w)
    as (w' & Hrun & Hlk).
  - intros id c w0 Hc (? & ? & ?). by eapply drop_free_clears.
  - done.
  - intros id Hid. destruct (proj1 (Hl id)) as (c & Hc & Hs); [naive_solver|].
    exists c. destruct (Hok id c Hc Hs). done.
  - exists w'. split; [done|]. split.
    + rewrite pool_List_free (length_ids _ _ _ (take n l)); [done| |by rewrite length_take].
      intros id. rewrite Hlk. specialize (Hsplit id). specialize (Hl id). specialize (Hdisj id).
      case_decide; naive_solver.
    + intros id c Hc. rewrite Hlk. case_decide as Hd; [|done].
      destruct (proj1 (Hl id)) as (c' & Hc' & Hs); naive_solver.
Qed.

(** Only free controllers were added or removed since the stale ones went. *)
Lemma kept_outside_free E w1 w2 w3 :
  (∀ id c, pool w2 !! id = Some c ↔ pool w1 !! id = Some c ∧ classify E c ≠ CONTROLLER_STALE) →
  (∀ id c, classify E c ≠ CONTROLLER_FREE → pool w3 !! id = Some c ↔ pool w2 !! id = Some c) →
  stale (pool_List E (pool w3)) = [] ∧
  ∀ id c, classify E c = CONTROLLER_BUSY → pool w3 !! id = Some c ↔ pool w1 !! id = Some c.
Proof.
  intros H2 H3. split; [|intros id c Hc; rewrite H3 ?H2 Hc //; naive_solver].
  rewrite pool_List_stale. apply elem_of_nil_inv. intros id (c & Hc & Hs)%elem_of_ids.
  rewrite H3 ?Hs // H2 in Hc. naive_solver.
Qed.

(** ** Booking *)

Lemma Book_refused E c :
  classify E c = CONTROLLER_FREE → ¬ bookable c → controller_Book E c = (false, c).
Proof.
  rewrite /classify /bookable /controller_Book. destruct (Locked (Booking c)) eqn:Hlk; [done|].
  intros Hs Hb. destruct (TryLock (Booking c)) as [[] f] eqn:Hl; [done|].
  apply TryLock_refused in Hl as [-> _]. simpl. by destruct c.
Qed.

Lemma book_first_spec E ids w :
  (∀ id, id ∈ ids → ∃ c, pool w !! id = Some c ∧ classify E c = CONTROLLER_FREE) →
  (∃ id c f, id ∈ ids ∧ pool w !! id = Some c ∧ Locked f = true ∧
     book_first E ids w = Some (Some id, set_pool <[id := set_Booking f c]> w)) ∨
  (book_first E ids w = Some (None, w) ∧
   ∀ id c, id ∈ ids → pool w !! id = Some c → ¬ bookable c).
Proof.
  induction ids as [|id ids IH]; intros Hids.
  { right. split; [done|]. by intros id c Hin%elem_of_nil. }
  destruct (Hids id) as (c & Hc & Hs); [by constructor|].
  cbn [book_first]. rewrite /mbind /Go_bind (on_Some _ _ _ _ Hc).
  destruct (decide (bookable c)) as [Hb|Hb].
  - left. destruct (Book_free E c Hs Hb) as (f & -> & Hf). exists id, c, f.
    split; [by constructor|done].
  - rewrite (Book_refused E c Hs Hb) /=.
    assert (set_pool <[id := c]> w = w) as ->.
    { destruct w as [P r g]. rewrite /set_pool /=. f_equal. by apply insert_id. }
    destruct IH as [(i & c' & f & Hin & Hrest)|[Hrun Hno]].
    + intros i Hi. apply Hids. by constructor.
    + left. exists i, c', f. split; [by constructor|done].
    + right. split; [done|]. intros i c' [->|Hi]%elem_of_cons Hc'; [naive_solver|by eapply Hno].
Qed.

Lemma pool_Book_spec E w :
  (∃ id c f, pool w !! id = Some c ∧ classify E c = CONTROLLER_FREE ∧ Locked f = true ∧
     pool_Book E w = Some (Some id, set_pool <[id := set_Booking f c]> w)) ∨
  (pool_Book E w = Some (None, w) ∧
   ∀ id c, pool w !! id = Some c → classify E c = CONTROLLER_FREE → ¬ bookable c).
Proof.
  rewrite /pool_Book /mbind /Go_bind /= pool_List_free.
  destruct (book_first_spec E (ids_of E CONTROLLER_FREE (Range (pool w))) w)
    as [(id & c & f & Hin & Hc & Hf & Hrun)|[Hrun Hno]].
  - intros id Hin. by apply elem_of_ids.
  - left. exists id, c, f. apply elem_of_ids in Hin as (c' & Hc' & Hs). simplify_eq. done.
  - right. split; [done|]. intros id c Hc Hs. eapply Hno; [|done]. apply elem_of_ids. eauto.
Qed.

(** A goroutine in the middle of [pool.Book]; each step is one call on the
    pool or on a controller. *)
Inductive booker := Listing | Trying (ids : list string) | Booked (r : option string).

Definition booker_step (E : Env) (b : booker) : Go world booker :=
  match b with
  | Listing => w ← get; mret (Trying (free (pool_List E (pool w))))
  | Trying [] => mret (Booked None)
  | Trying (id :: ids) =>
      ok ← on id (controller_Book E);
      mret (if (ok : bool) then Booked (Some id) else Trying ids)
  | Booked r => mret (Booked r)
  end.

(** Two goroutines; [true] in the schedule is a step of the first. *)
Fixpoint interleave (E : Env) (sched : list bool) (b1 b2 : booker) : Go world (booker * booker) :=
  match sched with
  | [] => mret (b1, b2)
  | true :: sched' => b1' ← booker_step E b1; interleave E sched' b1' b2
  | false :: sched' => b2' ← booker_step E b2; interleave E sched' b1 b2'
  end.

(** The steps of one goroutine alone are [pool.Book]. *)
Lemma booker_alone E ids r w w' :
  book_first E ids w = Some (r, w') →
  ∀ b2, ∃ n, interleave E (replicate n true) (Trying ids) b2 w = Some ((Booked r, b2), w').
Proof.
  revert w. induction ids as [|id ids IH]; intros w Hrun b2.
  { exists 1%nat. rewrite /= /mret /Go_ret in Hrun. injection Hrun as <- <-. done. }
  cbn [book_first] in Hrun. apply Go_bind_Some in Hrun as (ok & w1 & Hon & Hrun).
  destruct ok.
  - exists 1%nat. rewrite /= /mbind /Go_bind Hon. rewrite /mret /Go_ret in Hrun. by simplify_eq/=.
  - destruct (IH w1 Hrun b2) as [n Hn]. exists (S n). by rewrite /= /mbind /Go_bind Hon /= Hn.
Qed.

End gpu.

Arguments controller {_}.
Arguments world {_}.
#[local] Arguments update : simpl never.
#[local] Arguments on : simpl never.

(** C24: One [Sync] brings the pool to its size.  Provided the controllers it
    clears exit on SIGTERM and are not booked by another process, and the
    spawns it makes succeed under new identifiers, [Sync] returns nil; then
    exactly [poolSize] controllers are free, none is stale, and the busy ones
    are the busy ones it found: none of them was touched. *)
Theorem pool_sync_converges `{FLL : FileLockLaws} `{MR : MapRange} (E : Env) (sps : list Spawning)
    (m : ManagerPool) (w w1 : world) :
  pool_Sync E w = Some (None, w1) →
  cfg_Debug E = false → 0 <= poolSize m → is_Some (gpu_binary E) →
  (∀ id c, pool w1 !! id = Some c → classify E c ≠ CONTROLLER_BUSY → clearable E c ∧ bookable c) →
  Forall (good_spawn E) sps → NoDup (NewString <$> sps) →
  Forall (λ sp, pool w1 !! NewString sp = None) sps →
  poolSize m <= Z.of_nat (length (free (pool_List E (pool w1)))) + Z.of_nat (length sps) →
  ∃ m' w2, ManagerPool_Sync E sps false m w = Some ((None, m'), w2) ∧
    Z.of_nat (length (free (pool_List E (pool w2)))) = poolSize m ∧
    stale (pool_List E (pool w2)) = [] ∧
    (∀ id c, classify E c = CONTROLLER_BUSY → pool w2 !! id = Some c ↔ pool w1 !! id = Some c).
Proof.
  intros Hsync Hdbg Hsz Hbin Hok Hg Hnd Hfresh Hlen.
  rewrite /ManagerPool_Sync /mbind /Go_bind Hsync /= Hdbg.
  destruct (stale_cleared E w1 Hok) as (w2 & -> & Hlk2).
  assert (∀ id, id ∈ free (pool_List E (pool w1)) ↔
    ∃ c, pool w2 !! id = Some c ∧ classify E c = CONTROLLER_FREE) as Hin.
  { intros id. rewrite pool_List_free elem_of_ids.
    split; intros (c & Hc & Hs); exists c.
    - split; [|done]. apply Hlk2. by rewrite Hs.
    - by apply Hlk2 in Hc as [Hc _]. }
  assert (NoDup (free (pool_List E (pool w1)))) as Hndf by (rewrite pool_List_free; apply NoDup_ids).
  assert (length (free (pool_List E (pool w2))) = length (free (pool_List E (pool w1)))) as Hfree.
  { rewrite pool_List_free. by apply length_ids. }
  set (n := length (free (pool_List E (pool w1)))) in *.
  set (k := Z.to_nat (poolSize m - Z.of_nat n)).
  case_decide as Hlt; [|case_decide as Hgt].
  - destruct (spawned_up E (take k sps) w2) as (w3 & -> & Hl3 & H3).
    + done.
    + by apply Forall_take.
    + rewrite fmap_take. eapply sublist_NoDup; [apply Hnd|apply sublist_take].
    + apply Forall_take. rewrite !list.Forall_forall in Hfresh |- *.
      intros sp Hsp. apply Hfresh in Hsp. destruct (pool w2 !! NewString sp) as [c|] eqn:Hc; [|done].
      apply Hlk2 in Hc as [Hc _]. by rewrite Hsp in Hc.
    + eexists _, w3. split; [done|]. split; [|by eapply kept_outside_free]. rewrite Hl3 Hfree length_take. lia.
  - rewrite decide_False; [lia|].
    destruct (trimmed_down E (Z.to_nat (poolSize m)) (free (pool_List E (pool w1))) w2)
      as (w3 & -> & Hl3 & H3); [done|done| |].
    { intros id c Hc Hs. apply Hlk2 in Hc as [Hc _]. apply (Hok id); [done|by rewrite Hs]. }
    eexists _, w3. split; [done|]. split; [|by eapply kept_outside_free]. rewrite Hl3 -/n. lia.
  - eexists _, w2. split; [done|]. split; [rewrite Hfree; lia|]. by eapply kept_outside_free.
Qed.

(** [Book] hands out a free controller that nobody else holds, or none.
    It always returns; a controller it returns was free (running, not
    attached, of the configured shared memory size and the daemon's
    credentials), it is the only entry of the pool that changed, and its
    booking lock is now held, so that the next call returns another one; when
    it returns nil the pool is unchanged and every free controller is booked
    by another process. *)
Theorem Book_gives_free `{FLL : FileLockLaws} `{MR : MapRange} (E : Env) (w : world) :
  ∃ r w', pool_Book E w = Some (r, w') ∧
    match r with
    | Some id =>
        ∃ c f, pool w !! id = Some c ∧ classify E c = CONTROLLER_FREE ∧ Locked f = true ∧
          w' = set_pool <[id := set_Booking f c]> w ∧
          (∀ id' w'', pool_Book E w' = Some (Some id', w'') → id' ≠ id)
    | None =>
        w' = w ∧
        ∀ id c, pool w !! id = Some c → classify E c = CONTROLLER_FREE → ¬ bookable c
    end.
Proof.
  destruct (pool_Book_spec E w) as [(id & c & f & Hc & Hs & Hf & Hrun)|[Hrun Hno]].
  - exists (Some id), (set_pool <[id := set_Booking f c]> w). split; [done|]. exists c, f.
    repeat split; [done..|]. intros id' w'' Hrun' ->.
    destruct (pool_Book_spec E (set_pool <[id:=set_Booking f c]> w))
      as [(i & c' & f' & Hc' & Hs' & _ & Hrun'')|[Hrun'' _]]; rewrite Hrun'' in Hrun'; simplify_eq.
    rewrite /= lookup_insert_eq in Hc'. injection Hc' as <-.
    by rewrite /classify /= Hf in Hs'.
  - by exists None, w.
Qed.

(** Calls of [Book] that overlap can return the same controller.  The
    booking lock does not exclude two goroutines of one daemon, since the
    handle that holds a file lock gets it again: when both have listed the pool
    before either books, both book the first free controller (in the schedule
    list, list, book, book), although a goroutine that runs alone behaves as
    [pool.Book] and two calls one after the other never agree. *)
Theorem overlapping_Book_shares `{FLL : FileLockLaws} `{MR : MapRange} (E : Env) (w : world)
    (id : string) (ids : list string) (c : controller) :
  free (pool_List E (pool w)) = id :: ids → pool w !! id = Some c → bookable c →
  (∃ w', interleave E [true; false; true; false] Listing Listing w =
           Some ((Booked (Some id), Booked (Some id)), w')) ∧
  (∀ r w', pool_Book E w = Some (r, w') →
     ∃ n, interleave E (replicate n true) Listing Listing w = Some ((Booked r, Listing), w')).
Proof.
  intros Hfree Hc Hb. split.
  - assert (classify E c = CONTROLLER_FREE) as Hs.
    { assert (id ∈ free (pool_List E (pool w))) as Hin by (rewrite Hfree; by constructor).
      rewrite pool_List_free elem_of_ids in Hin. naive_solver. }
    destruct (Book_free E c Hs Hb) as (f & Hbook & Hf).
    rewrite /= /mbind /Go_bind /= Hfree /mbind /Go_bind.
    rewrite (on_Some _ _ _ _ Hc) Hbook /=.
    erewrite on_Some; [|by rewrite /= lookup_insert_eq].
    rewrite /controller_Book /= (TryLock_again _ Hf) /= Status_set_Booking.
    rewrite /classify in Hs. destruct (Locked (Booking c)); [done|].
    rewrite Status_set_Booking decide_True //. by eexists.
  - intros r w' Hrun. rewrite /pool_Book in Hrun.
    apply Go_bind_Some in Hrun as (w0 & w1 & Hget & Hrun). rewrite /get in Hget. simplify_eq.
    destruct (booker_alone E _ r w1 w' Hrun Listing) as [n Hn]. exists (S n).
    rewrite /= /mbind /Go_bind /=. exact Hn.
Qed.

(** *** The names of the sockets *)

#[local] Arguments String.append : simpl nomatch.

Lemma substring_0_all s n : (String.length s ≤ n)%nat → String.substring 0 n s = s.
Proof.
  revert n. induction s as [|x s IH]; intros [|n] Hn; simpl in *; [done..|lia|].
  f_equal. apply IH. lia.
Qed.

Lemma substring_after pre s n :
  (String.length s ≤ n)%nat → String.substring (String.length pre) n (pre +:+ s) = s.
Proof.
  intros Hn. induction pre as [|x pre IH]; [by apply substring_0_all|].
  simpl. destruct n; [|done]. by destruct s.
Qed.

Lemma greedy_sock_id id :
  has_byte (Ascii.ascii_of_nat 10) id = false → greedy_sock (id +:+ ".sock") = Some id.
Proof.
  induction id as [|x id IH]; [reflexivity|]. cbn [has_byte String.append greedy_sock].
  intros [Hx Hid]%orb_false_iff. rewrite Hx IH //.
Qed.

Lemma socket_id_name id :
  has_byte (Ascii.ascii_of_nat 10) id = false → socket_id (CONTROLLER_SOCKET_NAME id) = Some id.
Proof.
  intros Hid. rewrite /CONTROLLER_SOCKET_NAME -/SOCKET_PREFIX.
  assert (∀ s, HasPrefix s SOCKET_PREFIX = true →
    greedy_sock (String.substring (String.length SOCKET_PREFIX) (String.length s) s) = Some id →
    socket_id s = Some id) as Hgo.
  { intros s Hp Hg. destruct s as [|x s]; cbn [socket_id]; by rewrite Hp Hg. }
  apply Hgo; [apply prefix_append|]. rewrite substring_after; [|by apply greedy_sock_id].
  rewrite (length_append SOCKET_PREFIX). lia.
Qed.

(** A controller outlives the daemon that spawned it: from the name of its
    socket a daemon whose pool does not know it recovers the identifier, and
    adds a controller with that identifier, its address, the owner of the
    socket and what the controller reports.  Whether it is then free, busy or
    stale is what [Status] says: a controller that reports a running attached
    process is busy and is left alone. *)
Theorem Sync_rediscovers `{FL : FileLock} (E : Env) (w : world) (id : string) (uid gid : Z) info :
  id ≠ "" → has_byte (Ascii.ascii_of_nat 10) id = false → pool w !! id = None →
  Locked (flock_New (CONTROLLER_BOOKING_LOCK_FILE id)) = false →
  Stat E (CONTROLLER_SOCKET (cfg_SockDir E) id) = Ok (uid, gid) →
  NewClient E (CONTROLLER_ADDRESS (cfg_SockDir E) id) = None →
  Info E (CONTROLLER_ADDRESS (cfg_SockDir E) id) = Ok info →
  ∃ c, sync_entry E (CONTROLLER_SOCKET_NAME id) w = Some ((), set_pool <[id := c]> w) ∧
    ID c = id ∧ Address c = CONTROLLER_ADDRESS (cfg_SockDir E) id ∧ (UID c, GID c) = (uid, gid) ∧
    PID c = InfoPID info ∧ AttachedPID c = InfoAttachedPID info ∧ ShmSize c = InfoShmSize info ∧
    Locked (Booking c) = false ∧
    (PidRunning E (InfoPID info) = true → InfoAttachedPID info ≠ 0 →
     PidRunning E (InfoAttachedPID info) = true → classify E c = CONTROLLER_BUSY).
Proof.
  intros Hne Hnl Hw Hlk Hstat Hdial Hinfo. rewrite /sync_entry socket_id_name // decide_False //.
  rewrite /pool_Get /mbind /Go_bind /= /mret /Go_ret Hw Hstat /= Hlk /controller_Sync /= Hdial Hinfo.
  eexists. split; [done|]. simpl. repeat split; [|done|].
  - case_decide; lia.
  - intros Hr Ha Hb. rewrite /classify /= Hlk /Status_ /= Hr.
    destruct (decide (InfoAttachedPID info ≠ 0)); [|done]. by rewrite decide_False //= Hb.
Qed.

(** What a failing [controller.Sync] does to the controller. *)
Lemma Sync_failed `{FL : FileLock} E wait c e c' :
  controller_Sync E wait c = (Some e, c') →
  PID c' = PID c ∧ Termination c' = Termination c ∧ Terminating c' = Terminating c.
Proof. rewrite /controller_Sync. repeat case_match; intros; by simplify_eq. Qed.

Lemma Sync_succeeded `{FL : FileLock} E wait c c' :
  controller_Sync E wait c = (None, c') → ID c' = ID c ∧ Booking c' = Booking c.
Proof. rewrite /controller_Sync. repeat case_match; intros; by simplify_eq. Qed.

(** A spawn that fails leaves nothing behind: whenever [Spawn] returns an
    error the pool is what it was, and once it has registered the controller
    every file made under its identifier is removed and a process it started
    is sent SIGTERM.  A spawn that succeeds adds one controller, booked by the
    caller.  Here the identifier is new and a started process exits on
    SIGTERM. *)
Theorem Spawn_outcome `{FLL : FileLockLaws} (E : Env) (sp : Spawning) (env : list string) (w : world) :
  pool w !! NewString sp = None → (∀ pid, exits E pid = true) →
  ∃ r w', pool_Spawn E sp env w = Some (r, w') ∧
    match r with
    | Ok id =>
        id = NewString sp ∧
        ∃ c, pool w' = <[id := c]> (pool w) ∧ ID c = id ∧ Locked (Booking c) = true
    | Err e =>
        pool w' = pool w ∧
        (∀ pid, Start sp = Ok pid → EnsureLogDir sp = None →
           bookable (spawned E (NewString sp) (flock_New (CONTROLLER_BOOKING_LOCK_FILE (NewString sp)))) →
           CONTROLLER_BOOKING_LOCK_FILE (NewString sp) ∈ removed w' ∧
           CONTROLLER_SOCKET (cfg_SockDir E) (NewString sp) ∈ removed w' ∧
           CONTROLLER_SHM_FILE (NewString sp) ∈ removed w' ∧
           (uint32 pid ≠ 0 → (uint32 pid, SIGTERM) ∈ signals w'))
    end.
Proof.
  intros Hfresh Hx. rewrite /pool_Spawn. set (id := NewString sp).
  set (logErr := if negb _ && _ then EnsureLogDir sp else None).
  destruct logErr as [e|] eqn:Hlog.
  { eexists _, w. split; [done|]. split; [done|]. intros pid _ Hl. exfalso. revert Hlog.
    rewrite /logErr Hl. by destruct (_ && _). }
  destruct (TryLock _) as [[] f] eqn:Hf; simpl; last first.
  { eexists _, _. split; [done|]. split; [done|]. intros pid _ _. by rewrite /bookable /= -/id Hf. }
  destruct (Start sp) as [pid|e]; rewrite /mbind /Go_bind /=; last first.
  { edestruct (Terminate_clears E id (spawned E id f) (set_pool <[id:=spawned E id f]> w))
      as (w' & -> & Hp & _); [by rewrite /= lookup_insert_eq|done|].
    eexists _, w'. split; [done|]. split; [|done]. by rewrite Hp /= delete_insert_id. }
  erewrite set_pool_alter; [|by rewrite /= lookup_insert_eq]. rewrite set_pool_insert_twice.
  erewrite on_Some; [|by rewrite /= lookup_insert_eq]. rewrite set_pool_insert_twice.
  destruct (controller_Sync _ _ _) as [[e|] c'] eqn:Hsync; simpl.
  - apply Sync_failed in Hsync as (HPID & HT & HTT).
    edestruct (Terminate_clears E id c' (set_pool <[id:=c']> w)) as (w' & -> & Hp & Hrm & Hsig);
      [by rewrite /= lookup_insert_eq|by split|].
    eexists _, w'. split; [done|]. split; [by rewrite Hp /= delete_insert_id|].
    intros pid' ? _ _. simplify_eq. rewrite HPID in Hsig.
    split_and!; [apply Hrm; set_solver..|done].
  - apply Sync_succeeded in Hsync as [HID HB]. eexists _, _. split; [done|]. split; [done|].
    exists c'. split; [done|]. split; [done|]. rewrite HB /=. by eapply TryLock_got.
Qed.

(** *** Witnesses: a host where every process runs and every controller answers *)

Definition sample_env (freeze : option error) : Env :=
  mkEnv "/run" "" 8 false 0 0 1 (λ _, Ok ["cedana-gpu-controller-a.sock"; "other"])
    (λ _, Ok (0, 0)) (λ _, Ok ["sleep"]) (λ _, true) (λ _, None)
    (λ _, Ok (mkInfo 100 0 8 "shm" "1.0")) (λ _ _, None) (λ _, freeze) (λ _, None)
    (Some "/usr/bin/cedana-gpu-controller").

Definition sample_controller : controller :=
  mkController "a" 100 0 "unix:///run/cedana-gpu-controller-a.sock" 0 8 "shm" 0 0 "1.0" None
    (mkLockFile "/dev/shm/cedana-gpu.a.booking" false false) false false 0 true.

Definition sample_world : world := mkWorld {["a" := sample_controller]} [] [].
Definition empty_world : world := mkWorld ∅ [] [].

Definition sample_spawns : list Spawning :=
  [mkSpawning "b" None (Ok 200) ""; mkSpawning "c" None (Ok 201) ""].

Lemma pool_sync_converges_witness :
  ∃ m' w2, ManagerPool_Sync (sample_env None) sample_spawns false (mkManagerPool 3 0 0 0)
      empty_world =
      Some ((None, m'), w2) ∧
    Z.of_nat (length (free (pool_List (sample_env None) (pool w2)))) = 3 ∧
    stale (pool_List (sample_env None) (pool w2)) = [] ∧
    (∀ id c, classify (sample_env None) c = CONTROLLER_BUSY →
       pool w2 !! id = Some c ↔ pool sample_world !! id = Some c).
Proof.
  apply (pool_sync_converges (sample_env None) sample_spawns (mkManagerPool 3 0 0 0)
    empty_world sample_world).
  - vm_compute. reflexivity.
  - reflexivity.
  - simpl. lia.
  - by eexists.
  - intros id c Hc _. rewrite /= lookup_singleton_Some in Hc. destruct Hc as [_ <-].
    by repeat split.
  - repeat constructor; simpl; try done; eexists; done.
  - by_decide.
  - by_decide.
  - vm_compute. discriminate.
Defined.

Lemma Book_gives_free_witness :
  ∃ r w', pool_Book (sample_env None) sample_world = Some (r, w') ∧
    match r with
    | Some id =>
        ∃ c f, pool sample_world !! id = Some c ∧ classify (sample_env None) c = CONTROLLER_FREE ∧
          Locked f = true ∧ w' = set_pool <[id := set_Booking f c]> sample_world ∧
          (∀ id' w'', pool_Book (sample_env None) w' = Some (Some id', w'') → id' ≠ id)
    | None =>
        w' = sample_world ∧
        ∀ id c, pool sample_world !! id = Some c →
          classify (sample_env None) c = CONTROLLER_FREE → ¬ bookable c
    end.
Proof. exact (Book_gives_free (sample_env None) sample_world). Defined.

Lemma overlapping_Book_shares_witness :
  (∃ w', interleave (sample_env None) [true; false; true; false] Listing Listing sample_world =
           Some ((Booked (Some "a"), Booked (Some "a")), w')) ∧
  (∀ r w', pool_Book (sample_env None) sample_world = Some (r, w') →
     ∃ n, interleave (sample_env None) (replicate n true) Listing Listing sample_world =
            Some ((Booked r, Listing), w')).
Proof.
  apply (overlapping_Book_shares (sample_env None) sample_world "a" [] sample_controller);
    vm_compute; reflexivity.
Defined.

Lemma Sync_rediscovers_witness :
  ∃ c, sync_entry (sample_env None) (CONTROLLER_SOCKET_NAME "a") empty_world =
      Some ((), set_pool <["a" := c]> empty_world) ∧
    ID c = "a" ∧ Address c = CONTROLLER_ADDRESS "/run" "a" ∧ (UID c, GID c) = (0, 0) ∧
    PID c = 100 ∧ AttachedPID c = 0 ∧ ShmSize c = 8 ∧ Locked (Booking c) = false ∧
    (PidRunning (sample_env None) 100 = true → 0 ≠ 0 →
     PidRunning (sample_env None) 0 = true → classify (sample_env None) c = CONTROLLER_BUSY).
Proof.
  apply (Sync_rediscovers (sample_env None) empty_world "a" 0 0 (mkInfo 100 0 8 "shm" "1.0"));
    [discriminate|reflexivity..].
Defined.

Lemma Spawn_outcome_witness :
  ∃ w', pool_Spawn (sample_env None) (mkSpawning "b" None (Err (Errorf "ENOENT")) "") [] sample_world =
    Some (Err (Errorf "failed to start GPU controller: ENOENT"), w') ∧ pool w' = pool sample_world.
Proof.
  destruct (Spawn_outcome (sample_env None) (mkSpawning "b" None (Err (Errorf "ENOENT")) "") []
    sample_world eq_refl (λ _, eq_refl)) as (r & w' & Hrun & Hr).
  exists w'. assert (r = Err (Errorf "failed to start GPU controller: ENOENT")) as ->.
  { vm_compute in Hrun. by injection Hrun as <- _. }
  split; [exact Hrun|exact (proj1 Hr)].
Defined.

End Gpu.
