(* ===== verification/GpuCallback.v ===== *)
(** * GPU checkpoint and restore in CRIU's callbacks (controller.go)

    [CRIUCallback] of the pool: the hooks through which a dump freezes, dumps
    and unfreezes the GPU and a restore restores it, with the variables their
    closures share.  The theorems run the callback under the RPC exchange of
    Swrk.v, against whatever CRIU sends. *)

From S2P Require Import Prelude GoLib Criu Swrk Gpu.
Import GoLib Criu Swrk Gpu.

Module GpuCallback.

#[local] Open Scope Z_scope.

(** The calls the hooks make to the controller, in order. *)
Inductive gpu_call :=
| CFreeze | CDump (dir : string) (stream leaveRunning : bool)
| CUnfreeze | CRestore (dir : string) (stream : bool).

#[global] Instance gpu_call_eq_dec : EqDecision gpu_call.
Proof. solve_decision. Defined.

(** What the controller at an address answers to a dump and a restore. *)
Record Rpc := mkRpc {
  DumpRPC : string → option error;
  RestoreRPC : string → option error;
}.

Section callback.
Context `{FL : FileLock} `{MR : MapRange}.
Variables (E : Env) (R : Rpc) (id : string).

(** A channel of capacity one that its only sender has closed: what is left
    in the buffer.  A receive waits for the sender, whose call is bounded by a
    timeout; then it takes the error or gets nil. *)
Definition chan : Type := list error.

(** The shared state: the pool, the variables of the closures ([None] is a
    nil channel or pointer) and the calls made. *)
Record state := mkState {
  base : world;
  dumpErr : option chan;
  restoreErr : option chan;
  restoredPid : option Z;
  calls : list gpu_call;
}.

Definition set_base (f : world → world) (s : state) : state :=
  mkState (f (base s)) (dumpErr s) (restoreErr s) (restoredPid s) (calls s).

(** Runs an operation of the pool. *)
Definition lift {A} (m : Go world A) : Go state A := λ s,
  match m (base s) with
  | Some (a, w') => Some (a, set_base (λ _, w') s)
  | None => None
  end.

(** A call to the controller [c]; without a client it dereferences nil. *)
Definition rpc (c : controller) (call : gpu_call) (answer : option error) : Go state (option error) :=
  if ClientConn c then
    _ ← modify (λ s, mkState (base s) (dumpErr s) (restoreErr s) (restoredPid s) (calls s ++ [call]));
    mret answer
  else block.

(** [Termination.Lock] and [Termination.Unlock]; unlocking a mutex that is
    not held is fatal. *)
Definition lock_Termination : Go state unit :=
  c ← lift (deref id);
  if Termination c then block else lift (update id (set_Termination true)).

Definition unlock_Termination : Go state unit :=
  c ← lift (deref id);
  if Termination c then lift (update id (set_Termination false)) else block.

Definition not_found : error := Errorf "GPU controller not found, is the process still running?".

Definition chan_of (r : option error) : chan := match r with None => [] | Some e => [e] end.

(** [<-dumpErr] and [<-restoreErr]; a nil channel blocks forever. *)
Definition recv_dumpErr : Go state (option error) :=
  s ← get;
  match dumpErr s with
  | None => block
  | Some ch =>
      _ ← put (mkState (base s) (Some (tail ch)) (restoreErr s) (restoredPid s) (calls s));
      mret (head ch)
  end.

Definition recv_restoreErr : Go state (option error) :=
  s ← get;
  match restoreErr s with
  | None => block
  | Some ch =>
      _ ← put (mkState (base s) (dumpErr s) (Some (tail ch)) (restoredPid s) (calls s));
      mret (head ch)
  end.

Definition wrap_err (msg : string) (r : option error) : option error :=
  match r with None => None | Some e => Some (Errorf (msg +:+ Error (GRPCError e ""))) end.

Definition gpu_InitializeDump (opts : CriuOpts) : Go state (option error) :=
  c ← lift (pool_Get id);
  match c with
  | None => mret (Some not_found)
  | Some c =>
      _ ← lock_Termination;
      err ← rpc c CFreeze (FreezeReq E (Address c));
      mret (wrap_err "failed to freeze GPU: " err)
  end.

(** The GPU dump runs in a goroutine, for which the hook waits. *)
Definition gpu_PreDump (opts : CriuOpts) : Go state (option error) :=
  c ← lift (deref id);
  err ← rpc c (CDump (ImagesDir opts) (Stream opts) (LeaveRunning opts)) (DumpRPC R (Address c));
  _ ← modify (λ s, mkState (base s) (Some (chan_of (wrap_err "failed to dump GPU: " err)))
                 (restoreErr s) (restoredPid s) (calls s));
  recv_dumpErr.

Definition gpu_PostDump (opts : CriuOpts) : Go state (option error) :=
  s ← get;
  match dumpErr s with None => mret None | Some _ => recv_dumpErr end.

Definition gpu_FinalizeDump (opts : CriuOpts) (criuErr : option error) : Go state (option error) :=
  c ← lift (deref id);
  s ← get;
  r ← match dumpErr s with
      | None => mret None
      | Some _ =>
          err ← recv_dumpErr;
          if negb (LeaveRunning opts) && bool_decide (criuErr = None) then mret err
          else
            unfreezeErr ← rpc c CUnfreeze (UnfreezeReq E (Address c));
            mret (errors_Join [err; (λ e, GRPCError e "") <$> unfreezeErr])
      end;
  _ ← unlock_Termination;
  mret r.

Definition gpu_InitializeRestore (opts : CriuOpts) : Go state (option error) :=
  c ← lift (pool_Get id);
  match c with
  | None => mret (Some not_found)
  | Some _ => _ ← lock_Termination; mret None
  end.

(** The GPU restore runs in a goroutine for which [PreResume] waits. *)
Definition gpu_PreRestore (opts : CriuOpts) : Go state (option error) :=
  c ← lift (deref id);
  err ← rpc c (CRestore (ImagesDir opts) (Stream opts)) (RestoreRPC R (Address c));
  _ ← modify (λ s, mkState (base s) (dumpErr s)
                 (Some (chan_of (wrap_err "failed to restore GPU: " err)))
                 (restoredPid s) (calls s));
  mret None.

(** [SkipNamespaces] and [PostRestore] are the same function. *)
Definition gpu_Attach (pid : Z) : Go state (option error) :=
  _ ← modify (λ s, mkState (base s) (dumpErr s) (restoreErr s) (Some pid) (calls s));
  lift (controller_Attach E id (uint32 pid)).

(** Kills the restored process, if there is one. *)
Definition kill_restored : Go state unit :=
  s ← get;
  match restoredPid s with
  | None => mret ()
  | Some pid => modify (set_base (send_signal pid SIGKILL))
  end.

Definition gpu_PreResume : Go state (option error) :=
  err ← recv_restoreErr;
  _ ← match err with None => mret () | Some _ => kill_restored end;
  mret err.

Definition gpu_FinalizeRestore (opts : CriuOpts) (criuErr : option error) : Go state (option error) :=
  _ ← lift (deref id);
  s ← get;
  err ← match restoreErr s with
        | None => mret None
        | Some _ =>
            err ← match criuErr with None => recv_restoreErr | Some _ => mret None end;
            _ ← (if bool_decide (err = None) && bool_decide (criuErr = None) then mret ()
                 else kill_restored);
            mret err
        end;
  _ ← unlock_Termination;
  mret err.

Definition CRIUCallback : NotifyCallback state :=
  mkCallback None (Some gpu_InitializeDump) (Some gpu_InitializeRestore)
    (Some gpu_FinalizeDump) (Some gpu_FinalizeRestore) (Some gpu_PreDump) (Some gpu_PostDump)
    (Some gpu_PreRestore) (Some gpu_Attach) None None None None (Some gpu_Attach)
    (Some gpu_PreResume) None None None "gpu".

(** ** What the hooks do *)

(** The state before an operation. *)
Definition start (w : world) : state := mkState w None None None [].

Ltac run_hook H :=
  repeat first
    [ progress (unfold mbind, Go_bind, mret, Go_ret, get, put, modify, block, lift, deref, rpc, pool_Get,
        recv_dumpErr, recv_restoreErr, lock_Termination, unlock_Termination, update, kill_restored in H)
    | case_match; simplify_eq/= ].

(** The controller of the callback, its termination lock held or not. *)
Definition holds (addr : string) (b : bool) (s : state) : Prop :=
  ∃ c, pool (base s) !! id = Some c ∧ Termination c = b ∧ Address c = addr.

Lemma holds_base addr b s s' : base s' = base s → holds addr b s → holds addr b s'.
Proof. rewrite /holds. by intros ->. Qed.

Lemma PreDump_run addr b opts s r s' :
  holds addr b s → gpu_PreDump opts s = Some (r, s') →
  r = wrap_err "failed to dump GPU: " (DumpRPC R addr) ∧
  s' = mkState (base s) (Some []) (restoreErr s) (restoredPid s)
         (calls s ++ [CDump (ImagesDir opts) (Stream opts) (LeaveRunning opts)]).
Proof.
  intros (c & Hc & _ & Ha) H. rewrite /gpu_PreDump in H. run_hook H. destruct (DumpRPC _ _); done.
Qed.

Lemma PostDump_run opts s r s' :
  gpu_PostDump opts s = Some (r, s') →
  r = dumpErr s ≫= head ∧
  s' = mkState (base s) (tail <$> dumpErr s) (restoreErr s) (restoredPid s) (calls s).
Proof. destruct s as [w d re rp cs]. intros H. rewrite /gpu_PostDump in H. by run_hook H. Qed.

Lemma PreRestore_run addr b opts s r s' :
  holds addr b s → gpu_PreRestore opts s = Some (r, s') →
  r = None ∧
  s' = mkState (base s) (dumpErr s)
         (Some (chan_of (wrap_err "failed to restore GPU: " (RestoreRPC R addr))))
         (restoredPid s) (calls s ++ [CRestore (ImagesDir opts) (Stream opts)]).
Proof. intros (c & Hc & _ & Ha) H. rewrite /gpu_PreRestore in H. run_hook H. done. Qed.

Lemma PreResume_run s r s' :
  gpu_PreResume s = Some (r, s') →
  ∃ ch, restoreErr s = Some ch ∧ r = head ch ∧ pool (base s') = pool (base s) ∧
    dumpErr s' = dumpErr s ∧ restoreErr s' = Some (tail ch) ∧ restoredPid s' = restoredPid s ∧
    calls s' = calls s.
Proof.
  intros H. rewrite /gpu_PreResume in H. run_hook H; eexists; split_and!; try done; naive_solver.
Qed.

Lemma Attach_run addr b pid s r s' :
  holds addr b s → gpu_Attach pid s = Some (r, s') →
  holds addr b s' ∧ dumpErr s' = dumpErr s ∧ restoreErr s' = restoreErr s ∧
  restoredPid s' = Some pid ∧ calls s' = calls s.
Proof.
  intros (c & Hc & Hb & Ha) H. rewrite /gpu_Attach /controller_Attach in H. run_hook H; (split; [|done]).
  - by eexists.
  - rewrite /holds /= lookup_alter_eq.
    match goal with H : pool _ !! id = Some _ |- _ => rewrite H /= end. by eexists.
Qed.

Lemma InitializeDump_run opts s c r s' :
  pool (base s) !! id = Some c → Termination c = false →
  gpu_InitializeDump opts s = Some (r, s') →
  holds (Address c) true s' ∧ r = wrap_err "failed to freeze GPU: " (FreezeReq E (Address c)) ∧
  dumpErr s' = dumpErr s ∧ calls s' = calls s ++ [CFreeze].
Proof.
  intros Hc Ht H. rewrite /gpu_InitializeDump in H. run_hook H. split; [|done].
  rewrite /holds /= lookup_alter_eq.
  match goal with H : pool _ !! id = Some _ |- _ => rewrite H /= end. by eexists.
Qed.

Lemma FinalizeDump_run addr opts criuErr s r s' :
  holds addr true s → gpu_FinalizeDump opts criuErr s = Some (r, s') →
  holds addr false s' ∧
  match dumpErr s with
  | None => r = None ∧ dumpErr s' = None ∧ calls s' = calls s
  | Some ch =>
      is_Some (dumpErr s') ∧
      (LeaveRunning opts = true ∨ is_Some criuErr → CUnfreeze ∈ calls s') ∧
      (LeaveRunning opts = false → criuErr = None → r = head ch)
  end.
Proof.
  intros (c & Hc & Hb & Ha) H. rewrite /gpu_FinalizeDump in H. run_hook H.
  all: split; [rewrite /holds /= lookup_alter_eq;
    match goal with H : pool _ !! id = Some _ |- _ => rewrite H /= end; by eexists|].
  all: split_and?; try done; try naive_solver.
  all: try (intros _; apply elem_of_app; right; by constructor).
  all: destruct (LeaveRunning opts), criuErr; simpl in *; naive_solver.
Qed.

Lemma InitializeRestore_run opts s c r s' :
  pool (base s) !! id = Some c → Termination c = false →
  gpu_InitializeRestore opts s = Some (r, s') →
  r = None ∧ holds (Address c) true s' ∧ restoreErr s' = restoreErr s.
Proof.
  intros Hc Ht H. rewrite /gpu_InitializeRestore in H. run_hook H. split; [done|]. split; [|done].
  rewrite /holds /= lookup_alter_eq.
  match goal with H : pool _ !! id = Some _ |- _ => rewrite H /= end. by eexists.
Qed.

Lemma FinalizeRestore_run addr opts criuErr s r s' :
  holds addr true s → gpu_FinalizeRestore opts criuErr s = Some (r, s') →
  holds addr false s' ∧
  match restoreErr s with
  | None => r = None ∧ restoreErr s' = None
  | Some ch =>
      is_Some (restoreErr s') ∧ (criuErr = None → r = head ch) ∧ (is_Some criuErr → r = None) ∧
      restoredPid s' = restoredPid s ∧
      (is_Some criuErr ∨ is_Some r →
       ∀ pid, restoredPid s = Some pid → (pid, SIGKILL) ∈ signals (base s'))
  end.
Proof.
  intros (c & Hc & Hb & Ha) H. rewrite /gpu_FinalizeRestore in H. run_hook H.
  all: split; [rewrite /holds /= lookup_alter_eq;
    match goal with H : pool _ !! id = Some _ |- _ => rewrite H /= end; by eexists|].
  all: split_and?; try done; try naive_solver.
  all: try (intros _ pid Hpid; simplify_eq; apply elem_of_app; right; by constructor).
  match goal with ch : chan |- _ => destruct ch end; simpl in *; naive_solver.
Qed.

(** ** Invariants of the exchange *)

(** While a dump is served: the termination lock is held; the GPU dump, if it
    was made, succeeded ([ok]) or at least its error was received. *)
Definition dumping (addr : string) (ok : bool) (s : state) : Prop :=
  holds addr true s ∧
  match dumpErr s with
  | None => CUnfreeze ∉ calls s
  | Some ch => ch = [] ∧ (ok = true → DumpRPC R addr = None)
  end.

(** While a restore is served: the error of the GPU restore is still to be
    received unless a hook failed. *)
Definition restoring (addr : string) (s : state) : Prop :=
  holds addr true s ∧
  match restoreErr s with
  | None => True
  | Some ch => ch = chan_of (wrap_err "failed to restore GPU: " (RestoreRPC R addr))
  end.

Lemma not_elem_of_snoc {A} (x y : A) l : x ∉ l → x ≠ y → x ∉ l ++ [y].
Proof. rewrite elem_of_app list_elem_of_singleton. naive_solver. Qed.

Ltac hooks :=
  repeat (apply Forall_cons_2; [cbn [fst snd]; first [apply keeps_nil | apply keeps_hook]|]);
  try apply Forall_nil_2.

Lemma dump_served addr opts r s v s' :
  dumping addr true s → serve (callback_notify CRIUCallback) opts r s = Some (v, s') →
  match v with Acked _ => dumping addr true s' | _ => dumping addr false s' end.
Proof.
  apply (serve_callback_rule (dumping addr true) (dumping addr false)); [done|done| |].
  { intros s0 [Hh Hd]. split; [done|]. destruct (dumpErr s0); naive_solver. }
  hooks; intros s0 r0 s0' [Hh Hd] H.
  - apply (PreDump_run addr true) in H as [-> ->]; [|done].
    destruct (DumpRPC R addr) eqn:He; split; try done; by eapply holds_base.
  - apply PostDump_run in H as [-> ->].
    destruct (dumpErr s0) as [ch|] eqn:Hdu; simpl; [destruct Hd as [-> Hd]|];
      split; try done; by eapply holds_base.
  - apply (PreRestore_run addr true) in H as [-> ->]; [|done].
    split; [by eapply holds_base|]. simpl. destruct (dumpErr s0); [done|]. by apply not_elem_of_snoc.
  - apply (Attach_run addr true) in H as (Hh' & Hd' & _ & _ & Hcl); [|done].
    destruct r0; (split; [done|]; rewrite Hd' Hcl; destruct (dumpErr s0); naive_solver).
  - apply PreResume_run in H as (ch & _ & _ & Hp & Hd' & _ & _ & Hcl).
    destruct r0; (split; [|rewrite Hd' Hcl; destruct (dumpErr s0); naive_solver]);
      destruct Hh as (c & Hc); exists c; by rewrite Hp.
  - apply (Attach_run addr true) in H as (Hh' & Hd' & _ & _ & Hcl); [|done].
    destruct r0; (split; [done|]; rewrite Hd' Hcl; destruct (dumpErr s0); naive_solver).
Qed.

Lemma restore_served addr opts r s v s' :
  restoring addr s → serve (callback_notify CRIUCallback) opts r s = Some (v, s') →
  match v with Acked _ => restoring addr s' | _ => holds addr true s' end.
Proof.
  apply (serve_callback_rule (restoring addr) (holds addr true)); [done|done|by intros s0 []|].
  hooks; intros s0 r0 s0' [Hh Hd] H.
  - apply (PreDump_run addr true) in H as [-> ->]; [|done].
    destruct (DumpRPC R addr) eqn:He; simpl; [|split; [|done]]; by eapply holds_base.
  - apply PostDump_run in H as [-> ->].
    destruct (_ ≫= _); [|split; [|done]]; by eapply holds_base.
  - apply (PreRestore_run addr true) in H as [-> ->]; [|done]. split; [by eapply holds_base|done].
  - apply (Attach_run addr true) in H as (Hh' & _ & Hr' & _); [|done].
    destruct r0; [done|]. split; [done|]. by rewrite Hr'.
  - apply PreResume_run in H as (ch & Hch & -> & Hp & _ & Hr' & _).
    assert (holds addr true s0') as Hh'. { destruct Hh as (c & Hc). exists c. by rewrite Hp. }
    rewrite Hch in Hd. destruct ch; [|done]. split; [done|]. by rewrite Hr'.
  - apply (Attach_run addr true) in H as (Hh' & _ & Hr' & _); [|done].
    destruct r0; [done|]. split; [done|]. by rewrite Hr'.
Qed.

Lemma hook_Some label (h : Go state (option error)) s r s' :
  call_hook label (Some h) s = Some (r, s') → ∃ r0, h s = Some (r0, s') ∧ (r = None ↔ r0 = None).
Proof.
  rewrite /call_hook. intros (e & s1 & Hh & H)%Go_bind_Some. exists e. destruct e; by inv_go.
Qed.
End callback.
(** ** Properties *)

(** C6: What a dump through the GPU callback guarantees, whatever CRIU sends.
    If freezing the GPU fails the dump fails before CRIU is asked anything,
    and the termination lock stays held, so that terminating the controller
    blocks from then on: the callbacks of a failed initialisation are not
    finalised.  Otherwise the lock is released in the end; when CRIU asked for
    the pre-dump hook, a dump that reports success has dumped the GPU, and one
    that failed or leaves the process running has unfrozen it; when CRIU never
    asked for it, the GPU that was frozen is not unfrozen, whether or not the
    dump failed. *)
Theorem gpu_dump_outcome `{FL : FileLock} `{MR : MapRange} (E : Env) (R : Rpc) (id : string)
    (p : Peer) (criuPid : Z) (opts : CriuOpts) (w : world) (c : controller) resp err sent s' :
  pool w !! id = Some c → Termination c = false →
  swrk_body p criuPid DUMP (WithOpts opts (Some (callback_notify (CRIUCallback E R id)))) (start w) =
    Some ((resp, err, sent), s') →
  match FreezeReq E (Address c) with
  | Some _ =>
      is_Some err ∧ sent = [] ∧ holds id (Address c) true s' ∧ pool_Terminate E id (base s') = None
  | None =>
      holds id (Address c) false s' ∧
      match dumpErr s' with
      | Some _ =>
          (err = None → DumpRPC R (Address c) = None) ∧
          (LeaveRunning opts = true ∨ is_Some err → CUnfreeze ∈ calls s')
      | None => CUnfreeze ∉ calls s'
      end
  end.
Proof.
  intros Hc Ht H. rewrite /swrk_body /= in H.
  apply Go_bind_Some in H as (e & s1 & Hi & H). cbn in Hi. injection Hi as <- <-.
  apply Go_bind_Some in H as (e & s2 & Hd & H).
  apply hook_Some in Hd as (r0 & Hd & Hr).
  apply (InitializeDump_run E id opts _ c) in Hd as (Hh & -> & Hdu & Hcl); [|done..].
  destruct (FreezeReq E (Address c)) as [fe|] eqn:Hf; simpl in Hr.
  { destruct e as [e|]; [|naive_solver]. inv_go. split; [done|]. split; [done|]. split; [done|].
    destruct Hh as (c' & Hc' & Ht' & _).
    rewrite /pool_Terminate /pool_Get /mbind /Go_bind /= /mret /Go_ret Hc' Ht' //. }
  destruct e as [e|]; [naive_solver|].
  apply deferred_Some in H as (resp' & e0 & sent' & s3 & ef & Hl & Hfin & Heq). simplify_eq.
  apply (swrk_loop_rule (dumping R id (Address c) true) (dumping R id (Address c) false)) in Hl.
  - assert (holds id (Address c) true s3 ∧ match dumpErr s3 with
      | None => CUnfreeze ∉ calls s3
      | Some ch => ch = [] ∧ (e0 = None → DumpRPC R (Address c) = None) end) as [Hh3 H3].
    { destruct e0; [destruct Hl as [[? Hx]|[? Hx]]|destruct Hl as [? Hx]]; (split; [done|]);
        destruct (dumpErr s3); naive_solver. }
    apply hook_Some in Hfin as (r1 & Hfin & Hr1).
    apply (FinalizeDump_run E id (Address c)) in Hfin as [Hh' Hfin]; [|done]. split; [done|].
    destruct (dumpErr s3) as [ch|].
    + destruct H3 as [-> H3], Hfin as ([x ->] & Hun & Hret). split.
      * intros Herr. apply H3. by destruct ef, e0.
      * intros Hor. apply Hun. destruct (LeaveRunning opts); [by left|]. right.
        destruct e0; [done|]. destruct ef; [|destruct Hor as [?|[? ?]]; done].
        rewrite Hret // in Hr1. naive_solver.
    + destruct Hfin as (-> & -> & ->). done.
  - intros r s0 v s0' Hs0 Hserve. by eapply dump_served.
  - split; [done|]. rewrite Hdu /= Hcl. set_solver.
Qed.

(** C27: What a restore through the GPU callback guarantees, whatever CRIU
    sends, for a controller whose termination lock is free.  The lock is
    released in the end.  If the GPU restore was started, a restore that
    reports success has restored the GPU, and after one that failed the
    restored process, if CRIU announced one, was sent SIGKILL. *)
Theorem gpu_restore_outcome `{FL : FileLock} `{MR : MapRange} (E : Env) (R : Rpc) (id : string)
    (p : Peer) (criuPid : Z) (opts : CriuOpts) (w : world) (c : controller) resp err sent s' :
  pool w !! id = Some c → Termination c = false →
  swrk_body p criuPid RESTORE (WithOpts opts (Some (callback_notify (CRIUCallback E R id)))) (start w) =
    Some ((resp, err, sent), s') →
  holds id (Address c) false s' ∧
  (is_Some (restoreErr s') →
     (err = None → RestoreRPC R (Address c) = None) ∧
     (is_Some err → ∀ pid, restoredPid s' = Some pid → (pid, SIGKILL) ∈ signals (base s'))).
Proof.
  intros Hc Ht H. rewrite /swrk_body /= in H.
  apply Go_bind_Some in H as (e & s1 & Hi & H). cbn in Hi. injection Hi as <- <-.
  apply Go_bind_Some in H as (e & s2 & Hd & H).
  apply hook_Some in Hd as (r0 & Hd & Hr).
  apply (InitializeRestore_run id opts _ c) in Hd as (-> & Hh & Hre0); [|done..].
  destruct e as [e|]; [naive_solver|].
  apply deferred_Some in H as (resp' & e0 & sent' & s3 & ef & Hl & Hfin & Heq). simplify_eq.
  apply (swrk_loop_rule (restoring R id (Address c)) (holds id (Address c) true)) in Hl;
    [|intros r s0 v s0' Hs0 Hserve; by eapply restore_served|split; [done|by rewrite Hre0]].
  assert (holds id (Address c) true s3) as Hh3.
  { destruct e0; [destruct Hl as [[? _]|?]|destruct Hl as [? _]]; done. }
  apply hook_Some in Hfin as (r1 & Hfin & Hr1).
  apply (FinalizeRestore_run id (Address c)) in Hfin as [Hh' Hfin]; [|done]. split; [done|].
  destruct (restoreErr s3) as [ch|] eqn:Hre; [|destruct Hfin as [_ ->]; by intros [? ?]].
  destruct Hfin as (_ & Hret & Hnone & Hpid & Hkill). intros _. rewrite Hpid. split.
  - intros Herr. assert (e0 = None ∧ ef = None) as [-> ->] by (by destruct ef, e0).
    destruct Hl as [_ Hl]. rewrite Hre in Hl. subst ch.
    rewrite Hret // in Hr1. by destruct (RestoreRPC R (Address c)); naive_solver.
  - intros Herr. apply Hkill. destruct e0; [by left|]. right.
    destruct ef; [|by destruct Herr]. destruct r1; [done|]. naive_solver.
Qed.

(** *** Witnesses *)

Definition sample_rpc : Rpc := mkRpc (λ _, None) (λ _, Some (Status Internal "no memory")).

Definition gpu_notify (freeze : option error) : Notify state :=
  callback_notify (CRIUCallback (sample_env freeze) sample_rpc "a").

(** CRIU fails before it asks for the pre-dump hook. *)
Definition early_failure : Peer :=
  mkPeer (Ok 7) [exchange_ok (mkResp DUMP false "no such process" 3 "" 0 (Ok 5) 0 (mkVersion 4 0 0 ""))]
    None true.

Definition early_final : state :=
  mkState (mkWorld {["a" := sample_controller]} [] []) None None None [CFreeze].

Lemma gpu_dump_outcome_witness :
  (holds "a" (Address sample_controller) false early_final ∧ CUnfreeze ∉ calls early_final) ∧
  ∃ resp err sent s', swrk_body early_failure 7 DUMP
    (WithOpts sample_opts (Some (gpu_notify (Some (Status Unavailable "gone"))))) (start sample_world) =
      Some ((resp, err, sent), s') ∧
    pool_Terminate (sample_env (Some (Status Unavailable "gone"))) "a" (base s') = None.
Proof.
  split.
  - apply (gpu_dump_outcome (sample_env None) sample_rpc "a" early_failure 7 sample_opts sample_world
      sample_controller (Some (mkResp DUMP false "no such process" 3 "" 0 (Ok 5) 0 (mkVersion 4 0 0 "")))
      (Some (Errorf "operation failed (msg:no such process err:3)"))
      [mkReq DUMP (Some sample_opts) false None] early_final); vm_compute; reflexivity.
  - eexists _, _, _, _. split; [vm_compute; reflexivity|].
    apply (gpu_dump_outcome (sample_env (Some (Status Unavailable "gone"))) sample_rpc "a" early_failure 7
      sample_opts sample_world sample_controller None
      (Some (Errorf "initialize-dump failed: initialize dump callback: failed to freeze GPU: Unavailable: gone"))
      []); vm_compute; reflexivity.
Defined.

(** A restore during which the GPU restore fails. *)
Definition restore_peer : Peer :=
  mkPeer (Ok 7)
    [exchange_ok (sample_resp NOTIFY "pre-restore"); exchange_ok (sample_resp NOTIFY "post-restore");
     exchange_ok (sample_resp NOTIFY "pre-resume")] None true.

Definition restore_final : state :=
  mkState (mkWorld {["a" := set_AttachedPID 42 sample_controller]} [] [(42, SIGKILL); (42, SIGKILL)])
    None (Some []) (Some 42) [CRestore "/dump" false].

Lemma gpu_restore_outcome_witness :
  holds "a" (Address sample_controller) false restore_final ∧
  ∀ pid, restoredPid restore_final = Some pid → (pid, SIGKILL) ∈ signals (base restore_final).
Proof.
  destruct (gpu_restore_outcome (sample_env None) sample_rpc "a" restore_peer 7 sample_opts sample_world
    sample_controller (Some (sample_resp NOTIFY "pre-resume"))
    (Some (Errorf "pre-resume callback: failed to restore GPU: Internal: no memory"))
    [mkReq RESTORE (Some sample_opts) false None; mkReq NOTIFY None true None;
     mkReq NOTIFY None true None] restore_final) as [Hh Hr].
  - vm_compute. reflexivity.
  - reflexivity.
  - vm_compute. reflexivity.
  - split; [exact Hh|]. apply Hr; by eexists.
Defined.

End GpuCallback.
