(* ===== verification/ProcessTree.v ===== *)
(** * The state of a process tree, and what adapters read off it

    The message [daemon.ProcessState] of a process and its children,
    [utils.WalkTree] (pkg/utils/reflect.go), and the keys of external files
    and mounts that dumps give to CRIU (internal/cedana/process/dump_adapters.go,
    internal/cedana/gpu/dump_adapters.go).  Patterns of [regexp] are matched by
    a small backtracking matcher, which like Go's prefers the leftmost match
    and, in it, the longest groups from the left. *)

From Stdlib Require Import Ascii HexadecimalString HexadecimalN.
From S2P Require Import Prelude GoLib.
Import GoLib.

Module ProcessTree.

#[local] Arguments String.append : simpl never.

Record Mount := mkMount { mID : Z; Root : string; MountPoint : string; mMajor : Z; mMinor : Z }.

Record File := mkFile {
  Path : string; Fd : Z; MountID : Z; Inode : Z; Rdev : Z; Dev : Z; IsTTY : bool;
}.

Record Connection := mkConn { cType : Z }.

(** [daemon.ProcessState] as far as the adapters look at it. *)
Inductive State := mkState {
  PID : Z;
  SID : Z;
  Mounts : list Mount;
  OpenFiles : list File;
  OpenConnections : list Connection;
  GPUID : string;
  GPUEnabled : bool;
  UIDs : list Z;
  GIDs : list Z;
  Children : list State;
}.

(** ** [WalkTree] *)

Section walk.
Context {T S : Type} (values : State → list T) (fn : T → S → bool * S).

(** The loop over the values of one node. *)
Fixpoint walk_values (l : list T) (s : S) : bool * S :=
  match l with
  | [] => (true, s)
  | x :: l => let '(go, s1) := fn x s in if go then walk_values l s1 else (false, s1)
  end.

Fixpoint WalkTree (t : State) (s : S) : bool * S :=
  let '(go, s1) := walk_values (values t) s in
  if go then
    match t with
    | mkState _ _ _ _ _ _ _ _ _ children =>
        (fix loop (cs : list State) (s : S) : bool * S :=
           match cs with
           | [] => (true, s)
           | c :: cs => let '(go, s2) := WalkTree c s in if go then loop cs s2 else (false, s2)
           end) children s1
    end
  else (false, s1).

(** The values of a tree, parents before their children. *)
Fixpoint preorder (t : State) : list T :=
  match t with
  | mkState _ _ _ _ _ _ _ _ _ children => values t ++ concat (map preorder children)
  end.

Lemma walk_values_app l1 l2 s :
  walk_values (l1 ++ l2) s =
  let '(go, s1) := walk_values l1 s in if go then walk_values l2 s1 else (false, s1).
Proof.
  revert s. induction l1 as [|x l1 IH]; intros s; simpl; [done|].
  destruct (fn x s) as [[] s1]; [apply IH|done].
Qed.
End walk.

(** Induction over trees, with the hypothesis for all children. *)
Lemma State_ind' (P : State → Prop) :
  (∀ t, Forall P (Children t) → P t) → ∀ t, P t.
Proof.
  intros H. fix IH 1. intros [pid sid ms fs cs gid ge us gs children]. apply H. simpl.
  induction children as [|c children IHc]; constructor; [apply IH|exact IHc].
Qed.

Lemma WalkTree_preorder {T S} (values : State → list T) (fn : T → S → bool * S) t s :
  WalkTree values fn t s = walk_values fn (preorder values t) s.
Proof.
  revert s. induction t as [t IH] using State_ind'. intros s.
  destruct t as [pid sid ms fs cs gid ge us gs children]. cbn [WalkTree preorder].
  rewrite walk_values_app. destruct (walk_values fn _ s) as [[] s1]; [|done]. simpl in IH. clear -IH.
  revert s1. induction IH as [|c children Hc _ IHc]; intros s1; simpl; [done|].
  rewrite walk_values_app -Hc. destruct (WalkTree values fn c s1) as [[] s2]; [apply IHc|done].
Qed.

(** A walk whose function never stops it is a fold. *)
Lemma walk_values_fold {T S} (g : T → S → S) (l : list T) s :
  walk_values (λ x s, (true, g x s)) l s = (true, foldl (λ s x, g x s) s l).
Proof. revert s. induction l as [|x l IH]; intros s; simpl; [done|]. apply IH. Qed.

Lemma WalkTree_fold {T S} (values : State → list T) (g : T → S → S) t s :
  WalkTree values (λ x s, (true, g x s)) t s = (true, foldl (λ s x, g x s) s (preorder values t)).
Proof. by rewrite WalkTree_preorder walk_values_fold. Qed.

(** ** External files *)

(** The verb %x of an unsigned integer. *)
Definition hex (z : Z) : string := HexadecimalString.NilEmpty.string_of_uint (N.to_hex_uint (Z.to_N z)).

Definition mount_ids (t : State) : gset Z :=
  snd (WalkTree Mounts (λ m ids, (true, {[mID m]} ∪ ids)) t ∅).

(** Files that are not on a file system. *)
Definition not_real (f : File) : bool :=
  HasPrefix (Path f) "pipe" || HasPrefix (Path f) "socket" ||
  HasPrefix (Path f) "anon_inode" || HasPrefix (Path f) "/memfd:".

Definition external (mounts : gset Z) (f : File) : bool :=
  negb (bool_decide (MountID f ∈ mounts) || not_real f).

Definition tty_key (f : File) : string := "tty[" +:+ hex (Rdev f) +:+ ":" +:+ hex (Dev f) +:+ "]".
Definition file_key (f : File) : string := "file[" +:+ hex (MountID f) +:+ ":" +:+ hex (Inode f) +:+ "]".

Definition external_key (f : File) : string := if IsTTY f then tty_key f else file_key f.

Definition externalFileKeys (state : State) : list string :=
  let mounts := mount_ids state in
  snd (WalkTree OpenFiles (λ f keys,
    (true, if external mounts f then keys ++ [external_key f] else keys)) state []).

Lemma elem_of_mount_ids t id : id ∈ mount_ids t ↔ id ∈ mID <$> preorder Mounts t.
Proof.
  rewrite /mount_ids WalkTree_fold /=.
  assert (∀ (l : list Mount) (ids : gset Z), id ∈ foldl (λ s x, {[mID x]} ∪ s) ids l ↔ id ∈ ids ∨ id ∈ mID <$> l) as ->.
  - induction l as [|m l IH]; intros ids; simpl; [set_solver|]. rewrite IH. set_solver.
  - set_solver.
Qed.

Lemma externalFileKeys_spec t :
  externalFileKeys t =
  external_key <$> filter (λ f, external (mount_ids t) f = true) (preorder OpenFiles t).
Proof.
  rewrite /externalFileKeys WalkTree_fold /=. set (ids := mount_ids t).
  assert (∀ (l : list File) acc,
    foldl (λ keys f, if external ids f then keys ++ [external_key f] else keys) acc l =
    acc ++ (external_key <$> filter (λ f, external ids f = true) l)) as H; [|by rewrite H].
  induction l as [|f l IH]; intros acc; simpl; [by rewrite app_nil_r|]. rewrite IH.
  destruct (external ids f) eqn:Hf.
  - by rewrite filter_cons_True // fmap_cons -app_assoc.
  - rewrite filter_cons_False //. congruence.
Qed.

(** ** Regular expressions *)

Inductive item :=
| Lit (c : ascii)
| Dot
| AnyStar          (** a group of any bytes but newlines *)
| DigitPlus.       (** a group of digits, at least one *)

Definition newline : ascii := ascii_of_nat 10.
Definition is_digit (x : ascii) : bool := bool_decide (48 ≤ nat_of_ascii x ≤ 57).

(** The ways to split a prefix whose bytes satisfy [ok] off, longest first. *)
Fixpoint splits (ok : ascii → bool) (s : string) : list (string * string) :=
  match s with
  | EmptyString => [(EmptyString, EmptyString)]
  | String x s' =>
      (if ok x then (λ p, (String x p.1, p.2)) <$> splits ok s' else []) ++ [(EmptyString, s)]
  end.

(** Matches at the start of the string; the groups that were captured. *)
Fixpoint match_here (items : list item) (s : string) : option (list string) :=
  match items with
  | [] => Some []
  | Lit c :: items =>
      match s with
      | String x s' => if bool_decide (x = c) then match_here items s' else None
      | EmptyString => None
      end
  | Dot :: items =>
      match s with
      | String x s' => if bool_decide (x = newline) then None else match_here items s'
      | EmptyString => None
      end
  | AnyStar :: items =>
      head (omap (λ p, cons p.1 <$> match_here items p.2) (splits (λ x, negb (bool_decide (x = newline))) s))
  | DigitPlus :: items =>
      head (omap (λ p, if decide (p.1 = "") then None else cons p.1 <$> match_here items p.2) (splits is_digit s))
  end.

(** [FindStringSubmatch] without the whole match; not anchored. *)
Fixpoint FindStringSubmatch (items : list item) (s : string) : option (list string) :=
  match match_here items s with
  | Some groups => Some groups
  | None => match s with EmptyString => None | String _ s' => FindStringSubmatch items s' end
  end.

Definition lits (s : string) : list item := Lit <$> String.list_ascii_of_string s.

(** The patterns of internal/cedana/gpu/controller.go, whose dots match any byte
    but a newline. *)
Definition CONTROLLER_SHM_FILE_PATTERN : list item := lits "/dev/shm/cedana-gpu" ++ [Dot; AnyStar].
Definition CONTROLLER_HOSTMEM_FILE_PATTERN : list item :=
  lits "/dev/shm/cedana-gpu" ++ [Dot; AnyStar; Dot] ++ lits "misc/hostmem-" ++ [DigitPlus].
Definition LOG_DIR_PATTERN : list item := [AnyStar] ++ lits "/cedana-gpu" ++ [Dot; AnyStar].
Definition INTERCEPTOR_LOG_FILE_PATTERN : list item :=
  LOG_DIR_PATTERN ++ lits "/cedana-so-" ++ [DigitPlus; Dot] ++ lits "log".
Definition TRACER_LOG_FILE_PATTERN : list item :=
  LOG_DIR_PATTERN ++ lits "/cedana-tracer-" ++ [DigitPlus; Dot] ++ lits "log".

(** [NVIDIA_MOUNTS_PATTERN], its optional parts and alternatives multiplied out. *)
Definition NVIDIA_MOUNTS_PATTERN : list (list item) :=
  [lits "/nvidia"; lits "/dev/nvidia" ++ [DigitPlus]; lits "/driver/nvidia/gpus"; lits "/run/nvidia";
   lits "/usr/bin/nv"; lits "/usr/lib/firmware/nv"] ++
  (lib ← ["/usr/lib"; "/usr/lib64"]; arch ← ["/"; "/x86_64-linux-gnu/"; "/aarch64-linux-gnu/"];
   name ← ["libcuda"; "libnv"]; [lits (lib +:+ arch +:+ name)]) ++
  [[AnyStar] ++ lits "nvidia"; lits "/etc/vulkan"].

(** [MatchString] of it, which is anchored at the start. *)
Definition nvidia_mount (root : string) : bool :=
  existsb (λ items, bool_decide (is_Some (match_here items root))) NVIDIA_MOUNTS_PATTERN.

Definition gpuExternalMountKeys (state : State) : list string :=
  snd (WalkTree Mounts (λ m keys,
    (true, if nvidia_mount (Root m) then keys ++ ["mnt[" +:+ MountPoint m +:+ "]:" +:+ MountPoint m] else keys))
    state []).

Example hostmem_pattern :
  FindStringSubmatch CONTROLLER_HOSTMEM_FILE_PATTERN "/dev/shm/cedana-gpu.abc.misc/hostmem-42" = Some ["abc"; "42"].
Proof. vm_compute. done. Qed.

Example interceptor_pattern :
  FindStringSubmatch INTERCEPTOR_LOG_FILE_PATTERN "/tmp/cedana-gpu.abc/cedana-so-7.log" = Some ["/tmp"; "abc"; "7"].
Proof. vm_compute. done. Qed.

Example nvidia_mounts :
  map nvidia_mount ["/usr/lib64/x86_64-linux-gnu/libcuda.so"; "/proc/driver/nvidia"; "/dev/null"] = [true; true; false].
Proof. vm_compute. done. Qed.

End ProcessTree.
