(* ===== verification/Slurm.v ===== *)
(** * The Slurm plugin (plugins/slurm)

    How the plugin finds the cgroup of a job's step (internal/job/utils.go),
    the adapters it adds to dumps and restores, its freeze handlers, and the
    adapters it defines but does not use.  The cgroup manager is a third party:
    its operations are the fields of [Cgroups] and what they are documented to
    do is [CgroupsOk].  Callbacks are kept in the state as data; [callback_of]
    is their code, over the callbacks of [Criu].  [None] is a panic.

    The path that is found belongs to the job and the search is bounded
    ([ResolveJobCgroupPath_in_job], [search_waits]); a restore puts CRIU
    into the job's cgroups and gives it their roots before it is sent the
    request ([cgroups_before_request]); freezing without CRIU options panics
    ([freeze_without_options_panics]). *)

From Stdlib Require Import Ascii.
From S2P Require Import Prelude GoLib Criu Swrk Files ProcessTree.

Module Slurm.
Import GoLib Criu ProcessTree.
#[local] Arguments String.append : simpl nomatch.

(** ** Patterns of [filepath.Glob]

    As far as the plugin's patterns go: a star stands for any characters but
    slashes, every other character for itself. *)
Definition star : ascii := "*"%char.

Fixpoint Match (pattern s : string) : bool :=
  match pattern with
  | EmptyString => bool_decide (s = EmptyString)
  | String c pattern' =>
      if decide (c = star) then
        (fix skip (s : string) : bool :=
           Match pattern' s ||
           match s with
           | EmptyString => false
           | String x s' => negb (bool_decide (x = slash)) && skip s'
           end) s
      else match s with
           | EmptyString => false
           | String x s' => bool_decide (x = c) && Match pattern' s'
           end
  end.

(** ** Data *)

(** [cgroups.FreezerState] *)
Inductive FreezerState := Undefined | Frozen | Thawed.
#[export] Instance FreezerState_eq_dec : EqDecision FreezerState.
Proof. solve_decision. Defined.

(** The types of [configs.NamespaceType] that the plugin names. *)
Inductive NamespaceType := NEWNS | NEWUTS | NEWIPC | NEWUSER | NEWNET | NEWPID | OtherNs (t : string).
#[export] Instance NamespaceType_eq_dec : EqDecision NamespaceType.
Proof. solve_decision. Defined.

(** The part of [criu.CriuOpts] that the plugin sets. *)
Record COpts := mkCOpts {
  oOrphanPtsMaster : option bool;
  FreezeCgroup : option string;
  External : list string;
  InheritFd : list (string * Z);
  CgRoot : list (string * string);
}.
Definition empty_opts : COpts := mkCOpts None None [] [] [].
Definition with_orphan (o : COpts) : COpts := mkCOpts (Some true) (FreezeCgroup o) (External o) (InheritFd o) (CgRoot o).
Definition with_freezer (p : string) (o : COpts) : COpts :=
  mkCOpts (oOrphanPtsMaster o) (Some p) (External o) (InheritFd o) (CgRoot o).
Definition add_external (e : string) (o : COpts) : COpts :=
  mkCOpts (oOrphanPtsMaster o) (FreezeCgroup o) (External o ++ [e]) (InheritFd o) (CgRoot o).
Definition add_inherit (e : string * Z) (o : COpts) : COpts :=
  mkCOpts (oOrphanPtsMaster o) (FreezeCgroup o) (External o) (InheritFd o ++ [e]) (CgRoot o).
Definition add_roots (l : list (string * string)) (o : COpts) : COpts :=
  mkCOpts (oOrphanPtsMaster o) (FreezeCgroup o) (External o) (InheritFd o) (CgRoot o ++ l).

Record Slurm := mkSlurm { JobID : Z; sPID : Z }.

(** A request: its details, if any, with those of Slurm, if any, and its
    options for CRIU. *)
Record Req := mkReq { Details : option (option Slurm); Criu : option COpts }.
Definition GetSlurm (r : Req) : option Slurm := Details r ≫= λ d, d.
Definition GetJobID (r : Req) : Z := from_option JobID 0%Z (GetSlurm r).
Definition details_PID (r : Req) : Z := from_option sPID 0%Z (GetSlurm r).

Definition set_PID (pid : Z) (s : State) : State :=
  mkState pid (SID s) (Mounts s) (OpenFiles s) (OpenConnections s) (GPUID s) (GPUEnabled s) (UIDs s) (GIDs s) (Children s).

(** ** What is outside *)

(** [cgroups.Manager], over the state [K] of the kernel's cgroups. *)
Class Cgroups (M K : Type) := {
  New : string → gores M;
  PathOf : M → string → string;
  GetPaths : M → gmap string string;
  GetFreezerState : M → K → gores FreezerState;
  SetFreezer : M → FreezerState → K → option error * K;
  Apply : M → Z → K → option error * K;
}.
Arguments New {_ _ _}. Arguments PathOf {_ _ _}. Arguments GetPaths {_ _ _}.

(** A manager that has set the state of the freezer reads it back. *)
Class CgroupsOk {M K} (C : Cgroups M K) := {
  freezer_reads_back : ∀ m st s s', SetFreezer m st s = (None, s') → GetFreezerState m s' = Ok st;
}.

(** The answers of the operating system and of CRIU; [Glob] also depends on how
    long the search has been waiting. *)
Record Env := mkEnv {
  ReadFile : string → gores string;
  Glob : nat → string → gores (list string);
  Getpid : Z;
  criuVersion : gores Z;
  IsCgroup2UnifiedMode : bool;
  StatOk : string → bool;
  Ino : string → gores Z;
  OpenErr : string → option error;
  NsName : NamespaceType → string;
  FillProcessState : Z → State → option error * State;
  Unprivileged : bool;                              (** the configuration *)
  is_permission : error → bool;                     (** [os.IsPermission], [EACCES] or [EPERM] *)
  dump_fault : string → string → option error;      (** of the file system of the dump *)
}.

(** What [Glob] finds matches the pattern. *)
Definition GlobOk (E : Env) : Prop :=
  ∀ t pattern l, Glob E t pattern = Ok l → Forall (λ p, Match pattern p = true) l.

Section plugin.
Context {M K : Type} `{C : Cgroups M K} `{MR : MapRange} (E : Env).

(** ** State *)

(** The callbacks of the plugin, with what their closures hold. *)
Inductive Callback := LockNetwork | UnlockNetwork | ApplyCgroups (manager : M).

(** Request and response, what is shared through pointers, and what is outside:
    the cgroups, the half-seconds waited, the dump and the host's files. *)
Record World := mkWorld {
  req : Req;
  state : option State;
  CRIUCallback : list Callback;
  InheritFdMap : gmap string Z;
  cgroups : K;
  slept : nat;
  DumpFs : option (gmap string string);
  host : Files.FS;
}.
Definition set_req (r : Req) (w : World) : World :=
  mkWorld r (state w) (CRIUCallback w) (InheritFdMap w) (cgroups w) (slept w) (DumpFs w) (host w).
Definition set_state (st : State) (w : World) : World :=
  mkWorld (req w) (Some st) (CRIUCallback w) (InheritFdMap w) (cgroups w) (slept w) (DumpFs w) (host w).
Definition Include (c : Callback) (w : World) : World :=
  mkWorld (req w) (state w) (CRIUCallback w ++ [c]) (InheritFdMap w) (cgroups w) (slept w) (DumpFs w) (host w).
Definition set_inherited (m : gmap string Z) (w : World) : World :=
  mkWorld (req w) (state w) (CRIUCallback w) m (cgroups w) (slept w) (DumpFs w) (host w).
Definition set_cgroups (s : K) (w : World) : World :=
  mkWorld (req w) (state w) (CRIUCallback w) (InheritFdMap w) s (slept w) (DumpFs w) (host w).
Definition set_slept (n : nat) (w : World) : World :=
  mkWorld (req w) (state w) (CRIUCallback w) (InheritFdMap w) (cgroups w) n (DumpFs w) (host w).
Definition set_dump (m : option (gmap string string)) (w : World) : World :=
  mkWorld (req w) (state w) (CRIUCallback w) (InheritFdMap w) (cgroups w) (slept w) m (host w).
Definition set_host (fs : Files.FS) (w : World) : World :=
  mkWorld (req w) (state w) (CRIUCallback w) (InheritFdMap w) (cgroups w) (slept w) (DumpFs w) fs.

(** The values of the context, and the extra files of the options. *)
Record Ctx := mkCtx { CGROUP_MANAGER : option M; ExtraFiles : list string }.
Definition with_manager (m : M) (ctx : Ctx) : Ctx := mkCtx (Some m) (ExtraFiles ctx).

Definition Handler : Type := Ctx → Go World (gores unit).
Definition Adapter : Type := Handler → Handler.
Definition chain (middleware : list Adapter) (h : Handler) : Handler := foldr (λ a h, a h) h middleware.

(** An adapter that does its work and then calls the next handler. *)
Definition before (f : Ctx → Go World (gores unit)) : Adapter := λ next ctx, try (f ctx) (λ _, next ctx).

(** [req.Criu.X = ...], through a pointer. *)
Definition on_criu (f : COpts → COpts) : Go World (gores unit) := λ w,
  match Criu (req w) with
  | None => None
  | Some o => Some (Ok (), set_req (mkReq (Details (req w)) (Some (f o))) w)
  end.
Definition fill_criu : Go World (gores unit) :=
  _ ← modify (λ w, set_req (mkReq (Details (req w)) (Some (default empty_opts (Criu (req w))))) w); mret (Ok ()).

(** ** Finding the cgroup of a job *)

Definition cgroupRetryAttempts : nat := 10.
Definition cgroup_root : string := "/sys/fs/cgroup".
Definition root_cgroup (pid : Z) : gores string := Err (Errorf ("process " +:+ itoaZ pid +:+ " is in the root cgroup")).

Fixpoint find_v2_entry (pid : Z) (lines : list string) : gores string :=
  match lines with
  | [] => Err (Errorf ("no cgroup v2 entry for process " +:+ itoaZ pid))
  | line :: lines =>
      match CutPrefix line "0::" with
      | None => find_v2_entry pid lines
      | Some path => if decide (path = "" ∨ path = "/") then root_cgroup pid else Ok path
      end
  end.
Definition newline : ascii := ascii_of_nat 10.
Definition cgroupPathFromProc (pid : Z) : gores string :=
  match ReadFile E ("/proc/" +:+ itoaZ pid +:+ "/cgroup") with
  | Err e => Err e
  | Ok data => find_v2_entry pid (Split (TrimSpace data) newline)
  end.

Definition job_element (jid : Z) : string := "/job_" +:+ itoaZ jid +:+ "/".

Definition selfInJobCgroup (pid jid : Z) : bool :=
  match cgroupPathFromProc pid with Err _ => false | Ok path => Contains path (job_element jid) end.

(** [matches\[0\]\[n:\]], which panics when the match is shorter. *)
Definition after (n : nat) (s : string) : option string :=
  if decide (n ≤ String.length s)%nat then Some (str_drop n s) else None.

Definition sleep : Go World unit := modify (λ w, set_slept (1 + slept w) w).

(** The first match of the first pattern that has one; errors count as none. *)
Fixpoint first_match (t : nat) (patterns : list string) : option string :=
  match patterns with
  | [] => None
  | pattern :: patterns =>
      match Glob E t pattern with
      | Ok (m :: _) => Some m
      | _ => first_match t patterns
      end
  end.

Definition v2_patterns (jid : Z) : list string :=
  let leaf := "job_" +:+ itoaZ jid +:+ "/step_batch/user/task_special" in
  [cgroup_root +:+ "/system.slice/*slurmstepd*.scope/" +:+ leaf;
   cgroup_root +:+ "/system.slice/*.scope/system.slice/*slurmstepd*.scope/" +:+ leaf].

(** The loop of both searches: [look] at what there is after so many sleeps. *)
Fixpoint attempts (look : nat → option (gores string)) (stop_waiting : error) (n : nat) : Go World (gores string) := λ w,
  match n with
  | O => Some (Err stop_waiting, w)
  | S n' =>
      match look (slept w) with
      | Some (Err e) => Some (Err e, w)
      | Some (Ok m) =>
          match after (String.length cgroup_root) m with Some path => Some (Ok path, w) | None => None end
      | None => (_ ← (if decide (n' = 0)%nat then mret () else sleep); attempts look stop_waiting n') w
      end
  end.

Definition look_v2 (jid : Z) (t : nat) : option (gores string) := Ok <$> first_match t (v2_patterns jid).
Definition getJobCgroupPathV2 (jid : Z) : Go World (gores string) :=
  attempts (look_v2 jid) (Status NotFound ("cgroup v2 path for slurm job " +:+ itoaZ jid +:+ " not found")) cgroupRetryAttempts.

Definition v1_pattern (jid : Z) : string :=
  "/sys/fs/cgroup/freezer/slurm*/uid_*/job_" +:+ itoaZ jid +:+ "/step_batch".
Definition look_v1 (jid : Z) (t : nat) : option (gores string) :=
  match Glob E t (v1_pattern jid) with
  | Err e => Some (Err (Status Internal ("failed to glob cgroup paths for slurm job " +:+ itoaZ jid +:+
                          " with pattern " +:+ v1_pattern jid +:+ ": " +:+ Error e)))
  | Ok (m :: _) => Some (Ok m)
  | Ok [] => None
  end.
Definition getJobCgroupPathV1 (jid : Z) : Go World (gores string) :=
  attempts (look_v1 jid) (Status NotFound ("cgroup path for slurm job " +:+ itoaZ jid +:+ " does not exist after " +:+
                            itoaZ (Z.of_nat cgroupRetryAttempts) +:+ " attempts")) cgroupRetryAttempts.

Definition ResolveJobCgroupPath (jid pid : Z) : Go World (gores string) :=
  let search := r ← getJobCgroupPathV2 jid;
                match r with Ok path => mret (Ok path) | Err _ => getJobCgroupPathV1 jid end in
  if decide (0 < pid)%Z then
    match cgroupPathFromProc pid with
    | Ok path => if Contains path (job_element jid) then mret (Ok path) else search
    | Err _ => search
    end
  else search.

(** ** Defaults and validation, of dumps and of restores *)

Definition fill_details (r : Req) : Req :=
  mkReq (Some (Some (default (mkSlurm 0 0) (GetSlurm r)))) (Criu r).
Definition fill_defaults : Go World (gores unit) :=
  _ ← modify (λ w, set_req (fill_details (req w)) w); on_criu with_orphan.
Definition FillMissingDumpDefaults : Adapter := before (λ _, fill_defaults).
Definition FillMissingRestoreDefaults : Adapter := before (λ _, fill_defaults).

Definition validate (missing : string) : Go World (gores unit) :=
  w ← get;
  if bool_decide (GetSlurm (req w) = None) then fail InvalidArgument missing
  else if decide (GetJobID (req w) = 0%Z) then fail InvalidArgument "missing slurm job id"
  else mret (Ok ()).
Definition ValidateDumpRequest : Adapter := before (λ _, validate "missing slurm details").
Definition ValidateRestoreRequest : Adapter := before (λ _, validate "missing slurm run options").

(** ** The job's cgroup manager and its PID *)

(** [next] runs with the manager in the context. *)
Definition GetSlurmJobForDump : Adapter := λ next ctx,
  w ← get;
  let jid := GetJobID (req w) in
  try (ResolveJobCgroupPath jid (details_PID (req w))) (λ path,
  match New path with
  | Err e => fail NotFound ("failed to load cgroup2 for slurm job " +:+ itoaZ jid +:+ ": " +:+ Error e)
  | Ok manager => next (with_manager manager ctx)
  end).

Definition set_pid_for_dump : Go World (gores unit) := λ w,
  let s := default (mkState 0 0 [] [] [] "" false [] [] []) (state w) in
  let '(missing, s) :=
    if decide (PID s = 0%Z) then (bool_decide (details_PID (req w) = 0%Z), set_PID (details_PID (req w)) s) else (false, s) in
  if missing then fail NotFound "failed to get PID from slurm details" (set_state s w)
  else
    match FillProcessState E (PID s) s with
    | (Some e, s') => failed "failed to fill process state" e (set_state s' w)
    | (None, s') => Some (Ok (), set_state s' w)
    end.
Definition SetPIDForDump : Adapter := before (λ _, set_pid_for_dump).

Definition restore_pid (r : Req) : Z :=
  if decide (details_PID r = 0%Z) then if selfInJobCgroup (Getpid E) (GetJobID r) then Getpid E else 0%Z else details_PID r.
Definition GetSlurmJobForRestore : Adapter := λ next ctx,
  w ← get;
  let jid := GetJobID (req w) in
  try (ResolveJobCgroupPath jid (restore_pid (req w))) (λ path,
  match New path with
  | Err e => fail Internal ("failed to load cgroup2 for slurm job " +:+ itoaZ jid +:+ ": " +:+ Error e)
  | Ok manager =>
      w ← get;
      match GetFreezerState manager (cgroups w) with
      | Err e => failed "failed to get cgroup freezer state" e
      | Ok st =>
          if decide (st = Frozen) then fail FailedPrecondition "container's cgroup unexpectedly frozen"
          else next (with_manager manager ctx)
      end
  end).

(** ** Cgroups *)

Definition need_manager (ctx : Ctx) : Go World (gores M) :=
  match CGROUP_MANAGER ctx with
  | Some m => mret (Ok m)
  | None => fail FailedPrecondition "failed to get cgroup manager from context"
  end.

(** Sets the freezer unless it already is in the state [st], or is not in the
    state that [st] undoes. *)
Definition set_freezer (freeze : bool) : Handler := λ ctx,
  try (need_manager ctx) (λ m,
  w ← get;
  match GetFreezerState m (cgroups w) with
  | Err e => failed "failed to get cgroup freezer state" e
  | Ok st =>
      if negb (eqb freeze (bool_decide (st = Frozen))) then
        let '(e, s) := SetFreezer m (if freeze then Frozen else Thawed) (cgroups w) in
        _ ← put (set_cgroups s w); mret (match e with Some e => Err e | None => Ok () end)
      else mret (Err (Errorf (if freeze then "container cgroup is already frozen" else "container cgroup is not frozen")))
  end).
Definition freeze : Handler := set_freezer true.
Definition unfreeze : Handler := set_freezer false.

(** Closes over the manager; the request is reached through its pointer. *)
Definition trimmed_roots (m : M) : list (string * string) :=
  prod_map id (λ p, TrimPrefix p cgroup_root) <$> Range (GetPaths m).
Definition apply_cgroups (manager : M) (criuPid : Z) : Go World (option error) := λ w,
  let '(err, s) := Apply manager criuPid (cgroups w) in
  let w := set_cgroups s w in
  match err with
  | Some e =>
      if Unprivileged E && is_permission E e then
        (_ ← on_criu (add_roots (trimmed_roots manager)); mret None) w
      else Some (Some (Errorf ("failed to apply cgroups to CRIU process: " +:+ Error e)), w)
  | None => (_ ← on_criu (add_roots (trimmed_roots manager)); mret None) w
  end.

Definition callback_of (c : Callback) : NotifyCallback World :=
  match c with
  | LockNetwork =>
      mkCallback None None None None None None None None None (Some (mret None : Go World (option error))) None None None None None None None None ""
  | UnlockNetwork =>
      mkCallback None None None None None None None None None None (Some (mret None : Go World (option error))) None None None None None None None ""
  | ApplyCgroups m =>
      mkCallback (Some (apply_cgroups m)) None None None None None None None None None None None None None None None None None ""
  end.
(** [opts.CRIUCallback], as CRIU's client gets it. *)
Definition callbacks (w : World) : NotifyCallbackMulti World := map (λ c, callback_notify (callback_of c)) (CRIUCallback w).

Definition ApplyCgroupsOnRestore : Adapter := before (λ ctx,
  try (need_manager ctx) (λ m,
  w ← get;
  if bool_decide (Criu (req w) = None) then fail InvalidArgument "missing CRIU options in restore request"
  else _ ← put (Include (ApplyCgroups m) w); mret (Ok ()))).

Definition including (c : Callback) : Adapter := before (λ _, _ ← modify (Include c); mret (Ok ())).
Definition LockNetworkBeforeDump : Adapter := including LockNetwork.
Definition UnlockNetworkAfterRestore : Adapter := including UnlockNetwork.

(** ** The middleware the plugin exports *)

Definition DumpMiddleware : list Adapter :=
  [FillMissingDumpDefaults; ValidateDumpRequest; SetPIDForDump; GetSlurmJobForDump; LockNetworkBeforeDump].
Definition RestoreMiddleware : list Adapter :=
  [FillMissingRestoreDefaults; ValidateRestoreRequest; GetSlurmJobForRestore; ApplyCgroupsOnRestore;
   UnlockNetworkAfterRestore].

(** ** Adapters that are part of no chain *)

Definition check_file (fcg : string) : string :=
  Join2 fcg (if IsCgroup2UnifiedMode E || Contains fcg ":" then "cgroup.freeze" else "freezer.state").
Definition UseCgroupFreezerIfAvailableForDump : Adapter := before (λ ctx,
  try (need_manager ctx) (λ m,
  match criuVersion E with
  | Err e => failed "failed to get CRIU version" e
  | Ok version =>
      try fill_criu (λ _,
      let fcg := PathOf m "freezer" in
      if (negb (IsCgroup2UnifiedMode E) || bool_decide (31400 ≤ version)%Z) && negb (bool_decide (fcg = ""))
           && StatOk E (check_file fcg)
      then on_criu (with_freezer fcg) else mret (Ok ()))
  end)).

Definition ToTitle (s : string) : string :=
  String.string_of_list_ascii (map (λ x, let n := nat_of_ascii x in
    if decide (97 ≤ n ≤ 122)%nat then ascii_of_nat (n - 32) else x) (String.list_ascii_of_string s)).
Definition CriuNsToKey (t : NamespaceType) : string := "extRoot" +:+ ToTitle (NsName E t) +:+ "NS".

Definition nsPathOf (t : NamespaceType) (pid : Z) : string :=
  let file f := "/proc/" +:+ itoaZ pid +:+ "/ns/" +:+ f in
  match t with
  | NEWNS => file "mnt" | NEWUTS => file "uts" | NEWIPC => file "ipc" | NEWUSER => file "user"
  | NEWNET => file "net" | NEWPID => file "pid" | OtherNs _ => ""
  end.

(** Some types need a version of CRIU. *)
Definition too_old (version : Z) (t : NamespaceType) : bool :=
  match t with
  | NEWNET => bool_decide (version < 31100)%Z
  | NEWPID => bool_decide (version < 31500)%Z
  | _ => false
  end.

(** The PID is read through [req.Details] and its Slurm details. *)
Definition slurm_pid : Go World Z := λ w, s ← GetSlurm (req w); Some (sPID s, w).

Fixpoint add_external_ns (version : Z) (nsTypes : list NamespaceType) : Go World (gores unit) :=
  match nsTypes with
  | [] => mret (Ok ())
  | t :: nsTypes =>
      if too_old version t then mret (Ok ())
      else
        pid ← slurm_pid;
        if decide (nsPathOf t pid = "") then mret (Ok ())
        else match Ino E (nsPathOf t pid) with
             | Err e => failed ("failed to stat " +:+ nsPathOf t pid) e
             | Ok ino =>
                 try fill_criu (λ _,
                 try (on_criu (add_external (NsName E t +:+ "[" +:+ itoaZ ino +:+ "]:" +:+ CriuNsToKey t))) (λ _,
                 add_external_ns version nsTypes))
             end
  end.
Definition AddExternalNamespacesForDump (nsTypes : list NamespaceType) : Adapter := before (λ _,
  match criuVersion E with
  | Err e => failed "failed to get CRIU version" e
  | Ok version => add_external_ns version nsTypes
  end).

(** The files of the namespaces follow the extra files there are. *)
Fixpoint inherit_ns (version : Z) (nsTypes : list NamespaceType) (extra : list string) : Go World (gores (list string)) :=
  match nsTypes with
  | [] => mret (Ok extra)
  | t :: nsTypes =>
      if negb (bool_decide (t = NEWNET ∨ t = NEWPID)) || too_old version t then mret (Ok extra)
      else
        pid ← slurm_pid;
        if decide (nsPathOf t pid = "") then mret (Ok extra)
        else
          w ← get;
          let key := CriuNsToKey t in
          let fd := (3 + Z.of_nat (length extra))%Z in
          if InheritFdMap w !! key is Some _
          then fail FailedPrecondition ("external namespace file " +:+ key +:+ " already inherited")
          else
            _ ← put (set_inherited (<[key := fd]> (InheritFdMap w)) w);
            match OpenErr E (nsPathOf t pid) with
            | Some e => fail Internal ("external namespace file " +:+ nsPathOf t pid +:+ " does not exist: " +:+ Error e)
            | None => try (on_criu (add_inherit (key, fd))) (λ _, inherit_ns version nsTypes (extra ++ [nsPathOf t pid]))
            end
  end.
Definition InheritExternalNamespacesForRestore (nsTypes : list NamespaceType) : Adapter := λ next ctx,
  match criuVersion E with
  | Err e => failed "failed to get CRIU version" e
  | Ok version =>
      try fill_criu (λ _,
      try (inherit_ns version nsTypes (ExtraFiles ctx)) (λ extra, next (mkCtx (CGROUP_MANAGER ctx) extra)))
  end.

(** ** The script of the job *)

Definition SLURM_SCRIPT_FILE : string := "slurm_script".

(** [os.Open] and [io.ReadAll] of a file of the host. *)
Definition os_Open (p : string) (fs : Files.FS) : gores Files.node :=
  match fs !! Files.resolve p with Some n => Ok n | None => Err (Errorf "no such file or directory") end.
Definition ReadAll (n : Files.node) : gores string :=
  match n with Files.Dir => Err (Errorf "is a directory") | _ => Ok (Files.content n) end.

Definition SaveScriptToDump (script : Files.node) (fn : string) (dump : gmap string string)
    : option error * gmap string string :=
  match ReadAll script with
  | Err e => (Some (Errorf ("error reading file: " +:+ Error e)), dump)
  | Ok contents =>
      match dump_fault E "create" fn with
      | Some e => (Some (Errorf ("error creating file: " +:+ Error e)), dump)
      | None =>
          match dump_fault E "write" fn with
          | Some e => (Some (Errorf ("error writing script data: " +:+ Error e)), <[fn := ""]> dump)
          | None => (None, <[fn := contents]> dump)
          end
      end
  end.
Definition LoadScriptFromDump (fn : string) (dump : gmap string string) : gores string :=
  match dump !! fn with Some contents => Ok contents | None => Err (Errorf "error opening file: file does not exist") end.

(** The walk ends at the first file with the name of the script; what fails is
    only logged. *)
Definition save_one (f : File) (w : World) : World :=
  match os_Open (Path f) (host w), DumpFs w with
  | Ok script, Some dump => set_dump (Some (snd (SaveScriptToDump script SLURM_SCRIPT_FILE dump))) w
  | _, _ => w
  end.
Definition save_script (f : File) (w : World) : bool * World :=
  if decide (Base (Path f) = SLURM_SCRIPT_FILE) then (false, save_one f w) else (true, w).
Definition DumpSlurmScript : Adapter := λ next ctx w,
  match state w with
  | None => next ctx w
  | Some s => next ctx (snd (WalkTree OpenFiles save_script s w))
  end.

(** [os.WriteFile] *)
Definition WriteFile (p : Files.path) (data : string) (fs : Files.FS) : gores Files.FS :=
  match Files.Create p fs with Ok fs => Ok (<[p := Files.Reg data]> fs) | Err e => Err e end.

(** [None]: there is no file system to load from. *)
Definition load_one (f : File) (w : option World) : option World :=
  w ← w; dump ← DumpFs w;
  Some (match LoadScriptFromDump SLURM_SCRIPT_FILE dump with
        | Err _ => w
        | Ok contents =>
            match Files.MkdirAll (Files.resolve (FilepathDir (Path f))) (host w) with
            | Err _ => w
            | Ok fs =>
                match WriteFile (Files.resolve (Path f)) contents fs with
                | Ok fs' => set_host fs' w
                | Err _ => set_host fs w
                end
            end
        end).
Definition load_script (f : File) (w : option World) : bool * option World :=
  if decide (Base (Path f) = SLURM_SCRIPT_FILE) then (false, load_one f w) else (true, w).
Definition RestoreSlurmScript : Adapter := λ next ctx w,
  match state w with
  | None => next ctx w
  | Some s => w' ← snd (WalkTree OpenFiles load_script s (Some w)); next ctx w'
  end.
End plugin.

(** ** Patterns *)

(** What a star followed by [pattern] matches. *)
Lemma Match_star pattern s :
  Match (String star pattern) s =
  Match pattern s || match s with EmptyString => false | String x s' => negb (bool_decide (x = slash)) && Match (String star pattern) s' end.
Proof. by destruct s. Qed.

Lemma Match_char c pattern s :
  c ≠ star → Match (String c pattern) s =
  match s with EmptyString => false | String x s' => bool_decide (x = c) && Match pattern s' end.
Proof. intros Hc. cbn [Match]. by rewrite decide_False. Qed.

Lemma Match_app p q s :
  Match (p +:+ q) s = true → ∃ a b, s = a +:+ b ∧ Match p a = true ∧ Match q b = true.
Proof.
  revert s. induction p as [|c p IH]; intros s; [by exists "", s|]. cbn [String.append].
  destruct (decide (c = star)) as [->|Hc].
  - induction s as [|x s IHs]; rewrite Match_star; intros [H|H]%orb_true_iff; [|done| |].
    + apply IH in H as (a & b & -> & Ha & Hb). exists a, b. by rewrite Match_star Ha.
    + apply IH in H as (a & b & -> & Ha & Hb). exists a, b. by rewrite Match_star Ha.
    + apply andb_true_iff in H as [Hx H]. destruct (IHs H) as (a & b & -> & Ha & Hb).
      exists (String x a), b. by rewrite Match_star Hx Ha orb_true_r.
  - rewrite Match_char //. destruct s as [|x s]; [done|]. intros [Hx (a & b & -> & Ha & Hb)%IH]%andb_true_iff.
    exists (String x a), b. by rewrite Match_char // Hx Ha.
Qed.

Lemma Match_plain p s : has_byte star p = false → Match p s = true → s = p.
Proof.
  revert s. induction p as [|c p IH]; intros s; [by intros _ ?%bool_decide_eq_true|].
  cbn [has_byte Match]. intros [Hc Hp]%orb_false_elim. apply bool_decide_eq_false in Hc. rewrite decide_False //.
  destruct s as [|x s]; [done|]. intros [->%bool_decide_eq_true Hm]%andb_true_iff. by rewrite (IH s).
Qed.

Lemma job_element_plain jid : has_byte star (job_element jid) = false.
Proof. unfold job_element. rewrite !has_byte_append has_byte_itoaZ //. Qed.

Lemma after_append a b : after (String.length a) (a +:+ b) = Some b.
Proof.
  unfold after. rewrite decide_True; [rewrite length_append; lia|]. f_equal.
  by induction a as [|x a IH]; [destruct b|].
Qed.

(** What matches a pattern of the job is a path of the job. *)
Definition path_of_job (jid : Z) (m : string) : Prop :=
  ∃ p, after (String.length cgroup_root) m = Some p ∧ Contains p (job_element jid) = true.

Lemma job_pattern jid mid tail m :
  Match (cgroup_root +:+ mid +:+ job_element jid +:+ tail) m = true → path_of_job jid m.
Proof.
  intros (r & m1 & -> & ->%Match_plain & H)%Match_app; [|done].
  apply Match_app in H as (a & m2 & -> & _ & (j & t & -> & ->%Match_plain & _)%Match_app); [|apply job_element_plain].
  exists (a +:+ job_element jid +:+ t). split; [apply after_append|apply Files.Contains_piece].
Qed.

Section found.
Context {M K : Type} (E : Env) (G : GlobOk E).

Lemma v1_path_of_job jid t m : look_v1 E jid t = Some (Ok m) → path_of_job jid m.
Proof.
  unfold look_v1. destruct (Glob E t _) as [[|m' l]|e] eqn:H; [done| |done]. intros [= ->].
  apply G in H. apply Forall_cons_1 in H as [H _].
  apply (job_pattern jid "/freezer/slurm*/uid_*" "step_batch"). rewrite /job_element !append_assoc. exact H.
Qed.

Lemma first_match_glob t patterns m :
  first_match E t patterns = Some m → ∃ p l, p ∈ patterns ∧ Glob E t p = Ok (m :: l).
Proof.
  induction patterns as [|p patterns IH]; [done|]. cbn [first_match].
  destruct (Glob E t p) as [[|x l]|e] eqn:Hp.
  2: { intros [= ->]. exists p, l. split; [by left|done]. }
  all: intros (p' & l' & Hin & Hg)%IH; exists p', l'; by split; [right|].
Qed.

Lemma v2_path_of_job jid t m : look_v2 E jid t = Some (Ok m) → path_of_job jid m.
Proof.
  unfold look_v2. intros (m' & (p & l & Hp & Hg)%first_match_glob & [= ->])%fmap_Some.
  apply G in Hg. apply Forall_cons_1 in Hg as [Hm _].
  unfold v2_patterns in Hp. apply elem_of_cons in Hp as [->| ->%list_elem_of_singleton].
  - apply (job_pattern jid "/system.slice/*slurmstepd*.scope" "step_batch/user/task_special").
    rewrite /job_element !append_assoc. exact Hm.
  - apply (job_pattern jid "/system.slice/*.scope/system.slice/*slurmstepd*.scope" "step_batch/user/task_special").
    rewrite /job_element !append_assoc. exact Hm.
Qed.
End found.
(** ** The search *)

Section search.
Context {M K : Type}.
Abbreviation World := (World (M := M) (K := K)).
Implicit Types w : World.

Lemma set_slept_same w : set_slept (slept w) w = w.
Proof. by destruct w. Qed.

Lemma set_slept_again k n w : set_slept (k + slept (set_slept n w)) (set_slept n w) = set_slept (k + n) w.
Proof. done. Qed.

Lemma attempts_step look stop_waiting n' w :
  look (slept w) = None →
  attempts look stop_waiting (S n') w = attempts look stop_waiting n' (if decide (n' = 0)%nat then w else set_slept (1 + slept w) w).
Proof. intros Hl. cbn [attempts]. rewrite Hl. by case_decide. Qed.

(** A search returns, after fewer sleeps than it has attempts; a path comes
    from something it looked at. *)
Lemma attempts_bounded look stop_waiting n w :
  (∀ t m, look t = Some (Ok m) → is_Some (after (String.length cgroup_root) m)) →
  ∃ r k, attempts look stop_waiting n w = Some (r, set_slept (k + slept w) w) ∧ (k ≤ pred n)%nat ∧
    ∀ p, r = Ok p → ∃ t m, look t = Some (Ok m) ∧ after (String.length cgroup_root) m = Some p.
Proof.
  intros Hl. revert w. induction n as [|n IH]; intros w.
  { exists (Err stop_waiting), 0%nat. split; [cbn; by rewrite set_slept_same|]. split; [lia|done]. }
  destruct (look (slept w)) as [[m|e]|] eqn:Hw.
  - destruct (Hl _ _ Hw) as [p Hp]. exists (Ok p), 0%nat. cbn [attempts]. rewrite Hw Hp set_slept_same.
    split; [done|]. split; [lia|]. intros ? [= <-]. eauto.
  - exists (Err e), 0%nat. cbn [attempts]. rewrite Hw set_slept_same. split; [done|]. split; [lia|done].
  - rewrite attempts_step //. case_decide as Hn.
    + subst n. destruct (IH w) as (r & k & -> & Hk & Hr). exists r, k. split; [done|]. split; [lia|done].
    + destruct (IH (set_slept (1 + slept w) w)) as (r & k & -> & Hk & Hr). exists r, (S k).
      split; [|split; [lia|done]]. rewrite set_slept_again. do 3 f_equal. lia.
Qed.

(** It finds what first shows up after [k] sleeps, if it looks so often. *)
Lemma attempts_found look stop_waiting n k m p w :
  (∀ j, (j < k)%nat → look (j + slept w)%nat = None) → look (k + slept w)%nat = Some (Ok m) →
  after (String.length cgroup_root) m = Some p → (k < n)%nat →
  attempts look stop_waiting n w = Some (Ok p, set_slept (k + slept w) w).
Proof.
  intros Hj Hk Hp. revert n w Hj Hk. induction k as [|k IH]; intros [|n] w Hj Hk Hn; try lia.
  - cbn [attempts]. by rewrite Hk Hp set_slept_same.
  - rewrite attempts_step; [apply (Hj 0%nat); lia|]. rewrite decide_False; [lia|].
    assert (∀ j, (j + slept (set_slept (1 + slept w) w) = S j + slept w)%nat) as Hs by (intros; simpl; lia).
    rewrite (IH n); [intros j Hlt; rewrite Hs; apply Hj; lia|by rewrite Hs|lia|].
    rewrite set_slept_again. do 3 f_equal. lia.
Qed.

(** One that finds nothing waits as long as it can. *)
Lemma attempts_nothing look stop_waiting n w :
  (∀ j, (j < n)%nat → look (j + slept w)%nat = None) →
  attempts look stop_waiting n w = Some (Err stop_waiting, set_slept (pred n + slept w) w).
Proof.
  revert w. induction n as [|n IH]; intros w Hj; [cbn; by rewrite set_slept_same|].
  rewrite attempts_step; [apply (Hj 0%nat); lia|]. case_decide as Hn.
  - subst n. cbn. by rewrite set_slept_same.
  - rewrite IH.
    + intros j Hlt. replace (j + slept (set_slept (1 + slept w) w))%nat with (S j + slept w)%nat by (simpl; lia). apply Hj. lia.
    + rewrite set_slept_again. do 3 f_equal. lia.
Qed.
End search.

Section resolving.
Context {M K : Type} (E : Env) (G : GlobOk E).
Abbreviation World := (World (M := M) (K := K)).
Implicit Types w : World.

Lemma path_of_job_after jid m p :
  path_of_job jid m → after (String.length cgroup_root) m = Some p → Contains p (job_element jid) = true.
Proof. intros (p' & H' & Hc) H. by simplify_eq. Qed.

Definition of_job (jid : Z) (r : gores string) : Prop := ∀ p, r = Ok p → Contains p (job_element jid) = true.

Lemma search_bounded look stop_waiting n jid w :
  (∀ t m, look t = Some (Ok m) → path_of_job jid m) →
  ∃ r k, attempts look stop_waiting n w = Some (r, set_slept (k + slept w) w) ∧ (k ≤ pred n)%nat ∧ of_job jid r.
Proof.
  intros Hl. destruct (attempts_bounded look stop_waiting n w) as (r & k & H & Hk & Hr).
  { intros t m (p & ? & ?)%Hl. eauto. }
  exists r, k. split; [done|]. split; [done|]. intros p (t & m & Ht & Hp)%Hr.
  by apply (path_of_job_after _ m); [apply Hl in Ht|].
Qed.

(** The search for the cgroup of a job always returns, after at most eighteen
    sleeps of half a second (nine for each version of cgroups) and without
    touching anything; the path it returns, read from /proc or found below
    /sys/fs/cgroup, has the job's directory in it. *)
Theorem ResolveJobCgroupPath_in_job jid pid w :
  ∃ r k, ResolveJobCgroupPath E jid pid w = Some (r, set_slept (k + slept w) w) ∧ (k ≤ 18)%nat ∧
    ∀ path, r = Ok path → Contains path ("/job_" +:+ itoaZ jid +:+ "/") = true.
Proof.
  assert (∃ r k, (r ← getJobCgroupPathV2 E jid; match r with Ok path => mret (Ok path) | Err _ => getJobCgroupPathV1 E jid end) w =
            Some (r, set_slept (k + slept w) w) ∧ (k ≤ 18)%nat ∧ of_job jid r) as Hsearch.
  { unfold getJobCgroupPathV2, cgroupRetryAttempts.
    destruct (search_bounded (look_v2 E jid) (Status NotFound ("cgroup v2 path for slurm job " +:+ itoaZ jid +:+ " not found"))
                10 jid w (v2_path_of_job E G jid)) as (r & k & Hr & Hk & Hj).
    unfold mbind, Go_bind. rewrite Hr. destruct r as [p|e].
    - exists (Ok p), k. split; [done|]. split; [lia|done].
    - destruct (search_bounded (look_v1 E jid) (Status NotFound ("cgroup path for slurm job " +:+ itoaZ jid +:+
          " does not exist after " +:+ itoaZ (Z.of_nat cgroupRetryAttempts) +:+ " attempts")) 10 jid (set_slept (k + slept w) w)
          (v1_path_of_job E G jid)) as (r & k' & Hr' & Hk' & Hj').
      exists r, (k' + k)%nat. unfold getJobCgroupPathV1. rewrite Hr'. split; [|split; [lia|done]].
      rewrite set_slept_again. do 3 f_equal. lia. }
  unfold ResolveJobCgroupPath. case_decide; [|exact Hsearch].
  destruct (cgroupPathFromProc E pid) as [p|e]; [|exact Hsearch].
  destruct (Contains p (job_element jid)) eqn:Hc; [|exact Hsearch].
  exists (Ok p), 0%nat. split; [by rewrite /= set_slept_same|]. split; [lia|]. by intros ? [= <-].
Qed.

(** A version 2 cgroup that shows up within four and a half seconds is found
    when it does; on a host that only has version 1, the search always waits
    that long first. *)
Theorem search_waits jid w :
  (∀ k m p, (k < 10)%nat → (∀ j, (j < k)%nat → look_v2 E jid (j + slept w)%nat = None) →
     look_v2 E jid (k + slept w)%nat = Some (Ok m) → after (String.length cgroup_root) m = Some p →
     ResolveJobCgroupPath E jid 0 w = Some (Ok p, set_slept (k + slept w) w)) ∧
  ((∀ t, look_v2 E jid t = None) → ∀ m p, look_v1 E jid (9 + slept w)%nat = Some (Ok m) →
     after (String.length cgroup_root) m = Some p →
     ResolveJobCgroupPath E jid 0 w = Some (Ok p, set_slept (9 + slept w) w)).
Proof.
  assert (ResolveJobCgroupPath E jid 0 w = (r ← getJobCgroupPathV2 E jid;
      match r with Ok path => mret (Ok path) | Err _ => getJobCgroupPathV1 E jid end) w) as -> by done.
  unfold mbind, Go_bind, getJobCgroupPathV2. split.
  - intros k m p Hk Hj Hm Hp. by rewrite (attempts_found _ _ _ k m p).
  - intros Hn m p Hm Hp. rewrite attempts_nothing; [by intros; apply Hn|]. cbn [pred cgroupRetryAttempts].
    unfold getJobCgroupPathV1, cgroupRetryAttempts.
    by rewrite (attempts_found _ _ _ 0 m p); [intros; lia|exact Hm|exact Hp|lia|].
Qed.
End resolving.

(** ** The chains *)

Section chains.
Context {M K : Type} `{C : Cgroups M K} `{MR : MapRange} (E : Env) (G : GlobOk E).
Abbreviation World := (World (M := M) (K := K)).
Abbreviation Handler := (Handler (M := M) (K := K)).
Implicit Types (w : World) (ctx : Ctx (M := M)) (next : Handler).

Lemma chain_cons (A : Adapter (M := M) (K := K)) l next : chain (A :: l) next = A (chain l next).
Proof. done. Qed.

Lemma before_Ok f next ctx w w1 : f ctx w = Some (Ok (), w1) → before f next ctx w = next ctx w1.
Proof. intros H. unfold before. by rewrite (try_step _ _ _ _ _ H). Qed.
Lemma before_Err f next ctx w e w1 : f ctx w = Some (Err e, w1) → before f next ctx w = Some (Err e, w1).
Proof. intros H. unfold before, try, mbind, Go_bind. by rewrite H. Qed.

(** Where a chain ends: at an error before its handler, or in its handler. *)
Definition ends (r : option (gores unit * World)) (reached : Ctx (M := M) → World → Prop) next : Prop :=
  (∃ e w', r = Some (Err e, w')) ∨ (∃ ctx w', r = next ctx w' ∧ reached ctx w').

(** The request with the defaults of Slurm. *)
Definition defaulted (o : COpts) w : World :=
  set_req (mkReq (Details (fill_details (req w))) (Some (with_orphan o))) w.

Lemma defaulted_ids o w :
  GetJobID (req (defaulted o w)) = GetJobID (req w) ∧ details_PID (req (defaulted o w)) = details_PID (req w).
Proof. unfold GetJobID, details_PID. simpl. by destruct (GetSlurm (req w)). Qed.

Lemma fill_defaults_Some w o :
  Criu (req w) = Some o → fill_defaults w = Some (Ok (), defaulted o w).
Proof. intros Ho. unfold fill_defaults, mbind, Go_bind, modify, on_criu. simpl. by rewrite Ho. Qed.

Lemma validate_run missing w :
  (∃ e, validate missing w = Some (Err e, w)) ∨ (validate missing w = Some (Ok (), w) ∧ GetJobID (req w) ≠ 0%Z).
Proof.
  unfold validate, get, mbind, Go_bind, fail. case_bool_decide; [left; eauto|].
  case_decide; [left; eauto|]. by right.
Qed.

Lemma defaults_and_validation (fill check : Adapter (M := M) (K := K)) missing l next ctx w o reached :
  fill = before (λ _, fill_defaults) → check = before (λ _, validate missing) → Criu (req w) = Some o →
  (GetJobID (req w) ≠ 0%Z → ends (chain l next ctx (defaulted o w)) reached next) →
  ends (chain (fill :: check :: l) next ctx w) reached next.
Proof.
  intros -> -> Ho H. rewrite chain_cons (before_Ok _ _ _ _ _ (fill_defaults_Some w o Ho)) chain_cons.
  destruct (validate_run missing (defaulted o w)) as [[e He]|[Hv Hj]].
  - left. exists e, (defaulted o w). by apply before_Err.
  - rewrite (before_Ok _ _ _ _ _ Hv). apply H. by rewrite (proj1 (defaulted_ids o w)) in Hj.
Qed.

(** The middleware of a dump fails, or calls the next handler with the manager
    of a cgroup of the job in the context, on the state of the process the
    request names (unless an adapter has set one before), with a callback for
    the network. *)
Theorem dump_middleware_reaches_next next ctx w o :
  Criu (req w) = Some o →
  ends (chain (DumpMiddleware E) next ctx w) (λ ctx' w', ∃ path m s,
    GetJobID (req w) ≠ 0%Z ∧ Contains path (job_element (GetJobID (req w))) = true ∧ New path = Ok m ∧
    ctx' = with_manager m ctx ∧ state w' = Some s ∧
    (∃ s0, PID s0 ≠ 0%Z ∧ FillProcessState E (PID s0) s0 = (None, s) ∧
       ((∀ s, state w = Some s → PID s = 0%Z) → PID s0 = details_PID (req w))) ∧
    Criu (req w') = Some (with_orphan o) ∧ CRIUCallback w' = CRIUCallback w ++ [LockNetwork] ∧
    cgroups w' = cgroups w) next.
Proof.
  intros Ho. apply (defaults_and_validation _ _ "missing slurm details" _ _ _ _ o _ eq_refl eq_refl Ho). intros Hj.
  destruct (defaulted_ids o w) as [Hjid Hpid].
  rewrite chain_cons. unfold SetPIDForDump.
  set (s0 := default (mkState 0 0 [] [] [] "" false [] [] []) (state (defaulted o w))).
  set (s1 := if decide (PID s0 = 0%Z) then set_PID (details_PID (req w)) s0 else s0).
  assert (set_pid_for_dump E (defaulted o w) =
    if decide (PID s1 = 0%Z) then fail NotFound "failed to get PID from slurm details" (set_state s1 (defaulted o w))
    else match FillProcessState E (PID s1) s1 with
         | (Some e, s') => failed "failed to fill process state" e (set_state s' (defaulted o w))
         | (None, s') => Some (Ok (), set_state s' (defaulted o w))
         end) as Hset.
  { unfold set_pid_for_dump. rewrite Hpid -/s0 /s1. case_decide as Hz; simpl.
    - case_bool_decide; by case_decide.
    - by rewrite decide_False. }
  case_decide as Hz; [left; eexists _, _; by apply before_Err|].
  destruct (FillProcessState E (PID s1) s1) as [[e|] s] eqn:Hfill; [left; eexists _, _; by apply before_Err|].
  rewrite (before_Ok _ _ _ _ _ Hset) chain_cons. unfold GetSlurmJobForDump, get, mbind, Go_bind. simpl.
  destruct (ResolveJobCgroupPath_in_job E G (GetJobID (req w)) (details_PID (req w)) (set_state s (defaulted o w)))
    as (r & k & Hr & _ & Hjob).
  rewrite -Hjid -Hpid in Hr. destruct r as [path|e].
  2: { left. eexists _, _. unfold try, mbind, Go_bind. by rewrite Hr. }
  rewrite (try_step _ _ _ _ _ Hr). destruct (New path) as [m|e] eqn:Hnew; [|left; by eexists _, _].
  right. exists (with_manager m ctx), (Include LockNetwork (set_slept (k + slept w) (set_state s (defaulted o w)))).
  split; [done|]. exists path, m, s. split_and!; try done; [by apply Hjob|].
  exists s1. split; [done|]. split; [done|]. intros H0. unfold s1.
  destruct (decide (PID s0 = 0%Z)) as [|Hs0]; [done|]. contradict Hs0. unfold s0. simpl.
  destruct (state w) as [s'|]; [by apply H0|done].
Qed.

(** A request for a freeze carries no options for CRIU, and the first adapter
    of the middleware, which a freeze shares with a dump, writes into them:
    the daemon panics before it looks at the job. *)
Theorem freeze_without_options_panics ctx w :
  Criu (req w) = None → chain (DumpMiddleware E) freeze ctx w = None.
Proof.
  intros Hc. unfold DumpMiddleware. rewrite chain_cons.
  unfold FillMissingDumpDefaults, before, try, fill_defaults, mbind, Go_bind, modify, on_criu. simpl. by rewrite Hc.
Qed.

(** The middleware of a restore fails, or calls the next handler with the
    manager of a cgroup of the job that is not frozen, after adding the
    callbacks for the cgroups and the network. *)
Theorem restore_middleware_reaches_next next ctx w o :
  Criu (req w) = Some o →
  ends (chain (RestoreMiddleware E) next ctx w) (λ ctx' w', ∃ path m st,
    GetJobID (req w) ≠ 0%Z ∧ Contains path (job_element (GetJobID (req w))) = true ∧ New path = Ok m ∧
    ctx' = with_manager m ctx ∧ GetFreezerState m (cgroups w') = Ok st ∧ st ≠ Frozen ∧
    Criu (req w') = Some (with_orphan o) ∧ cgroups w' = cgroups w ∧
    CRIUCallback w' = CRIUCallback w ++ [ApplyCgroups m; UnlockNetwork]) next.
Proof.
  intros Ho. apply (defaults_and_validation _ _ "missing slurm run options" _ _ _ _ o _ eq_refl eq_refl Ho). intros Hj.
  destruct (defaulted_ids o w) as [Hjid _].
  rewrite chain_cons. unfold GetSlurmJobForRestore, get, mbind, Go_bind.
  destruct (ResolveJobCgroupPath_in_job E G (GetJobID (req w)) (restore_pid E (req (defaulted o w))) (defaulted o w))
    as (r & k & Hr & _ & Hjob).
  rewrite -{1}Hjid in Hr. destruct r as [path|e].
  2: { left. eexists _, _. unfold try, mbind, Go_bind. by rewrite Hr. }
  rewrite (try_step _ _ _ _ _ Hr). destruct (New path) as [m|e] eqn:Hnew; [|left; by eexists _, _].
  simpl. destruct (GetFreezerState m (cgroups w)) as [st|e] eqn:Hst; [|left; by eexists _, _].
  case_decide as Hf; [left; by eexists _, _|].
  right. exists (with_manager m ctx), (Include UnlockNetwork (Include (ApplyCgroups m) (set_slept (k + slept w) (defaulted o w)))).
  split; [done|]. exists path, m, st. split_and!; try done; [by apply Hjob|]. simpl. by rewrite -app_assoc.
Qed.

(** Freezing a job whose freezer can be read and set freezes a cgroup that was
    not frozen, and then unfreezing it thaws it; freezing it again does not
    touch it and is an error. *)
Theorem freeze_unfreeze `{!CgroupsOk C} ctx w w' m :
  CGROUP_MANAGER ctx = Some m → freeze ctx w = Some (Ok (), w') →
  (∃ st, GetFreezerState m (cgroups w) = Ok st ∧ st ≠ Frozen) ∧
  GetFreezerState m (cgroups w') = Ok Frozen ∧
  (∃ e, freeze ctx w' = Some (Err e, w')) ∧
  (∀ w'', unfreeze ctx w' = Some (Ok (), w'') → GetFreezerState m (cgroups w'') = Ok Thawed).
Proof.
  intros Hm.
  assert (∀ b w1 w2, set_freezer b ctx w1 = Some (Ok (), w2) →
    (∃ st, GetFreezerState m (cgroups w1) = Ok st ∧ b ≠ bool_decide (st = Frozen)) ∧
    GetFreezerState m (cgroups w2) = Ok (if b then Frozen else Thawed)) as Hset.
  { intros b w1 w2. unfold set_freezer, try, need_manager, get, put, mbind, Go_bind. rewrite Hm. simpl.
    destruct (GetFreezerState m (cgroups w1)) as [st|e] eqn:Hst; [|done].
    destruct (eqb b (bool_decide (st = Frozen))) eqn:Hb; [done|]. simpl.
    destruct (SetFreezer m _ (cgroups w1)) as [[e|] s] eqn:Hs; [done|]. intros [= <-]. split.
    - exists st. split; [done|]. intros ->. by rewrite eqb_reflx in Hb.
    - simpl. by apply (freezer_reads_back _ _ (cgroups w1)). }
  intros Hf. apply Hset in Hf as [(st & Hst & Hb) Hfr]. split_and!.
  - exists st. split; [done|]. intros ->. by rewrite bool_decide_true in Hb.
  - done.
  - eexists. unfold freeze, set_freezer, try, need_manager, get, put, mbind, Go_bind. rewrite Hm. simpl. by rewrite Hfr.
  - intros w'' Hu. by apply Hset in Hu as [_ Hu].
Qed.

(** ** Callbacks and CRIU *)

Lemma apply_cgroups_Some m criuPid w o :
  Criu (req w) = Some o →
  let '(err, s) := Apply m criuPid (cgroups w) in
  apply_cgroups E m criuPid w =
  if match err with None => true | Some e => Unprivileged E && is_permission E e end
  then Some (None, set_req (mkReq (Details (req w)) (Some (add_roots (trimmed_roots m) o))) (set_cgroups s w))
  else Some (Some (Errorf ("failed to apply cgroups to CRIU process: " +:+ from_option Error "" err)), set_cgroups s w).
Proof.
  intros Ho. unfold apply_cgroups, mbind, Go_bind, on_criu.
  destruct (Apply m criuPid (cgroups w)) as [[e|] s]; cbn.
  - destruct (Unprivileged E && is_permission E e); [rewrite Ho|]; reflexivity.
  - rewrite Ho. reflexivity.
Qed.


(** ** What is part of no chain *)

Lemma fill_criu_Some w :
  fill_criu w = Some (Ok (), set_req (mkReq (Details (req w)) (Some (default empty_opts (Criu (req w))))) w).
Proof. done. Qed.

Lemma on_criu_Some f w o : Criu (req w) = Some o → on_criu f w = Some (Ok (), set_req (mkReq (Details (req w)) (Some (f o))) w).
Proof. intros Ho. unfold on_criu. by rewrite Ho. Qed.

Definition external_ns (ino : NamespaceType → Z) (t : NamespaceType) : string :=
  NsName E t +:+ "[" +:+ itoaZ (ino t) +:+ "]:" +:+ CriuNsToKey E t.

Lemma add_external_ns_all version nsTypes ino s o w :
  GetSlurm (req w) = Some s → Criu (req w) = Some o →
  Forall (λ t, too_old version t = false ∧ nsPathOf t (sPID s) ≠ "" ∧ Ino E (nsPathOf t (sPID s)) = Ok (ino t)) nsTypes →
  add_external_ns E version nsTypes w = Some (Ok (), set_req (mkReq (Details (req w))
    (Some (mkCOpts (oOrphanPtsMaster o) (FreezeCgroup o) (External o ++ map (external_ns ino) nsTypes) (InheritFd o) (CgRoot o)))) w).
Proof.
  intros Hs Ho Hl. revert o w Hs Ho. induction Hl as [|t l (Hv & Hp & Hi) Hl IH]; intros o w Hs Ho.
  { cbn [map add_external_ns]. rewrite app_nil_r. destruct w as [[d c] ? ? ? ? ? ? ?], o. simpl in *. by subst. }
  cbn [add_external_ns]. rewrite Hv. unfold mbind, Go_bind, slurm_pid. rewrite Hs. simpl. rewrite decide_False // Hi.
  rewrite (try_step _ _ _ _ _ (fill_criu_Some w)) Ho. simpl.
  erewrite try_step; [|by apply on_criu_Some]. rewrite (IH (add_external (external_ns ino t) o)) //.
  simpl. by rewrite -app_assoc.
Qed.

(** The namespaces that a comment in main.go would pass to both adapters: a
    dump would tell CRIU that all three are external, and a restore would
    inherit none of them, as it gives up at the first one. *)
Theorem namespaces_dumped_not_inherited (next : Handler) ctx version ino s o w :
  let types := [NEWNS; NEWPID; NEWUSER] in
  criuVersion E = Ok version → (31500 ≤ version)%Z → GetSlurm (req w) = Some s → Criu (req w) = Some o →
  (∀ t, t ∈ types → Ino E (nsPathOf t (sPID s)) = Ok (ino t)) →
  (∃ w', AddExternalNamespacesForDump E types next ctx w = next ctx w' ∧
     External <$> Criu (req w') = Some (External o ++ map (external_ns ino) types)) ∧
  InheritExternalNamespacesForRestore E types next ctx w = next ctx w.
Proof.
  intros types Hv Hle Hs Ho Hino. split.
  - assert (add_external_ns E version types w = Some (Ok (), set_req (mkReq (Details (req w))
      (Some (mkCOpts (oOrphanPtsMaster o) (FreezeCgroup o) (External o ++ map (external_ns ino) types) (InheritFd o) (CgRoot o)))) w)) as Ha.
    { apply (add_external_ns_all _ _ _ s) => //. repeat constructor; try done; try (apply bool_decide_false; lia); apply Hino; set_solver. }
    eexists. split; [unfold AddExternalNamespacesForDump; apply before_Ok; rewrite Hv; exact Ha|done].
  - unfold InheritExternalNamespacesForRestore. rewrite Hv (try_step _ _ _ _ _ (fill_criu_Some w)) Ho.
    destruct ctx, w as [[d c] ? ? ? ? ? ? ?]. simpl in *. by subst.
Qed.

Lemma walk_to_first {T X} (P : T → Prop) `{!∀ x, Decision (P x)} (g : T → X → X) (l : list T) x y :
  head (filter P l) = Some y →
  snd (walk_values (λ f x, if decide (P f) then (false, g f x) else (true, x)) l x) = g y x.
Proof.
  induction l as [|z l IH]; [done|]. cbn [walk_values]. case_decide as Hz.
  - rewrite filter_cons_True //. by intros [= ->].
  - rewrite filter_cons_False //.
Qed.

Definition is_script (f : File) : Prop := Base (Path f) = SLURM_SCRIPT_FILE.
#[export] Instance is_script_dec f : Decision (is_script f) := decide (Base (Path f) = SLURM_SCRIPT_FILE).

(** The script that a dump saves is what a restore of the dump writes to the
    same place, wherever it can make the directory and the file. *)
Theorem script_roundtrip (next next' : Handler) ctx w wr s f d dump :
  state w = Some s → state wr = Some s → head (filter is_script (preorder OpenFiles s)) = Some f →
  host w !! Files.resolve (Path f) = Some (Files.Reg d) → DumpFs w = Some dump →
  (∀ op, dump_fault E op SLURM_SCRIPT_FILE = None) →
  ∃ w', DumpSlurmScript E next ctx w = next ctx w' ∧ host w' = host w ∧
    (DumpFs wr = DumpFs w' → ∀ fs1 fs2,
       Files.MkdirAll (Files.resolve (FilepathDir (Path f))) (host wr) = Ok fs1 →
       WriteFile (Files.resolve (Path f)) d fs1 = Ok fs2 →
       RestoreSlurmScript next' ctx wr = next' ctx (set_host fs2 wr) ∧
       fs2 !! Files.resolve (Path f) = Some (Files.Reg d)).
Proof.
  intros Hs Hsr Hf Hd Hdump Hfault. unfold DumpSlurmScript. rewrite Hs WalkTree_preorder.
  rewrite (walk_to_first is_script (save_one E) _ _ f Hf). unfold save_one.
  unfold os_Open. rewrite Hd Hdump. cbn. unfold SaveScriptToDump. cbn [ReadAll]. rewrite !Hfault. cbn.
  eexists. split; [done|]. split; [done|]. intros Hr fs1 fs2 Hm Hw. split.
  - unfold RestoreSlurmScript. rewrite Hsr WalkTree_preorder.
    rewrite (walk_to_first is_script load_one _ _ f Hf) /load_one.
    simpl in Hr. rewrite /= Hr /= /LoadScriptFromDump lookup_insert_eq Hm Hw. done.
  - unfold WriteFile in Hw. destruct (Files.Create _ fs1) as [fs|]; [|done]. injection Hw as <-. by rewrite lookup_insert_eq.
Qed.
End chains.

(** ** A host with one job *)

Definition sample_path : string := "/sys/fs/cgroup/system.slice/slurmstepd.scope/job_7/step_batch/user/task_special".

(** The states of freezers, and who has been put where. *)
Definition Kernel : Type := gmap string FreezerState * list (string * Z).
Definition set_cgroup (m : string) (st : FreezerState) (k : Kernel) : Kernel :=
  (<[m := st]> k.1, k.2).
#[export] Instance sample_cgroups : Cgroups string Kernel := {
  New p := Ok p;
  PathOf m _ := cgroup_root +:+ m;
  GetPaths m := {["" := cgroup_root +:+ m]};
  GetFreezerState m k := Ok (default Thawed (k.1 !! m));
  SetFreezer m st k := (None, set_cgroup m st k);
  Apply m pid k := (None, (k.1, k.2 ++ [(m, pid)]));
}.
#[export] Instance sample_cgroups_ok : CgroupsOk sample_cgroups.
Proof. constructor. intros m st s s' [= <-]. cbn. by rewrite lookup_insert_eq. Qed.

Definition sample_slurm : Env := {|
  ReadFile := λ _, Err (Errorf "no such file or directory");
  Glob := λ _ p, Ok (filter (λ m, Match p m = true) [sample_path]);
  Getpid := 1; criuVersion := Ok 40000%Z; IsCgroup2UnifiedMode := true; StatOk := λ _, true; Ino := λ _, Ok 1%Z;
  OpenErr := λ _, None; NsName := λ _, "mnt"; FillProcessState := λ _ s, (None, s); Unprivileged := false;
  is_permission := λ _, false; dump_fault := λ _ _, None |}.

Lemma sample_GlobOk : GlobOk sample_slurm.
Proof. intros t p l [= <-]. apply list.Forall_forall. by intros m [? _]%list_elem_of_filter. Qed.

Definition sample_script : File := mkFile "/var/spool/slurmd/job7/slurm_script" 255 1 1 0 0 false.
Definition sample_world : World (M := string) (K := Kernel) :=
  mkWorld (mkReq (Some (Some (mkSlurm 7 42))) (Some empty_opts))
    (Some (mkState 0 0 [] [sample_script] [] "" false [] [] [])) [] ∅ (∅, []) 0 (Some ∅)
    {[Files.resolve "/var/spool/slurmd/job7/slurm_script" := Files.Reg "#!/bin/sh"]}.
Definition sample_manager : string := str_drop (String.length cgroup_root) sample_path.
Definition sample_ctx : Ctx := mkCtx (Some sample_manager) [].

Example ResolveJobCgroupPath_in_job_witness :
  ∃ k, ResolveJobCgroupPath sample_slurm 7 42 sample_world = Some (Ok sample_manager, set_slept k sample_world) ∧
    Contains sample_manager "/job_7/" = true.
Proof.
  destruct (ResolveJobCgroupPath_in_job sample_slurm sample_GlobOk 7 42 sample_world) as (r & k & H & _ & Hj).
  assert (r = Ok sample_manager) as ->.
  { assert (fst <$> Some (r, set_slept (k + slept sample_world) sample_world) = Some (Ok sample_manager)) as Hr;
      [by rewrite -H; vm_compute|by injection Hr]. }
  exists (k + slept sample_world)%nat. split; [exact H|]. by apply Hj.
Defined.

Example dump_middleware_reaches_next_witness :
  ends (chain (DumpMiddleware sample_slurm) freeze (mkCtx None []) sample_world) (λ _ w', CRIUCallback w' = [LockNetwork]) freeze.
Proof.
  destruct (dump_middleware_reaches_next sample_slurm sample_GlobOk freeze (mkCtx None []) sample_world empty_opts eq_refl)
    as [H|(ctx & w' & H & path & m & s & _ & _ & _ & _ & _ & _ & _ & Hc & _)]; [by left|right].
  exists ctx, w'. split; [exact H|exact Hc].
Defined.

Example freeze_unfreeze_witness :
  ∃ w', freeze sample_ctx sample_world = Some (Ok (), w') ∧ GetFreezerState sample_manager (cgroups w') = Ok Frozen.
Proof.
  assert (freeze sample_ctx sample_world =
    Some (Ok (), set_cgroups (set_cgroup sample_manager Frozen (∅, [])) sample_world)) as H by reflexivity.
  eexists. split; [exact H|].
  destruct (freeze_unfreeze sample_ctx sample_world _ sample_manager eq_refl H) as (_ & Hf & _). exact Hf.
Defined.

(** CRIU restores at once. *)
Definition sample_restoring : World (M := string) (K := Kernel) :=
  Include UnlockNetwork (Include (ApplyCgroups sample_manager) sample_world).
Definition sample_restorer : Swrk.Peer :=
  Swrk.mkPeer (Ok 9%Z) [Swrk.exchange_ok (Swrk.sample_resp Swrk.RESTORE "")] None true.

Definition sample_callbacks := multi_notify (callbacks sample_slurm sample_restoring).
Definition sample_started : World (M := string) (K := Kernel) :=
  set_req (mkReq (Some (Some (mkSlurm 7 42))) (Some (mkCOpts None None [] [] [("", sample_manager)])))
    (set_cgroups (∅, [(sample_manager, 9%Z)]) sample_restoring).


Example script_roundtrip_witness :
  ∃ w', DumpSlurmScript sample_slurm (λ _ w, Some (Ok (), w)) sample_ctx sample_world = Some (Ok (), w') ∧
    host w' = host sample_world.
Proof.
  destruct (script_roundtrip sample_slurm (λ _ w, Some (Ok (), w)) (λ _ w, Some (Ok (), w)) sample_ctx sample_world sample_world
    (mkState 0 0 [] [sample_script] [] "" false [] [] []) sample_script "#!/bin/sh" ∅) as (w' & Hw & Hh & _); try reflexivity.
  exists w'. by split.
Defined.
End Slurm.
