(* ===== verification/ProcState.v ===== *)
(** * Reading the state of processes (pkg/utils/process.go)

    What the daemon learns about a process from the operating system, and the
    walk over /proc that builds the tree of its descendants.  The tree is built
    through pointers to its nodes, so the nodes live in a store here; the
    answers of the operating system are a class, one snapshot of it. *)

From Stdlib Require Import Ascii DecimalString DecimalN DecimalFacts.
From S2P Require Import Prelude GoLib.

Module ProcState.
Import GoLib.

#[local] Arguments String.append : simpl nomatch.
#[local] Open Scope Z_scope.

(** ** Numbers in text *)

(** [strconv.ParseUint(s, 10, bits)] *)
Definition ParseUint (s : string) (bits : Z) : option Z :=
  match NilEmpty.uint_of_string s with
  | None | Some Decimal.Nil => None
  | Some u => let z := Z.of_N (N.of_uint u) in if decide (z < 2 ^ bits) then Some z else None
  end.

Definition is_digit (x : ascii) : bool := bool_decide (48 ≤ nat_of_ascii x ≤ 57)%nat.

Fixpoint leading_digits (s : string) : string :=
  match s with
  | String x s' => if is_digit x then String x (leading_digits s') else EmptyString
  | EmptyString => EmptyString
  end.

(** [fmt.Sscanf(s, "%d", &v)] for a uint64, which keeps [v] on an error. *)
Definition Sscanf_uint64 (s : string) (v : Z) : Z := default v (ParseUint (leading_digits (TrimLeft s)) 64).

(** [strings.Fields] *)
Fixpoint Fields_go (s cur : string) : list string :=
  match s with
  | EmptyString => if decide (cur = "") then [] else [cur]
  | String x s' =>
      if is_space x then (if decide (cur = "") then [] else [cur]) ++ Fields_go s' ""
      else Fields_go s' (cur +:+ String x "")
  end.
Definition Fields (s : string) : list string := Fields_go s "".

(** ** /proc/<pid>/stat *)

Definition rparen : ascii := ")"%char.
Definition space : ascii := " "%char.

(** [None] stands for the panic of a slice expression out of range, [Some None]
    for a result that is not ok. *)
Definition parseStatPIDPPID (s : string) : option (option (Z * Z)) :=
  match LastIndex s rparen with
  | None => Some None
  | Some i =>
      if decide (String.length s ≤ i + 2)%nat then Some None
      else
        match Index s space with
        | None => None
        | Some j =>
            Some (pid ← ParseUint (str_take j s) 32;
                  match Fields (str_drop (i + 2) s) with
                  | _ :: f :: _ => ppid ← ParseUint f 32; Some (pid, ppid)
                  | _ => None
                  end)
        end
  end.

(** [m\[ppid\] = append(m\[ppid\], pid)] *)
Definition add_child (m : gmap Z (list Z)) (pid ppid : Z) : gmap Z (list Z) :=
  <[ppid := default [] (m !! ppid) ++ [pid]]> m.

(** The files that /proc/\[0-9\]*/stat matches, with their contents if they can be
    read; the context is done before the file of number [cancelled]. *)
Fixpoint ppid_loop (files : list (option string)) (cancelled : option nat) (m : gmap Z (list Z))
    : option (gores (gmap Z (list Z))) :=
  match files with
  | [] => Some (Ok m)
  | f :: files =>
      if decide (cancelled = Some 0%nat) then Some (Err (Errorf "context canceled"))
      else
        let next := ppid_loop files (pred <$> cancelled) in
        match f with
        | None | Some EmptyString => next m
        | Some contents =>
            match parseStatPIDPPID contents with
            | None => None
            | Some None => next m
            | Some (Some (pid, ppid)) => next (add_child m pid ppid)
            end
        end
  end.

Definition buildPPIDMap (glob : gores (list (option string))) (cancelled : option nat)
    : option (gores (gmap Z (list Z))) :=
  match glob with
  | Err e => Some (Err e)
  | Ok files => ppid_loop files cancelled ∅
  end.

(** ** /proc/<pid>/fdinfo/<fd> *)

Record FdInfo := mkFdInfo { MntId : Z; FdInode : Z }.

Definition newline : ascii := ascii_of_nat 10.
Definition colon : ascii := ":"%char.

Definition fdinfo_line (info : FdInfo) (line : string) : FdInfo :=
  match Split line colon with
  | [k; v] =>
      let key := TrimSpace k in let value := TrimSpace v in
      if decide (key = "mnt_id") then mkFdInfo (Sscanf_uint64 value (MntId info)) (FdInode info)
      else if decide (key = "ino") then mkFdInfo (MntId info) (Sscanf_uint64 value (FdInode info))
      else info
  | _ => info
  end.

Definition GetFdInfo (file : gores string) : gores FdInfo :=
  match file with
  | Err e => Err (Errorf ("Could not read fdinfo file: " +:+ Error e))
  | Ok contents => Ok (foldl fdinfo_line (mkFdInfo 0 0) (Split contents newline))
  end.

(** ** One process *)

Record File := mkFile {
  fFd : Z; fPath : string; fMode : string; fMountID : Z; fInode : Z; fIsTTY : bool; fDev : Z; fRdev : Z;
}.

(** What [os.Stat] gives: the mode, and the device numbers of the system. *)
Record FileStat := mkStat { sMode : string; sDev : Z; sRdev : Z }.

(** [daemon.ProcessState] without the children; mounts and connections are
    copied field by field and stay abstract. *)
Section state.
Context {Host Mount Connection : Type}.

Record Info := mkInfo {
  PID : Z; IHost : option Host; IsRunning : bool; Cmdline : string; StartTime : Z; SID : Z;
  UIDs : list Z; GIDs : list Z; Groups : list Z; OpenFiles : list File; Mounts : list Mount;
  OpenConnections : list Connection; Status' : string; WorkingDir : string;
}.

Definition empty_info : Info := mkInfo 0 None false "" 0 0 [] [] [] [] [] [] "" "".

Class OS := {
  GetHost : gores Host;
  NewProcess : Z → option error;
  CmdlineOf : Z → gores string;
  CreateTime : Z → gores Z;
  GetSID : Z → gores Z;
  UidsOf : Z → gores (list Z); GidsOf : Z → gores (list Z); GroupsOf : Z → gores (list Z);
  OpenFilesOf : Z → gores (list (Z * string));
  Stat : string → gores FileStat;
  fdinfo : Z → Z → gores string;
  isTTY : string → gores bool;
  openMountinfo : Z → option error;
  GetMounts : Z → gores (list Mount);
  Connections : Z → gores (list Connection);
  StatusOf : Z → gores (list string);
  CwdOf : Z → gores string;
  StatFiles : gores (list (option string));
}.

Context `{OS}.

(** The file of an open descriptor; [stat.Sys()] of a failed [os.Stat] panics. *)
Definition open_file (pid : Z) (fd : Z) (path : string) : option File :=
  let mode := match Stat path with Ok st => sMode st | Err _ => "" end in
  let '(mnt, ino) := match GetFdInfo (fdinfo pid fd) with Ok i => (MntId i, FdInode i) | Err _ => (0, 0) end in
  match isTTY path with
  | Err _ => Some (mkFile fd path mode mnt ino false 0 0)
  | Ok tty =>
      match Stat path with
      | Ok st => Some (mkFile fd path mode mnt ino tty (sDev st) (sRdev st))
      | Err _ => None
      end
  end.

(** [if err == nil { field = value }] *)
Definition or_keep {A} (old : A) (r : gores A) : A := match r with Ok a => a | Err _ => old end.

Definition fillProcessNode (pid : Z) (state : Info) : option (option error * Info) :=
  match NewProcess pid with
  | Some e =>
      Some (Some (Errorf ("could not get process: (pid) " +:+ itoaZ pid +:+ " with error: " +:+ Error e)),
            mkInfo pid (IHost state) (IsRunning state) (Cmdline state) (StartTime state) (SID state) (UIDs state)
              (GIDs state) (Groups state) (OpenFiles state) (Mounts state) (OpenConnections state)
              (Status' state) (WorkingDir state))
  | None =>
      files ← match OpenFilesOf pid with
              | Ok l => Ok <$> mapM (λ '(fd, path), open_file pid fd path) l
              | Err e => Some (Err e)
              end;
      let mounts := match openMountinfo pid with Some e => Err e | None => GetMounts pid end in
      status ← match StatusOf pid with
               | Ok (s :: _) => Some (Ok s)
               | Ok [] => None
               | Err e => Some (Err e)
               end;
      let errs := [err_of (CmdlineOf pid); err_of (CreateTime pid); err_of (UidsOf pid); err_of (GidsOf pid);
                   err_of (GroupsOf pid); err_of files; err_of mounts; err_of (Connections pid);
                   err_of status; err_of (CwdOf pid)] in
      Some (errors_Join errs,
            mkInfo pid (IHost state) true (or_keep (Cmdline state) (CmdlineOf pid))
              (or_keep (StartTime state) (CreateTime pid)) (or_keep (SID state) (GetSID pid))
              (or_keep (UIDs state) (UidsOf pid)) (or_keep (GIDs state) (GidsOf pid))
              (or_keep (Groups state) (GroupsOf pid)) (or_keep (OpenFiles state) files)
              (or_keep (Mounts state) mounts) (or_keep (OpenConnections state) (Connections pid))
              (or_keep (Status' state) status) (or_keep (WorkingDir state) (CwdOf pid)))
  end.

(** ** The tree *)

(** The nodes allocated so far, the children being pointers to them. *)
Record Node := mkNode { ninfo : Info; nchildren : list nat }.

Definition add_node_child (parent child : nat) (nodes : list Node) : list Node :=
  alter (λ n, mkNode (ninfo n) (nchildren n ++ [child])) parent nodes.

(** The loop over the queue; [cancelled i] says whether the context is done at
    the [i]th round.  [None] is a panic or a lack of [fuel]. *)
Fixpoint bfs (fuel : nat) (cancelled : nat → bool) (host : option Host) (kids : gmap Z (list Z))
    (queue : list (Z * nat)) (nodes : list Node) : option (list Node) :=
  match queue with
  | [] => Some nodes
  | (pid, parent) :: queue =>
      match fuel with
      | O => None
      | S fuel =>
          if cancelled 0%nat then Some nodes
          else
            let continue := bfs fuel (cancelled ∘ S) host kids in
            '(err, i) ← fillProcessNode pid (mkInfo 0 host false "" 0 0 [] [] [] [] [] [] "" "");
            match err with
            | Some _ => continue queue nodes
            | None =>
                let child := length nodes in
                continue (queue ++ ((λ gc, (gc, child)) <$> default [] (kids !! pid)))
                  (add_node_child parent child nodes ++ [mkNode i []])
            end
      end
  end.

Definition set_Host (h : option Host) (i : Info) : Info :=
  mkInfo (PID i) h (IsRunning i) (Cmdline i) (StartTime i) (SID i) (UIDs i) (GIDs i) (Groups i) (OpenFiles i)
    (Mounts i) (OpenConnections i) (Status' i) (WorkingDir i).

Definition with_PID (pid : Z) (i : Info) : Info :=
  mkInfo pid (IHost i) (IsRunning i) (Cmdline i) (StartTime i) (SID i) (UIDs i) (GIDs i) (Groups i) (OpenFiles i)
    (Mounts i) (OpenConnections i) (Status' i) (WorkingDir i).

(** The root of the tree is node 0.  A state that is not nil is given. *)
Definition FillProcessState (fuel : nat) (scan : option nat) (cancelled : nat → bool) (pid : Z) (state : Node)
    (deep : bool) : option (option error * list Node) :=
  let host := GetHost in
  let state1 := match host with Ok h => set_Host (Some h) (ninfo state) | Err _ => ninfo state end in
  '(err, i) ← fillProcessNode pid state1;
  match err with
  | Some e => Some (Some e, [mkNode (with_PID pid i) (nchildren state)])
  | None =>
      if deep then
        kids ← buildPPIDMap StatFiles scan;
        match kids with
        | Err e => Some (errors_Join [err_of host; Some (Errorf ("build ppid map: " +:+ Error e))], [mkNode i []])
        | Ok kids =>
            let queue := (λ c, (c, 0%nat)) <$> default [] (kids !! pid) in
            nodes ← bfs fuel cancelled (IHost i) kids queue [mkNode i []];
            Some (errors_Join [err_of host], nodes)
        end
      else Some (errors_Join [err_of host], [mkNode i (nchildren state)])
  end.

End state.
Arguments Info : clear implicits.
Arguments OS : clear implicits.
Arguments Node : clear implicits.

(** ** Strings *)

Lemma uint_of_string_itoa n : NilEmpty.uint_of_string (itoa n) = Some (N.to_uint n).
Proof. apply NilEmpty.usu. Qed.

Lemma ParseUint_itoaZ z bits : 0 <= z < 2 ^ bits → ParseUint (itoaZ z) bits = Some z.
Proof.
  intros Hz. rewrite /ParseUint /itoaZ decide_False; [lia|]. rewrite uint_of_string_itoa.
  assert (N.to_uint (Z.to_N z) ≠ Decimal.Nil) as Hnil.
  { destruct (Z.to_N z) as [|p]; [done|]. apply DecimalPos.Unsigned.to_uint_nonnil. }
  assert (Z.of_N (N.of_uint (N.to_uint (Z.to_N z))) = z) as Hid by (rewrite DecimalN.Unsigned.of_to; lia).
  destruct (N.to_uint (Z.to_N z)); [done|..]; cbv zeta; rewrite Hid; by rewrite decide_True; [lia|].
Qed.

Lemma LastIndex_none s c : has_byte c s = false → LastIndex s c = None.
Proof.
  induction s as [|x s IH]; simpl; [done|]. intros [Hx Hs]%orb_false_elim. by rewrite (IH Hs) Hx.
Qed.

Lemma LastIndex_append s t c : has_byte c t = false → LastIndex (s +:+ String c t) c = Some (String.length s).
Proof.
  intros Ht. induction s as [|x s IH]; simpl.
  - by rewrite LastIndex_none // bool_decide_eq_true_2.
  - by rewrite IH.
Qed.

Lemma Index_append s t c : has_byte c s = false → Index (s +:+ String c t) c = Some (String.length s).
Proof.
  induction s as [|x s IH]; simpl; [by rewrite bool_decide_eq_true_2|].
  intros [Hx Hs]%orb_false_elim. by rewrite Hx IH.
Qed.

Lemma str_take_append s t : str_take (String.length s) (s +:+ t) = s.
Proof. induction s as [|x s IH]; simpl; [by destruct t|]. by rewrite IH. Qed.

Lemma str_drop_append s t n : str_drop (String.length s + n) (s +:+ t) = str_drop n t.
Proof. induction s as [|x s IH]; simpl; [done|]. apply IH. Qed.

(** Text without white space. *)
Fixpoint no_space (s : string) : bool :=
  match s with EmptyString => true | String x s' => negb (is_space x) && no_space s' end.

Lemma Fields_go_word w s cur :
  no_space w = true → Fields_go (w +:+ s) cur = Fields_go s (cur +:+ w).
Proof.
  revert cur. induction w as [|x w IH]; intros cur; simpl; [by rewrite append_nil_r|].
  intros [Hx Hw]%andb_prop. rewrite (proj1 (negb_true_iff _) Hx) (IH _ Hw). f_equal. by rewrite append_assoc.
Qed.

Definition starts_space (s : string) : bool := match s with String x _ => is_space x | EmptyString => true end.

Lemma Fields_word w s :
  no_space w = true → w ≠ "" → starts_space s = true → Fields (w +:+ s) = w :: Fields s.
Proof.
  intros Hw Hne Hs. rewrite /Fields Fields_go_word //=. destruct s as [|x s]; simpl in *.
  - by rewrite decide_False.
  - by rewrite Hs decide_False // decide_True.
Qed.

Lemma Fields_space x s : is_space x = true → Fields (String x s) = Fields s.
Proof. intros Hx. by rewrite /Fields /= Hx. Qed.

Lemma no_space_itoaZ z : 0 <= z → no_space (itoaZ z) = true ∧ itoaZ z ≠ "".
Proof.
  intros Hz. rewrite /itoaZ decide_False; [lia|]. rewrite /itoa. split.
  - generalize (N.to_uint (Z.to_N z)) => u. induction u; simpl; by rewrite ?IHu.
  - destruct (Z.to_N z) as [|p]; [done|]. simpl. pose proof (DecimalPos.Unsigned.to_uint_nonnil p) as Hu.
    by destruct (Pos.to_uint p).
Qed.

(** ** Parsing stat files *)

(** The line of the kernel: the state is one word, the rest starts with a space. *)
Definition stat_line (pid : Z) (comm st : string) (ppid : Z) (rest : string) : string :=
  itoaZ pid +:+ " (" +:+ comm +:+ ") " +:+ st +:+ " " +:+ itoaZ ppid +:+ rest.

(** The parser of /proc/<pid>/stat reads back what the kernel writes, for
    every command name, even one with spaces, parentheses and newlines in it. *)
Theorem parseStat_roundtrip pid comm st ppid rest :
  0 <= pid < 2 ^ 32 → 0 <= ppid < 2 ^ 32 → no_space st = true → st ≠ "" → has_byte rparen st = false →
  has_byte rparen rest = false → starts_space rest = true →
  parseStatPIDPPID (stat_line pid comm st ppid rest) = Some (Some (pid, ppid)).
Proof.
  intros Hp Hpp Hst Hne Hstp Hrest Hsp. rewrite /parseStatPIDPPID /stat_line.
  set (tail := st +:+ " " +:+ itoaZ ppid +:+ rest).
  assert (has_byte rparen (" " +:+ tail) = false) as Htail.
  { rewrite /tail !has_byte_append Hstp Hrest has_byte_itoaZ //. }
  assert (∀ t, itoaZ pid +:+ " (" +:+ comm +:+ ") " +:+ t =
    (itoaZ pid +:+ " (" +:+ comm) +:+ String rparen (" " +:+ t)) as Hre by (intros; by rewrite !append_assoc).
  rewrite Hre LastIndex_append //.
  assert (tail ≠ "") as Htne by by rewrite /tail; destruct st.
  rewrite decide_False.
  { rewrite !length_append /=. destruct tail; [done|]. simpl. lia. }
  assert ((itoaZ pid +:+ " (" +:+ comm) +:+ String rparen (" " +:+ tail) =
    itoaZ pid +:+ String space ("(" +:+ comm +:+ String rparen (" " +:+ tail))) as Hre2 by by rewrite !append_assoc.
  rewrite {1}Hre2 Index_append; [by apply has_byte_itoaZ|].
  rewrite {2}Hre2 str_take_append ParseUint_itoaZ //=. rewrite (str_drop_append _ _ 2) /=.
  destruct (no_space_itoaZ ppid) as [Hns Hne2]; [lia|].
  rewrite /tail Fields_word //= Fields_space // Fields_word //. by rewrite ParseUint_itoaZ.
Qed.

Lemma parseStat_roundtrip_witness :
  parseStatPIDPPID (stat_line 42 "a) b (c" "S" 7 " 42 0") = Some (Some (42, 7)).
Proof. by apply (parseStat_roundtrip 42 "a) b (c" "S" 7 " 42 0"). Defined.

(** ** Parsing fdinfo files *)

Lemma Trim_no_space s : no_space s = true → TrimLeft s = s ∧ TrimRight s = s.
Proof.
  induction s as [|x s IH]; simpl; [done|]. intros [Hx Hs]%andb_prop.
  rewrite (proj1 (negb_true_iff _) Hx). destruct (IH Hs) as [_ ->]. split; [done|]. by destruct s.
Qed.

Lemma leading_digits_itoaZ z : 0 <= z → leading_digits (itoaZ z) = itoaZ z.
Proof.
  intros Hz. rewrite /itoaZ decide_False; [lia|]. rewrite /itoa. generalize (N.to_uint (Z.to_N z)) => u.
  induction u; simpl; by rewrite ?IHu.
Qed.

Definition tab : ascii := ascii_of_nat 9.

Lemma Sscanf_itoaZ z v : 0 <= z < 2 ^ 64 → Sscanf_uint64 (TrimSpace (String tab (itoaZ z))) v = z.
Proof.
  intros Hz. destruct (no_space_itoaZ z) as [Hns _]; [lia|]. destruct (Trim_no_space _ Hns) as [Hl Hr].
  rewrite /Sscanf_uint64 /TrimSpace. cbn [TrimLeft]. rewrite (_ : is_space tab = true) // Hl Hr Hl.
  rewrite leading_digits_itoaZ; [lia|]. by rewrite ParseUint_itoaZ.
Qed.

(** A line that tells neither the mount nor the inode. *)
Definition other_line (line : string) : Prop :=
  has_byte newline line = false ∧ ∀ info, fdinfo_line info line = info.

(** The parser of fdinfo finds the mount and the inode the kernel wrote, wherever
    the two lines stand among other lines. *)
Theorem fdinfo_roundtrip pre mid post m ino :
  0 <= m < 2 ^ 64 → 0 <= ino < 2 ^ 64 → Forall other_line pre → Forall other_line mid → Forall other_line post →
  GetFdInfo (Ok (StrJoin (pre ++ ("mnt_id:" +:+ String tab (itoaZ m)) :: mid ++
                          ("ino:" +:+ String tab (itoaZ ino)) :: post) (String newline ""))) =
  Ok (mkFdInfo m ino).
Proof.
  intros Hm Hi Hpre Hmid Hpost. rewrite /GetFdInfo Split_Join.
  { destruct pre; done. }
  { assert (∀ l, Forall other_line l → Forall (λ s, has_byte newline s = false) l) as Hnl.
    { intros l Hl. eapply Forall_impl; [|exact Hl]. by intros x [? _]. }
    assert (∀ s z, has_byte newline s = false → has_byte newline (s +:+ String tab (itoaZ z)) = false) as Hnum.
    { intros s z Hs. rewrite has_byte_append Hs. cbn [has_byte]. by rewrite has_byte_itoaZ. }
    apply Forall_app; split; [by apply Hnl|]. constructor; [by apply Hnum|].
    apply Forall_app; split; [by apply Hnl|]. constructor; [by apply Hnum|by apply Hnl]. }
  assert (∀ l info, Forall other_line l → foldl fdinfo_line info l = info) as Hskip.
  { induction l as [|x l IH]; intros info Hl; [done|]. inversion_clear Hl as [|? ? [_ Hx] Hl']. simpl.
    by rewrite Hx IH. }
  assert (∀ k v info, has_byte colon k = false → has_byte colon v = false →
    fdinfo_line info (k +:+ String colon v) =
      let value := TrimSpace v in
      if decide (TrimSpace k = "mnt_id") then mkFdInfo (Sscanf_uint64 value (MntId info)) (FdInode info)
      else if decide (TrimSpace k = "ino") then mkFdInfo (MntId info) (Sscanf_uint64 value (FdInode info))
      else info) as Hline.
  { intros k v info Hk Hv. by rewrite /fdinfo_line Split_append // Split_nosep. }
  assert (∀ z, has_byte colon (String tab (itoaZ z)) = false) as Hnum.
  { intros z. cbn [has_byte]. by rewrite has_byte_itoaZ. }
  rewrite foldl_app (Hskip pre) //. cbn [foldl].
  rewrite (Hline "mnt_id" (String tab (itoaZ m)) _ eq_refl (Hnum m)). cbv zeta.
  destruct (decide (TrimSpace "mnt_id" = "mnt_id")) as [_|H]; [|by destruct H]. rewrite Sscanf_itoaZ //.
  rewrite foldl_app (Hskip mid) //. cbn [foldl].
  rewrite (Hline "ino" (String tab (itoaZ ino)) _ eq_refl (Hnum ino)). cbv zeta.
  destruct (decide (TrimSpace "ino" = "mnt_id")) as [H|_]; [done|].
  destruct (decide (TrimSpace "ino" = "ino")) as [_|H]; [|by destruct H]. rewrite Sscanf_itoaZ //.
  by rewrite (Hskip post).
Qed.

(** ** The tree of a process *)

Section tree.
Context {Host Mount Connection : Type} `{!OS Host Mount Connection}.
Abbreviation Info := (Info Host Mount Connection).
Abbreviation Node := (Node Host Mount Connection).

#[local] Unset Elimination Schemes.
Inductive Tree := mkTree (i : Info) (cs : list Tree).
#[local] Set Elimination Schemes.

Section reference.
Context (host : option Host) (kids : gmap Z (list Z)).

(** A child is filled from a state that has only the host. *)
Definition fill (pid : Z) : option (option error * Info) :=
  fillProcessNode pid (mkInfo 0 host false "" 0 0 [] [] [] [] [] [] "" "").

Definition kids_of (pid : Z) : list Z := default [] (kids !! pid).

(** The reference: the tree of a process to the depth [n], by recursion.  A
    process that cannot be read is left out, with everything below it. *)
Fixpoint proc_tree (n : nat) (pid : Z) : option Tree :=
  match n with
  | O => None
  | S n =>
      match fill pid with
      | Some (None, i) => Some (mkTree i (omap (proc_tree n) (kids_of pid)))
      | _ => None
      end
  end.

(** The number of processes looked at. *)
Fixpoint visits (n : nat) (pid : Z) : nat :=
  match n with
  | O => 1
  | S n =>
      match fill pid with
      | Some (None, _) => S (sum_list (visits n <$> kids_of pid))
      | _ => 1
      end
  end.

(** The pointers below node [i] are the tree; [pend i] are trees yet to come. *)
Inductive represents (nodes : list Node) (pend : nat → list Tree) : nat → Tree → Prop :=
| rep i n ts : nodes !! i = Some n → Forall2 (represents nodes pend) (nchildren n) ts →
    represents nodes pend i (mkTree (ninfo n) (ts ++ pend i)).

Lemma represents_ind' nodes pend (P : nat → Tree → Prop) :
  (∀ i n ts, nodes !! i = Some n → Forall2 (represents nodes pend) (nchildren n) ts →
     Forall2 P (nchildren n) ts → P i (mkTree (ninfo n) (ts ++ pend i))) →
  ∀ i t, represents nodes pend i t → P i t.
Proof.
  intros H. fix IH 3. intros i t [i' n ts Hn Hf]. apply H; [done|done|].
  induction Hf as [|c t' cs ts' Hc _ IHf]; constructor; [by apply IH|exact IHf].
Qed.

Section ranked.
(** No process is its own descendant. *)
Context (rank : Z → nat) (Hrank : ∀ p c, c ∈ kids_of p → (rank c < rank p)%nat).

Lemma proc_tree_stable n m pid : (rank pid < n)%nat → (rank pid < m)%nat → proc_tree n pid = proc_tree m pid.
Proof.
  revert m pid. induction n as [|n IH]; intros m pid Hn Hm; [lia|]. destruct m as [|m]; [lia|]. simpl.
  destruct (fill pid) as [[[e|] i]|]; try done. do 2 f_equal. apply omap_ext_in.
  intros c Hc%Hrank. apply IH; lia.
Qed.

Lemma visits_stable n m pid : (rank pid < n)%nat → (rank pid < m)%nat → visits n pid = visits m pid.
Proof.
  revert m pid. induction n as [|n IH]; intros m pid Hn Hm; [lia|]. destruct m as [|m]; [lia|]. simpl.
  destruct (fill pid) as [[[e|] i]|]; try done. do 2 f_equal. apply list_fmap_ext.
  intros j c Hc%list_elem_of_lookup_2%Hrank. apply IH; lia.
Qed.

Definition tree_of (pid : Z) : option Tree := proc_tree (S (rank pid)) pid.
Definition visits_of (pid : Z) : nat := visits (S (rank pid)) pid.

Lemma tree_of_eq pid :
  tree_of pid = match fill pid with Some (None, i) => Some (mkTree i (omap tree_of (kids_of pid))) | _ => None end.
Proof.
  rewrite {1}/tree_of /=. destruct (fill pid) as [[[e|] i]|]; try done. do 2 f_equal. apply omap_ext_in.
  intros c Hc%Hrank. apply proc_tree_stable; lia.
Qed.

Lemma visits_of_eq pid :
  visits_of pid = match fill pid with Some (None, _) => S (sum_list (visits_of <$> kids_of pid)) | _ => 1%nat end.
Proof.
  rewrite {1}/visits_of /=. destruct (fill pid) as [[[e|] i]|]; try done. do 2 f_equal. apply list_fmap_ext.
  intros j c Hc%list_elem_of_lookup_2%Hrank. apply visits_stable; lia.
Qed.

(** The trees that the queue will hang below node [i]. *)
Definition pending (queue : list (Z * nat)) (i : nat) : list Tree :=
  omap tree_of (filter (λ q, q.2 = i) queue).*1.

Lemma pending_app q1 q2 i : pending (q1 ++ q2) i = pending q1 i ++ pending q2 i.
Proof. by rewrite /pending list.filter_app fmap_app omap_app. Qed.

Lemma pending_cons_ne pid par q i : i ≠ par → pending ((pid, par) :: q) i = pending q i.
Proof. intros Hi. by rewrite /pending filter_cons_False. Qed.

Lemma pending_children l c i :
  pending ((λ gc, (gc, c)) <$> l) i = if decide (i = c) then omap tree_of l else [].
Proof.
  rewrite /pending. case_decide as Hi.
  - subst. rewrite filter_all; [by apply Forall_fmap, Forall_true|].
    rewrite -list_fmap_compose. f_equal. apply list_fmap_id.
  - assert (filter (λ q : Z * nat, q.2 = i) ((λ gc, (gc, c)) <$> l) = []) as ->; [|done].
    induction l as [|x l IH]; [done|]. csimpl. by rewrite filter_cons_False //=.
Qed.

Lemma represents_lt nodes pend i t : represents nodes pend i t → (i < length nodes)%nat.
Proof. intros [i' n ts Hn _]. by eapply lookup_lt_Some. Qed.

(** A process that cannot be read changes nothing. *)
Lemma represents_skip nodes pid par q i t :
  tree_of pid = None →
  represents nodes (pending ((pid, par) :: q)) i t → represents nodes (pending q) i t.
Proof.
  intros Hp. induction 1 as [i n ts Hn _ IH] using represents_ind'.
  assert (pending ((pid, par) :: q) i = pending q i) as ->; [|by constructor].
  destruct (decide (i = par)) as [->|Hi]; [|by apply pending_cons_ne].
  by rewrite /pending filter_cons_True //= Hp.
Qed.

(** A process that is read becomes the last child of its parent, and the trees
    of its children are now to come below it. *)
Lemma represents_step nodes pid par q i t info :
  fill pid = Some (None, info) → (par < length nodes)%nat →
  Forall (λ e : Z * nat, (e.2 < length nodes)%nat) q →
  represents nodes (pending ((pid, par) :: q)) i t →
  represents (add_node_child par (length nodes) nodes ++ [mkNode info []])
    (pending (q ++ ((λ gc, (gc, length nodes)) <$> kids_of pid))) i t.
Proof.
  intros Hf Hpar Hq. set (c := length nodes). set (nodes' := add_node_child par c nodes ++ [mkNode info []]).
  set (pend' := pending (q ++ _)).
  assert (length (add_node_child par c nodes) = c) as Hlen by apply length_alter.
  assert (pending q c = []) as Hqc.
  { rewrite /pending. assert (filter (λ e : Z * nat, e.2 = c) q = []) as ->; [|done].
    induction Hq as [|e q He _ IHq]; [done|]. rewrite filter_cons_False //. rewrite /c. lia. }
  assert (represents nodes' pend' c (mkTree info (omap tree_of (kids_of pid)))) as Hnew.
  { assert (omap tree_of (kids_of pid) = [] ++ pend' c) as ->.
    { rewrite /pend' pending_app Hqc pending_children decide_True //. }
    apply (rep _ _ c (mkNode info [])); [|constructor].
    by rewrite /nodes' lookup_app_r Hlen ?Nat.sub_diag. }
  induction 1 as [i n ts Hn _ IH] using represents_ind'.
  assert (i < c)%nat as Hic by by eapply lookup_lt_Some.
  assert (∀ j, j ≠ par → nodes' !! j = if decide (j = c) then Some (mkNode info []) else nodes !! j) as Hother.
  { intros j Hj. rewrite /nodes'. destruct (decide (j < c)%nat) as [Hjc|Hjc].
    - rewrite lookup_app_l; [by rewrite Hlen|]. rewrite decide_False; [lia|]. by apply list_lookup_alter_ne.
    - case_decide as Hjc'; [by rewrite Hjc' lookup_app_r Hlen ?Nat.sub_diag|].
      rewrite !lookup_ge_None_2 //; rewrite ?length_app ?Hlen -/c /=; lia. }
  destruct (decide (i = par)) as [->|Hi].
  - assert (pending ((pid, par) :: q) par = mkTree info (omap tree_of (kids_of pid)) :: pending q par) as ->.
    { rewrite /pending filter_cons_True //=. by rewrite tree_of_eq Hf. }
    assert (pend' par = pending q par) as Hpp.
    { rewrite /pend' pending_app pending_children decide_False; [lia|]. by rewrite List.app_nil_r. }
    rewrite -Hpp cons_middle List.app_assoc.
    apply (rep _ _ par (mkNode (ninfo n) (nchildren n ++ [c]))); [|apply Forall2_app; [done|by repeat constructor]].
    rewrite /nodes' lookup_app_l; [by rewrite Hlen|]. by rewrite list_lookup_alter_eq Hn.
  - rewrite pending_cons_ne //.
    assert (pending q i = pend' i) as ->.
    { rewrite /pend' pending_app pending_children decide_False; [lia|]. by rewrite List.app_nil_r. }
    apply rep; [|done]. rewrite Hother // decide_False //. lia.
Qed.

Lemma bfs_represents fuel cancelled queue nodes t :
  (∀ pid, is_Some (fill pid)) → (∀ i, cancelled i = false) →
  (sum_list (visits_of <$> queue.*1) ≤ fuel)%nat →
  Forall (λ e : Z * nat, (e.2 < length nodes)%nat) queue →
  represents nodes (pending queue) 0 t →
  ∃ nodes', bfs fuel cancelled host kids queue nodes = Some nodes' ∧ represents nodes' (λ _, []) 0 t.
Proof.
  intros Hfill. revert cancelled queue nodes. induction fuel as [|fuel IH]; intros cancelled queue nodes Hc Hfuel Hq Hr.
  - destruct queue as [|[pid par] q]; [by exists nodes|]. csimpl in Hfuel. rewrite visits_of_eq in Hfuel.
    destruct (fill pid) as [[[]]|]; lia.
  - destruct queue as [|[pid par] q]; [by exists nodes|]. cbn [bfs]. rewrite Hc -/(fill pid).
    pose proof (Forall_cons_1 _ _ _ Hq) as [Hpar Hq']. csimpl in Hfuel. rewrite visits_of_eq in Hfuel.
    destruct (Hfill pid) as [[err i] Hf]. rewrite Hf /= in Hfuel |- *. destruct err as [e|].
    + apply IH; [by intros j; apply Hc|lia|done|]. eapply represents_skip; [|done]. by rewrite tree_of_eq Hf.
    + apply IH; [by intros j; apply Hc| | |by apply represents_step].
      * assert (((λ gc, (gc, length nodes)) <$> kids_of pid).*1 = kids_of pid) as Hk.
        { rewrite -list_fmap_compose. apply list_fmap_id. }
        rewrite !fmap_app sum_list_with_app Hk. lia.
      * apply Forall_app. rewrite length_app length_alter /=. split.
        -- eapply Forall_impl; [|exact Hq']. simpl. lia.
        -- apply Forall_fmap, Forall_true. simpl. lia.
Qed.
End ranked.
End reference.

(** The state of the root before it is filled. *)
Definition root_state (state : Node) : Info :=
  match GetHost with Ok h => set_Host (Some h) (ninfo state) | Err _ => ninfo state end.

(** A terminal that can be opened can be stat'ed, and a process has a status. *)
Definition sane : Prop :=
  (∀ path tty, isTTY path = Ok tty → ∃ st, Stat path = Ok st) ∧ ∀ pid, StatusOf pid ≠ Ok [].

Lemma fillProcessNode_returns pid i : sane → is_Some (fillProcessNode pid i).
Proof.
  intros [Htty Hst]. rewrite /fillProcessNode. destruct (NewProcess pid); [by eexists|].
  assert (∀ l, is_Some (mapM (λ '(fd, path), open_file pid fd path) l)) as Hfiles.
  { intros l. apply mapM_is_Some. apply Forall_true. intros [fd path]. rewrite /compose /open_file.
    destruct (isTTY path) as [tty|] eqn:Ht; [apply Htty in Ht as [st ->]|];
      destruct (GetFdInfo (fdinfo pid fd)); by eexists. }
  destruct (OpenFilesOf pid) as [l|e]; [destruct (Hfiles l) as [fs ->]|]; simpl;
    destruct (StatusOf pid) as [[|x xs]|e'] eqn:Hs; try (by eexists); by destruct (Hst pid).
Qed.

(** C26: The walk over /proc builds the process tree.  If no process is its own
    descendant and the context is not cancelled, the walk terminates, having
    looked at every process at most once per entry below the root, and the
    pointers it built are the tree that recursion over the parents gives, with
    the children in the order of /proc.  A descendant of which anything cannot
    be read is left out with all of its own descendants. *)
Theorem FillProcessState_tree fuel cancelled pid state i files kids rank :
  sane → (∀ j, cancelled j = false) →
  fillProcessNode pid (root_state state) = Some (None, i) →
  StatFiles = Ok files → buildPPIDMap (Ok files) None = Some (Ok kids) →
  (∀ p c, c ∈ kids_of kids p → (rank c < rank p)%nat) →
  (sum_list (visits_of (IHost i) kids rank <$> kids_of kids pid) ≤ fuel)%nat →
  ∃ nodes, FillProcessState fuel None cancelled pid state true = Some (errors_Join [err_of GetHost], nodes) ∧
    represents nodes (λ _, []) 0 (mkTree i (omap (tree_of (IHost i) kids rank) (kids_of kids pid))).
Proof.
  intros Hsane Hc Hf Hfiles Hmap Hrank Hfuel. rewrite /FillProcessState -/(root_state state) Hf /= Hfiles Hmap /=.
  set (queue := (λ c, (c, 0%nat)) <$> default [] (kids !! pid)).
  assert (queue.*1 = kids_of kids pid) as Hq.
  { rewrite /queue -list_fmap_compose. apply list_fmap_id. }
  destruct (bfs_represents (IHost i) kids rank Hrank fuel cancelled queue [mkNode i []]
    (mkTree i (omap (tree_of (IHost i) kids rank) (kids_of kids pid)))) as (nodes & -> & Hr).
  - intros p. by apply fillProcessNode_returns.
  - done.
  - by rewrite Hq.
  - apply Forall_fmap, Forall_true. simpl. lia.
  - assert (omap (tree_of (IHost i) kids rank) (kids_of kids pid) = [] ++ pending (IHost i) kids rank queue 0) as ->.
    { by rewrite /queue pending_children. }
    by apply (rep _ _ 0 (mkNode i [])).
  - by exists nodes.
Qed.

(** A process that cannot be read, wholly or in part, gives an error and no
    children, with the process identifier set. *)
Theorem FillProcessState_error fuel scan cancelled pid state e i deep :
  fillProcessNode pid (root_state state) = Some (Some e, i) →
  FillProcessState fuel scan cancelled pid state deep = Some (Some e, [mkNode (with_PID pid i) (nchildren state)]).
Proof. intros Hf. by rewrite /FillProcessState -/(root_state state) Hf. Qed.
End tree.

(** ** A small machine: process 1 with children 2 and 3, and 4 below 2; the
    open files of 3 cannot be read. *)
#[local] Instance sample_os : OS string unit unit := {
  GetHost := Ok "node"; NewProcess := λ _, None; CmdlineOf := λ _, Ok "sh"; CreateTime := λ _, Ok 5;
  GetSID := λ _, Ok 1; UidsOf := λ _, Ok []; GidsOf := λ _, Ok []; GroupsOf := λ _, Ok [];
  OpenFilesOf := λ pid, if decide (pid = 3) then Err (Errorf "permission denied") else Ok [(0, "/dev/null")];
  Stat := λ _, Ok (mkStat "-rw-" 1 2);
  fdinfo := λ _ _, Ok ("pos:	0" +:+ String newline ("mnt_id:	29" +:+ String newline "ino:	1234"));
  isTTY := λ _, Ok false; openMountinfo := λ _, None; GetMounts := λ _, Ok []; Connections := λ _, Ok [];
  StatusOf := λ _, Ok ["sleep"]; CwdOf := λ _, Ok "/";
  StatFiles := Ok [Some (stat_line 1 "init" "S" 0 " 1"); Some (stat_line 2 "a b)" "S" 1 " 1"); None;
                   Some (stat_line 3 "c" "S" 1 ""); Some (stat_line 4 "d" "R" 2 " 2")];
}.

Definition sample_rank (p : Z) : nat := Z.to_nat (10 - p).

Lemma FillProcessState_tree_witness :
  ∃ nodes t, FillProcessState 10 None (λ _, false) 1 (mkNode empty_info []) true = Some (None, nodes) ∧
    represents nodes (λ _, []) 0 t ∧ length nodes = 3%nat.
Proof.
  pose proof (λ i files, FillProcessState_tree 10 (λ _, false) 1 (mkNode empty_info []) i files
    (list_to_map [(0, [1]); (1, [2; 3]); (2, [4])]) sample_rank) as H.
  edestruct H as (nodes & Hn & Hr).
  - split; [by intros; eexists|done].
  - done.
  - vm_compute. reflexivity.
  - reflexivity.
  - vm_compute. reflexivity.
  - intros p c. rewrite /sample_rank. destruct (decide (p = 0)) as [->|].
    { change (c ∈ [1] → (Z.to_nat (10 - c) < Z.to_nat (10 - 0))%nat). set_unfold. lia. }
    destruct (decide (p = 1)) as [->|].
    { change (c ∈ [2; 3] → (Z.to_nat (10 - c) < Z.to_nat (10 - 1))%nat). set_unfold. lia. }
    destruct (decide (p = 2)) as [->|].
    { change (c ∈ [4] → (Z.to_nat (10 - c) < Z.to_nat (10 - 2))%nat). set_unfold. lia. }
    rewrite /kids_of /= !lookup_insert_ne // lookup_empty /=. set_solver.
  - vm_compute. lia.
  - exists nodes. eexists. split; [exact Hn|]. split; [exact Hr|]. vm_compute in Hn. by injection Hn as <-.
Defined.

End ProcState.
