(* ===== verification/Query.v ===== *)
(** * Queries (internal/cedana/query.go, internal/cedana/process/query.go)

    The answer of a query is a slice of pointers to process states, which the
    server enriches while it ranges over it, and from which it cuts out the
    ones it cannot read.  Cutting moves the elements of the array that the loop
    is ranging over, so the array and the length of the slice are kept apart. *)

From S2P Require Import Prelude GoLib.

Module Query.
Import GoLib.

(** The states of the answer: their PIDs, by pointer. *)
Abbreviation ptr := nat.

(** [process.Query]: one state per PID; no list at all is an error. *)
Definition process_Query (PIDs : option (list Z)) : gores (list Z * list string) :=
  match PIDs with
  | None => Err (Status InvalidArgument "no PIDs provided for process query")
  | Some query => Ok (query, ["Found " +:+ itoa (N.of_nat (length query)) +:+ " process(es)"])
  end.

(** The array behind [resp.States], the length of the slice, the states that
    have been filled in and the messages. *)
Record Resp := mkResp { arr : list ptr; len : nat; filled : gset ptr; Messages : list string }.

Section query.
Context (pid : ptr → Z) (FillProcessState : Z → option error).

Definition message (p : ptr) (e : error) : string := "PID " +:+ itoaZ (pid p) +:+ ": " +:+ Error e.

(** [append(resp.States[:i], resp.States[i+1:]...)], in place; the second
    slice expression is out of range unless [i < len]. *)
Definition cut (i : nat) (r : Resp) : option Resp :=
  if decide (i < len r) then
    Some (mkResp (take i (arr r) ++ drop (S i) (take (len r) (arr r)) ++ drop (pred (len r)) (arr r))
            (pred (len r)) (filled r) (Messages r))
  else None.

(** One round of the loop, with the element it reads. *)
Definition enrich (i : nat) (r : Resp) : option Resp :=
  match arr r !! i with
  | None => None
  | Some p =>
      match FillProcessState (pid p) with
      | None => Some (mkResp (arr r) (len r) ({[p]} ∪ filled r) (Messages r))
      | Some e =>
          r ← cut i r;
          Some (mkResp (arr r) (len r) (filled r) (Messages r ++ [message p e]))
      end
  end.

(** The rounds from [i], as many as the slice had elements at the start;
    [None] is a panic. *)
Fixpoint enrich_from (i n : nat) (r : Resp) : option Resp :=
  match n with
  | O => Some r
  | S n => r ← enrich i r; enrich_from (S i) n r
  end.

Definition Enrich (l : list ptr) (ms : list string) : option Resp :=
  enrich_from 0 (length l) (mkResp l (length l) ∅ ms).

Definition States (r : Resp) : list ptr := take (len r) (arr r).

(** ** Rounds *)

Definition readable (p : ptr) : Prop := FillProcessState (pid p) = None.

Lemma enrich_from_app i a b r : enrich_from i (a + b) r = (r ← enrich_from i a r; enrich_from (i + a) b r).
Proof.
  revert i r. induction a as [|a IH]; intros i r; simpl; [by rewrite Nat.add_0_r|].
  destruct (enrich i r) as [r'|]; simpl; [|done]. rewrite IH. by replace (S i + a) with (i + S a) by lia.
Qed.

(** Rounds in which everything can be read. *)
Lemma enrich_readable i n r :
  i + n <= length (arr r) → Forall readable (take n (drop i (arr r))) →
  enrich_from i n r = Some (mkResp (arr r) (len r) (list_to_set (take n (drop i (arr r))) ∪ filled r) (Messages r)).
Proof.
  revert i r. induction n as [|n IH]; intros i r Hn Hr; simpl.
  - rewrite (left_id_L ∅ (∪)). by destruct r.
  - destruct (lookup_lt_is_Some_2 (arr r) i) as [p Hp]; [lia|].
    rewrite (drop_S _ _ _ Hp) /= in Hr |- *. apply list.Forall_cons in Hr as [Hp' Hr].
    unfold enrich. rewrite Hp Hp' /=. rewrite IH /=; [lia|done|]. f_equal. f_equal. set_solver.
Qed.

(** Cutting out an element of a slice that is the whole array. *)
Lemma cut_whole l1 p l2 f ms :
  cut (length l1) (mkResp (l1 ++ p :: l2) (length (l1 ++ p :: l2)) f ms) =
    Some (mkResp (l1 ++ l2 ++ drop (length (l1 ++ l2)) (l1 ++ p :: l2)) (length (l1 ++ l2)) f ms).
Proof.
  unfold cut. simpl. rewrite decide_True; [rewrite length_app /=; lia|].
  rewrite take_app_length firstn_all.
  assert (pred (length (l1 ++ p :: l2)) = length (l1 ++ l2)) as -> by (rewrite !length_app /=; lia).
  do 3 f_equal. rewrite drop_app_ge; [lia|]. by replace (S (length l1) - length l1) with 1 by lia.
Qed.

(** ** What is answered *)

(** When every process can be read, or only the last one cannot, the answer
    is right: it has exactly the readable processes, all of them filled in, and
    a message for the other. *)
Theorem Query_enriches l last ms :
  Forall readable l →
  ∃ r, Enrich (l ++ option_list last) ms = Some r ∧
    let failure := p ← last; e ← FillProcessState (pid p); Some (message p e) in
    States r = (if decide (failure = None) then l ++ option_list last else l) ∧
    filled r = list_to_set (States r) ∧ Messages r = ms ++ option_list failure.
Proof.
  intros Hl. unfold Enrich. rewrite length_app enrich_from_app /=.
  rewrite enrich_readable; simpl.
  { rewrite length_app. lia. }
  { by rewrite drop_0 take_app_length. }
  rewrite drop_0 take_app_length (right_id_L ∅ (∪)).
  destruct last as [p|]; simpl; last first.
  { eexists. split; [done|]. unfold States. simpl. by rewrite !app_nil_r Nat.add_0_r firstn_all. }
  unfold enrich. simpl. rewrite list_lookup_middle //.
  replace (length l + 1) with (length (l ++ [p])) by (by rewrite length_app).
  destruct (FillProcessState (pid p)) as [e|]; simpl.
  - rewrite (cut_whole l p []) /= !app_nil_r drop_app_length. eexists. split; [done|]. unfold States. simpl.
    by rewrite take_app_length.
  - eexists. split; [done|]. unfold States. simpl. rewrite firstn_all app_nil_r. split_and!; [done| |done]. set_solver.
Qed.

(** The loop up to the first process that cannot be read. *)
Lemma enrich_first_failure l1 bad l2 ms e n :
  Forall readable l1 → FillProcessState (pid bad) = Some e →
  enrich_from 0 (length l1 + S n) (mkResp (l1 ++ bad :: l2) (length (l1 ++ bad :: l2)) ∅ ms) =
    enrich_from (S (length l1)) n
      (mkResp (l1 ++ l2 ++ drop (length (l1 ++ l2)) (l1 ++ bad :: l2)) (length (l1 ++ l2)) (list_to_set l1)
         (ms ++ [message bad e])).
Proof.
  intros Hl He. rewrite enrich_from_app enrich_readable /=.
  { rewrite length_app. lia. }
  { by rewrite drop_0 take_app_length. }
  rewrite drop_0 take_app_length (right_id_L ∅ (∪)). unfold enrich. simpl. rewrite list_lookup_middle //.
  by rewrite He cut_whole.
Qed.

(** When one process cannot be read, the loop goes on after the one that
    took its place: that one is answered without having been filled in, unless
    it was the last, which the loop meets a second time. *)
Theorem Query_skips_next l1 bad next l2 ms e :
  Forall readable (l1 ++ next :: l2) → FillProcessState (pid bad) = Some e → l2 ≠ [] →
  ∃ r, Enrich (l1 ++ bad :: next :: l2) ms = Some r ∧ States r = l1 ++ next :: l2 ∧
    filled r = list_to_set (l1 ++ l2) ∧ Messages r = ms ++ [message bad e].
Proof.
  intros [Hl1 [Hnext Hl2]%list.Forall_cons]%list.Forall_app He Hne. unfold Enrich.
  assert (length (l1 ++ bad :: next :: l2) = length l1 + S (S (length l2))) as Hn by (by rewrite length_app).
  rewrite {1}Hn (enrich_first_failure _ _ _ _ e) //.
  destruct (exists_last Hne) as (l2' & z & Hz).
  assert (Hdrop : drop (length (l1 ++ next :: l2)) (l1 ++ bad :: next :: l2) = [z]).
  { rewrite length_app drop_app_ge; [simpl; lia|]. replace (length l1 + length (next :: l2) - length l1)
      with (length (bad :: next :: l2')) by (rewrite Hz /= length_app /=; lia).
    rewrite Hz. change (bad :: next :: l2' ++ [z]) with ((bad :: next :: l2') ++ [z]). by rewrite drop_app_length. }
  rewrite Hdrop. change ((next :: l2) ++ [z]) with (next :: l2 ++ [z]).
  assert (Hseen : take (S (length l2)) (drop (S (length l1)) (l1 ++ next :: l2 ++ [z])) = l2 ++ [z]).
  { rewrite drop_app_ge; [lia|]. replace (S (length l1) - length l1) with 1 by lia. simpl.
    replace (S (length l2)) with (length (l2 ++ [z])) by (rewrite length_app /=; lia). apply firstn_all. }
  rewrite enrich_readable /=.
  { rewrite !length_app /= length_app /=. lia. }
  { rewrite Hseen. apply list.Forall_app. split; [done|]. rewrite Hz in Hl2. apply list.Forall_app in Hl2. naive_solver. }
  rewrite Hseen. eexists. split; [done|]. unfold States. simpl. split_and!; [| |done].
  - rewrite app_comm_cons app_assoc. by rewrite take_app_length.
  - rewrite Hz. set_solver.
Qed.

(** Once an element has been cut out, a last element that cannot be read is cut
    out of a slice that has become too short. *)
Lemma enrich_keeps_last i r r' last :
  last = pred (length (arr r)) → len r <= last → enrich i r = Some r' →
  length (arr r') = length (arr r) ∧ len r' <= len r ∧ arr r' !! last = arr r !! last.
Proof.
  intros Hlast Hl He. unfold enrich, cut in He. destruct (arr r !! i) as [p|] eqn:Hp; [|done].
  apply lookup_lt_Some in Hp. destruct (FillProcessState (pid p)) as [e|]; [|by simplify_eq/=].
  case_decide as Hi; simplify_eq/=. split_and!; [|lia|].
  - rewrite !length_app !length_drop !length_take. lia.
  - rewrite (assoc_L (++)) lookup_app_r; rewrite length_app length_take length_drop length_take; [lia|].
    rewrite lookup_drop. f_equal. lia.
Qed.

Lemma last_round_panics r i n last e :
  length (arr r) = S (i + n) → arr r !! (i + n) = Some last → FillProcessState (pid last) = Some e →
  len r <= i + n → enrich_from i (S n) r = None.
Proof.
  revert r i. induction n as [|n IH]; intros r i Hlen Hlast Hf Hl.
  - simpl. unfold enrich. rewrite Nat.add_0_r in Hlast Hl. rewrite Hlast Hf. unfold cut. rewrite decide_False //. lia.
  - change (enrich_from i (S (S n)) r) with (r ← enrich i r; enrich_from (S i) (S n) r).
    destruct (enrich i r) as [r'|] eqn:He; simpl; [|done].
    destruct (enrich_keeps_last i r r' (i + S n)) as (H1 & H2 & H3); [lia|lia|done|].
    apply IH; [lia|replace (S i + n) with (i + S n) by lia; congruence|done|lia].
Qed.

(** When the last process and another one before it cannot be read, the
    server panics: the second cut is out of the range of the slice. *)
Theorem Query_panics l1 bad l2 last ms e e' :
  Forall readable l1 → FillProcessState (pid bad) = Some e → FillProcessState (pid last) = Some e' →
  Enrich (l1 ++ bad :: l2 ++ [last]) ms = None.
Proof.
  intros Hl He Hlast. unfold Enrich.
  assert (length (l1 ++ bad :: l2 ++ [last]) = length l1 + S (S (length l2))) as Hn
    by (rewrite length_app /= length_app /=; lia).
  rewrite {1}Hn (enrich_first_failure _ _ _ _ e) //.
  assert (Hdrop : drop (length (l1 ++ l2 ++ [last])) (l1 ++ bad :: l2 ++ [last]) = [last]).
  { rewrite length_app drop_app_ge; [lia|]. replace (length l1 + length (l2 ++ [last]) - length l1)
      with (length (bad :: l2)) by (rewrite length_app /=; lia).
    change (bad :: l2 ++ [last]) with ((bad :: l2) ++ [last]). by rewrite drop_app_length. }
  rewrite Hdrop. apply (last_round_panics _ _ _ last e'); simpl; [| |done|].
  - rewrite !length_app /=. lia.
  - rewrite -(assoc_L (++)) !(assoc_L (++)). rewrite lookup_app_r; rewrite !length_app /=; [lia|].
    by replace (S (length l1 + length l2) - (length l1 + length l2 + 1)) with 0 by lia.
  - rewrite !length_app /=. lia.
Qed.
End query.

(** [Server.Query]: the handler of the type of the query, and the states it
    answers filled in.  [plugin] is what the plugins have for a type. *)
Definition Server_Query (FillProcessState : Z → option error)
    (plugin : string → gores (gores (list Z * list string))) (type : string) (PIDs : option (list Z))
    : option (gores Resp) :=
  let answer :=
    if decide (type = "process") then process_Query PIDs
    else match plugin type with
         | Err e => Err (Status Unimplemented ("query handler for `" +:+ type +:+ "` not found: " +:+ Error e))
         | Ok r => r
         end in
  match answer with
  | Err e => Some (Err e)
  | Ok (pids, ms) =>
      r ← Enrich (λ p, nth p pids 0%Z) FillProcessState (seq 0 (length pids)) ms; Some (Ok r)
  end.

(** ** Samples: odd processes can be read *)

Definition odd_only (z : Z) : option error := if Z.odd z then None else Some (Errorf "gone").

Lemma Query_enriches_witness :
  ∃ r, Server_Query odd_only (λ _, Err (Errorf "")) "process" (Some [1; 3; 4]%Z) = Some (Ok r) ∧
    States r = [0; 1] ∧ filled r = {[0; 1]}.
Proof.
  destruct (Query_enriches (λ p, nth p [1; 3; 4]%Z 0%Z) odd_only [0; 1] (Some 2) ["Found 3 process(es)"])
    as (r & Hr & Hs & Hf & _); [by repeat constructor|].
  exists r. split_and!; [|done|rewrite Hf Hs; set_solver].
  transitivity (r ← Enrich (λ p, nth p [1; 3; 4]%Z 0%Z) odd_only [0; 1; 2] ["Found 3 process(es)"]; Some (Ok r)); [done|].
  by rewrite Hr.
Defined.

(** The process 3 is answered without its details. *)
Lemma Query_skips_next_witness :
  ∃ r, Server_Query odd_only (λ _, Err (Errorf "")) "process" (Some [2; 3; 5]%Z) = Some (Ok r) ∧
    States r = [1; 2] ∧ filled r = {[2]}.
Proof.
  destruct (Query_skips_next (λ p, nth p [2; 3; 5]%Z 0%Z) odd_only [] 0 1 [2] ["Found 3 process(es)"] (Errorf "gone"))
    as (r & Hr & Hs & Hf & _); [by repeat constructor|done|done|].
  exists r. split_and!; [|done|rewrite Hf; set_solver].
  transitivity (r ← Enrich (λ p, nth p [2; 3; 5]%Z 0%Z) odd_only [0; 1; 2] ["Found 3 process(es)"]; Some (Ok r)); [done|].
  by rewrite Hr.
Defined.

Lemma Query_panics_witness : Server_Query odd_only (λ _, Err (Errorf "")) "process" (Some [2; 4]%Z) = None.
Proof.
  pose proof (Query_panics (λ p, nth p [2; 4]%Z 0%Z) odd_only [] 0 [] 1 ["Found 2 process(es)"] (Errorf "gone")
                (Errorf "gone") ltac:(constructor) eq_refl eq_refl) as H.
  transitivity (r ← Enrich (λ p, nth p [2; 4]%Z 0%Z) odd_only [0; 1] ["Found 2 process(es)"]; Some (Ok r)); [done|].
  by rewrite H.
Defined.
End Query.
