(* ===== verification/MountSources.v ===== *)
(** * The sources of external mounts (internal/cedana/gpu/restore_adapters.go)

    [resolveExternalMountSources] decides which path of the host CRIU is given
    for a mount of a container whose root is not a path of the host: it looks
    for a mount of the host on the same device and re-roots the path there
    ([mount_source_spec]).  Of several mounts of a device it takes one with the
    shortest root, whether or not that root leads to the path
    ([covering_mount_missed]).  The mount table and [Lstat] are parameters. *)

From S2P Require Import Prelude GoLib Compression Files ProcessTree.
Import GoLib Files ProcessTree.

Module MountSources.
#[local] Arguments String.append : simpl never.

(** [mountinfo.Info], as far as it is used. *)
Record Info := mkInfo { Major : Z; Minor : Z; iRoot : string; Mountpoint : string }.

(** ** [filepath.Rel] *)

(** The elements of a cleaned path, a relative target being at least a dot. *)
Definition elements (p : string) : list string := clean_elems (HasPrefix p "/") (Split p slash).
Definition target_elements (p : string) : list string :=
  match elements p with
  | [] => if HasPrefix p "/" then [] else ["."]
  | l => l
  end.

Fixpoint strip_common (b t : list string) : list string * list string :=
  match b, t with
  | x :: b', y :: t' => if decide (x = y) then strip_common b' t' else (b, t)
  | _, _ => (b, t)
  end.

Definition Rel (base targ : string) : gores string :=
  let err := Err (Errorf ("Rel: can't make " +:+ targ +:+ " relative to " +:+ base)) in
  if decide (Clean base = Clean targ) then Ok "."
  else if negb (bool_decide (HasPrefix base "/" = HasPrefix targ "/")) then err
  else
    match strip_common (elements base) (target_elements targ) with
    | ([], t) => Ok (StrJoin t "/")
    | (".." :: _, _) => err
    | (b, t) => Ok (StrJoin (replicate (length b) ".." ++ t) "/")
    end.

Section resolving.
(** [mountinfo.GetMounts] and whether [os.Lstat] finds a path. *)
Context (GetMounts : gores (list Info)) (Lstat : string → bool).

(** The mount kept for each device, by its numbers: the first one with the
    shortest root. *)
Definition keep_mount (byDevice : gmap (Z * Z) Info) (h : Info) : gmap (Z * Z) Info :=
  match byDevice !! (Major h, Minor h) with
  | Some current =>
      if decide (String.length (iRoot h) < String.length (iRoot current))%nat
      then <[(Major h, Minor h) := h]> byDevice else byDevice
  | None => <[(Major h, Minor h) := h]> byDevice
  end.
Definition hostMountsByDevice (hostMounts : list Info) : gmap (Z * Z) Info := foldl keep_mount ∅ hostMounts.

Definition fallback (m : Mount) : option string :=
  if Lstat (MountPoint m) then Some (MountPoint m) else None.

(** The source recorded for one mount. *)
Definition resolve_mount (byDevice : gmap (Z * Z) Info) (m : Mount) : option string :=
  if Lstat (Root m) then None
  else
    match byDevice !! (mMajor m, mMinor m) with
    | None => fallback m
    | Some h =>
        match Rel (iRoot h) (Root m) with
        | Err _ => fallback m
        | Ok p => if bool_decide (p = "..") || HasPrefix p "../" then fallback m else Some (Join2 (Mountpoint h) p)
        end
    end.

Definition resolveExternalMountSources (state : State) : gmap Z string :=
  match GetMounts with
  | Err _ => ∅
  | Ok hostMounts =>
      let byDevice := hostMountsByDevice hostMounts in
      snd (WalkTree Mounts (λ m sources,
        (true, match resolve_mount byDevice m with Some src => <[mID m := src]> sources | None => sources end)) state ∅)
  end.

(** The source that AddMountsForRestore uses for a mount. *)
Definition mountSource (state : State) (m : Mount) : string :=
  default (Root m) (resolveExternalMountSources state !! mID m).
End resolving.

(** ** Relative paths *)

Lemma strip_common_prefix b rest : strip_common b (b ++ rest) = ([], rest).
Proof. induction b as [|x b IH]; simpl; [by destruct rest|]. by rewrite decide_True. Qed.

Lemma strip_common_split b t b' t' :
  strip_common b t = (b', t') → ∃ l, b = l ++ b' ∧ t = l ++ t'.
Proof.
  revert t. induction b as [|x b IH]; intros [|y t]; simpl.
  - intros [= <- <-]. by exists [].
  - intros [= <- <-]. by exists [].
  - intros [= <- <-]. by exists [].
  - case_decide as Hx.
    + subst y. intros (l & -> & ->)%IH. by exists (x :: l).
    + intros [= <- <-]. by exists [].
Qed.

Lemma elements_resolve p : HasPrefix p "/" = true → elements p = resolve p.
Proof. unfold elements. by intros ->. Qed.

Lemma target_elements_resolve p : HasPrefix p "/" = true → target_elements p = resolve p.
Proof. intros Hp. unfold target_elements. rewrite elements_resolve // Hp. by destruct (resolve p). Qed.

Lemma Clean_eq_resolve p q :
  HasPrefix p "/" = true → HasPrefix q "/" = true → Clean p = Clean q ↔ resolve p = resolve q.
Proof.
  intros Hp Hq. split.
  - intros H. by rewrite -(resolve_Clean p Hp) -(resolve_Clean q Hq) H.
  - unfold Clean, resolve. rewrite Hp Hq. by intros ->.
Qed.

Lemma join_plain_nonempty l : Forall plain l → l ≠ [] → Split (StrJoin l "/") slash = l.
Proof. intros Hl Hne. apply Split_Join; [done|]. by apply plain_no_sep. Qed.

(** A target below the base: the path from one to the other is what the base's
    elements leave of the target's. *)
Lemma Rel_below base targ l :
  HasPrefix base "/" = true → HasPrefix targ "/" = true → resolve targ = resolve base ++ l →
  Rel base targ = Ok (if decide (l = []) then "." else StrJoin l "/").
Proof.
  intros Hb Ht Hl. unfold Rel. case_decide as Heq.
  - rewrite Clean_eq_resolve // Hl in Heq. rewrite decide_True //.
    symmetry in Heq. by rewrite -{2}(app_nil_r (resolve base)) in Heq; apply app_inv_head in Heq.
  - rewrite Hb Ht /= target_elements_resolve // elements_resolve // Hl strip_common_prefix.
    rewrite decide_False //. intros ->. apply Heq. by rewrite Clean_eq_resolve // Hl app_nil_r.
Qed.

(** Any other target of an absolute base is reached by going up first. *)
Lemma Rel_outside base targ :
  HasPrefix base "/" = true → HasPrefix targ "/" = true → ¬ resolve base `prefix_of` resolve targ →
  ∃ p, Rel base targ = Ok p ∧ bool_decide (p = "..") || HasPrefix p "../" = true.
Proof.
  intros Hb Ht Hn. unfold Rel. rewrite decide_False.
  { rewrite Clean_eq_resolve //. intros Heq. apply Hn. by rewrite Heq. }
  rewrite Hb Ht /= target_elements_resolve // elements_resolve //.
  destruct (strip_common (resolve base) (resolve targ)) as [b t] eqn:Hs.
  apply strip_common_split in Hs as (l & Hlb & Hlt).
  destruct b as [|c b].
  { contradict Hn. rewrite Hlb Hlt app_nil_r. by apply prefix_app_r. }
  assert (plain c) as (_ & _ & Hc & _).
  { pose proof (resolve_plain base) as Hp. rewrite Hlb in Hp. by apply Forall_app in Hp as [_ [? _]%Forall_cons_1]. }
  exists (StrJoin (replicate (length (c :: b)) ".." ++ t) "/"). split.
  { do 3 (destruct c as [|[[] [] [] [] [] [] [] []] c]; try done). }
  simpl. destruct (replicate (length b) ".." ++ t) as [|d r]; [done|].
  rewrite orb_true_iff. right. apply HasPrefix_true. by eexists.
Qed.

(** A path of plain elements does not go up. *)
Lemma not_up l : Forall plain l → l ≠ [] →
  bool_decide (StrJoin l "/" = "..") || HasPrefix (StrJoin l "/") "../" = false.
Proof.
  intros Hl Hne. pose proof (join_plain_nonempty l Hl Hne) as Hs.
  destruct Hl as [|c l (_ & _ & Hc & _) Hl]; [done|]. apply orb_false_iff. split.
  - apply bool_decide_eq_false. intros Heq. rewrite Heq in Hs. by injection Hs as <- _.
  - destruct (HasPrefix _ _) eqn:Hp; [|done]. apply HasPrefix_true in Hp as [r Hr].
    rewrite Hr in Hs. injection Hs as <- _. done.
Qed.

(** Joining plain elements to a directory adds them to it. *)
Lemma resolve_Join2_plain dest l :
  HasPrefix dest "/" = true → Forall plain l → l ≠ [] → resolve (Join2 dest (StrJoin l "/")) = resolve dest ++ l.
Proof.
  intros Hd Hl Hne. pose proof (join_plain_nonempty l Hl Hne) as Hs.
  assert (StrJoin l "/" ≠ "") as Hj.
  { intros Heq. rewrite Heq in Hs. destruct Hl as [|c l (Hc & _) _]; [done|]. by injection Hs as <- _. }
  rewrite /Join2. destruct dest as [|x dest]; [done|]. rewrite !filter_cons_True //=.
  rewrite resolve_Clean; [by apply (HasPrefix_append (String x dest))|].
  rewrite (resolve_sub (String x dest)).
  - rewrite Hs. eapply Forall_impl; [|exact Hl]. by intros c (?&?&?&?).
  - f_equal. rewrite /elems Hs. apply filter_all. eapply Forall_impl; [|exact Hl]. by intros c (?&?&?&?).
Qed.

Lemma resolve_Join2_dot dest : HasPrefix dest "/" = true → resolve (Join2 dest ".") = resolve dest.
Proof. intros Hd. rewrite resolve_Join2 //. by rewrite app_nil_r. Qed.

(** ** The kept mount of a device *)

Definition device (h : Info) : Z * Z := (Major h, Minor h).

Definition shortest (hosts : list Info) (byDevice : gmap (Z * Z) Info) : Prop :=
  ∀ d, match byDevice !! d with
       | Some h => h ∈ hosts ∧ device h = d ∧
                   ∀ h', h' ∈ hosts → device h' = d → (String.length (iRoot h) ≤ String.length (iRoot h'))%nat
       | None => ∀ h', h' ∈ hosts → device h' ≠ d
       end.

Lemma elem_of_snoc {A} (x y : A) l : x ∈ l ++ [y] ↔ x ∈ l ∨ x = y.
Proof. rewrite elem_of_app list_elem_of_singleton. done. Qed.

Lemma shortest_keep hosts byDevice h :
  shortest hosts byDevice → shortest (hosts ++ [h]) (keep_mount byDevice h).
Proof.
  intros H d. specialize (H d). unfold keep_mount. change (Major h, Minor h) with (device h).
  destruct (decide (device h = d)) as [Hd|Hd].
  - rewrite Hd. destruct (byDevice !! d) as [c|] eqn:Hc.
    + destruct H as (Hin & Hcd & Hmin). case_decide as Hlt.
      * rewrite lookup_insert_eq. split; [set_solver|]. split; [done|]. intros h' Hh' Hd'.
        apply elem_of_snoc in Hh' as [Hh'| ->]; [|done]. specialize (Hmin h' Hh' Hd'). lia.
      * rewrite Hc. split; [set_solver|]. split; [done|]. intros h' Hh' Hd'.
        apply elem_of_snoc in Hh' as [Hh'| ->]; [by apply Hmin|]. lia.
    + rewrite lookup_insert_eq. split; [set_solver|]. split; [done|]. intros h' Hh' Hd'.
      apply elem_of_snoc in Hh' as [Hh'| ->]; [|done]. by destruct (H h' Hh').
  - assert ((match byDevice !! device h with
             | Some current => if decide (String.length (iRoot h) < String.length (iRoot current))%nat
                               then <[device h := h]> byDevice else byDevice
             | None => <[device h := h]> byDevice end) !! d = byDevice !! d) as ->.
    { destruct (byDevice !! device h); [case_decide|]; try done; by rewrite lookup_insert_ne. }
    destruct (byDevice !! d) as [c|].
    + destruct H as (Hin & Hcd & Hmin). split; [set_solver|]. split; [done|]. intros h' Hh' Hd'.
      apply elem_of_snoc in Hh' as [Hh'| ->]; [by apply Hmin|done].
    + intros h' Hh'. apply elem_of_snoc in Hh' as [Hh'| ->]; [by apply H|done].
Qed.

(** Each device has the mount with a shortest root, and the devices that have
    one are those of the table. *)
Lemma hostMountsByDevice_shortest hosts : shortest hosts (hostMountsByDevice hosts).
Proof.
  induction hosts as [|h hosts IH] using rev_ind.
  - intros d. unfold hostMountsByDevice. simpl. rewrite lookup_empty. set_solver.
  - unfold hostMountsByDevice. rewrite foldl_app. apply shortest_keep, IH.
Qed.

Lemma kept_spec hosts d h :
  hostMountsByDevice hosts !! d = Some h →
  h ∈ hosts ∧ device h = d ∧ ∀ h', h' ∈ hosts → device h' = d → (String.length (iRoot h) ≤ String.length (iRoot h'))%nat.
Proof. intros Hh. pose proof (hostMountsByDevice_shortest hosts d) as H. by rewrite Hh in H. Qed.

(** ** The source of a mount *)

Definition absolute (p : string) : Prop := HasPrefix p "/" = true.

Section sources.
Context (Lstat : string → bool).

Lemma resolve_mount_below byDevice m h :
  byDevice !! (mMajor m, mMinor m) = Some h → Lstat (Root m) = false →
  absolute (iRoot h) → absolute (Mountpoint h) → absolute (Root m) →
  resolve (iRoot h) `prefix_of` resolve (Root m) →
  ∃ src, resolve_mount Lstat byDevice m = Some src ∧
    resolve src = resolve (Mountpoint h) ++ drop (length (resolve (iRoot h))) (resolve (Root m)).
Proof.
  intros Hh Hl Hr Hm Ht [l Hp]. unfold resolve_mount. rewrite Hl Hh (Rel_below _ _ l Hr Ht Hp).
  rewrite Hp drop_app_length. case_decide as Hnil.
  - subst l. eexists. split; [done|]. by rewrite app_nil_r resolve_Join2_dot.
  - assert (Forall plain l) as Hl'.
    { pose proof (resolve_plain (Root m)) as H. rewrite Hp in H. by apply Forall_app in H as [_ ?]. }
    rewrite not_up //. eexists. split; [done|]. by apply resolve_Join2_plain.
Qed.

Lemma resolve_mount_outside byDevice m :
  Lstat (Root m) = false → absolute (Root m) →
  (∀ h, byDevice !! (mMajor m, mMinor m) = Some h →
        absolute (iRoot h) ∧ ¬ resolve (iRoot h) `prefix_of` resolve (Root m)) →
  resolve_mount Lstat byDevice m = fallback Lstat m.
Proof.
  intros Hl Ht H. unfold resolve_mount. rewrite Hl.
  destruct (byDevice !! _) as [h|]; [|done]. destruct (H h eq_refl) as [Hr Hn].
  destruct (Rel_outside _ _ Hr Ht Hn) as (p & -> & Hp). by rewrite Hp.
Qed.

(** A walk that records a value under a key of each element gives an element
    its own value when no other element has its key. *)
Lemma foldl_record {A} (key : A → Z) (f : A → option string) (l : list A) (acc : gmap Z string) (x : A) :
  (∀ y, y ∈ l → key y = key x → y = x) → acc !! key x = None → x ∈ l →
  foldl (λ sources y, match f y with Some v => <[key y := v]> sources | None => sources end) acc l !! key x = f x.
Proof.
  assert (∀ acc : gmap Z string, (∀ y, y ∈ l → key y = key x → y = x) → acc !! key x = None ∨ acc !! key x = f x →
    (acc !! key x = f x ∨ x ∈ l) →
    foldl (λ sources y, match f y with Some v => <[key y := v]> sources | None => sources end) acc l !! key x = f x) as H.
  { induction l as [|y l IH]; intros acc' Hk Ha Hin; simpl; [by destruct Hin as [?|?%not_elem_of_nil]|].
    destruct (decide (key y = key x)) as [Hkey|Hkey].
    - assert (y = x) as -> by (apply Hk; [by left|done]).
      assert ((match f x with Some v => <[key x := v]> acc' | None => acc' end) !! key x = f x) as Hx.
      { destruct (f x) as [v|] eqn:Hf; [by rewrite lookup_insert_eq|by destruct Ha]. }
      apply IH; [set_solver|by right|by left].
    - assert ((match f y with Some v => <[key y := v]> acc' | None => acc' end) !! key x = acc' !! key x) as Hx.
      { destruct (f y); [by rewrite lookup_insert_ne|done]. }
      rewrite -Hx in Ha, Hin. apply IH; [set_solver|done|].
      destruct Hin as [Hin|[->|Hin]%elem_of_cons]; [by left|done|by right]. }
  intros Hk Ha Hin. apply H; [done|by left|by right].
Qed.

Lemma source_of hosts state m :
  m ∈ preorder Mounts state → (∀ m', m' ∈ preorder Mounts state → mID m' = mID m → m' = m) →
  mountSource (Ok hosts) Lstat state m = default (Root m) (resolve_mount Lstat (hostMountsByDevice hosts) m).
Proof.
  intros Hin Huniq. unfold mountSource, resolveExternalMountSources.
  rewrite WalkTree_fold /=. f_equal.
  by apply (foldl_record mID (resolve_mount Lstat (hostMountsByDevice hosts))).
Qed.

(** The source AddMountsForRestore gives CRIU for a mount of the tree: its root
    where that is a path of the host; otherwise, when the kept host mount of
    the device has a root that leads to the mount's, the path below that
    mount's mount point that the rest of the root names; otherwise the
    container's mount point where that is a path of the host, and the root
    where it is not. *)
Theorem mount_source_spec hosts state m :
  m ∈ preorder Mounts state → (∀ m', m' ∈ preorder Mounts state → mID m' = mID m → m' = m) →
  absolute (Root m) → Forall (λ h, absolute (iRoot h) ∧ absolute (Mountpoint h)) hosts →
  let src := mountSource (Ok hosts) Lstat state m in
  let kept := hostMountsByDevice hosts !! (mMajor m, mMinor m) in
  (Lstat (Root m) = true → src = Root m) ∧
  (Lstat (Root m) = false → ∀ h, kept = Some h → resolve (iRoot h) `prefix_of` resolve (Root m) →
     resolve src = resolve (Mountpoint h) ++ drop (length (resolve (iRoot h))) (resolve (Root m))) ∧
  (Lstat (Root m) = false → (∀ h, kept = Some h → ¬ resolve (iRoot h) `prefix_of` resolve (Root m)) →
     src = if Lstat (MountPoint m) then MountPoint m else Root m).
Proof.
  intros Hin Huniq Ht Hhosts src kept. unfold src. rewrite source_of //.
  rewrite list.Forall_forall in Hhosts.
  split_and!.
  - intros Hl. unfold resolve_mount. by rewrite Hl.
  - intros Hl h Hh Hp. destruct (kept_spec _ _ _ Hh) as (Hmem & _).
    destruct (Hhosts h Hmem) as [Hr Hm].
    by destruct (resolve_mount_below _ m h Hh Hl Hr Hm Ht Hp) as (p & -> & ?).
  - intros Hl Hn. rewrite resolve_mount_outside //.
    + intros h Hh. destruct (kept_spec _ _ _ Hh) as (Hmem & _). split; [by apply Hhosts|by apply Hn].
    + unfold fallback. by destruct (Lstat (MountPoint m)).
Qed.
End sources.

(** Two mounts of a device, the one with the shorter root kept: a path below
    the other's root is not found, though that mount alone leads to it. *)
Example covering_mount_missed :
  let data := mkInfo 8 1 "/data/volume" "/mnt/volume" in
  let other := mkInfo 8 1 "/boot" "/boot" in
  let m := mkMount 1 "/data/volume/f" "/f" 8 1 in
  let nothing := λ _ : string, false in
  resolve_mount nothing (hostMountsByDevice [data]) m = Some "/mnt/volume/f" ∧
  resolve_mount nothing (hostMountsByDevice [data; other]) m = None.
Proof. split; vm_compute; reflexivity. Qed.

Example mount_source_spec_witness :
  let h := mkInfo 8 1 "/data" "/mnt" in
  let m := mkMount 1 "/data/f" "/f" 8 1 in
  let t := mkState 1 1 [m] [] [] "" false [] [] [] in
  resolve (mountSource (Ok [h]) (λ _, false) t m) = ["mnt"; "f"].
Proof.
  intros h m t. destruct (mount_source_spec (λ _, false) [h] t m) as (_ & H & _).
  - apply elem_of_cons. by left.
  - intros m' Hm' _. by apply list_elem_of_singleton in Hm'.
  - reflexivity.
  - repeat constructor.
  - rewrite (H eq_refl h eq_refl); [by exists ["f"]|]. reflexivity.
Defined.
End MountSources.
