(* ===== verification/Inherit.v ===== *)
(** * Files a restored process inherits

    [InheritFilesForRestore] of internal/cedana/process/restore_adapters.go and of
    internal/cedana/gpu/restore_adapters.go.  Both walk the open files saved at
    dump time, open what the restored process needs, and tell CRIU under which
    descriptor it finds each file: CRIU is started with the files of
    [opts.ExtraFiles] from descriptor 3 on and its socket after them
    ([Criu.Prepare] of pkg/criu/criu.go).  Assignments to the named result [err]
    from inside the callbacks are kept as they are. *)

From Stdlib Require Import Ascii.
From S2P Require Import Prelude GoLib ProcessTree.
Import GoLib ProcessTree.

Module Inherit.

#[local] Arguments String.append : simpl never.

(** The part of the options and of the request that the callbacks change.  An
    extra file is its path, and [None] is a nil pointer; [toClose] are the
    files closed after the restore. *)
Record IState := mkI {
  ExtraFiles : list (option string);
  InheritFdMap : gmap string Z;
  InheritFd : list (Z * string);
  visitedStdioFds : gset Z;
  toClose : list string;
  err : option error;
}.

Definition set_err (e : option error) (s : IState) : IState :=
  mkI (ExtraFiles s) (InheritFdMap s) (InheritFd s) (visitedStdioFds s) (toClose s) e.
Definition add_close (p : string) (s : IState) : IState :=
  mkI (ExtraFiles s) (InheritFdMap s) (InheritFd s) (visitedStdioFds s) (toClose s ++ [p]) (err s).
Definition visit (fd : Z) (s : IState) : IState :=
  mkI (ExtraFiles s) (InheritFdMap s) (InheritFd s) ({[fd]} ∪ visitedStdioFds s) (toClose s) (err s).

(** [int32(3 + len(opts.ExtraFiles))] *)
Definition next_fd (s : IState) : Z := int32 (3 + Z.of_nat (length (ExtraFiles s))).

Definition inherited (key : string) (s : IState) : bool := bool_decide (is_Some (InheritFdMap s !! key)).

(** The end of the callback of process: nothing for an empty or a known key. *)
Definition register (key : string) (fd : Z) (extra : option string) (s : IState) : IState :=
  if bool_decide (key = "") || inherited key s then s
  else mkI (ExtraFiles s ++ [extra]) (<[key := fd]> (InheritFdMap s)) (InheritFd s ++ [(fd, key)])
         (visitedStdioFds s) (toClose s) (err s).

Record Request := mkRequest { Serverless : bool; Attachable : bool; Log : string }.

Definition stdio_name (fd : Z) : string :=
  if decide (fd = 0)%Z then "os.Stdin" else if decide (fd = 1)%Z then "os.Stdout" else "os.Stderr".

Definition no_tty (f : File) : error :=
  Status FailedPrecondition ("found open file " +:+ Path f +:+ " with fd " +:+ itoaZ (Fd f) +:+
    " which is a TTY and so restoring will fail because no TTY to inherit. Try --no-server restore").

Section process.
(** How [os.OpenFile] of a path for reading ends. *)
Context (open : string → option error) (req : Request) (mounts : gset Z).

(** The callback of the walk over the open files. *)
Definition inherit_file (f : File) (s : IState) : bool * IState :=
  let stdio_key := TrimPrefix (Path f) "/" in
  if external mounts f then
    if IsTTY f then (true, register (tty_key f) (int32 (Fd f)) None s)
    else if decide (MountID f = 0 ∧ Inode f = 0)%Z then (true, s)
    else if inherited (file_key f) s then (true, s)
    else match open (Path f) with
         | Some e => (true, set_err (Some e) s)
         | None => (true, register (file_key f) (next_fd s) (Some (Path f))
                            (set_err None (add_close (Path f) s)))
         end
  else if decide (Fd f ∈ visitedStdioFds s) then (true, s)
  else
    let s := visit (Fd f) s in
    if IsTTY f || Serverless req then
      if Serverless req then
        if decide (0 <= Fd f <= 2)%Z
        then (true, register stdio_key (next_fd s) (Some (stdio_name (Fd f))) s)
        else (true, s)
      else (false, set_err (Some (no_tty f)) s)
    else if decide (Fd f = 0)%Z then
      (true, if Attachable req then register stdio_key (int32 (Fd f)) None s else s)
    else if decide (Fd f = 1 ∨ Fd f = 2)%Z then
      (true, if Attachable req || negb (bool_decide (Log req = ""))
             then register stdio_key (int32 (Fd f)) None s else s)
    else (true, s).
End process.

(** The adapter up to the call of the next handler; without a state it changes
    nothing. *)
Definition InheritFilesForRestore (open : string → option error) (req : Request)
    (state : option State) (s : IState) : gores IState :=
  match state with
  | None => Ok s
  | Some t =>
      let s' := snd (WalkTree OpenFiles (inherit_file open req (mount_ids t)) t
                       (mkI (ExtraFiles s) (InheritFdMap s) (InheritFd s) ∅ [] None)) in
      match err s' with Some e => Err e | None => Ok s' end
  end.

(** ** The GPU's files *)

Definition CONTROLLER_SHM_FILE (id : string) : string := "/dev/shm/cedana-gpu." +:+ id.
Definition CONTROLLER_HOSTMEM_FILE (id : string) (pid : Z) : string :=
  "/dev/shm/cedana-gpu." +:+ id +:+ ".misc/hostmem-" +:+ itoaZ pid.
Definition LOG_FILE (logDir id kind : string) (pid : Z) : string :=
  logDir +:+ "/cedana-gpu." +:+ id +:+ "/cedana-" +:+ kind +:+ "-" +:+ itoaZ pid +:+ ".log".

(** [strconv.Atoi] of decimal digits. *)
Fixpoint digits (s : string) (acc : Z) : Z :=
  match s with
  | EmptyString => acc
  | String x s => digits s (acc * 10 + Z.of_nat (nat_of_ascii x - 48))
  end.
Definition Atoi (s : string) : gores Z :=
  let z := digits s 0 in
  if decide (z < 2 ^ 63)%Z then Ok z
  else Err (Errorf ("strconv.Atoi: parsing " +:+ s +:+ ": value out of range")).

(** How opening a file, preparing a host memory file (creating it, changing its
    mode, truncating it to the size saved in the dump) and [EnsureLogDir] end. *)
Record GpuEnv := mkGpuEnv {
  openFile : string → option error;
  prepareHostmem : string → option error;
  EnsureLogDir : string → gores string;
  cfgLogDir : string;
}.

(** With the variables [id] and [logDir]. *)
Record GState := mkG { ist : IState; gid : string; logDir : string }.

Definition on_ist (f : IState → IState) (g : GState) : GState := mkG (f (ist g)) (gid g) (logDir g).

Definition gpu_fail (what : string) (g : GState) : bool * GState :=
  (false, on_ist (set_err (Some (Status Internal what))) g).

Section gpu.
Context (env : GpuEnv) (isContainer : bool) (mounts : gset Z).

(** The end of the callback, once the new path is known. *)
Definition gpu_reopen (f : File) (newPath : string) (g : GState) : bool * GState :=
  match openFile env newPath with
  | Some e => gpu_fail ("failed to reopen file for inheriting FD " +:+ newPath +:+ ": " +:+ Error e) g
  | None =>
      let g := on_ist (λ s, add_close newPath (set_err None s)) g in
      let key := if external mounts f then file_key f else TrimPrefix (Path f) "/" in
      let fd := next_fd (ist g) in
      if inherited key (ist g) then (true, g)
      else (true, on_ist (λ s,
             let m := <[key := fd]> (InheritFdMap s) in
             if isContainer then mkI (ExtraFiles s) m (InheritFd s) (visitedStdioFds s) (toClose s) (err s)
             else mkI (ExtraFiles s ++ [Some newPath]) m (InheritFd s ++ [(fd, key)])
                    (visitedStdioFds s) (toClose s) (err s)) g)
  end.

(** A log file of the interceptor or of the tracer. *)
Definition gpu_log (f : File) (what kind oldId pidText : string) (g : GState) : bool * GState :=
  match Atoi pidText with
  | Err e => gpu_fail ("failed to parse PID from " +:+ what +:+ " log file path " +:+ Path f +:+ ": " +:+ Error e) g
  | Ok pid =>
      let g := on_ist (set_err None) g in
      let g := if decide (gid g = "") then mkG (ist g) oldId (logDir g) else g in
      if decide (cfgLogDir env = "") then gpu_reopen f "/dev/null" g
      else match EnsureLogDir env (gid g) with
           | Err e => gpu_fail ("failed to recreate log directory : " +:+ Error e) g
           | Ok dir => gpu_reopen f (LOG_FILE (cfgLogDir env) (gid g) kind pid) (mkG (ist g) (gid g) dir)
           end
  end.

(** In the branch of host memory files, [matches, err := afero.Glob(...)]
    declares another [err]: the errors of preparing the file are assigned to
    that one, and the walk stops without an error. *)
Definition gpu_inherit_file (f : File) (g : GState) : bool * GState :=
  match (if decide (gid g = "") then None else FindStringSubmatch CONTROLLER_HOSTMEM_FILE_PATTERN (Path f)) with
  | Some [_; pidText] =>
      match Atoi pidText with
      | Err e => gpu_fail ("failed to parse PID from hostmem file path " +:+ Path f +:+ ": " +:+ Error e) g
      | Ok pid =>
          let g := on_ist (set_err None) g in
          let newPath := CONTROLLER_HOSTMEM_FILE (gid g) pid in
          match prepareHostmem env newPath with
          | Some _ => (false, g)
          | None => gpu_reopen f newPath g
          end
      end
  | _ =>
      match FindStringSubmatch INTERCEPTOR_LOG_FILE_PATTERN (Path f) with
      | Some [_; oldId; pidText] => gpu_log f "interceptor" "so" oldId pidText g
      | _ =>
          match FindStringSubmatch TRACER_LOG_FILE_PATTERN (Path f) with
          | Some [_; oldId; pidText] => gpu_log f "tracer" "tracer" oldId pidText g
          | _ => (true, g)
          end
      end
  end.
End gpu.

(** The adapter up to the call of the next handler.  [ctxId] is the id in the
    context, if there is one. *)
Definition gpu_InheritFilesForRestore (env : GpuEnv) (ctxId : option string) (state : option State)
    (s : IState) : gores (IState * string) :=
  match state with
  | None => Err (Status InvalidArgument "missing state. it should have been set by the adapter")
  | Some t =>
      let isContainer := snd (WalkTree Mounts (λ m b, (true,
        b || bool_decide (is_Some (FindStringSubmatch CONTROLLER_SHM_FILE_PATTERN (MountPoint m))))) t false) in
      let mounts := mount_ids t in
      let key := TrimPrefix (CONTROLLER_SHM_FILE (GPUID t)) "/" in
      let fd := next_fd s in
      if inherited key s then Err (Status FailedPrecondition "controller shm file already inherited")
      else
        let m := <[key := fd]> (InheritFdMap s) in
        match ctxId with
        | None => Err (Status Internal "failed to get GPU ID from context")
        | Some id =>
            let opened :=
              if isContainer then Ok (mkI (ExtraFiles s) m (InheritFd s) ∅ [] None)
              else match openFile env (CONTROLLER_SHM_FILE id) with
                   | Some e => Err (Status Internal ("failed to open GPU shm file: " +:+ Error e))
                   | None => Ok (mkI (ExtraFiles s ++ [Some (CONTROLLER_SHM_FILE id)]) m
                                   (InheritFd s ++ [(fd, key)]) ∅ [CONTROLLER_SHM_FILE id] None)
                   end in
            match opened with
            | Err e => Err e
            | Ok s1 =>
                let g := snd (WalkTree OpenFiles (gpu_inherit_file env isContainer mounts) t (mkG s1 id "")) in
                match err (ist g) with Some e => Err e | None => Ok (ist g, logDir g) end
            end
        end
  end.

(** ** Which descriptor is which file *)

(** What CRIU finds at a descriptor: [Criu.Prepare] starts it with the standard
    streams, the extra files from 3 on, and the socket after them. *)
Inductive target := Stdio (fd : Z) | Extra (path : string) | Socket | Closed.

Definition criu_fd (extra : list (option string)) (fd : Z) : target :=
  if decide (0 <= fd <= 2)%Z then Stdio fd
  else if decide (fd = 3 + Z.of_nat (length extra))%Z then Socket
  else match extra !! Z.to_nat (fd - 3) with
       | Some (Some p) => if decide (3 <= fd)%Z then Extra p else Closed
       | _ => Closed
       end.

Definition points_to (extra : list (option string)) (fd : Z) (p : string) : Prop :=
  (3 <= fd)%Z ∧ extra !! Z.to_nat (fd - 3) = Some (Some p).

Lemma points_to_Extra extra fd p : points_to extra fd p → criu_fd extra fd = Extra p.
Proof.
  intros [Hfd Hp]. rewrite /criu_fd Hp. pose proof (lookup_lt_Some _ _ _ Hp).
  rewrite decide_False; [lia|]. rewrite decide_False; [lia|]. by rewrite decide_True.
Qed.

Lemma points_to_prefix extra extra' fd p :
  extra `prefix_of` extra' → points_to extra fd p → points_to extra' fd p.
Proof. intros Hpre [Hfd Hp]. split; [done|]. by eapply prefix_lookup_Some. Qed.

Lemma points_to_new s p :
  (3 + Z.of_nat (length (ExtraFiles s)) < 2 ^ 31)%Z → points_to (ExtraFiles s ++ [Some p]) (next_fd s) p.
Proof.
  intros Hb. rewrite /points_to /next_fd int32_id; [lia|]. split; [lia|].
  replace (Z.to_nat _) with (length (ExtraFiles s)) by lia. by rewrite list_lookup_middle.
Qed.

(** Why a descriptor is inherited under a key. *)
Inductive origin (req : Request) (mounts : gset Z) (files : list File) (extra : list (option string))
    : Z * string → Prop :=
| O_file f fd :
    f ∈ files → external mounts f = true → IsTTY f = false → points_to extra fd (Path f) →
    origin req mounts files extra (fd, file_key f)
| O_tty f :
    f ∈ files → external mounts f = true → IsTTY f = true →
    origin req mounts files extra (int32 (Fd f), tty_key f)
| O_std f fd :
    f ∈ files → external mounts f = false → (0 <= Fd f <= 2)%Z →
    (if Serverless req then points_to extra fd (stdio_name (Fd f)) else fd = Fd f) →
    origin req mounts files extra (fd, TrimPrefix (Path f) "/").

Lemma origin_prefix req mounts files extra extra' e :
  extra `prefix_of` extra' → origin req mounts files extra e → origin req mounts files extra' e.
Proof.
  intros Hpre [f fd ??? Hp|f|f fd ??? Hp].
  - apply O_file; try done. by eapply points_to_prefix.
  - by apply O_tty.
  - apply O_std; try done. destruct (Serverless req); [|done]. by eapply points_to_prefix.
Qed.

(** Keys are inherited once, and all of them are in the map. *)
Definition keyed (s : IState) : Prop :=
  NoDup (InheritFd s).*2 ∧ ∀ k, k ∈ (InheritFd s).*2 → is_Some (InheritFdMap s !! k).

Section descriptors.
Context (open : string → option error) (req : Request) (mounts : gset Z) (files : list File) (s0 : IState).

Record inv (s : IState) (n : nat) : Prop := {
  inv_keyed : keyed s;
  inv_extra : ExtraFiles s0 `prefix_of` ExtraFiles s;
  inv_len : length (ExtraFiles s) ≤ length (ExtraFiles s0) + n;
  inv_new : ∃ new, InheritFd s = InheritFd s0 ++ new ∧ Forall (origin req mounts files (ExtraFiles s)) new;
}.

Lemma inv_same s s' n m :
  ExtraFiles s' = ExtraFiles s → InheritFdMap s' = InheritFdMap s → InheritFd s' = InheritFd s →
  n ≤ m → inv s n → inv s' m.
Proof.
  intros He Hm Hi Hn [Hk Hx Hl Hnew]. split; rewrite /keyed ?He ?Hm ?Hi; try done. lia.
Qed.

Lemma inv_register key fd extra s n :
  inv s n → origin req mounts files (ExtraFiles s ++ [extra]) (fd, key) → inv (register key fd extra s) (S n).
Proof.
  intros Hinv Ho. rewrite /register. destruct (_ || _) eqn:Hk; [by eapply inv_same; [..|exact Hinv]; auto|].
  apply orb_false_iff in Hk as [_ Hk]. rewrite /inherited in Hk. apply bool_decide_eq_false in Hk.
  destruct Hinv as [[Hnd Hin] Hx Hl (new & Hnew & Hfo)]. split; simpl.
  - split; simpl; rewrite fmap_app /=.
    + apply list.NoDup_app. split_and!; [done| |by apply NoDup_singleton].
      intros k Hk1 ->%list_elem_of_singleton. by apply Hk, Hin.
    + intros k [Hk1|Hk1]%elem_of_app.
      * destruct (decide (key = k)) as [->|Hne]; [rewrite lookup_insert_eq; by eexists|].
        rewrite lookup_insert_ne //. by apply Hin.
      * apply list_elem_of_singleton in Hk1 as ->. rewrite lookup_insert_eq. by eexists.
  - by apply prefix_app_r.
  - rewrite length_app /=. lia.
  - exists (new ++ [(fd, key)]). rewrite Hnew app_assoc. split; [done|]. apply list.Forall_app. split.
    + eapply list.Forall_impl; [done|]. intros e. apply origin_prefix. by apply prefix_app_r.
    + by apply Forall_singleton.
Qed.

Lemma inherit_file_inv f s n :
  f ∈ files → inv s n → (3 + Z.of_nat (length (ExtraFiles s0) + n) < 2 ^ 31)%Z →
  inv (inherit_file open req mounts f s).2 (S n).
Proof.
  intros Hf Hinv Hb. assert (∀ t, ExtraFiles t = ExtraFiles s → (3 + Z.of_nat (length (ExtraFiles t)) < 2 ^ 31)%Z) as Hlen.
  { intros t ->. pose proof (inv_len _ _ Hinv). lia. }
  assert (inv s (S n)) as Hs by (by eapply inv_same; [..|exact Hinv]; auto).
  rewrite /inherit_file. destruct (external mounts f) eqn:Hext.
  - destruct (IsTTY f) eqn:Htty; [by apply inv_register; [|apply O_tty]|].
    case_decide; [done|]. destruct (inherited _ _); [done|].
    destruct (open (Path f)); simpl; [by eapply inv_same; [..|exact Hinv]; auto|].
    apply inv_register; [by eapply inv_same; [..|exact Hinv]|]. simpl.
    apply O_file; try done. by apply (points_to_new s), Hlen.
  - case_decide; [done|]. set (s1 := visit (Fd f) s).
    assert (inv s1 n) as Hs1 by (by eapply inv_same; [..|exact Hinv]).
    assert (inv s1 (S n)) as Hs1' by (by eapply inv_same; [..|exact Hinv]; auto).
    destruct (Serverless req) eqn:Hsl.
    + rewrite orb_true_r. case_decide as Hfd; [|done]. apply inv_register; [done|]. apply O_std; try done.
      rewrite Hsl. by apply (points_to_new s1), Hlen.
    + rewrite orb_false_r. destruct (IsTTY f); [by eapply inv_same; [..|exact Hinv]; auto|].
      assert ((0 <= Fd f <= 2)%Z → inv (register (TrimPrefix (Path f) "/") (int32 (Fd f)) None s1) (S n)) as Hreg.
      { intros Hfd. apply inv_register; [done|]. apply O_std; try done. rewrite Hsl. apply int32_id. lia. }
      case_decide; [destruct (Attachable req); [apply Hreg; lia|done]|].
      case_decide; [|done]. destruct (_ || _); [apply Hreg; lia|done].
Qed.

Lemma walk_inv l s n :
  (∀ f, f ∈ l → f ∈ files) → inv s n → (3 + Z.of_nat (length (ExtraFiles s0) + n + length l) < 2 ^ 31)%Z →
  inv (walk_values (inherit_file open req mounts) l s).2 (n + length l).
Proof.
  revert s n. induction l as [|f l IH]; intros s n Hl Hinv Hb; simpl.
  { by rewrite Nat.add_0_r. }
  simpl in Hb. pose proof (inherit_file_inv f s n) as Hf.
  destruct (inherit_file open req mounts f s) as [[] s1]; simpl in Hf.
  - rewrite Nat.add_succ_r -Nat.add_succ_l. apply IH; [set_solver| |lia]. apply Hf; [set_solver|done|lia].
  - simpl. eapply inv_same; [done..| |apply Hf; [set_solver|done|lia]]. lia.
Qed.
End descriptors.

(** ** What is inherited *)

Section coverage.
Context (open : string → option error) (req : Request) (mounts : gset Z).
Abbreviation step := (inherit_file open req mounts).

Lemma register_keeps key fd extra s k :
  is_Some (InheritFdMap s !! k) → is_Some (InheritFdMap (register key fd extra s) !! k).
Proof.
  intros Hk. rewrite /register. case_match; [done|]. simpl.
  destruct (decide (key = k)) as [->|?]; [rewrite lookup_insert_eq; by eexists|by rewrite lookup_insert_ne].
Qed.

Lemma register_has key fd extra s : key ≠ "" → is_Some (InheritFdMap (register key fd extra s) !! key).
Proof.
  intros Hk. rewrite /register bool_decide_false //=. destruct (inherited key s) eqn:Hi.
  - by apply bool_decide_eq_true in Hi.
  - rewrite /= lookup_insert_eq. by eexists.
Qed.

Lemma step_keeps f s k : is_Some (InheritFdMap s !! k) → is_Some (InheritFdMap (step f s).2 !! k).
Proof.
  intros Hk. rewrite /inherit_file.
  repeat first [case_match | case_decide]; simpl; try done; by apply register_keeps.
Qed.

(** Only a terminal that cannot be inherited stops the walk, with an error. *)
Lemma step_stops f s : (step f s).1 = false → err (step f s).2 = Some (no_tty f).
Proof. rewrite /inherit_file. repeat first [case_match | case_decide]; by simpl. Qed.

Lemma walk_completes l s :
  err (walk_values step l s).2 = None → (walk_values step l s).1 = true.
Proof.
  revert s. induction l as [|f l IH]; intros s; simpl; [done|].
  pose proof (step_stops f s) as Hs. destruct (step f s) as [[] s1]; simpl in *; [apply IH|].
  by rewrite Hs.
Qed.

Lemma step_has f s :
  external mounts f = true → (IsTTY f = true ∨ ¬ (MountID f = 0 ∧ Inode f = 0)%Z) →
  (IsTTY f = false → open (Path f) = None) →
  is_Some (InheritFdMap (step f s).2 !! external_key f).
Proof.
  intros He Hid Ho. rewrite /inherit_file He /external_key. destruct (IsTTY f) eqn:Ht.
  - by apply register_has.
  - destruct Hid as [?|Hid]; [done|]. rewrite decide_False //.
    destruct (inherited (file_key f) s) eqn:Hi; [by apply bool_decide_eq_true in Hi|].
    rewrite Ho //. by apply register_has.
Qed.

Lemma walk_keeps l s k :
  is_Some (InheritFdMap s !! k) → is_Some (InheritFdMap (walk_values step l s).2 !! k).
Proof.
  revert s. induction l as [|f l IH]; intros s Hk; simpl; [done|].
  pose proof (step_keeps f s k Hk) as Hs. destruct (step f s) as [[] s1]; simpl in *; [by apply IH|done].
Qed.

Lemma walk_has l s f :
  (walk_values step l s).1 = true → f ∈ l →
  external mounts f = true → (IsTTY f = true ∨ ¬ (MountID f = 0 ∧ Inode f = 0)%Z) →
  (IsTTY f = false → open (Path f) = None) →
  is_Some (InheritFdMap (walk_values step l s).2 !! external_key f).
Proof.
  revert s. induction l as [|g l IH]; intros s; [by intros _ ?%elem_of_nil|].
  simpl. intros Hgo Hin He Hid Ho. pose proof (step_has f s He Hid Ho) as Hf.
  destruct (step g s) as [[] s1] eqn:Hg; [|done].
  apply elem_of_cons in Hin as [->|Hin].
  - rewrite Hg in Hf. by apply walk_keeps.
  - by apply IH.
Qed.

(** Every key of the map is one CRIU is told about. *)
Definition listed (s : IState) : Prop := ∀ k, is_Some (InheritFdMap s !! k) → k ∈ (InheritFd s).*2.

Lemma register_listed key fd extra s : listed s → listed (register key fd extra s).
Proof.
  intros Hl. rewrite /register. destruct (_ || _); [done|]. intros k. simpl. rewrite fmap_app.
  destruct (decide (key = k)) as [->|Hne].
  - intros _. apply elem_of_app. right. by left.
  - rewrite lookup_insert_ne //. intros Hk. apply elem_of_app. left. by apply Hl.
Qed.

Lemma step_listed f s : listed s → listed (step f s).2.
Proof. intros Hl. rewrite /inherit_file. by repeat (case_match; simpl); try done; apply register_listed. Qed.

Lemma walk_listed l s : listed s → listed (walk_values step l s).2.
Proof.
  revert s. induction l as [|f l IH]; intros s Hl; [done|]. simpl. pose proof (step_listed f s Hl) as Hs.
  destruct (step f s) as [[] s1]; [by apply IH|done].
Qed.
End coverage.

(** The keys that the dump declared external are in the map after the walk. *)
Lemma externals_inherited open req t s s' :
  (∀ f, f ∈ preorder OpenFiles t → external (mount_ids t) f = true → IsTTY f = false →
     open (Path f) = None ∧ ¬ (MountID f = 0 ∧ Inode f = 0)%Z) →
  InheritFilesForRestore open req (Some t) s = Ok s' →
  ∀ k, k ∈ externalFileKeys t → is_Some (InheritFdMap s' !! k).
Proof.
  intros Hopen. rewrite /InheritFilesForRestore WalkTree_preorder. destruct (err _) as [e|] eqn:He; [done|]. intros [= <-].
  pose proof (walk_completes _ _ _ _ _ He) as Hgo. intros k. rewrite externalFileKeys_spec.
  intros (f & -> & Hf)%list_elem_of_fmap. apply list_elem_of_filter in Hf as [Hx Hin].
  destruct (IsTTY f) eqn:Ht.
  - apply walk_has; try done; [by left|congruence].
  - destruct (Hopen f Hin Hx Ht). apply walk_has; try done. by right.
Qed.

Lemma inherited_listed open req t s s' :
  listed s → InheritFilesForRestore open req (Some t) s = Ok s' → listed s'.
Proof.
  intros Hl. rewrite /InheritFilesForRestore WalkTree_preorder. destruct (err _); [done|]. intros [= <-].
  by apply walk_listed.
Qed.


(** Whether a file that cannot be opened fails the restore depends on the
    files after it: the error that is tested after the walk is the one of the
    last file tried, so that an error is forgotten when a later external file
    can be opened, its file not being inherited, and fails the restore, although
    only a warning was meant, when it comes last. *)
Theorem last_open_decides open req t g s l s1 :
  preorder OpenFiles t = l ++ [g] →
  walk_values (inherit_file open req (mount_ids t)) l
    (mkI (ExtraFiles s) (InheritFdMap s) (InheritFd s) ∅ [] None) = (true, s1) →
  external (mount_ids t) g = true → IsTTY g = false → ¬ (MountID g = 0 ∧ Inode g = 0)%Z →
  InheritFdMap s1 !! file_key g = None →
  match open (Path g) with
  | Some e => InheritFilesForRestore open req (Some t) s = Err e
  | None => ∃ s', InheritFilesForRestore open req (Some t) s = Ok s' ∧
              InheritFd s' = InheritFd s1 ++ [(next_fd s1, file_key g)]
  end.
Proof.
  intros Hl Hw Hx Ht Hid Hk. rewrite /InheritFilesForRestore WalkTree_preorder Hl walk_values_app Hw.
  cbn [walk_values]. rewrite /inherit_file Hx Ht decide_False // /inherited Hk bool_decide_false; [by intros []|].
  destruct (open (Path g)) as [e|]; [done|]. cbn [snd]. rewrite /register /inherited /= Hk.
  rewrite bool_decide_false; [by intros []|]. by eexists.
Qed.

(** A host memory file of the GPU that cannot be prepared is not reported: its
    error is assigned to another variable.  The restore goes on as if the walk
    had ended before that file, so that it and every later GPU file are not
    inherited. *)
Theorem hostmem_failure_hidden env isContainer mounts l f l' g g1 old pidText pid e :
  walk_values (gpu_inherit_file env isContainer mounts) l g = (true, g1) → gid g1 ≠ "" →
  FindStringSubmatch CONTROLLER_HOSTMEM_FILE_PATTERN (Path f) = Some [old; pidText] →
  Atoi pidText = Ok pid → prepareHostmem env (CONTROLLER_HOSTMEM_FILE (gid g1) pid) = Some e →
  ∃ g', walk_values (gpu_inherit_file env isContainer mounts) (l ++ f :: l') g = (false, g') ∧
    err (ist g') = None ∧ InheritFd (ist g') = InheritFd (ist g1) ∧
    ExtraFiles (ist g') = ExtraFiles (ist g1).
Proof.
  intros Hw Hid Hm Hp He. exists (on_ist (set_err None) g1). split; [|done].
  rewrite walk_values_app Hw. cbn [walk_values]. rewrite /gpu_inherit_file decide_False // Hm Hp /=.
  by rewrite He.
Qed.

(** ** Witnesses *)

Definition file_at (path : string) (fd mount inode : Z) : File := mkFile path fd mount inode 0 0 false.

(** A process with two external files, one of them shared with its child, and a
    standard output on the mount 1. *)
Definition child_state : State :=
  mkState 11 11 [] [file_at "/mnt/a" 3 7 100] [] "" false [0%Z] [0%Z] [].

Definition sample_state : State :=
  mkState 10 10 [mkMount 1 "/" "/" 8 1]
    [file_at "/tmp/out" 1 1 5; file_at "/mnt/a" 3 7 100; file_at "/mnt/b" 4 7 101] []
    "gpu1" true [0%Z] [0%Z] [child_state].

Definition empty_istate : IState := mkI [] ∅ [] ∅ [] None.
Definition sample_request : Request := mkRequest false true "".


(** /mnt/a cannot be opened, the file after it can. *)
Definition fails_on (p : string) (path : string) : option error :=
  if decide (path = p) then Some (Errorf "no such file or directory") else None.

Definition two_files (a b : string) : State :=
  mkState 10 10 [] [file_at a 3 7 100; file_at b 4 7 101] [] "" false [0%Z] [0%Z] [].

Lemma last_open_decides_witness :
  (∃ s', InheritFilesForRestore (fails_on "/mnt/a") sample_request (Some (two_files "/mnt/a" "/mnt/b")) empty_istate
     = Ok s' ∧ InheritFd s' = [(3%Z, "file[7:65]")]) ∧
  InheritFilesForRestore (fails_on "/mnt/a") sample_request (Some (two_files "/mnt/b" "/mnt/a")) empty_istate
     = Err (Errorf "no such file or directory").
Proof.
  pose (after p := snd (walk_values (inherit_file (fails_on "/mnt/a") sample_request ∅)
    [file_at p 3 7 100] empty_istate)). split.
  - pose proof (last_open_decides (fails_on "/mnt/a") sample_request (two_files "/mnt/a" "/mnt/b")
      (file_at "/mnt/b" 4 7 101) empty_istate [file_at "/mnt/a" 3 7 100] (after "/mnt/a")
      eq_refl eq_refl eq_refl eq_refl ltac:(by intros []) eq_refl) as H.
    change (fails_on "/mnt/a" _) with (@None error) in H. destruct H as (s' & H1 & H2).
    exists s'. split; [exact H1|]. rewrite H2. vm_compute. reflexivity.
  - pose proof (last_open_decides (fails_on "/mnt/a") sample_request (two_files "/mnt/b" "/mnt/a")
      (file_at "/mnt/a" 4 7 101) empty_istate [file_at "/mnt/b" 3 7 100] (after "/mnt/b")
      eq_refl eq_refl eq_refl eq_refl ltac:(by intros []) eq_refl) as H.
    change (fails_on "/mnt/a" _) with (Some (Errorf "no such file or directory")) in H. exact H.
Defined.

Lemma hostmem_failure_hidden_witness :
  let env := mkGpuEnv (λ _, None) (λ _, Some (Errorf "no space left on device")) (λ _, Ok "/tmp") "/tmp" in
  let f := file_at "/dev/shm/cedana-gpu.old.misc/hostmem-42" 5 1 1 in
  let f' := file_at "/tmp/cedana-gpu.old/cedana-so-42.log" 6 1 2 in
  ∃ g', walk_values (gpu_inherit_file env false ∅) [f; f'] (mkG empty_istate "new" "") = (false, g') ∧
    err (ist g') = None ∧ InheritFd (ist g') = [].
Proof.
  cbv zeta. set (env := mkGpuEnv _ _ _ _). set (f := file_at _ 5 _ _). set (f' := file_at _ 6 _ _).
  destruct (hostmem_failure_hidden env false ∅ [] f [f'] (mkG empty_istate "new" "")
    (mkG empty_istate "new" "") "old" "42" 42 (Errorf "no space left on device")) as (g' & H1 & H2 & H3 & _);
    [reflexivity|discriminate|vm_compute; reflexivity|reflexivity|reflexivity|].
  exists g'. by split_and!.
Defined.

End Inherit.
