(* ===== verification/Pipeline.v ===== *)
(** * The chains of adapters behind the requests (internal/cedana)

    What [Server.Dump], [Server.Freeze], [Server.Unfreeze] and their serverless
    variants compose out of the adapters of defaults, validation, process,
    network, gpu and criu, over the handlers of [Types].  Request and response
    are shared by the chain and so are part of the application state; options
    are passed by value.  The adapters of the dump file system are those of
    [Storage] and [StreamerAdapters]; here they are parameters which wrap the
    rest of the chain. *)

From Stdlib Require Import Ascii.
From S2P Require Import Prelude GoLib Profiling Types Adapters ProcessTree.
Import GoLib Profiling Types Adapters.
Import ProcessTree.

Module Pipeline.

#[local] Arguments String.append : simpl never.

(** ** Messages *)

(** [criu.CriuOpts], as far as the chain sets it; unset fields are [None]. *)
Record COpts := mkCOpts {
  LeaveRunning : option bool;
  ManageCgroupsMode : option Z;
  ManageCgroups : option bool;
  NotifyScripts : option bool;
  EvasiveDevices : option bool;
  ExtMasters : option bool;
  ShellJob : option bool;
  External : list string;
  AutoExtMnt : option bool;
  TcpEstablished : option bool;
  ExtUnixSk : option bool;
  LsmProfile : option string;
  LsmMountContext : option string;
  ImagesDir : string;
  coPid : Z;
}.

Definition empty_opts : COpts :=
  mkCOpts None None None None None None None [] None None None None None "" 0.

Definition with_defaults (leave : bool) (mode : Z) (c : COpts) : COpts :=
  mkCOpts
    (if bool_decide (LeaveRunning c = Some true) then LeaveRunning c else Some leave)
    (match ManageCgroupsMode c with Some m => Some m | None => Some mode end)
    (match ManageCgroupsMode c with Some _ => ManageCgroups c | None => Some true end)
    (Some true) (Some true) (Some true) (ShellJob c) (External c) (AutoExtMnt c) (TcpEstablished c)
    (ExtUnixSk c) (LsmProfile c) (LsmMountContext c) (ImagesDir c) (coPid c).

Definition with_shell_job (b : bool) (c : COpts) : COpts :=
  mkCOpts (LeaveRunning c) (ManageCgroupsMode c) (ManageCgroups c) (NotifyScripts c) (EvasiveDevices c)
    (ExtMasters c) (Some b) (External c) (AutoExtMnt c) (TcpEstablished c) (ExtUnixSk c)
    (LsmProfile c) (LsmMountContext c) (ImagesDir c) (coPid c).

Definition add_external (keys : list string) (c : COpts) : COpts :=
  mkCOpts (LeaveRunning c) (ManageCgroupsMode c) (ManageCgroups c) (NotifyScripts c) (EvasiveDevices c)
    (ExtMasters c) (ShellJob c) (External c ++ keys) (AutoExtMnt c) (TcpEstablished c) (ExtUnixSk c)
    (LsmProfile c) (LsmMountContext c) (ImagesDir c) (coPid c).

Definition with_ext_mounts (c : COpts) : COpts :=
  mkCOpts (LeaveRunning c) (ManageCgroupsMode c) (ManageCgroups c) (NotifyScripts c) (EvasiveDevices c)
    (Some true) (ShellJob c) (External c) (Some true) (TcpEstablished c) (ExtUnixSk c)
    (LsmProfile c) (LsmMountContext c) (ImagesDir c) (coPid c).

Definition with_network (tcp unix : bool) (c : COpts) : COpts :=
  mkCOpts (LeaveRunning c) (ManageCgroupsMode c) (ManageCgroups c) (NotifyScripts c) (EvasiveDevices c)
    (ExtMasters c) (ShellJob c) (External c) (AutoExtMnt c)
    (Some (tcp || default false (TcpEstablished c))) (Some (unix || default false (ExtUnixSk c)))
    (LsmProfile c) (LsmMountContext c) (ImagesDir c) (coPid c).

Definition with_images (dir : string) (c : COpts) : COpts :=
  mkCOpts (LeaveRunning c) (ManageCgroupsMode c) (ManageCgroups c) (NotifyScripts c) (EvasiveDevices c)
    (ExtMasters c) (ShellJob c) (External c) (AutoExtMnt c) (TcpEstablished c) (ExtUnixSk c)
    (LsmProfile c) (LsmMountContext c) dir (coPid c).

Definition with_pid (pid : Z) (c : COpts) : COpts :=
  mkCOpts (LeaveRunning c) (ManageCgroupsMode c) (ManageCgroups c) (NotifyScripts c) (EvasiveDevices c)
    (ExtMasters c) (ShellJob c) (External c) (AutoExtMnt c) (TcpEstablished c) (ExtUnixSk c)
    (LsmProfile c) (LsmMountContext c) (ImagesDir c) pid.

(** [daemon.Details]: the JID and the PID of a process. *)
Record Details := mkDetails { dJID : string; dProcessPID : Z }.

(** What the job manager is asked to do after a dump. *)
Inductive job_call :=
  | Sync (state : option State)
  | AddCheckpoint (jid : string) (paths : list string)
  | Wait (jid : string).

(** [daemon.DumpReq] and [daemon.DumpResp], and what the chain does outside of
    them: the callbacks included for CRIU, the calls of CRIU, whether the GPU of
    the process is frozen, and the calls of the job manager. *)
Record App := mkApp {
  Dir : string;
  RName : string;
  RType : string;
  RDetails : option Details;
  Streams : Z;
  Criu : option COpts;
  RState : option State;
  Paths : list string;
  Messages : list string;
  Callbacks : list string;
  criuCalls : list COpts;
  gpuFrozen : bool;
  jobCalls : list job_call;
}.

Definition set_req (dir name : string) (criu : option COpts) (a : App) : App :=
  mkApp dir name (RType a) (RDetails a) (Streams a) criu (RState a) (Paths a) (Messages a)
    (Callbacks a) (criuCalls a) (gpuFrozen a) (jobCalls a).
Definition set_Criu (c : option COpts) (a : App) : App := set_req (Dir a) (RName a) c a.
Definition set_RState (s : option State) (a : App) : App :=
  mkApp (Dir a) (RName a) (RType a) (RDetails a) (Streams a) (Criu a) s (Paths a) (Messages a)
    (Callbacks a) (criuCalls a) (gpuFrozen a) (jobCalls a).
Definition Include (name : string) (a : App) : App :=
  mkApp (Dir a) (RName a) (RType a) (RDetails a) (Streams a) (Criu a) (RState a) (Paths a) (Messages a)
    (Callbacks a ++ [name]) (criuCalls a) (gpuFrozen a) (jobCalls a).
Definition add_messages (l : list string) (a : App) : App :=
  mkApp (Dir a) (RName a) (RType a) (RDetails a) (Streams a) (Criu a) (RState a) (Paths a) (Messages a ++ l)
    (Callbacks a) (criuCalls a) (gpuFrozen a) (jobCalls a).
Definition called (c : COpts) (a : App) : App :=
  mkApp (Dir a) (RName a) (RType a) (RDetails a) (Streams a) (Some c) (RState a) (Paths a) (Messages a)
    (Callbacks a) (criuCalls a ++ [c]) (gpuFrozen a) (jobCalls a).
Definition set_frozen (b : bool) (a : App) : App :=
  mkApp (Dir a) (RName a) (RType a) (RDetails a) (Streams a) (Criu a) (RState a) (Paths a) (Messages a)
    (Callbacks a) (criuCalls a) b (jobCalls a).

(** What [ManageDump] fills in, and what it does after the dump. *)
Definition set_job (name t : string) (d : option Details) (s : option State) (a : App) : App :=
  mkApp (Dir a) name t d (Streams a) (Criu a) s (Paths a) (Messages a)
    (Callbacks a) (criuCalls a) (gpuFrozen a) (jobCalls a).
Definition add_jobCalls (l : list job_call) (a : App) : App :=
  mkApp (Dir a) (RName a) (RType a) (RDetails a) (Streams a) (Criu a) (RState a) (Paths a) (Messages a)
    (Callbacks a) (criuCalls a) (gpuFrozen a) (jobCalls a ++ l).
(** What the adapters of the dump file system set. *)
Definition opened (dir : string) (paths callbacks : list string) (a : App) : App :=
  mkApp (Dir a) (RName a) (RType a) (RDetails a) (Streams a)
    (Some (with_images dir (default empty_opts (Criu a)))) (RState a) (Paths a ++ paths) (Messages a)
    (Callbacks a ++ callbacks) (criuCalls a) (gpuFrozen a) (jobCalls a).

Definition empty_State : State := mkState 0 0 [] [] [] "" false [] [] [].
Definition with_PID (pid : Z) (s : State) : State :=
  mkState pid (SID s) (Mounts s) (OpenFiles s) (OpenConnections s) (GPUID s) (GPUEnabled s) (UIDs s) (GIDs s) (Children s).
Definition with_GPU (id : string) (s : State) : State :=
  mkState (PID s) (SID s) (Mounts s) (OpenFiles s) (OpenConnections s) id true (UIDs s) (GIDs s) (Children s).

(** [types.Opts]: the path of the CRIU instance if one is set, and the storage.
    A CRIU instance comes with a [CRIUCallback]. *)
Record Opts (St : Type) := mkOpts { oCRIU : option string; oStorage : option St; oServerless : bool }.
Arguments mkOpts {_} _ _ _.
Arguments oCRIU {_} _.
Arguments oStorage {_} _.
Arguments oServerless {_} _.

(** A job of the manager, as far as [ManageDump] asks. *)
Record Job := mkJob {
  jType : string;
  jState : option State;
  jDetails : Details;
  jRunning : bool;
  jStatus : string;
}.

(** What the configuration, the operating system, CRIU, the plugins and the GPU manager answer. *)
Record Env (St : Type) := mkEnv {
  cfgDir : string;
  cfgLeaveRunning : bool;
  cfgCgroupsMode : Z;
  cfgStreams : Z;
  nowName : string;                                 (** the time in the name *)
  FillProcessState : Z → State → gores State;
  HasActiveTCPConnections : Z → bool;
  cfgBinaryPath : string;
  criuPlugin : option string;                       (** its binary when installed *)
  lookPath : gores string;
  CheckFeatures : list (list string);               (** the errors of every component *)
  criuVersion : gores Z;
  ChownAll : string → Z → Z → option error;
  criuDump : COpts → option error;
  gpuSync : option error;
  gpuAttached : Z → bool;
  gpuID : Z → string;
  gpuInstalled : bool;
  gpuFreezeErr : option error;
  gpuUnfreezeErr : option error;
  localStorage : St;
  pluginStorage : string → gores St;                (** [features.Storage] of a plugin *)
  jobGet : string → option Job;
  jobDone : string → option error;
}.
Arguments mkEnv {_}.
Arguments cfgDir {_}. Arguments cfgLeaveRunning {_}. Arguments cfgCgroupsMode {_}. Arguments cfgStreams {_}.
Arguments nowName {_}. Arguments FillProcessState {_}. Arguments HasActiveTCPConnections {_}.
Arguments cfgBinaryPath {_}. Arguments criuPlugin {_}. Arguments lookPath {_}.
Arguments CheckFeatures {_}. Arguments criuVersion {_}. Arguments ChownAll {_}.
Arguments criuDump {_}. Arguments gpuSync {_}. Arguments gpuAttached {_}. Arguments gpuID {_}.
Arguments gpuInstalled {_}. Arguments gpuFreezeErr {_}. Arguments gpuUnfreezeErr {_}.
Arguments localStorage {_}. Arguments pluginStorage {_}. Arguments jobGet {_}. Arguments jobDone {_}.

Section dump.
Context {St : Type} (env : Env St).

(** [config.Global.Profiling.Enabled] *)
Context (profiling : bool).

Abbreviation Handler := (Handler (Opts St) App unit).
Abbreviation Adapter := (Adapter (Opts St) App unit).
Abbreviation Middleware := (Middleware (Opts St) App unit).

(** ** defaults and validation *)

Definition fill_dump_defaults (o : Opts St) (a : App) : gores (Opts St) * App :=
  let dir := if decide (Dir a = "") then cfgDir env else Dir a in
  let name := if decide (RName a = "") then "dump-" +:+ RType a +:+ "-" +:+ nowName env else RName a in
  let c := default empty_opts (Criu a) in
  (Ok o, set_req dir name (Some (with_defaults (cfgLeaveRunning env) (cfgCgroupsMode env) c)) a).
Definition FillMissingDumpDefaults : Adapter := before "defaults.FillMissingDumpDefaults" fill_dump_defaults.

Definition validate_dump (o : Opts St) (a : App) : gores (Opts St) * App :=
  if decide (Dir a = "") then (Err (Status InvalidArgument "no dump dir specified"), a)
  else if decide (RDetails a = None) then (Err (Status InvalidArgument "missing details"), a)
  else if decide (RType a = "") then (Err (Status InvalidArgument "missing type"), a)
  else (Ok o, a).
Definition ValidateDumpRequest : Adapter := before "validation.ValidateDumpRequest" validate_dump.

Definition validate_freeze (o : Opts St) (a : App) : gores (Opts St) * App :=
  if decide (RDetails a = None) then (Err (Status InvalidArgument "missing details"), a)
  else if decide (RType a = "") then (Err (Status InvalidArgument "missing type"), a)
  else (Ok o, a).
Definition ValidateFreezeRequest : Adapter := before "validation.ValidateFreezeRequest" validate_freeze.

Definition FillMissingFreezeDefaults : Adapter :=
  before "defaults.FillMissingFreezeDefaults" (λ o a, (Ok o, a)).

(** ** process *)

Definition set_pid_for_dump (o : Opts St) (a : App) : gores (Opts St) * App :=
  let s := default empty_State (RState a) in
  if decide (PID s = 0)%Z then
    let pid := match RDetails a with Some d => dProcessPID d | None => 0%Z end in
    if decide (pid = 0)%Z then (Err (Status InvalidArgument "missing PID"), set_RState (Some s) a)
    else (Ok o, set_RState (Some (with_PID pid s)) a)
  else (Ok o, set_RState (Some s) a).
Definition SetPIDForDump : Adapter := before "process.SetPIDForDump" set_pid_for_dump.

Definition missing_state : error :=
  Status InvalidArgument "missing state. at least PID is required in resp.state".
Definition missing_pid : error :=
  Status NotFound "missing PID. Ensure an adapter sets this PID in response.".

Definition fill_state (o : Opts St) (a : App) : gores (Opts St) * App :=
  match RState a with
  | None => (Err missing_state, a)
  | Some s =>
      if decide (PID s = 0)%Z then (Err missing_pid, a)
      else match FillProcessState env (PID s) s with
           | Err e => (Err (Status Internal ("failed to fill process state: " +:+ Error e)), a)
           | Ok s' => (Ok o, set_RState (Some s') a)
           end
  end.
Definition FillProcessStateForDump : Adapter := before "process.FillProcessStateForDump" fill_state.

(** Failing to write the file is only logged. *)
Definition save_state (o : Opts St) (a : App) : gores (Opts St) * App :=
  match RState a with
  | None => (Err missing_state, a)
  | Some s => if decide (PID s = 0)%Z then (Err missing_pid, a) else (Ok o, a)
  end.
Definition SaveProcessStateForDump : Adapter := before "process.SaveProcessStateForDump" save_state.

Definition detect_shell_job (o : Opts St) (a : App) : gores (Opts St) * App :=
  let isShellJob := match RState a with Some s => negb (bool_decide (SID s = PID s)) | None => false end in
  (Ok o, set_Criu (Some (with_shell_job isShellJob (default empty_opts (Criu a)))) a).
Definition DetectShellJobForDump : Adapter := before "process.DetectShellJobForDump" detect_shell_job.

(** The walk stops at the first file that uses io_uring. *)
Definition uses_io_uring (s : State) : bool :=
  snd (WalkTree OpenFiles (λ f b, let b := b || Contains (Path f) "io_uring" in (negb b, b)) s false).

Definition detect_io_uring (o : Opts St) (a : App) : gores (Opts St) * App :=
  match RState a with
  | None => (Ok o, a)
  | Some s =>
      if uses_io_uring s then (Err (Status Unimplemented "IOUring dump is not supported at the moment"), a)
      else (Ok o, a)
  end.
Definition DetectIOUringForDump : Adapter := before "process.DetectIOUringForDump" detect_io_uring.

Definition add_external_files (o : Opts St) (a : App) : gores (Opts St) * App :=
  match RState a with
  | None => (Ok o, a)
  | Some s =>
      let a1 := set_Criu (Some (add_external (externalFileKeys s) (default empty_opts (Criu a)))) a in
      (Ok o, if oCRIU o is Some _ then Include "external-files" a1 else a1)
  end.
Definition AddExternalFilesForDump : Adapter := before "process.AddExternalFilesForDump" add_external_files.

Definition add_external_mounts (o : Opts St) (a : App) : option (gores (Opts St) * App) :=
  c ← Criu a;
  Some (Ok o, set_Criu (Some (with_ext_mounts (add_external ["mnt[]:ms"] c))) a).
Definition AddExternalMountsForDump : Adapter := before_opt "process.AddExternalMountsForDump" add_external_mounts.

(** ** network

    [SOCK_STREAM] and [AF_UNIX] are both 1.  The second walk asks for a field
    that is not a slice, so that its callback is never called. *)
Definition SOCK_STREAM : Z := 1.
Definition AF_UNIX : Z := 1.

Definition connection_flags (s : State) : bool * bool :=
  snd (WalkTree OpenConnections (λ c b,
    (true, (fst b || bool_decide (cType c = SOCK_STREAM), snd b || bool_decide (cType c = AF_UNIX)))) s
    (false, false)).

(** The values a walk over the field "PID" visits. *)
Definition pid_values (s : State) : list Z := [].

Definition active_tcp (s : State) : bool :=
  snd (WalkTree pid_values (λ pid _, let b := HasActiveTCPConnections env pid in (negb b, b)) s false).

Definition detect_network (o : Opts St) (a : App) : gores (Opts St) * App :=
  let '(tcp, unix) :=
    match RState a with
    | Some s => let '(tcp, unix) := connection_flags s in (tcp || active_tcp s, unix)
    | None => (false, false)
    end in
  (Ok o, set_Criu (Some (with_network tcp unix (default empty_opts (Criu a)))) a).
Definition DetectNetworkOptionsForDump : Adapter := before "network.DetectNetworkOptionsForDump" detect_network.

(** ** gpu *)

Definition sync_failed (e : error) : error := Status Internal ("failed to sync GPU manager: " +:+ Error e).
Definition no_gpu_plugin : error :=
  Status FailedPrecondition "Please install the GPU plugin to dump with GPU support".

Definition gpu_mounts (o : Opts St) (a : App) : option (gores (Opts St) * App) :=
  match RState a with
  | None => Some (Err missing_state, a)
  | Some s =>
      c ← Criu a;
      _ ← oCRIU o;
      Some (Ok o, Include "gpu external mounts" (set_Criu (Some (add_external (gpuExternalMountKeys s) c)) a))
  end.
Definition gpu_AddExternalMountsForDump : Adapter := before_opt "gpu.AddExternalMountsForDump" gpu_mounts.

(** The next handler gets another adapter when the process has a GPU. *)
Definition gpu_Dump : Adapter := λ next, mkHandler "gpu.Dump" (λ ctx o w,
  let a := app w in
  match RState a with
  | None => Some (Err missing_state, w)
  | Some s =>
      match gpuSync env with
      | Some e => Some (Err (sync_failed e), w)
      | None =>
          if gpuAttached env (PID s) then
            if gpuInstalled env then
              let a1 := Include "gpu" (set_RState (Some (with_GPU (gpuID env (PID s)) s)) a) in
              if oCRIU o is Some _ then run (With profiling next [gpu_AddExternalMountsForDump]) ctx o (set_app a1 w)
              else None
            else Some (Err no_gpu_plugin, w)
          else run next ctx o w
      end
  end).

(** [gpu.Freeze] and [gpu.Unfreeze], which differ in the call and its error. *)
Definition gpu_freezing (freeze : bool) (o : Opts St) (a : App) : gores (Opts St) * App :=
  match RState a with
  | None => (Err missing_state, a)
  | Some s =>
      match gpuSync env with
      | Some e => (Err (sync_failed e), a)
      | None =>
          if gpuAttached env (PID s) then
            if gpuInstalled env then
              let a1 := set_RState (Some (with_GPU (gpuID env (PID s)) s)) a in
              match (if freeze then gpuFreezeErr env else gpuUnfreezeErr env) with
              | Some e =>
                  (Err (Status Internal ("failed to " +:+ (if freeze then "freeze" else "unfreeze") +:+
                                           " GPU state: " +:+ Error e)), a1)
              | None => (Ok o, set_frozen freeze a1)
              end
            else (Err no_gpu_plugin, a)
          else (Ok o, a)
      end
  end.
Definition gpu_Freeze : Adapter := before "gpu.Freeze" (gpu_freezing true).
Definition gpu_Unfreeze : Adapter := before "gpu.Unfreeze" (gpu_freezing false).

(** ** criu *)

Definition CRIU_MIN_VERSION : Z := 30000.

(** The path of the binary, by configuration, plugin or [PATH]. *)
Definition criu_path : option string :=
  if decide (cfgBinaryPath env = "") then
    match criuPlugin env with
    | Some p => Some p
    | None => match lookPath env with Ok p => Some p | Err _ => None end
    end
  else Some (cfgBinaryPath env).

(** The first error of the health check. *)
Fixpoint first_error (results : list (list string)) : option string :=
  match results with
  | [] => None
  | (e :: _) :: _ => Some e
  | [] :: l => first_error l
  end.

Definition criu_new (o : Opts St) (a : App) : gores (Opts St) * App :=
  match criu_path with
  | None => (Err (Status FailedPrecondition
               "Please install CRIU plugin, or specify path in config or env var."), a)
  | Some path =>
      match first_error (CheckFeatures env) with
      | Some e => (Err (Status Unavailable ("CRIU is not functional: " +:+ e)), a)
      | None => (Ok (mkOpts (Some path) (oStorage o) (oServerless o)), a)
      end
  end.
Definition criu_New : Adapter := before "criu.New" criu_new.

Definition CheckOpts (c : COpts) : option error :=
  match criuVersion env with
  | Err e => Some (Errorf ("failed to get CRIU version: " +:+ Error e))
  | Ok v =>
      if decide (v < CRIU_MIN_VERSION)%Z then
        Some (Errorf ("CRIU version " +:+ itoaZ v +:+ " is not supported. Minimum supported is " +:+
                      itoaZ CRIU_MIN_VERSION))
      else if decide (LsmProfile c ≠ None ∧ (v < 31600)%Z) then
        Some (Errorf ("CRIU version " +:+ itoaZ v +:+ " does not support LSM profile"))
      else if decide (LsmMountContext c ≠ None ∧ (v < 31600)%Z) then
        Some (Errorf ("CRIU version " +:+ itoaZ v +:+ " does not support LSM mount context"))
      else None
  end.

Definition check_opts (o : Opts St) (a : App) : option (gores (Opts St) * App) :=
  c ← Criu a;
  Some match CheckOpts c with
       | Some e => (Err (Status FailedPrecondition ("CRIU compatibility check failed: " +:+ Error e)), a)
       | None => (Ok o, a)
       end.
Definition CheckOptsForDump : Adapter := before_opt "criu.CheckOptsForDump" check_opts.

(** The handler [criu.Dump].  The options of the log are left out, and so is
    the second change of ownership, whose error is ignored. *)
Definition criu_Dump : Handler := mkHandler "criu.Dump" (λ _ _ w,
  let a := app w in
  match Criu a with
  | None => Some (Err (Status InvalidArgument "criu options is nil"), w)
  | Some c =>
      match criuVersion env with
      | Err e => Some (Err (Status Internal ("failed to get CRIU version: " +:+ Error e)), w)
      | Ok _ =>
          s ← RState a;
          let c := with_pid (int32 (PID s)) c in
          let w := set_app (set_Criu (Some c) a) w in
          match UIDs s, GIDs s with
          | uid :: _, gid :: _ =>
              match ChownAll env (ImagesDir c) uid gid with
              | Some e => Some (Err (Status Internal ("failed to change ownership of dump directory: " +:+ Error e)), w)
              | None =>
                  let w := set_app (called c (app w)) w in
                  match criuDump env c with
                  | Some e => Some (Err (Status Internal ("failed CRIU dump: " +:+ Error e)), w)
                  | None => Some (Ok (), w)
                  end
              end
          | _, _ => Some (Err (Status Internal "missing UIDs/GIDs in process state"), w)
          end
      end
  end).

(** ** job: the adapter of managed dumps *)

(** [proto.Merge]: the fields that are set in the request override. *)
Definition Merge (dst src : Details) : Details :=
  mkDetails (if decide (dJID src = "") then dJID dst else dJID src)
    (if decide (dProcessPID src = 0)%Z then dProcessPID dst else dProcessPID src).

Definition ManageDump : Adapter := λ next, mkHandler "job.ManageDump" (λ ctx o w,
  let a := app w in
  let jid := match RDetails a with Some d => dJID d | None => "" end in
  if decide (jid = "") then Some (Err (Status InvalidArgument "missing JID for managed dump"), w)
  else match jobGet env jid with
  | None => Some (Err (Status NotFound ("job " +:+ jid +:+ " not found")), w)
  | Some j =>
      if jRunning j then
        let name := if decide (RName a = "") then
                      "dump-" +:+ jType j +:+ "-" +:+ jid +:+ "-" +:+ nowName env else RName a in
        let d := match RDetails a with Some d => Merge (jDetails j) d | None => jDetails j end in
        match run next ctx o (set_app (set_job name (jType j) (Some d) (jState j) a) w) with
        | Some (Ok code, w') =>
            let a' := add_jobCalls [Sync (RState (app w')); AddCheckpoint jid (Paths (app w'))] (app w') in
            if default false (Criu a' ≫= LeaveRunning) then Some (Ok code, set_app a' w')
            else
              let a' := add_jobCalls [Wait jid] a' in
              Some (Ok code, set_app (add_messages (match jobDone env jid with Some e => [Error e] | None => [] end) a') w')
        | r => r
        end
      else Some (Err (Status FailedPrecondition ("job " +:+ jid +:+ " is not running (status: " +:+ jStatus j +:+ ")")), w)
  end).

(** ** The chains (dump.go, freeze.go, unfreeze.go) *)

(** What the loaded plugins export for a type of request. *)
Context (pluginMiddleware : string → gores Middleware) (pluginHandler : string → gores Handler).

(** The adapters of the dump file system for a storage: plain, and streaming. *)
Context (DumpFilesystem : St → Adapter) (StreamDumpFilesystem : Z → St → Adapter).

(** Adapters plugged in after an adapter, as [next.With(...)] in its body. *)
Definition pluginDumpMiddleware : Adapter := λ next, mkHandler "cedana.pluginDumpMiddleware" (λ ctx o w,
  if decide (RType (app w) = "process") then
    run (With profiling next [SetPIDForDump; DetectShellJobForDump]) ctx o w
  else match pluginMiddleware (RType (app w)) with
       | Err e => Some (Err (Status Unavailable (Error e)), w)
       | Ok m => run (With profiling next m) ctx o w
       end).

(** The part of a path before "://". *)
Fixpoint before_scheme (s : string) : string :=
  match s with
  | EmptyString => EmptyString
  | String x s' => if HasPrefix s "://" then EmptyString else String x (before_scheme s')
  end.

Definition choose_storage (dir : string) : gores St :=
  if Contains dir "://" then pluginStorage env ("storage/" +:+ before_scheme dir) else Ok (localStorage env).

Definition pluginDumpStorage : Adapter := λ next, mkHandler "cedana.pluginDumpStorage" (λ ctx o w,
  match choose_storage (Dir (app w)) with
  | Err e => Some (Err (Status Unavailable (Error e)), w)
  | Ok st =>
      let o := mkOpts (oCRIU o) (Some st) (oServerless o) in
      let streams := if decide (Streams (app w) = 0)%Z then cfgStreams env else Streams (app w) in
      if decide (streams = 1)%Z then
        Some (Err (Status InvalidArgument "A minimum of 2 streams are required for streaming. Specify 0 to disable streaming."), w)
      else if decide (1 < streams)%Z then run (With profiling next [StreamDumpFilesystem streams st]) ctx o w
      else run (With profiling next [DumpFilesystem st]) ctx o w
  end).

Definition pluginDumpHandler : Handler := mkHandler "cedana.pluginDumpHandler" (λ ctx o w,
  if decide (RType (app w) = "process") then run criu_Dump ctx o w
  else match pluginHandler (RType (app w)) with
       | Ok h => run h ctx o w
       | Err _ => run criu_Dump ctx o w
       end).

Definition dump_middleware : Middleware := [
  FillMissingDumpDefaults; ValidateDumpRequest;
  pluginDumpStorage; pluginDumpMiddleware;
  FillProcessStateForDump; DetectIOUringForDump; AddExternalFilesForDump; AddExternalMountsForDump;
  DetectNetworkOptionsForDump; gpu_Dump;
  SaveProcessStateForDump; CheckOptsForDump
].

(** [Server.Dump], which manages the dump of a job, and [Cedana.Dump]. *)
Definition dump_chain (managed : bool) : Handler :=
  let dump := With profiling pluginDumpHandler dump_middleware in
  let dump := if managed then With profiling dump [ManageDump] else dump in
  With profiling dump [criu_New].

Definition has_JID (a : App) : bool :=
  match RDetails a with Some d => negb (bool_decide (dJID d = "")) | None => false end.

Definition Dump (serverless : bool) (ctx : Ctx) (w : World App) : option (gores unit * World App) :=
  match run (dump_chain (negb serverless && has_JID (app w))) ctx (mkOpts None None serverless) w with
  | Some (Ok _, w') => Some (Ok (), set_app (add_messages ((λ p, "Dumped to " +:+ p) <$> Paths (app w')) (app w')) w')
  | r => r
  end.

Definition process_Freeze : Handler := mkHandler "process.freeze" (λ _ _ w,
  Some (Err (Status Unimplemented "process freeze not implemented"), w)).
Definition process_Unfreeze : Handler := mkHandler "process.unfreeze" (λ _ _ w,
  Some (Err (Errorf "unfreeze not implemented for processes"), w)).

Definition pluginFreezeHandler (builtin : Handler) : Handler := mkHandler "cedana.pluginFreezeHandler" (λ ctx o w,
  if decide (RType (app w) = "process") then run builtin ctx o w
  else match pluginHandler (RType (app w)) with
       | Err e => Some (Err (Status Unimplemented (Error e)), w)
       | Ok h => run h ctx o w
       end).

Definition freeze_chain (freeze managed : bool) : Handler :=
  let h := With profiling (pluginFreezeHandler (if freeze then process_Freeze else process_Unfreeze))
    [FillMissingFreezeDefaults; ValidateFreezeRequest; pluginDumpMiddleware; FillProcessStateForDump;
     if freeze then gpu_Freeze else gpu_Unfreeze] in
  if managed then With profiling h [ManageDump] else h.

(** [Server.Freeze] and [Server.Unfreeze]. *)
Definition Freeze (freeze : bool) (ctx : Ctx) (w : World App) : option (gores unit * World App) :=
  match run (freeze_chain freeze (has_JID (app w))) ctx (mkOpts (Some "criu") None false) w with
  | Some (Ok _, w') =>
      let a := app w' in
      let pid := match RState a with Some s => PID s | None => 0%Z end in
      Some (Ok (), set_app (add_messages
        [(if freeze then "Froze " else "Unfroze ") +:+ RType a +:+ " PID " +:+ itoaZ pid] a) w')
  | r => r
  end.

Definition Unfreeze (ctx : Ctx) (w : World App) : option (gores unit * World App) := Freeze false ctx w.

End dump.
End Pipeline.
