(* ===== verification/DumpSpec.v ===== *)
(** * What a dump request does

    Theorems about the chains of [Pipeline], with the weakest preconditions of
    [Adapters].  The adapters of the dump file system enter through the
    interface [DumpFs]: they fail, or call the next handler once with the
    images directory and the paths filled in. *)

From Stdlib Require Import Ascii.
From S2P Require Import Prelude GoLib Profiling Types Adapters ProcessTree Pipeline.
Import GoLib Profiling Types Adapters ProcessTree Pipeline.

Module DumpSpec.

#[local] Arguments String.append : simpl never.

(** What the chain relies on of an adapter of the dump file system. *)
Class DumpFs {St} (A : Adapter (Opts St) App unit) : Prop :=
  dump_fs next ctx o w :
    (∃ e w', run (A next) ctx o w = Some (Err e, w') ∧ app w' = app w) ∨
    ∃ dir paths cbs w1, app w1 = opened dir paths cbs (app w) ∧
      ∀ r w2, run next ctx o w1 = Some (r, w2) →
        ∃ r' w3, run (A next) ctx o w = Some (r', w3) ∧ app w3 = app w2 ∧ (r' = Ok () → r = Ok ()).

Lemma wp_dump_fs {St} (A : Adapter (Opts St) App unit) `{!DumpFs A} next o a (Post : gores unit → App → Prop) :
  (∀ e, Post (Err e) a) →
  (∀ dir paths cbs, wp next o (opened dir paths cbs a)
     (λ r a', (r = Ok () → Post (Ok ()) a') ∧ ∀ e, Post (Err e) a')) →
  wp (A next) o a Post.
Proof.
  intros He Hok ctx w Hw. destruct (dump_fs next ctx o w) as [(e & w' & -> & Ha)|H].
  - eexists _, _. split; [done|]. rewrite Ha Hw. apply He.
  - destruct H as (dir & paths & cbs & w1 & Hw1 & H). rewrite Hw in Hw1.
    destruct (Hok dir paths cbs ctx w1 Hw1) as (r & w2 & Hr & H1 & H2).
    destruct (H r w2 Hr) as (r' & w3 & -> & Ha & Hr'). eexists _, _. split; [done|]. rewrite Ha.
    destruct r' as [[]|e]; [by apply H1, Hr'|apply H2].
Qed.

(** ** Facts about the adapters *)

(** Whether some process of the tree has a connection of type 1. *)
Definition has_type_1 (s : State) : bool :=
  existsb (λ c, bool_decide (cType c = 1%Z)) (preorder OpenConnections s).

Lemma connection_flags_eq s : connection_flags s = (has_type_1 s, has_type_1 s).
Proof.
  rewrite /connection_flags /has_type_1.
  rewrite (WalkTree_fold _ (λ c b, (fst b || bool_decide (cType c = SOCK_STREAM),
    snd b || bool_decide (cType c = AF_UNIX)))) /=.
  assert (∀ l b, foldl (λ b c, (fst b || bool_decide (cType c = SOCK_STREAM),
    snd b || bool_decide (cType c = AF_UNIX))) (b, b) l =
    (b || existsb (λ c, bool_decide (cType c = 1%Z)) l, b || existsb (λ c, bool_decide (cType c = 1%Z)) l)) as H;
    [|by rewrite H].
  induction l as [|c l IH]; intros b; simpl; [by rewrite orb_false_r|]. by rewrite IH orb_assoc.
Qed.

Lemma preorder_nil {T} t : preorder (λ _ : State, @nil T) t = [].
Proof.
  induction t as [t IH] using State_ind'. destruct t. simpl in IH |- *.
  induction IH as [|c l Hc _ IHl]; [done|]. by rewrite /= Hc.
Qed.

Lemma active_tcp_false {St} (env : Env St) s : active_tcp env s = false.
Proof. by rewrite /active_tcp WalkTree_preorder preorder_nil. Qed.

Lemma uses_io_uring_spec s :
  uses_io_uring s = existsb (λ f, Contains (Path f) "io_uring") (preorder OpenFiles s).
Proof.
  rewrite /uses_io_uring WalkTree_preorder.
  induction (preorder OpenFiles s) as [|f l IH]; [done|]. simpl.
  by destruct (Contains (Path f) "io_uring").
Qed.

(** ** The dump of a process *)

Section process.
Context {St : Type} (env : Env St) (profiling : bool).
Context (pluginMiddleware : string → gores (Middleware (Opts St) App unit)).
Context (pluginHandler : string → gores (Handler (Opts St) App unit)).
Context (DumpFilesystem : St → Adapter (Opts St) App unit).
Context (StreamDumpFilesystem : Z → St → Adapter (Opts St) App unit).
Context {fs_ok : ∀ st, DumpFs (DumpFilesystem st)} {stream_ok : ∀ n st, DumpFs (StreamDumpFilesystem n st)}.

(** The state a dump starts from, its PID and its session. *)
Definition start_state (a : App) : State := default empty_State (RState a).
Definition dump_pid (a : App) : Z :=
  if decide (PID (start_state a) = 0)%Z then
    match RDetails a with Some d => dProcessPID d | None => 0%Z end
  else PID (start_state a).

(** The options CRIU gets for a process whose state was read as [s]. *)
Definition criu_opts (a : App) (s : State) (dir : string) : COpts :=
  let c := default empty_opts (Criu a) in
  mkCOpts (Some (default false (LeaveRunning c) || cfgLeaveRunning env))
    (Some (default (cfgCgroupsMode env) (ManageCgroupsMode c)))
    (if ManageCgroupsMode c is Some _ then ManageCgroups c else Some true)
    (Some true) (Some true) (Some true)
    (Some (negb (bool_decide (SID (start_state a) = dump_pid a))))
    (External c ++ externalFileKeys s ++ ["mnt[]:ms"] ++
      (if gpuAttached env (PID s) then gpuExternalMountKeys s else []))
    (Some true)
    (Some (has_type_1 s || default false (TcpEstablished c)))
    (Some (has_type_1 s || default false (ExtUnixSk c)))
    (LsmProfile c) (LsmMountContext c) dir (int32 (PID s)).

(** The state the response has for [s] at the end. *)
Definition end_state (s : State) : State :=
  if gpuAttached env (PID s) then with_GPU (gpuID env (PID s)) s else s.

(** What the middleware leaves alone. *)
Definition frame (a : App) : list string * list job_call * bool := (Messages a, jobCalls a, gpuFrozen a).

(** Up to one call of CRIU, and exactly one if the dump succeeds. *)
Definition dumped (a0 : App) (r : gores unit) (a : App) : Prop :=
  frame a = frame a0 ∧
  ((r ≠ Ok () ∧ criuCalls a = []) ∨
  ∃ s dir, let c := criu_opts a0 s dir in
    dump_pid a0 ≠ 0%Z ∧
    FillProcessState env (dump_pid a0) (with_PID (dump_pid a0) (start_state a0)) = Ok s ∧
    uses_io_uring s = false ∧
    criuCalls a = [c] ∧ Criu a = Some c ∧ RState a = Some (end_state s) ∧
    (r = Ok () → criuDump env c = None)).

Lemma add_external_nil c : add_external [] c = c.
Proof. destruct c. by rewrite /add_external /= app_nil_r. Qed.

Lemma gpuExternalMountKeys_with_GPU id s : gpuExternalMountKeys (with_GPU id s) = gpuExternalMountKeys s.
Proof. by destruct s. Qed.

(** The end of the chain calls CRIU at most once, with the options it gets. *)
Definition handled fr (s : State) (c : COpts) (r : gores unit) (a : App) : Prop :=
  frame a = fr ∧
  ((r ≠ Ok () ∧ criuCalls a = []) ∨
   let c := with_pid (int32 (PID s)) c in
   criuCalls a = [c] ∧ Criu a = Some c ∧ RState a = Some s ∧ (r = Ok () → criuDump env c = None)).

Lemma wp_criu_Dump o a fr s c :
  frame a = fr → criuCalls a = [] → RState a = Some s → Criu a = Some c → wp (criu_Dump env) o a (handled fr s c).
Proof.
  intros Hfr Hcalls Hs Hc ctx w Hw. cbn [criu_Dump run]. rewrite Hw Hc.
  destruct (criuVersion env) as [v|e]; [|by eexists _, _; split; [done|rewrite Hw; split; [|left]]].
  rewrite Hs /=. destruct (UIDs s) as [|uid us], (GIDs s) as [|gid gs];
    [by eexists _, _; split; [|split; [|left]]..|].
  destruct (ChownAll env _ uid gid) as [e|]; [by eexists _, _; split; [|split; [|left]]|].
  destruct (criuDump env _) as [e|] eqn:Hd; eexists _, _; (split; [done|]);
    (split; [done|]); by right; rewrite /= Hcalls Hs.
Qed.

Lemma wp_dump_handler o a fr s c :
  frame a = fr → RType a = "process" → criuCalls a = [] → RState a = Some s → Criu a = Some c →
  wp (pluginDumpHandler env pluginHandler) o a (handled fr s c).
Proof.
  intros Hfr Ht Hcalls Hs Hc ctx w Hw. cbn [pluginDumpHandler run]. rewrite Hw Ht. case_decide; [|done].
  by apply (wp_criu_Dump o a fr s c).
Qed.

Lemma wp_tail o a fr s c :
  frame a = fr → RType a = "process" → criuCalls a = [] → RState a = Some s → Criu a = Some c →
  wp (With profiling (pluginDumpHandler env pluginHandler) [SaveProcessStateForDump; CheckOptsForDump env])
    o a (handled fr s c).
Proof.
  intros Hfr Ht Hcalls Hs Hc. apply wp_With_cons, wp_before. rewrite /save_state Hs.
  case_decide; [by split; [|left]|]. apply wp_With_cons, wp_before_opt. rewrite /check_opts Hc /=.
  destruct (CheckOpts env c); [by split; [|left]|]. by apply wp_With_nil, wp_dump_handler.
Qed.

(** From the GPU adapter on: a process with a GPU also gets its mounts. *)
Lemma wp_gpu o a fr s c :
  frame a = fr → RType a = "process" → criuCalls a = [] → oCRIU o ≠ None → RState a = Some s → Criu a = Some c →
  wp (With profiling (pluginDumpHandler env pluginHandler)
       [gpu_Dump env profiling; SaveProcessStateForDump; CheckOptsForDump env]) o a
     (handled fr (end_state s) (add_external (if gpuAttached env (PID s) then gpuExternalMountKeys s else []) c)).
Proof.
  intros Hfr Ht Hcalls Ho Hs Hc. apply wp_With_cons. intros ctx w Hw. cbn [gpu_Dump run]. rewrite Hw Hs.
  destruct (gpuSync env); [by eexists _, _; split; [done|rewrite Hw; split; [|left]]|]. rewrite /end_state.
  destruct (gpuAttached env (PID s)); cycle 1.
  { apply (wp_tail o a fr s); [done..|by rewrite add_external_nil|done]. }
  destruct (gpuInstalled env); [|by eexists _, _; split; [done|rewrite Hw; split; [|left]]].
  destruct (oCRIU o) eqn:HO; [|done].
  eapply wp_With_cons; [|reflexivity]. apply wp_before_opt. rewrite /gpu_mounts /= Hc HO /=.
  rewrite gpuExternalMountKeys_with_GPU. by apply wp_With_nil, wp_tail.
Qed.

Lemma COpts_ext c1 c2 :
  LeaveRunning c1 = LeaveRunning c2 → ManageCgroupsMode c1 = ManageCgroupsMode c2 →
  ManageCgroups c1 = ManageCgroups c2 → NotifyScripts c1 = NotifyScripts c2 →
  EvasiveDevices c1 = EvasiveDevices c2 → ExtMasters c1 = ExtMasters c2 → ShellJob c1 = ShellJob c2 →
  External c1 = External c2 → AutoExtMnt c1 = AutoExtMnt c2 → TcpEstablished c1 = TcpEstablished c2 →
  ExtUnixSk c1 = ExtUnixSk c2 → LsmProfile c1 = LsmProfile c2 → LsmMountContext c1 = LsmMountContext c2 →
  ImagesDir c1 = ImagesDir c2 → coPid c1 = coPid c2 → c1 = c2.
Proof. destruct c1, c2. simpl. intros. subst. reflexivity. Qed.

(** The options the adapters set one after the other. *)
Lemma criu_opts_eq a s dir :
  with_pid (int32 (PID (end_state s)))
    (add_external (if gpuAttached env (PID s) then gpuExternalMountKeys s else [])
      (with_network (has_type_1 s) (has_type_1 s)
        (with_ext_mounts (add_external ["mnt[]:ms"] (add_external (externalFileKeys s)
          (with_shell_job (negb (bool_decide (SID (start_state a) = dump_pid a)))
            (with_images dir (with_defaults (cfgLeaveRunning env) (cfgCgroupsMode env)
              (default empty_opts (Criu a)))))))))) = criu_opts a s dir.
Proof.
  apply COpts_ext; try reflexivity.
  - cbn. case_bool_decide as Hl; [by rewrite Hl|]. by destruct (LeaveRunning _) as [[]|].
  - cbn. by destruct (ManageCgroupsMode _).
  - simpl. by rewrite -!app_assoc.
  - rewrite /end_state. by destruct (gpuAttached env (PID s)).
Qed.

(** After the process state has been read. *)
Lemma wp_after_fill o a a0 s dir :
  RType a = "process" → criuCalls a = [] → oCRIU o ≠ None →
  dump_pid a0 ≠ 0%Z →
  FillProcessState env (dump_pid a0) (with_PID (dump_pid a0) (start_state a0)) = Ok s →
  frame a = frame a0 → RState a = Some s →
  Criu a = Some (with_shell_job (negb (bool_decide (SID (start_state a0) = dump_pid a0)))
             (with_images dir (with_defaults (cfgLeaveRunning env) (cfgCgroupsMode env) (default empty_opts (Criu a0))))) →
  wp (With profiling (pluginDumpHandler env pluginHandler)
    [DetectIOUringForDump; AddExternalFilesForDump; AddExternalMountsForDump;
     DetectNetworkOptionsForDump env; gpu_Dump env profiling;
     SaveProcessStateForDump; CheckOptsForDump env]) o a (dumped a0).
Proof.
  intros Ht Hcalls Ho Hpid Hfill Hfr Hs Hc.
  apply wp_With_cons, wp_before. rewrite /detect_io_uring Hs.
  destruct (uses_io_uring s) eqn:Hio; [by split; [|left]|].
  apply wp_With_cons, wp_before. rewrite /add_external_files Hs Hc. destruct (oCRIU o) eqn:HO; [|done].
  apply wp_With_cons, wp_before_opt. rewrite /add_external_mounts /=.
  apply wp_With_cons, wp_before. rewrite /detect_network /= Hs connection_flags_eq active_tcp_false orb_false_r.
  eapply wp_mono; [|apply (wp_gpu _ _ (frame a0) s); [done|done|done|by rewrite HO|done|reflexivity]].
  intros r a' [Hf H]. split; [by rewrite Hf|]. destruct H as [?|(H1 & H2 & H3 & H4)]; [by left|].
  right. exists s, dir.
  cbv zeta. rewrite -criu_opts_eq. by split_and!.
Qed.

(** An error of the storage after the dump. *)
Lemma dumped_late a0 r a : dumped a0 r a → (r = Ok () → dumped a0 (Ok ()) a) ∧ ∀ e, dumped a0 (Err e) a.
Proof.
  intros [Hf H]. split; [by intros ->|]. intros e. split; [done|].
  destruct H as [[_ ?]|(s & dir & ? & ? & ? & ? & ? & ? & _)]; [by left|]. right. by exists s, dir.
Qed.

(** From the middleware of the type on. *)
Lemma wp_after_dump_storage o a a0 dir :
  RType a = "process" → criuCalls a = [] → oCRIU o ≠ None → frame a = frame a0 → RState a = RState a0 → RDetails a = RDetails a0 →
  Criu a = Some (with_images dir (with_defaults (cfgLeaveRunning env) (cfgCgroupsMode env) (default empty_opts (Criu a0)))) →
  wp (With profiling (pluginDumpHandler env pluginHandler)
    [pluginDumpMiddleware profiling pluginMiddleware; FillProcessStateForDump env;
     DetectIOUringForDump; AddExternalFilesForDump; AddExternalMountsForDump;
     DetectNetworkOptionsForDump env; gpu_Dump env profiling;
     SaveProcessStateForDump; CheckOptsForDump env]) o a (dumped a0).
Proof.
  intros Ht Hcalls Ho Hfr Hs Hd Hc. apply wp_With_cons. intros ctx w Hw. cbn [pluginDumpMiddleware run].
  rewrite Hw Ht. case_decide; [|done]. eapply wp_With_cons; [|exact Hw]. apply wp_before.
  rewrite /set_pid_for_dump Hs Hd -/(start_state a0).
  set (a1 := set_RState (Some (with_PID (dump_pid a0) (start_state a0))) a).
  assert (∀ a', a' = a1 → dump_pid a0 ≠ 0%Z →
    wp (With profiling (With profiling (pluginDumpHandler env pluginHandler)
      [FillProcessStateForDump env; DetectIOUringForDump; AddExternalFilesForDump; AddExternalMountsForDump;
       DetectNetworkOptionsForDump env; gpu_Dump env profiling; SaveProcessStateForDump; CheckOptsForDump env])
      [DetectShellJobForDump]) o a' (dumped a0)) as Hrest.
  { intros a' -> Hpid. apply wp_With_cons, wp_before. rewrite /detect_shell_job /= Hc /=.
    apply wp_With_nil, wp_With_cons, wp_before. rewrite /fill_state /=. case_decide; [by split; [|left]|].
    destruct (FillProcessState env _ _) as [s|e] eqn:Hf; [|by split; [|left]].
    eapply wp_after_fill; by rewrite ?Hs. }
  rewrite /dump_pid in Hrest |- *. case_decide as H0; [case_decide as H1; [by split; [|left]|]|]; apply Hrest; try done.
  - by rewrite /a1 /dump_pid decide_True.
  - rewrite /a1 /dump_pid decide_False //. by destruct (start_state a0).
Qed.

(** The whole middleware, for a request of type process. *)
Lemma wp_dump_middleware o a :
  RType a = "process" → criuCalls a = [] → oCRIU o ≠ None →
  wp (With profiling (pluginDumpHandler env pluginHandler)
       (dump_middleware env profiling pluginMiddleware DumpFilesystem StreamDumpFilesystem)) o a (dumped a).
Proof.
  intros Ht Hcalls Ho. apply wp_With_cons, wp_before. rewrite /fill_dump_defaults.
  set (c := with_defaults _ _ _). set (a1 := set_req _ _ _ a).
  apply wp_With_cons, wp_before. rewrite /validate_dump.
  do 3 (case_decide; [by split; [|left]|]). apply wp_With_cons. intros ctx w Hw. cbn [pluginDumpStorage run]. rewrite Hw.
  destruct (choose_storage env _) as [st|e]; [|by eexists _, _; split; [done|rewrite Hw; split; [|left]]].
  set (o1 := mkOpts _ _ _).
  assert (∀ A, DumpFs A → wp (With profiling (With profiling (pluginDumpHandler env pluginHandler)
    [pluginDumpMiddleware profiling pluginMiddleware; FillProcessStateForDump env;
     DetectIOUringForDump; AddExternalFilesForDump; AddExternalMountsForDump;
     DetectNetworkOptionsForDump env; gpu_Dump env profiling;
     SaveProcessStateForDump; CheckOptsForDump env]) [A]) o1 a1 (dumped a)) as Hfs.
  { intros A HA. apply wp_With_cons, wp_dump_fs; [done|by split; [|left]|]. intros dir paths cbs.
    eapply wp_mono; [apply dumped_late|]. by eapply wp_With_nil, wp_after_dump_storage. }
  set (streams := if decide (Streams a1 = 0%Z) then _ else _). clearbody streams.
  case_decide; [by eexists _, _; split; [done|rewrite Hw; split; [|left]]|].
  case_decide; by apply Hfs.
Qed.

(** Without a CRIU that works, the chain ends at once. *)
Lemma wp_dump_criu_New next o a Post :
  (∀ e, Post (Err e) a) → (∀ p, wp next (mkOpts (Some p) (oStorage o) (oServerless o)) a Post) →
  wp (criu_New env next) o a Post.
Proof.
  intros He Hok. apply wp_before. rewrite /criu_new. destruct (criu_path env) as [p|]; [|apply He].
  destruct (first_error (CheckFeatures env)); [apply He|apply Hok].
Qed.

(** The chain of a dump that is not managed. *)
Lemma wp_dump_chain o a :
  RType a = "process" → criuCalls a = [] →
  wp (dump_chain env profiling pluginMiddleware pluginHandler DumpFilesystem StreamDumpFilesystem false) o a
    (dumped a).
Proof.
  intros Ht Hc. rewrite /dump_chain. apply wp_With_cons, wp_dump_criu_New.
  - intros e. split; [done|]. by left.
  - intros p. by apply wp_With_nil, wp_dump_middleware.
Qed.

(** The call of CRIU behind a dump, not of a job, that succeeded. *)
Lemma dump_call ctx w w' d serverless :
  RType (app w) = "process" → RDetails (app w) = Some d → dJID d = "" ∨ serverless = true →
  RState (app w) = None → criuCalls (app w) = [] →
  Dump env profiling pluginMiddleware pluginHandler DumpFilesystem StreamDumpFilesystem serverless ctx w = Some (Ok (), w') →
  ∃ s dir, criuCalls (app w') = [criu_opts (app w) s dir] ∧ RState (app w') = Some (end_state s) ∧
    ShellJob (criu_opts (app w) s dir) = Some true.
Proof.
  intros Ht Hd Hj Hs Hc. rewrite /Dump.
  assert (negb serverless && has_JID (app w) = false) as ->.
  { rewrite /has_JID Hd. destruct Hj as [->| ->]; [|done]. by rewrite bool_decide_true // andb_false_r. }
  destruct (wp_dump_chain (mkOpts None None serverless) (app w) Ht Hc ctx w eq_refl) as (r & w1 & -> & Hf & H).
  destruct r as [[]|e]; [|done]. intros [= <-].
  destruct H as [[? _]|(s & dir & Hp & Hfill & Hio & Hcalls & _ & Hst & _)]; [done|].
  exists s, dir. split; [done|]. split; [done|].
  assert (start_state (app w) = empty_State) as Hss by by rewrite /start_state Hs.
  assert (dump_pid (app w) = dProcessPID d) as Hpid by by rewrite /dump_pid Hss Hd.
  rewrite Hpid in Hp. by rewrite /= Hss Hpid bool_decide_false.
Qed.


(** ** Dumps of jobs *)

(** The request and the response [ManageDump] fills in for a job. *)
Definition filled (d : Details) (j : Job) (a : App) : App :=
  let name := if decide (RName a = "") then
                "dump-" +:+ jType j +:+ "-" +:+ dJID d +:+ "-" +:+ nowName env else RName a in
  set_job name (jType j) (Some (Merge (jDetails j) d)) (jState j) a.

(** What the job manager is told after a dump that worked. *)
Definition job_update (jid : string) (a : App) : list job_call :=
  [Sync (RState a); AddCheckpoint jid (Paths a)] ++
  (if default false (Criu a ≫= LeaveRunning) then [] else [Wait jid]).

Definition job_messages (jid : string) (a : App) : list string :=
  if default false (Criu a ≫= LeaveRunning) then []
  else match jobDone env jid with Some e => [Error e] | None => [] end.

Lemma wp_ManageDump next o a d (Post : gores unit → App → Prop) :
  RDetails a = Some d → dJID d ≠ "" →
  match jobGet env (dJID d) with
  | None => Post (Err (Status NotFound ("job " +:+ dJID d +:+ " not found"))) a
  | Some j =>
      if jRunning j then
        wp next o (filled d j a) (λ r a',
          match r with
          | Ok _ => Post (Ok ()) (add_messages (job_messages (dJID d) a') (add_jobCalls (job_update (dJID d) a') a'))
          | Err e => Post (Err e) a'
          end)
      else ∀ e, Post (Err e) a
  end → wp (ManageDump env next) o a Post.
Proof.
  intros Hd Hjid H ctx w Hw. cbn [ManageDump run]. rewrite Hw Hd. case_decide; [done|].
  destruct (jobGet env (dJID d)) as [j|]; [|by eexists _, _; split; [done|rewrite Hw]].
  destruct (jRunning j); [|by eexists _, _; split; [done|rewrite Hw]].
  destruct (H ctx (set_app (filled d j a) w) eq_refl) as (r & w' & Hr & HP). rewrite /filled in Hr. rewrite Hr.
  destruct r as [[]|e]; [|by eauto]. rewrite /job_update /job_messages in HP. simpl.
  destruct (default false _); eexists _, _; (split; [done|]); simpl.
  - move: HP. by rewrite /add_messages /add_jobCalls /= app_nil_r.
  - move: HP. by rewrite /add_messages /add_jobCalls /= -app_assoc.
Qed.

(** C7: A dump of a job whose type is process.  [Dump] returns; if it fails the
    job manager is told nothing.  If it succeeds the job was running, CRIU was
    called once, with the PID and the session saved for the job, and the
    manager is told the new state of the process, then the checkpoint with the
    paths of the response, and then the request waits for the job to end unless
    the process is left running. *)
Theorem managed_dump_updates_job ctx w d j :
  RDetails (app w) = Some d → dJID d ≠ "" → jobGet env (dJID d) = Some j → jType j = "process" →
  criuCalls (app w) = [] → jobCalls (app w) = [] →
  ∃ r w', Dump env profiling pluginMiddleware pluginHandler DumpFilesystem StreamDumpFilesystem
            false ctx w = Some (r, w') ∧
    (r ≠ Ok () → jobCalls (app w') = []) ∧
    (r = Ok () → jRunning j = true ∧ ∃ s dir,
      let a := filled d j (app w) in
      let c := criu_opts a s dir in
      FillProcessState env (dump_pid a) (with_PID (dump_pid a) (start_state a)) = Ok s ∧
      criuCalls (app w') = [c] ∧ criuDump env c = None ∧
      jobCalls (app w') =
        [Sync (Some (end_state s)); AddCheckpoint (dJID d) (Paths (app w'))] ++
        (if default false (LeaveRunning (default empty_opts (Criu (app w)))) || cfgLeaveRunning env
         then [] else [Wait (dJID d)])).
Proof.
  intros Hd Hjid Hj Ht Hc Hjc. rewrite /Dump.
  assert (negb false && has_JID (app w) = true) as ->.
  { rewrite /has_JID Hd /=. by rewrite bool_decide_false. }
  set (Post := λ (r : gores unit) a',
    match r with
    | Err _ => jobCalls a' = []
    | Ok _ => jRunning j = true ∧ ∃ a1, dumped (filled d j (app w)) (Ok ()) a1 ∧
        a' = add_messages (job_messages (dJID d) a1) (add_jobCalls (job_update (dJID d) a1) a1)
    end).
  assert (wp (dump_chain env profiling pluginMiddleware pluginHandler DumpFilesystem StreamDumpFilesystem true)
            (mkOpts None None false) (app w) Post) as Hwp.
  { rewrite /dump_chain. apply wp_With_cons, wp_dump_criu_New; [done|]. intros p.
    apply wp_With_nil, wp_With_cons, (wp_ManageDump _ _ _ d); [done..|]. rewrite Hj.
    destruct (jRunning j) eqn:Hrun; [|done].
    eapply wp_mono; [|by apply wp_With_nil, wp_dump_middleware].
    intros r a1 Ha1. destruct r as [[]|e]; [split; [done|by exists a1]|].
    destruct Ha1 as [Hf _]. injection Hf as _ Hf _. by rewrite /= Hf. }
  destruct (Hwp ctx w eq_refl) as (r & w' & -> & HP).
  destruct r as [[]|e]; eexists _, _; (split; [done|]); (split; [done|]); [|done].
  intros _. destruct HP as [Hrun (a1 & [Hf [[? _]|(s & dir & _ & Hfill & _ & Hcalls & Hcriu & Hs & Hok)]] & Ha)]; [done|].
  split; [done|]. exists s, dir. injection Hf as _ Hf _. rewrite /set_app /= Ha /=. split_and!; [done|done|by apply Hok|].
  by rewrite /job_update Hf Hcriu Hs Hjc.
Qed.

(** ** Freezing *)

(** Freezing a process that is not a job, and has a GPU attached, always
    ends with an error, as freezing is not implemented for processes, but only
    after the GPU has been frozen, and nothing unfreezes it: its error does not
    leave the process as it was.  Without a GPU the process is left alone. *)
Theorem process_freeze_leaves_GPU_frozen ctx w d s :
  RType (app w) = "process" → RDetails (app w) = Some d → dJID d = "" → dProcessPID d ≠ 0%Z →
  RState (app w) = None → gpuFrozen (app w) = false →
  FillProcessState env (dProcessPID d) (with_PID (dProcessPID d) empty_State) = Ok s →
  gpuSync env = None → gpuInstalled env = true → gpuFreezeErr env = None →
  ∃ w', Freeze env profiling pluginMiddleware pluginHandler true ctx w =
          Some (Err (Status Unimplemented "process freeze not implemented"), w') ∧
        gpuFrozen (app w') = gpuAttached env (PID s).
Proof.
  intros Ht Hd Hj Hp Hs Hz Hfill Hsync Hinst Hfr. rewrite /Freeze /has_JID Hd bool_decide_true; [done|]. cbn [negb].
  set (Post := λ (r : gores unit) a, r = Err (Status Unimplemented "process freeze not implemented") ∧
    gpuFrozen a = gpuAttached env (PID s)).
  assert (wp (freeze_chain env profiling pluginMiddleware pluginHandler true false)
            (mkOpts (Some "criu") None false) (app w) Post) as Hwp.
  { apply wp_With_cons, wp_before, wp_With_cons, wp_before. rewrite /validate_freeze Hd Ht.
    case_decide; [done|]. case_decide; [done|].
    apply wp_With_cons. intros ctx' w1 Hw1. cbn [pluginDumpMiddleware run]. rewrite Hw1 Ht. case_decide; [|done].
    eapply wp_With_cons; [|exact Hw1]. apply wp_before. rewrite /set_pid_for_dump Hs Hd /=. case_decide; [done|].
    apply wp_With_cons, wp_before. rewrite /detect_shell_job /=.
    apply wp_With_nil, wp_With_cons, wp_before. rewrite /fill_state /=. case_decide; [done|]. rewrite Hfill.
    apply wp_With_cons, wp_before. rewrite /gpu_freezing /= Hsync Hinst Hfr.
    destruct (gpuAttached env (PID s)) eqn:Hat; apply wp_With_nil; intros ctx2 w2 Hw2;
      cbn [pluginFreezeHandler run]; rewrite Hw2 /= Ht; (destruct (decide _) as [_|Hn]; [|by destruct Hn]);
      (eexists _, _; split; [done|]); by rewrite Hw2 /Post /= ?Hz. }
  destruct (Hwp ctx w eq_refl) as (r & w' & -> & -> & Hg). eauto.
Qed.

(** What a handler in front of others does is what it does in a profiled chain. *)
Lemma run_With_one b (h : Handler (Opts St) App unit) A ctx o w r w' :
  run (With b h [A]) ctx o w = Some (r, w') →
  ∃ ctx1 w1 w1', app w1 = app w ∧ app w1' = app w' ∧ run (A (With b h [])) ctx1 o w1 = Some (r, w1').
Proof.
  rewrite /With. destruct b; [|by exists ctx, w, w'].
  rewrite adaptedWithProfiler_cons adaptedWithProfiler_nil. cbn [Timer run]. case_bool_decide; [by exists ctx, w, w'|].
  destruct (StartTimingComponent _ _ _) as [[c e] st]. set (f := run (A _) _ _ _).
  destruct f as [[r1 w1']|] eqn:Hf; [|done]. intros [= <- <-]. by exists c, (set_prof st w), w1'.
Qed.

(** Freezing and unfreezing a job goes through the adapter of managed dumps.
    So, when a plugin has frozen a job, the job gets a checkpoint with the paths
    of a response that has none, and the request waits for the job to end, which
    a frozen job does not do, unless it asks to leave the job running. *)
Theorem managed_freeze_waits_for_exit freeze ctx w w' d :
  RDetails (app w) = Some d → dJID d ≠ "" →
  Freeze env profiling pluginMiddleware pluginHandler freeze ctx w = Some (Ok (), w') →
  ∃ a, jobCalls (app w') = jobCalls a ++ job_update (dJID d) a ∧
       Paths (app w') = Paths a ∧ Criu (app w') = Criu a.
Proof.
  intros Hd Hj. rewrite /Freeze /has_JID Hd bool_decide_false; [done|]. cbn [negb].
  set (m := run _ _ _ _). destruct m as [[[[]|e] w1]|] eqn:Hm; [|done|done]. intros [= <-].
  apply run_With_one in Hm. destruct Hm as (ctx1 & w0 & w1' & Hw0 & Hw1 & Hm). cbn [ManageDump run] in Hm.
  rewrite Hw0 Hd in Hm. case_decide; [done|]. destruct (jobGet env (dJID d)) as [jb|]; [|done].
  destruct (jRunning jb); [|done]. set (m1 := run _ _ _ _) in Hm. destruct m1 as [[[[]|e] w2]|]; [|done|done].
  exists (app w2). rewrite /set_app /= -Hw1 /job_update.
  simpl in Hm. destruct (default false _); injection Hm as <-; by rewrite /= -?app_assoc.
Qed.
End process.

(** ** Witnesses *)

(** A file system that always works, and an operating system that finds the
    process in its own session with one file outside of its mounts. *)
Definition sample_fs (_ : unit) : Adapter (Opts unit) App unit :=
  before "fs" (λ o a, (Ok o, opened ("/dumps/" +:+ RName a) ["/dumps/" +:+ RName a] [] a)).

#[export] Instance sample_fs_ok st : DumpFs (sample_fs st).
Proof.
  intros next ctx o w. right. set (n := "/dumps/" +:+ RName (app w)).
  exists n, [n], [], (set_app (opened n [n] [] (app w)) w).
  split; [done|]. intros r w2 Hr. exists r, w2. split; [exact Hr|done].
Qed.

Definition sample_State (pid : Z) : State :=
  mkState pid pid [] [mkFile "/dev/pts/0" 0 29 7 34816 24 true] [] "" false [1000%Z] [1000%Z] [].

Definition sample_job : Job :=
  mkJob "process" (Some (with_PID 40 empty_State)) (mkDetails "job-1" 40) true "running".

Definition sample_os (job_id : string) (j : Job) : Env unit := {|
  cfgDir := "/dumps"; cfgLeaveRunning := false; cfgCgroupsMode := 2; cfgStreams := 0; nowName := "7";
  FillProcessState := λ pid _, Ok (sample_State pid); HasActiveTCPConnections := λ _, false;
  cfgBinaryPath := ""; criuPlugin := Some "/usr/local/bin/criu"; lookPath := Err (Errorf "not found");
  CheckFeatures := [[]; []]; criuVersion := Ok 40000%Z; ChownAll := λ _ _ _, None;
  criuDump := λ _, None; gpuSync := None; gpuAttached := λ pid, bool_decide (pid = 41%Z);
  gpuID := λ _, "gpu-1"; gpuInstalled := true; gpuFreezeErr := None; gpuUnfreezeErr := None;
  localStorage := (); pluginStorage := λ _, Err (Errorf "no storage");
  jobGet := λ jid, if decide (jid = job_id) then Some j else None;
  jobDone := λ _, None |}.
Definition sample_env : Env unit := sample_os "job-1" sample_job.

Definition sample_request (t jid : string) (pid : Z) : World App :=
  mkWorld ∅ 0 (mkApp "" "" t (Some (mkDetails jid pid)) 0 None None [] [] [] [] false []).

(** A plugin whose handler freezes. *)
Definition sample_handler : string → gores (Handler (Opts unit) App unit) :=
  λ _, Ok (mkHandler "freeze" (λ _ _ w, Some (Ok (), w))).
Definition sample_middleware : string → gores (Middleware (Opts unit) App unit) := λ _, Ok [SetPIDForDump].


Lemma managed_dump_updates_job_witness :
  ∃ w', Dump sample_env false sample_middleware sample_handler sample_fs (λ _, sample_fs) false None
          (sample_request "" "job-1" 0) = Some (Ok (), w') ∧ Wait "job-1" ∈ jobCalls (app w').
Proof.
  destruct (managed_dump_updates_job sample_env false sample_middleware sample_handler sample_fs (λ _, sample_fs)
    None (sample_request "" "job-1" 0) (mkDetails "job-1" 0) sample_job) as (r & w' & Hr & _ & H);
    [reflexivity|by_decide|reflexivity|reflexivity|reflexivity|reflexivity|].
  assert (r = Ok ()) as ->.
  { assert (fst <$> Some (r, w') = Some (Ok ())) as E; [by rewrite -Hr; vm_compute|by injection E]. }
  exists w'. split; [exact Hr|]. destruct (H eq_refl) as (_ & s & dir & _ & _ & _ & ->).
  right. right. left.
Defined.

Lemma process_freeze_leaves_GPU_frozen_witness :
  ∃ w', Freeze sample_env false sample_middleware sample_handler true None (sample_request "process" "" 41) =
          Some (Err (Status Unimplemented "process freeze not implemented"), w') ∧ gpuFrozen (app w') = true.
Proof.
  apply (process_freeze_leaves_GPU_frozen sample_env false sample_middleware sample_handler None
    (sample_request "process" "" 41) (mkDetails "" 41) (sample_State 41)); (reflexivity || by_decide).
Defined.

(** A container frozen by its plugin. *)
Definition container_job : Job :=
  mkJob "runc" (Some (with_PID 40 empty_State)) (mkDetails "job-2" 40) true "running".
Definition container_env : Env unit := sample_os "job-2" container_job.

Definition frozen_world : World App :=
  match Freeze container_env false sample_middleware sample_handler true None (sample_request "" "job-2" 0) with
  | Some (_, w) => w
  | None => sample_request "" "" 0
  end.

Lemma managed_freeze_waits_for_exit_witness :
  (∃ a, jobCalls (app frozen_world) = jobCalls a ++ job_update "job-2" a ∧
        Paths (app frozen_world) = Paths a ∧ Criu (app frozen_world) = Criu a) ∧
  jobCalls (app frozen_world) =
    [Sync (Some (sample_State 40)); AddCheckpoint "job-2" []; Wait "job-2"].
Proof.
  split; [|reflexivity].
  apply (managed_freeze_waits_for_exit container_env false sample_middleware sample_handler true None
    (sample_request "" "job-2" 0) frozen_world (mkDetails "job-2" 0)); [reflexivity|by_decide|reflexivity].
Defined.
End DumpSpec.
