(* ===== verification/RunChain.v ===== *)
(** * Running and managing processes (run.go, manage.go)

    [Server.Run], [Cedana.Run] and [Server.Manage] with the adapters they compose:
    job/run_adapters.go, process/run_adapters.go, gpu/run_adapters.go, the
    validation of the request, [SetupIO] of process/generic_adapters.go as far as
    the chain sees it, and the handlers of process/run_handlers.go.  Values put
    into the context only flow to the next handlers, as options do, and so they
    are kept with the options.  The jobs are a table of what the chain sets; the
    manager itself is [JobManager]. *)

From Stdlib Require Import Ascii.
From S2P Require Import Prelude GoLib Profiling Types Adapters Gpu.
Import GoLib Profiling Types Adapters.

Module RunChain.

#[local] Arguments String.append : simpl never.

(** ** Data *)

(** [daemon.Process]: the path of the program and the PID of an existing one. *)
Record Process := mkProcess { pPath : string; pArgs : list string; pPID : Z }.
(** [daemon.Details]: the JID, and the process if the details are of one. *)
Record Details := mkDetails { dJID : string; dProcess : option Process }.

Inductive RunAction := START_NEW | MANAGE_EXISTING | MANAGE_UPCOMING.
#[export] Instance RunAction_eq_dec : EqDecision RunAction.
Proof. solve_decision. Defined.

Record RunReq := mkRunReq {
  JID : string;
  RType : string;
  RDetails : option Details;
  Log : string;
  Attachable : bool;
  PidFile : string;
  GPUEnabled : bool;
  GPUTracing : bool;
  rGPUID : string;
  Env : list string;
  Action : RunAction;
}.

Definition set_JID (jid : string) (r : RunReq) : RunReq :=
  mkRunReq jid (RType r) (RDetails r) (Log r) (Attachable r) (PidFile r) (GPUEnabled r) (GPUTracing r)
    (rGPUID r) (Env r) (Action r).
Definition set_Log (l : string) (r : RunReq) : RunReq :=
  mkRunReq (JID r) (RType r) (RDetails r) l (Attachable r) (PidFile r) (GPUEnabled r) (GPUTracing r)
    (rGPUID r) (Env r) (Action r).
Definition add_Env (l : list string) (r : RunReq) : RunReq :=
  mkRunReq (JID r) (RType r) (RDetails r) (Log r) (Attachable r) (PidFile r) (GPUEnabled r) (GPUTracing r)
    (rGPUID r) (Env r ++ l) (Action r).

(** A job as far as the chain sets it: [jPID] is 0 until it is managed. *)
Record Job := mkJob { jType : string; jLog : string; jDetails : option Details; jPID : Z }.

(** The standard streams of a process. *)
Inductive Stdio := StdNone | StdOwn | StdSlave (id : Z) | StdLog (path : string).

(** Request, response and everything outside that the chain changes: the jobs,
    the processes started with their environment and streams, the PID files,
    what GPU attachments were told, the symbolic links, and whether the
    lifetime made for the process was cancelled. *)
Record App := mkApp {
  req : RunReq;
  PID : Z;
  Messages : list string;
  jobs : gmap string Job;
  started : list (string * list string * Stdio);
  pidFiles : list (string * Z);
  gpuTold : list (string * option Z);
  links : gset string;
  cancelled : bool;
}.

Definition set_req (r : RunReq) (a : App) : App :=
  mkApp r (PID a) (Messages a) (jobs a) (started a) (pidFiles a) (gpuTold a) (links a) (cancelled a).
Definition set_PID (pid : Z) (a : App) : App :=
  mkApp (req a) pid (Messages a) (jobs a) (started a) (pidFiles a) (gpuTold a) (links a) (cancelled a).
Definition add_Messages (l : list string) (a : App) : App :=
  mkApp (req a) (PID a) (Messages a ++ l) (jobs a) (started a) (pidFiles a) (gpuTold a) (links a) (cancelled a).
Definition set_jobs (t : gmap string Job) (a : App) : App :=
  mkApp (req a) (PID a) (Messages a) t (started a) (pidFiles a) (gpuTold a) (links a) (cancelled a).
Definition add_started (p : string * list string * Stdio) (a : App) : App :=
  mkApp (req a) (PID a) (Messages a) (jobs a) (started a ++ [p]) (pidFiles a) (gpuTold a) (links a) (cancelled a).
Definition add_pidFile (p : string * Z) (a : App) : App :=
  mkApp (req a) (PID a) (Messages a) (jobs a) (started a) (pidFiles a ++ [p]) (gpuTold a) (links a) (cancelled a).
Definition tell_gpu (p : string * option Z) (a : App) : App :=
  mkApp (req a) (PID a) (Messages a) (jobs a) (started a) (pidFiles a) (gpuTold a ++ [p]) (links a) (cancelled a).
Definition add_link (l : string) (a : App) : App :=
  mkApp (req a) (PID a) (Messages a) (jobs a) (started a) (pidFiles a) (gpuTold a) ({[l]} ∪ links a) (cancelled a).
Definition cancel (a : App) : App :=
  mkApp (req a) (PID a) (Messages a) (jobs a) (started a) (pidFiles a) (gpuTold a) (links a) true.

(** [types.Opts] and the values of the context. *)
Record Opts := mkOpts {
  Serverless : bool;
  oIO : Stdio;
  GPU_ID : option string;
  GPU_LOG_DIR : option string;
}.
Definition with_IO (io : Stdio) (o : Opts) : Opts := mkOpts (Serverless o) io (GPU_ID o) (GPU_LOG_DIR o).
Definition with_GPU_ID (id : string) (o : Opts) : Opts := mkOpts (Serverless o) (oIO o) (Some id) (GPU_LOG_DIR o).
Definition with_LOG_DIR (d : string) (o : Opts) : Opts := mkOpts (Serverless o) (oIO o) (GPU_ID o) (Some d).

(** What is outside: names and identifiers that are drawn, the plugins, the GPU
    manager and the operating system. *)
Record OS := mkOS {
  GetName : string;
  slaveID : Z;
  newUUID : string;
  gpuLib : option (list string);                  (** the libraries of gpu, if installed *)
  tracerLib : option (list string);               (** the libraries of gpu/tracer, if installed *)
  gpuSync : option error;
  gpuAttach : gores string;
  EnsureLogDir : string → gores string;
  openLog : string → option error;
  chownLog : string → option error;
  createFile : string → option error;             (** creating a PID file *)
  nil_write : error;                              (** [os.ErrInvalid], of a nil file *)
  Start : string → list string → Stdio → gores Z;
  PidExists : Z → bool;
}.

Section chain.
Context (os : OS) (profiling : bool).

Abbreviation Handler := (Handler Opts App unit).
Abbreviation Adapter := (Adapter Opts App unit).
Abbreviation Middleware := (Middleware Opts App unit).

(** ** job *)

Definition jobs_New (jid t : string) (table : gmap string Job) : gores (gmap string Job) :=
  if decide (jid = "") then Err (Errorf "missing JID")
  else if table !! jid is Some _ then Err (Errorf ("job " +:+ jid +:+ " already exists"))
  else Ok (<[jid := mkJob t "" None 0]> table).

(** [SetDetails] sets the JID of a copy of the details; nil has no copy. *)
Definition SetDetails (jid : string) (d : Details) : Job → Job := λ j,
  mkJob (jType j) (jLog j) (Some (mkDetails jid (dProcess d))) (jPID j).
Definition SetLog (l : string) : Job → Job := λ j, mkJob (jType j) l (jDetails j) (jPID j).
Definition SetPID (pid : Z) : Job → Job := λ j, mkJob (jType j) (jLog j) (jDetails j) pid.

(** The job that [Find] returns for a PID. *)
Definition jobs_Find (pid : Z) (table : gmap string Job) : option string :=
  head (omap (λ kv, if decide (jPID kv.2 = pid) then Some kv.1 else None) (map_to_list table)).

Definition jobs_Manage (jid : string) (pid : Z) (table : gmap string Job) : gores (gmap string Job) :=
  if table !! jid is None then Err (Errorf ("job " +:+ jid +:+ " does not exist. was it initialized?"))
  else if decide (pid = 0)%Z then Err (Errorf ("invalid PID 0 for job " +:+ jid))
  else match jobs_Find pid table with
       | Some other =>
           if decide (other = jid) then Ok (alter (SetPID pid) jid table)
           else Err (Errorf ("PID " +:+ itoaZ pid +:+ " is already being managed under job " +:+ jid))
       | None => Ok (alter (SetPID pid) jid table)
       end.

Definition log_path (jid : string) : string := "/var/log/cedana-output-" +:+ jid +:+ ".log".

Definition manage_pre (o : Opts) (a : App) : option (gores (string * Opts) * App) :=
  let r := req a in
  let jid := if decide (JID r = "") then GetName os else JID r in
  let r := set_JID jid r in
  match jobs_New jid (RType r) (jobs a) with
  | Err e => Some (Err (Status Internal ("failed to create new job: " +:+ Error e)), set_req r a)
  | Ok table =>
      let r := if negb (Attachable r) && bool_decide (Log r = "") then set_Log (log_path jid) r else r in
      d ← RDetails r;
      Some (Ok (jid, o), set_jobs (alter (SetDetails jid d ∘ SetLog (Log r)) jid table) (set_req r a))
  end.

Definition manage_post (jid : string) (res : gores unit) (a : App) : option (gores unit * App) :=
  match res with
  | Err e => Some (Err e, set_jobs (delete jid (jobs a)) a)
  | Ok _ =>
      d ← RDetails (req a);
      let table := alter (SetDetails jid d) jid (jobs a) in
      Some match jobs_Manage jid (PID a) table with
           | Ok table => (Ok (), set_jobs table a)
           | Err e =>
               let a := if decide (Action (req a) = START_NEW) then cancel a else a in
               (Err (Status Internal ("failed to manage job: " +:+ Error e)), set_jobs (delete jid table) a)
           end
  end.
Definition job_Manage : Adapter := around "job.Manage" manage_pre manage_post.

(** ** defaults, validation and process *)

Definition FillMissingRunDefaults : Adapter := before "defaults.FillMissingRunDefaults" (λ o a, (Ok o, a)).

Definition validate_run (o : Opts) (a : App) : gores Opts * App :=
  if decide (RType (req a) = "") then (Err (Status InvalidArgument "Type is required"), a)
  else if decide (RDetails (req a) = None) then (Err (Status InvalidArgument "Details are required"), a)
  else (Ok o, a).
Definition ValidateRunRequest : Adapter := before "validation.ValidateRunRequest" validate_run.

(** Writing to the file that could not be created fails, too. *)
Definition write_pid_file (_ : unit) (res : gores unit) (a : App) : option (gores unit * App) :=
  match res with
  | Err e => Some (Err e, a)
  | Ok _ =>
      let f := PidFile (req a) in
      if decide (f = "") then Some (Ok (), a)
      else match createFile os f with
           | Some e => Some (Ok (), add_Messages
               ["Failed to create PID file " +:+ f +:+ ": " +:+ Error e;
                "Failed to write PID to file " +:+ f +:+ ": " +:+ Error (nil_write os)] a)
           | None => Some (Ok (), add_pidFile (f, PID a) a)
           end
  end.
Definition WritePIDFile : Adapter :=
  around "process.WritePIDFile" (λ o a, Some (Ok ((), o), a)) write_pid_file.

Definition setup_io (o : Opts) (a : App) : gores Opts * App :=
  let r := req a in
  if Serverless o then (Ok (with_IO StdOwn o), a)
  else if Attachable r then (Ok (with_IO (StdSlave (slaveID os)) o), a)
  else if decide (Log r = "") then (Ok (with_IO StdNone o), a)
  else match openLog os (Log r), chownLog os (Log r) with
       | Some e, _ => (Err (Status Internal ("failed to open log file: " +:+ Error e)), a)
       | None, Some e => (Err (Status Internal ("failed to change log file owner: " +:+ Error e)), a)
       | None, None => (Ok (with_IO (StdLog (Log r)) o), a)
       end.
Definition SetupIO : Adapter := before "process.SetupIO" setup_io.

Definition process_of (r : RunReq) : option Process := d ← RDetails r; dProcess d.

Definition process_Run : Handler := mkHandler "process.Run" (λ _ o w,
  let a := app w in
  match process_of (req a) with
  | None => Some (Err (Status InvalidArgument "missing process run options"), w)
  | Some p =>
      if decide (pPath p = "") then Some (Err (Status InvalidArgument "missing path"), w)
      else match Start os (pPath p) (Env (req a)) (oIO o) with
           | Err e => Some (Err (Status Internal ("failed to start process: " +:+ Error e)), w)
           | Ok pid => Some (Ok (), set_app (set_PID pid (add_started (pPath p, Env (req a), oIO o) a)) w)
           end
  end).

Definition process_Manage : Handler := mkHandler "process.Manage" (λ _ o w,
  let a := app w in
  match process_of (req a) with
  | None => Some (Err (Status InvalidArgument "missing process run options"), w)
  | Some p =>
      if decide (pPID p = 0)%Z then Some (Err (Status InvalidArgument "missing PID"), w)
      else match Action (req a) with
           | MANAGE_UPCOMING =>
               Some (Err (Status InvalidArgument "manage upcoming is not supported for linux processes"), w)
           | MANAGE_EXISTING =>
               if PidExists os (pPID p) then Some (Ok (), set_app (set_PID (pPID p) a) w)
               else Some (Err (Status NotFound ("process with PID " +:+ itoaZ (pPID p) +:+ " does not exist")), w)
           | START_NEW => Some (Ok (), set_app (set_PID (pPID p) a) w)
           end
  end).

(** ** gpu *)

(** The attachment made for the request, which learns the PID or is told that
    there is none when its channel is closed. *)
Definition attach_pre (o : Opts) (a : App) : option (gores (option string * Opts) * App) :=
  let r := req a in
  Some (if GPUEnabled r then
    match gpuLib os with
    | None => (Err (Status FailedPrecondition "Please install the GPU plugin to enable GPU support"), a)
    | Some _ =>
        match gpuSync os with
        | Some e => (Err (Status Internal ("failed to sync GPU manager: " +:+ Error e)), a)
        | None =>
            if decide (rGPUID r = "") then
              match gpuAttach os with
              | Err e => (Err (Status Internal ("failed to attach GPU: " +:+ Error e)), a)
              | Ok id => (Ok (Some id, with_GPU_ID id o), a)
              end
            else (Ok (None, with_GPU_ID (rGPUID r) o), a)
        end
    end
  else (Ok (None, o), a)).

Definition attach_post (id : option string) (res : gores unit) (a : App) : option (gores unit * App) :=
  Some match id with
       | None => (res, a)
       | Some id =>
           match res with
           | Ok _ => (Ok (), tell_gpu (id, Some (PID a)) a)
           | Err e => (Err e, tell_gpu (id, None) a)
           end
       end.
Definition gpu_Attach : Adapter := around "gpu.Attach" attach_pre attach_post.

Definition no_id : error := Status Internal "failed to get GPU ID from context".
Definition no_log_dir : error := Status Internal "failed to get GPU log dir from context".
Definition no_gpu : error := Status FailedPrecondition "Please install the GPU plugin for GPU C/R support".
Definition no_tracer : error :=
  Status FailedPrecondition "Please install the GPU/tracer plugin for GPU tracing support".

(** The environment for a library of the GPU. *)
Definition preload (id logDir lib : string) (env : list string) : list string :=
  ["CEDANA_GPU_ID=" +:+ id; "CEDANA_GPU_LOG_DIR=" +:+ logDir;
   "LD_PRELOAD=" +:+ lib +:+ ":" +:+ Gpu.Getenv (env ++ ["CEDANA_GPU_ID=" +:+ id; "CEDANA_GPU_LOG_DIR=" +:+ logDir]) "LD_PRELOAD"].

Definition process_interception (o : Opts) (a : App) : option (gores Opts * App) :=
  match GPU_ID o, GPU_LOG_DIR o with
  | None, _ => Some (Err no_id, a)
  | Some _, None => Some (Err no_log_dir, a)
  | Some id, Some logDir =>
      match gpuLib os with
      | None => Some (Err no_gpu, a)
      | Some libs =>
          lib ← head libs;
          let libSymlink := logDir +:+ "/libcuda.so.1" in
          if decide (libSymlink ∈ links a) then
            Some (Err (Status Internal ("failed to create symlink for GPU library: symlink " +:+ lib +:+ " " +:+
                                          libSymlink +:+ ": file exists")), a)
          else Some (Ok o, set_req (add_Env (preload id logDir libSymlink (Env (req a))) (req a)) (add_link libSymlink a))
      end
  end.
Definition ProcessInterception : Adapter := before_opt "gpu.ProcessInterception" process_interception.

Definition process_tracing (o : Opts) (a : App) : option (gores Opts * App) :=
  match GPU_ID o, GPU_LOG_DIR o with
  | None, _ => Some (Err no_id, a)
  | Some _, None => Some (Err no_log_dir, a)
  | Some id, Some logDir =>
      match tracerLib os with
      | None => Some (Err no_tracer, a)
      | Some libs =>
          lib ← head libs;
          Some (Ok o, set_req (add_Env (preload id logDir lib (Env (req a))) (req a)) a)
      end
  end.
Definition ProcessTracing : Adapter := before_opt "gpu.ProcessTracing" process_tracing.

(** What plugins export for a type. *)
Context (pluginMiddleware : string → gores Middleware) (pluginHandler : string → gores Handler).
Context (pluginLate : string → gores Middleware) (serverlessSupport : string → bool).
Context (pluginInterception pluginTracing : string → gores Adapter).

(** [Interception] and [Tracing] choose an identifier, make the log directory and
    insert the adapter of the type. *)
Definition with_log_dir (o : Opts) (id : string) (next : Handler) (inserted : gores Adapter) : gores (Opts * Handler) :=
  match EnsureLogDir os id with
  | Err e => Err (Status Internal ("failed to ensure GPU log dir: " +:+ Error e))
  | Ok dir =>
      match inserted with
      | Ok A => Ok (with_LOG_DIR dir (with_GPU_ID id o), With profiling next [A])
      | Err e => Err e
      end
  end.

Definition adapter_of (builtin : Adapter) (plugin : string → gores Adapter) (t : string) : gores Adapter :=
  if decide (t = "process") then Ok builtin
  else match plugin t with
       | Ok A => Ok A
       | Err e => Err (Status Unimplemented (Error e))
       end.

Definition Interception : Adapter := choosing "gpu.Interception" (λ next o a,
  let r := req a in
  let id := match GPU_ID o with Some id => Some id | None => if decide (rGPUID r = "") then None else Some (rGPUID r) end in
  match id with
  | None => Err no_id
  | Some id =>
      if gpuLib os is None then Err no_gpu
      else with_log_dir o id next (adapter_of ProcessInterception pluginInterception (RType r))
  end).

Definition Tracing : Adapter := choosing "gpu.Tracing" (λ next o a,
  let r := req a in
  let id := match GPU_ID o with Some id => id | None => if decide (rGPUID r = "") then newUUID os else rGPUID r end in
  if tracerLib os is None then Err no_tracer
  else with_log_dir o id next (adapter_of ProcessTracing pluginTracing (RType r))).

(** ** The chains *)

Definition pluginRunMiddleware : Adapter := choosing "cedana.pluginRunMiddleware" (λ next o a,
  if decide (RType (req a) = "process") then Ok (o, With profiling next [])
  else match pluginMiddleware (RType (req a)) with
       | Err e => Err (Status Unimplemented (Error e))
       | Ok m => Ok (o, With profiling next m)
       end).

Definition run_handler (serverless : bool) (t : string) : gores Handler :=
  if decide (t = "process") then Ok process_Run
  else if serverless && negb (serverlessSupport t) then
    Err (Errorf ("plugin '" +:+ t +:+ "' does not support serverless run"))
  else match pluginHandler t with
       | Err e => Err (Status Unimplemented (Error e))
       | Ok h => Ok match pluginLate t with Ok m => With profiling h m | Err _ => h end
       end.

Definition pluginRunHandler : Handler := mkHandler "cedana.pluginRunHandler" (λ ctx o w,
  let r := req (app w) in
  match run_handler (Serverless o) (RType r) with
  | Err e => Some (Err e, w)
  | Ok h =>
      let h := if GPUEnabled r then With profiling h [Interception] else h in
      let h := if GPUTracing r then With profiling h [Tracing] else h in
      run h ctx o w
  end).

Definition pluginManageHandler : Handler := mkHandler "cedana.pluginManageHandler" (λ ctx o w,
  let r := req (app w) in
  match (if decide (RType r = "process") then Ok process_Manage
         else match pluginHandler (RType r) with
              | Err e => Err (Status Unimplemented (Error e))
              | Ok h => Ok h
              end) with
  | Err e => Some (Err e, w)
  | Ok h =>
      let msg := "GPU interception/tracing for " +:+ RType r +:+ " must be manually enabled." +:+
        String (ascii_of_nat 10) ("You may use the `--no-server` run option with `--gpu-enabled` or `--gpu-tracing` to spawn " +:+
                                  RType r) in
      run h ctx o (if GPUEnabled r || GPUTracing r then set_app (add_Messages [msg] (app w)) w else w)
  end).

Definition run_middleware : Middleware :=
  [FillMissingRunDefaults; ValidateRunRequest; WritePIDFile; gpu_Attach; pluginRunMiddleware].

Definition run_chain (server : bool) : Handler :=
  With profiling pluginRunHandler ((if server then [job_Manage] else []) ++ run_middleware ++ [SetupIO]).

Definition manage_chain : Handler := With profiling pluginManageHandler (job_Manage :: run_middleware).

Definition finish (msg : App → string) (r : option (gores unit * World App)) : option (gores unit * World App) :=
  match r with
  | Some (Ok _, w) => Some (Ok (), set_app (add_Messages [msg (app w)] (app w)) w)
  | r => r
  end.

(** [Server.Run] and [Server.Manage]. *)
Definition Run (ctx : Ctx) (w : World App) : option (gores unit * World App) :=
  finish (λ a, "Running managed " +:+ RType (req a) +:+ " PID " +:+ itoaZ (PID a))
    (run (run_chain true) ctx (mkOpts false StdNone None None) w).
Definition Manage (ctx : Ctx) (w : World App) : option (gores unit * World App) :=
  finish (λ a, "Managing " +:+ RType (req a) +:+ " PID " +:+ itoaZ (PID a))
    (run manage_chain ctx (mkOpts false StdNone None None) w).
(** [Cedana.Run] *)
Definition Run_serverless (ctx : Ctx) (w : World App) : option (gores unit * World App) :=
  run (run_chain false) ctx (mkOpts true StdNone None None) w.
End chain.
End RunChain.
