(* ===== verification/RunSpec.v ===== *)
(** * What running a process does

    Theorems about the chains of [RunChain]: the job a run registers, what is left
    when it fails, the environment a process with a GPU starts with, and what
    happens to a process that was started and could not be managed. *)

From Stdlib Require Import Ascii.
From S2P Require Import Prelude GoLib Profiling Types Adapters Gpu RunChain.
Import GoLib Profiling Types Adapters RunChain.

Module RunSpec.

#[local] Arguments String.append : simpl nomatch.

(** ** Environments *)

Lemma CutPrefix_app p s : CutPrefix (p +:+ s) p = Some s.
Proof. by apply CutPrefix_Some. Qed.

Lemma Getenv_app env e key :
  Gpu.Getenv (env ++ [e]) key =
  match CutPrefix e (key +:+ "=") with Some v => v | None => Gpu.Getenv env key end.
Proof.
  rewrite /Gpu.Getenv reverse_snoc /=. by destruct (CutPrefix e (key +:+ "=")).
Qed.

(** Names of variables have no "=" in them. *)
Definition eq_sign : ascii := "="%char.

Lemma HasPrefix_other name key v :
  has_byte eq_sign name = false → has_byte eq_sign key = false → key ≠ name →
  HasPrefix (name +:+ "=" +:+ v) (key +:+ "=") = false.
Proof.
  rewrite /HasPrefix. revert key. induction name as [|x name IH]; intros [|y key] Hn Hk Hne; [done|..];
    cbn [has_byte] in Hn, Hk; cbn [String.append String.prefix].
  - apply orb_false_iff in Hk. destruct Hk as [Hy _]. destruct (ascii_dec y _) as [->|]; [|done].
    by rewrite bool_decide_true in Hy.
  - apply orb_false_iff in Hn. destruct Hn as [Hx _]. destruct (ascii_dec _ x) as [<-|]; [|done].
    by rewrite bool_decide_true in Hx.
  - apply orb_false_iff in Hk, Hn. destruct (ascii_dec y x) as [->|]; [|done].
    apply IH; [apply Hn|apply Hk|congruence].
Qed.

#[local] Arguments String.append : simpl never.

Lemma CutPrefix_var name key v :
  has_byte eq_sign name = false → has_byte eq_sign key = false →
  CutPrefix (name +:+ "=" +:+ v) (key +:+ "=") = if decide (key = name) then Some v else None.
Proof.
  intros Hn Hk. case_decide as Hd.
  - subst. rewrite -append_assoc. apply CutPrefix_app.
  - by rewrite /CutPrefix HasPrefix_other.
Qed.

Lemma Getenv_var env name v key :
  has_byte eq_sign name = false → has_byte eq_sign key = false →
  Gpu.Getenv (env ++ [name +:+ "=" +:+ v]) key = if decide (key = name) then v else Gpu.Getenv env key.
Proof. intros Hn Hk. rewrite Getenv_app CutPrefix_var //. by case_decide. Qed.

(** The value of a variable after the variables of a GPU library. *)
Lemma Getenv_preload id dir lib env key :
  has_byte eq_sign key = false →
  Gpu.Getenv (env ++ preload id dir lib env) key =
  if decide (key = "LD_PRELOAD") then lib +:+ ":" +:+ Gpu.Getenv env "LD_PRELOAD"
  else if decide (key = "CEDANA_GPU_LOG_DIR") then dir
  else if decide (key = "CEDANA_GPU_ID") then id
  else Gpu.Getenv env key.
Proof.
  intros Hk. rewrite /preload. set (e1 := "CEDANA_GPU_ID=" +:+ id). set (e2 := "CEDANA_GPU_LOG_DIR=" +:+ dir).
  assert (∀ k, has_byte eq_sign k = false → Gpu.Getenv (env ++ [e1; e2]) k =
    if decide (k = "CEDANA_GPU_LOG_DIR") then dir else if decide (k = "CEDANA_GPU_ID") then id else Gpu.Getenv env k) as H.
  { intros k Hk'. change [e1; e2] with ([e1] ++ [e2]). rewrite app_assoc.
    rewrite (Getenv_var (env ++ [e1]) "CEDANA_GPU_LOG_DIR" dir) //. case_decide; [done|].
    by rewrite (Getenv_var env "CEDANA_GPU_ID" id). }
  set (v := lib +:+ ":" +:+ _). change [e1; e2; "LD_PRELOAD=" +:+ v] with ([e1; e2] ++ ["LD_PRELOAD=" +:+ v]).
  rewrite app_assoc (Getenv_var (env ++ [e1; e2]) "LD_PRELOAD" v) // H //. case_decide; [|done].
  rewrite /v H //.
Qed.

(** ** Jobs *)

(** Managing a job that was just made. *)
Lemma jobs_Manage_new jid pid j table :
  table !! jid = None → jPID j = 0%Z →
  match jobs_Manage jid pid (<[jid := j]> table) with
  | Ok t => t = <[jid := SetPID pid j]> table ∧ pid ≠ 0%Z ∧ ∀ jid' j', table !! jid' = Some j' → jPID j' ≠ pid
  | Err _ => pid = 0%Z ∨ ∃ jid' j', table !! jid' = Some j' ∧ jPID j' = pid
  end.
Proof.
  intros Hn Hj. rewrite /jobs_Manage lookup_insert_eq. case_decide as Hp; [by left|].
  destruct (jobs_Find pid _) as [other|] eqn:Hf.
  - apply map_find_Some in Hf. destruct Hf as (j' & Hj' & <-).
    case_decide as Ho; [subst; rewrite lookup_insert_eq in Hj'; naive_solver|].
    rewrite lookup_insert_ne // in Hj'. right. eauto.
  - split_and!; [by rewrite alter_insert_eq|done|]. intros jid' j' Hj'.
    eapply (map_find_None jPID); [exact Hf|]. rewrite lookup_insert_ne //. congruence.
Qed.

Section process.
Context (os : OS) (profiling : bool).
Context (pluginMiddleware : string → gores (Middleware Opts App unit)) (pluginHandler : string → gores (Handler Opts App unit)).
Context (pluginLate : string → gores (Middleware Opts App unit)) (serverlessSupport : string → bool).
Context (pluginInterception pluginTracing : string → gores (Adapter Opts App unit)).

Abbreviation handler :=
  (pluginRunHandler os profiling pluginHandler pluginLate serverlessSupport pluginInterception pluginTracing).

(** A plugin that is installed has a library. *)
Context (Hlib : gpuLib os ≠ Some []) (Htracer : tracerLib os ≠ Some []).

(** ** The handler *)

(** The environment [Tracing] and [Interception] give a process, for the
    identifier and log directory they use. *)
Definition gpu_env (r : RunReq) (id dir : string) : list string :=
  let tracer := default "" (tracerLib os ≫= head) in
  let e := if GPUTracing r then Env r ++ preload id dir tracer (Env r) else Env r in
  if GPUEnabled r then e ++ preload id dir (dir +:+ "/libcuda.so.1") e else e.

(** What no adapter below [gpu_Attach] changes; the request only gets further
    variables. *)
Definition untouched (a a' : App) : Prop :=
  jobs a' = jobs a ∧ cancelled a' = cancelled a ∧ gpuTold a' = gpuTold a ∧ Messages a' = Messages a ∧
  pidFiles a' = pidFiles a ∧ ∃ l, req a' = add_Env l (req a).

Lemma untouched_add l a a' :
  jobs a' = jobs a → cancelled a' = cancelled a → gpuTold a' = gpuTold a → Messages a' = Messages a →
  pidFiles a' = pidFiles a → req a' = add_Env l (req a) → untouched a a'.
Proof. intros. split_and!; try done. by exists l. Qed.

Lemma add_Env_nil r : add_Env [] r = r.
Proof. destruct r. by rewrite /add_Env /= app_nil_r. Qed.

#[local] Instance untouched_preorder : PreOrder untouched.
Proof.
  split.
  - intros a. apply (untouched_add []); by rewrite ?add_Env_nil.
  - intros a b c (H1 & H2 & H3 & H4 & H5 & l & H6) (G1 & G2 & G3 & G4 & G5 & l' & G6).
    apply (untouched_add (l ++ l')); [congruence..|]. rewrite G6 H6. by rewrite /add_Env /= app_assoc.
Qed.

Lemma process_of_add_Env l r : process_of (add_Env l r) = process_of r.
Proof. done. Qed.

(** A handler that starts one process, in an environment in [ok], or fails. *)
Definition starts (io : Stdio) (ok : list string → Prop) (a : App) (r : gores unit) (a' : App) : Prop :=
  untouched a a' ∧
  match r with
  | Err _ => started a' = started a
  | Ok _ => ∃ p, process_of (req a) = Some p ∧ ok (Env (req a')) ∧
      Start os (pPath p) (Env (req a')) io = Ok (PID a') ∧
      started a' = started a ++ [(pPath p, Env (req a'), io)]
  end.

Lemma starts_fails io ok a e : starts io ok a (Err e) a.
Proof. done. Qed.

(** After a change of the request's environment. *)
Lemma starts_after io (ok ok' : list string → Prop) a a1 r a' :
  untouched a a1 → started a1 = started a → (∀ env, ok env → ok' env) →
  starts io ok a1 r a' → starts io ok' a r a'.
Proof.
  intros Hu Hs Hok [Hu' H]. split; [by etrans|]. rewrite Hs in H. destruct r as [[]|e]; [|done].
  destruct Hu as (_ & _ & _ & _ & _ & l & Hl). rewrite Hl process_of_add_Env in H.
  destruct H as (p & ? & ? & ?). exists p. naive_solver.
Qed.

Lemma wp_process_Run o a : wp (process_Run os) o a (starts (oIO o) (λ env, env = Env (req a)) a).
Proof.
  intros ctx w Hw. cbn [process_Run run]. rewrite Hw.
  destruct (process_of (req a)) as [p|] eqn:Hp; [|by wp_returns Hw].
  case_decide; [by wp_returns Hw|].
  destruct (Start os _ _ _) as [pid|e] eqn:Hs; wp_returns Hw; [|done].
  split; [by apply (untouched_add []); rewrite ?add_Env_nil|]. by exists p.
Qed.

(** [Interception] in front of a handler. *)
Lemma wp_Interception h o a ok :
  RType (req a) = "process" →
  (∀ id dir o1 a1, (∀ i, GPU_ID o = Some i → id = i) → EnsureLogDir os id = Ok dir → oIO o1 = oIO o →
     untouched a a1 → Env (req a1) = Env (req a) ++ preload id dir (dir +:+ "/libcuda.so.1") (Env (req a)) →
     wp h o1 a1 (starts (oIO o) ok a1)) →
  wp (With profiling h [Interception os profiling pluginInterception]) o a (starts (oIO o) ok a).
Proof.
  intros Ht Hh. apply wp_With_cons, wp_choosing.
  assert (∀ id, (∀ i, GPU_ID o = Some i → id = i) →
    match (if gpuLib os is None then Err no_gpu
           else with_log_dir os profiling o id (With profiling h []) (adapter_of (ProcessInterception os) pluginInterception (RType (req a)))) with
    | Err e => starts (oIO o) ok a (Err e) a
    | Ok (o', h') => wp h' o' a (starts (oIO o) ok a)
    end) as H.
  { intros id Hid. destruct (gpuLib os) as [libs|] eqn:Hl; [|apply starts_fails].
    rewrite /with_log_dir. destruct (EnsureLogDir os id) as [dir|e] eqn:He; [|apply starts_fails].
    rewrite Ht /adapter_of. destruct (decide _) as [_|Hn]; [|by destruct Hn].
    apply wp_With_cons, wp_before_opt. rewrite /process_interception /= Hl.
    destruct libs as [|lib libs]; [done|]. simpl. case_decide; [apply starts_fails|].
    set (l := preload _ _ _ _). set (a1 := set_req _ _). assert (untouched a a1) as Hu by by apply (untouched_add l).
    apply (wp_mono _ _ _ (starts (oIO o) ok a1)).
    - intros r a'. by apply starts_after.
    - by apply wp_With_nil, wp_With_nil, (Hh id dir). }
  cbv beta zeta. destruct (GPU_ID o) as [i|] eqn:Hi; [apply (H i); congruence|].
  case_decide; [apply starts_fails|]. by apply (H (rGPUID (req a))).
Qed.

(** [Tracing] in front of a handler. *)
Lemma wp_Tracing h o a ok :
  RType (req a) = "process" →
  (∀ id dir o1 a1, (∀ i, GPU_ID o = Some i → id = i) → EnsureLogDir os id = Ok dir →
     oIO o1 = oIO o → GPU_ID o1 = Some id →
     untouched a a1 →
     Env (req a1) = Env (req a) ++ preload id dir (default "" (tracerLib os ≫= head)) (Env (req a)) →
     wp h o1 a1 (starts (oIO o) ok a1)) →
  wp (With profiling h [Tracing os profiling pluginTracing]) o a (starts (oIO o) ok a).
Proof.
  intros Ht Hh. apply wp_With_cons, wp_choosing. cbv beta zeta.
  set (id := match GPU_ID o with Some i => i | None => _ end).
  assert (∀ i, GPU_ID o = Some i → id = i) as Hid by (intros i Hi; by rewrite /id Hi). clearbody id.
  destruct (tracerLib os) as [libs|] eqn:Hl; [|apply starts_fails].
  rewrite /with_log_dir. destruct (EnsureLogDir os id) as [dir|e] eqn:He; [|apply starts_fails].
  rewrite Ht /adapter_of. destruct (decide _) as [_|Hn]; [|by destruct Hn].
  apply wp_With_cons, wp_before_opt. rewrite /process_tracing /= Hl.
  destruct libs as [|lib libs]; [done|]. simpl.
  set (l := preload _ _ _ _). set (a1 := set_req _ _). assert (untouched a a1) as Hu by by apply (untouched_add l).
  apply (wp_mono _ _ _ (starts (oIO o) ok a1)).
  - intros r a'. by apply starts_after.
  - by apply wp_With_nil, wp_With_nil, (Hh id dir).
Qed.

(** The handler with the interception, if asked for. *)
Lemma wp_intercepted (enabled : bool) o a :
  RType (req a) = "process" →
  wp (if enabled then With profiling (process_Run os) [Interception os profiling pluginInterception]
      else process_Run os) o a
    (starts (oIO o) (λ env,
      if enabled then ∃ id dir, (∀ i, GPU_ID o = Some i → id = i) ∧ EnsureLogDir os id = Ok dir ∧
        env = Env (req a) ++ preload id dir (dir +:+ "/libcuda.so.1") (Env (req a))
      else env = Env (req a)) a).
Proof.
  intros Ht. destruct enabled; [|apply wp_process_Run].
  apply wp_Interception; [done|]. intros id dir o1 a1 Hid Hdir Ho Hu He.
  eapply wp_mono; [|apply wp_process_Run]. intros r a'. rewrite Ho. apply starts_after; [reflexivity|done|].
  intros env ->. exists id, dir. by rewrite He.
Qed.

(** The handler of a run, for a process. *)
Lemma wp_run_handler o a :
  RType (req a) = "process" →
  wp handler o a (starts (oIO o) (λ env, ∃ id dir,
    (∀ i, GPU_ID o = Some i → id = i) ∧ env = gpu_env (req a) id dir) a).
Proof.
  intros Ht ctx w Hw. cbn [pluginRunHandler run]. rewrite Hw /run_handler Ht.
  destruct (decide _) as [_|Hn]; [|by destruct Hn]. rewrite /gpu_env.
  set (h := if GPUEnabled (req a) then _ else process_Run os).
  destruct (GPUTracing (req a)).
  - revert ctx w Hw. apply wp_Tracing; [done|]. intros id dir o1 a1 Hid Hdir Ho Hgid Hu He.
    assert (RType (req a1) = "process") as Ht1 by (destruct Hu as (_ & _ & _ & _ & _ & l & ->); done).
    eapply wp_mono; [|by apply wp_intercepted]. intros r a'. rewrite Ho.
    apply starts_after; [reflexivity|done|]. intros env Henv. exists id, dir. split; [done|].
    destruct (GPUEnabled (req a)); [|by rewrite Henv He].
    destruct Henv as (id' & dir' & Hid' & Hdir' & ->). rewrite -He.
    rewrite (Hid' id Hgid) in Hdir' |- *. rewrite Hdir in Hdir'. by injection Hdir' as ->.
  - eapply wp_mono; [|by apply wp_intercepted|done]. intros r a'. apply starts_after; [reflexivity|done|].
    intros env Henv. destruct (GPUEnabled (req a)).
    + destruct Henv as (id & dir & Hid & _ & ->). by exists id, dir.
    + exists (default "" (GPU_ID o)), "". split; [|done]. by intros i ->.
Qed.

(** ** The chain below the job *)

Lemma wp_with_io o a :
  RType (req a) = "process" →
  wp (With profiling handler [SetupIO os]) o a (λ r a', ∃ io, starts io (λ env, ∃ id dir,
    (∀ i, GPU_ID o = Some i → id = i) ∧ env = gpu_env (req a) id dir) a r a').
Proof.
  intros Ht. apply wp_With_cons, wp_before.
  assert (∀ io, wp (With profiling handler []) (with_IO io o) a (λ r a', ∃ io, starts io (λ env, ∃ id dir,
    (∀ i, GPU_ID o = Some i → id = i) ∧ env = gpu_env (req a) id dir) a r a')) as H.
  { intros io. apply wp_With_nil. eapply wp_mono; [|by apply wp_run_handler]. intros r a' Ha. by exists io. }
  rewrite /setup_io. destruct (Serverless o); [apply H|]. destruct (Attachable (req a)); [apply H|].
  case_decide; [apply H|]. destruct (openLog os _); [by exists StdNone|].
  destruct (chownLog os _); [by exists StdNone|apply H].
Qed.

(** The identifier of the GPU of a run, and what its attachment is told. *)
Definition gpu_for (a : App) (id : string) (r : gores unit) (a' : App) : Prop :=
  if GPUEnabled (req a) then
    if decide (rGPUID (req a) = "") then
      match r with
      | Ok _ => gpuAttach os = Ok id ∧ gpuTold a' = gpuTold a ++ [(id, Some (PID a'))]
      | Err _ => gpuTold a' = gpuTold a ∨ gpuAttach os = Ok id ∧ gpuTold a' = gpuTold a ++ [(id, None)]
      end
    else gpuTold a' = gpuTold a ∧ (r = Ok () → id = rGPUID (req a))
  else gpuTold a' = gpuTold a.

(** From [ValidateRunRequest] on. *)
Definition ran (a : App) (r : gores unit) (a' : App) : Prop :=
  jobs a' = jobs a ∧ cancelled a' = cancelled a ∧ (∃ l, req a' = add_Env l (req a)) ∧
  ∃ id, gpu_for a id r a' ∧
  match r with
  | Err _ => started a' = started a
  | Ok _ => ∃ p io dir, process_of (req a) = Some p ∧ Env (req a') = gpu_env (req a) id dir ∧
      Start os (pPath p) (Env (req a')) io = Ok (PID a') ∧
      started a' = started a ++ [(pPath p, Env (req a'), io)]
  end.

Lemma ran_fails a e : ran a (Err e) a.
Proof.
  split_and!; try done; [exists []; by rewrite add_Env_nil|]. exists "". split; [|done]. rewrite /gpu_for.
  destruct (GPUEnabled (req a)); [|done]. case_decide; [by left|done].
Qed.

Lemma starts_ran o1 io a r a1 a' :
  starts io (λ env, ∃ id dir, (∀ i, GPU_ID o1 = Some i → id = i) ∧ env = gpu_env (req a) id dir) a r a1 →
  jobs a' = jobs a1 → cancelled a' = cancelled a1 → req a' = req a1 → started a' = started a1 → PID a' = PID a1 →
  (∀ id, (∀ i, GPU_ID o1 = Some i → id = i) → gpu_for a id r a') → ran a r a'.
Proof.
  intros [(Hj & Hc & _ & _ & _ & Hl) H] Hj' Hc' Hr' Hs' Hp Hg. rewrite /ran Hj' Hc' Hr' Hs' Hp.
  split_and!; try done. destruct r as [[]|e].
  - destruct H as (p & Hp1 & (id & dir & Hid & He) & Hst & Hs). exists id. split; [by apply Hg|]. by exists p, io, dir.
  - exists (default "" (GPU_ID o1)). split; [|done]. apply Hg. by intros i ->.
Qed.

Lemma wp_gpu_Attach o a :
  RType (req a) = "process" → GPU_ID o = None →
  wp (With profiling handler [gpu_Attach os; pluginRunMiddleware profiling pluginMiddleware; SetupIO os]) o a (ran a).
Proof.
  intros Ht Ho. apply wp_With_cons, wp_around. rewrite /attach_pre.
  assert (∀ o1 (Q : gores unit → App → Prop),
    (∀ r a', (∃ io, starts io (λ env, ∃ id dir, (∀ i, GPU_ID o1 = Some i → id = i) ∧ env = gpu_env (req a) id dir) a r a') → Q r a') →
    wp (With profiling handler [pluginRunMiddleware profiling pluginMiddleware; SetupIO os]) o1 a Q) as H.
  { intros o1 Q HQ. apply wp_With_cons, wp_choosing. rewrite Ht. destruct (decide _) as [_|Hn]; [|by destruct Hn].
    eapply wp_mono; [exact HQ|]. by apply wp_With_nil, wp_with_io. }
  destruct (GPUEnabled (req a)) eqn:Hg.
  2:{ apply H. intros r a' (io & Hs). simpl. apply (starts_ran _ _ _ _ _ _ Hs); try done.
      intros id _. rewrite /gpu_for Hg. by destruct Hs as [(_ & _ & Ht' & _) _]. }
  destruct (gpuLib os); [|apply ran_fails]. destruct (gpuSync os); [apply ran_fails|].
  case_decide as Hid; [destruct (gpuAttach os) as [id|e] eqn:Ha; [|apply ran_fails]|]; apply H; intros r a' (io & Hs);
    assert (gpuTold a' = gpuTold a) as Ht' by (by destruct Hs as [(_ & _ & ? & _) _]).
  - destruct r as [[]|e]; apply (starts_ran _ _ _ _ _ _ Hs); try done; intros id' Hi; rewrite (Hi id) // /gpu_for Hg Ha;
      rewrite decide_True //=; rewrite Ht'; naive_solver.
  - apply (starts_ran _ _ _ _ _ _ Hs); try done. intros id' Hi. rewrite /gpu_for Hg decide_False //.
    split; [done|]. intros _. by apply Hi.
Qed.

(** Only messages and PID files differ. *)
Lemma ran_same a r a1 a' :
  ran a r a1 → jobs a' = jobs a1 → cancelled a' = cancelled a1 → req a' = req a1 → started a' = started a1 →
  PID a' = PID a1 → gpuTold a' = gpuTold a1 → ran a r a'.
Proof. intros H Hj Hc Hr Hs Hp Hg. move: H. by rewrite /ran /gpu_for Hj Hc Hr Hs Hp Hg. Qed.

Lemma wp_run_middleware o a :
  RType (req a) = "process" → RDetails (req a) ≠ None → GPU_ID o = None →
  wp (With profiling handler (run_middleware os profiling pluginMiddleware ++ [SetupIO os])) o a (ran a).
Proof.
  intros Ht Hd Ho. apply wp_With_cons, wp_before, wp_With_cons, wp_before. rewrite /validate_run Ht.
  case_decide; [done|]. case_decide; [done|].
  apply wp_With_cons, wp_around. eapply wp_mono; [|by apply wp_gpu_Attach].
  intros r a1 Hran. rewrite /write_pid_file. destruct r as [[]|e]; [|done]. case_decide; [done|].
  destruct (createFile os _); by eapply ran_same.
Qed.

(** ** The job *)

(** The JID and the log of the job of a request. *)
Definition run_jid (r : RunReq) : string := if decide (JID r = "") then GetName os else JID r.
Definition run_log (r : RunReq) : string :=
  if negb (Attachable r) && bool_decide (Log r = "") then log_path (run_jid r) else Log r.

(** The request and the new job [job_Manage] hands on. *)
Definition run_req (r : RunReq) : RunReq := set_Log (run_log r) (set_JID (run_jid r) r).
Definition run_job (r : RunReq) (d : Details) (pid : Z) : Job :=
  mkJob (RType r) (run_log r) (Some (mkDetails (run_jid r) (dProcess d))) pid.
Definition with_job (a : App) (d : Details) : App :=
  set_jobs (<[run_jid (req a) := run_job (req a) d 0]> (jobs a)) (set_req (run_req (req a)) a).

(** How a managed request ends, when the rest of the chain ends with [r2] in [a2]. *)
Definition managed (a : App) (d : Details) (r2 : gores unit) (a2 : App) (r : gores unit) (a' : App) : Prop :=
  match r2 with
  | Err e => r = Err e ∧ a' = set_jobs (jobs a) a2
  | Ok _ =>
      (r = Ok () ∧ a' = set_jobs (<[run_jid (req a) := run_job (req a) d (PID a2)]> (jobs a)) a2 ∧
       PID a2 ≠ 0%Z ∧ ∀ jid j, jobs a !! jid = Some j → jPID j ≠ PID a2) ∨
      ∃ e c, r = Err e ∧ (c = a2 ∨ c = cancel a2) ∧ a' = set_jobs (jobs a) c ∧
             (PID a2 = 0%Z ∨ ∃ jid j, jobs a !! jid = Some j ∧ jPID j = PID a2)
  end.

Lemma wp_job_Manage next o a d (R : gores unit → App → Prop) :
  RDetails (req a) = Some d →
  wp next o (with_job a d) (λ r2 a2, jobs a2 = jobs (with_job a d) ∧
    (∃ l, req a2 = add_Env l (run_req (req a))) ∧ R r2 a2) →
  wp (job_Manage os next) o a (λ r a',
    (r ≠ Ok () ∧ jobs a' = jobs a ∧ started a' = started a) ∨
    (jobs a !! run_jid (req a) = None ∧ ∃ r2 a2, R r2 a2 ∧ managed a d r2 a2 r a')).
Proof using os.
  intros Hd H. apply wp_around. rewrite /manage_pre -/(run_jid (req a)).
  set (jid := run_jid (req a)). rewrite /jobs_New. case_decide as Hj; [by left|].
  destruct (jobs a !! jid) as [j0|] eqn:Hjid; [by left|].
  assert ((if negb (Attachable (set_JID jid (req a))) && bool_decide (Log (set_JID jid (req a)) = "")
           then set_Log (log_path jid) (set_JID jid (req a)) else set_JID jid (req a)) = run_req (req a)) as ->.
  { rewrite /run_req /run_log -/jid /=. by destruct (negb _ && _). }
  rewrite /= Hd /=.
  assert (set_jobs (alter (SetDetails jid d ∘ SetLog (run_log (req a))) jid
    (<[jid := mkJob (RType (req a)) "" None 0]> (jobs a))) (set_req (run_req (req a)) a) = with_job a d) as ->.
  { by rewrite alter_insert_eq. }
  eapply wp_mono; [|exact H]. intros r2 a2 (Hj2 & [l Hr2] & HR). rewrite /manage_post Hj2 Hr2 /= Hd /=.
  destruct r2 as [[]|e].
  2:{ right. split; [done|]. exists (Err e), a2. split; [done|]. split; [done|]. by rewrite delete_insert_id. }
  rewrite alter_insert_eq. change (SetDetails _ d _) with (run_job (req a) d 0).
  pose proof (jobs_Manage_new jid (PID a2) (run_job (req a) d 0) (jobs a) Hjid eq_refl) as HM.
  destruct (jobs_Manage jid (PID a2) _) as [t|e].
  - right. split; [done|]. exists (Ok ()), a2. split; [done|]. left. destruct HM as (-> & ? & ?). by split_and!.
  - right. split; [done|]. exists (Ok ()), a2. split; [done|]. right. rewrite delete_insert_id //.
    eexists _, _. split; [done|]. split; [|by split]. case_decide; [by right|by left].
Qed.

(** The outcome of a run that starts from [a]. *)
Definition managed_run (a : App) (d : Details) (r : gores unit) (a' : App) : Prop :=
  match r with
  | Ok _ => jobs a !! run_jid (req a) = None ∧ PID a' ≠ 0%Z ∧
      (∀ jid j, jobs a !! jid = Some j → jPID j ≠ PID a') ∧
      jobs a' = <[run_jid (req a) := run_job (req a) d (PID a')]> (jobs a) ∧
      ∃ p io id dir, dProcess d = Some p ∧ Start os (pPath p) (gpu_env (req a) id dir) io = Ok (PID a') ∧
        gpu_for a id (Ok ()) a' ∧
        started a' = started a ++ [(pPath p, gpu_env (req a) id dir, io)]
  | Err _ => jobs a' = jobs a ∧
      (started a' = started a ∨
       length (started a') = S (length (started a)) ∧
       (PID a' = 0%Z ∨ ∃ jid j, jobs a !! jid = Some j ∧ jPID j = PID a'))
  end.

Lemma wp_run_chain o a d :
  RType (req a) = "process" → RDetails (req a) = Some d → GPU_ID o = None →
  wp (run_chain os profiling pluginMiddleware pluginHandler pluginLate serverlessSupport
        pluginInterception pluginTracing true) o a (managed_run a d).
Proof.
  intros Ht Hd Ho. apply wp_With_cons.
  eapply wp_mono; [|apply (wp_job_Manage _ _ _ d (ran (with_job a d))); [done|]].
  2:{ eapply wp_mono; [|apply wp_run_middleware; [done|by rewrite /= Hd|done]].
      intros r a2 Hran. split; [apply Hran|]. split; [apply Hran|done]. }
  intros r a' [(Hr & Hj & Hs)|(Hjid & r2 & a2 & (_ & _ & _ & id & Hgf & H) & Hm)].
  { destruct r as [[]|e]; [done|]. split; [done|by left]. }
  destruct r2 as [[]|e]; [|destruct Hm as [-> ->]; split; [done|by left]].
  destruct H as (p & io & dir & Hp & Henv & Hst & Hs). rewrite Henv in Hst Hs.
  rewrite /process_of /= Hd /= in Hp.
  destruct Hm as [(-> & -> & Hp0 & Hun)|(e & c & -> & Hc & -> & Hwhy)].
  - split_and!; try done. by exists p, io, id, dir.
  - split; [done|]. right. destruct Hc as [-> | ->]; simpl; by rewrite Hs length_app /= Nat.add_1_r.
Qed.


(** The environment of a process with a GPU.  After a run with a GPU has
    succeeded, the process was started with the identifier of the GPU given in
    the request or attached for it, the interception library is the first of
    the preloaded libraries, before the tracer if tracing was asked for and
    before the libraries of the caller, and every variable other than the three
    of the GPU has the value it had. *)
Theorem GPU_run_environment ctx w d w' :
  RType (req (app w)) = "process" → RDetails (req (app w)) = Some d → GPUEnabled (req (app w)) = true →
  Run os profiling pluginMiddleware pluginHandler pluginLate serverlessSupport
    pluginInterception pluginTracing ctx w = Some (Ok (), w') →
  ∃ p env io id dir, started (app w') = started (app w) ++ [(p, env, io)] ∧
    (if decide (rGPUID (req (app w)) = "") then gpuAttach os = Ok id else id = rGPUID (req (app w))) ∧
    Gpu.Getenv env "CEDANA_GPU_ID" = id ∧
    Gpu.Getenv env "LD_PRELOAD" =
      dir +:+ "/libcuda.so.1:" +:+
      (if GPUTracing (req (app w)) then default "" (tracerLib os ≫= head) +:+ ":" else "") +:+
      Gpu.Getenv (Env (req (app w))) "LD_PRELOAD" ∧
    ∀ key, has_byte eq_sign key = false → key ∉ ["LD_PRELOAD"; "CEDANA_GPU_ID"; "CEDANA_GPU_LOG_DIR"] →
      Gpu.Getenv env key = Gpu.Getenv (Env (req (app w))) key.
Proof.
  intros Ht Hd Hg. rewrite /Run.
  destruct (wp_run_chain (mkOpts false StdNone None None) (app w) d Ht Hd eq_refl ctx w eq_refl)
    as (r & w1 & -> & H).
  destruct r as [[]|e]; simpl; [|done]. intros [= <-].
  destruct H as (_ & _ & _ & _ & p & io & id & dir & _ & _ & Hgf & Hs).
  exists (pPath p), (gpu_env (req (app w)) id dir), io, id, dir. split; [done|]. split.
  { move: Hgf. rewrite /gpu_for Hg. case_decide; naive_solver. }
  rewrite /gpu_env Hg. set (lib := dir +:+ "/libcuda.so.1"). set (tr := default "" (tracerLib os ≫= head)).
  split_and!.
  - by rewrite Getenv_preload.
  - rewrite Getenv_preload //. destruct (GPUTracing (req (app w))); [rewrite Getenv_preload //|];
      by rewrite /lib /= !append_assoc.
  - intros key Hk Hin. apply not_elem_of_cons in Hin as [H1 [H2 [H3 _]%not_elem_of_cons]%not_elem_of_cons].
    rewrite Getenv_preload // !decide_False //. destruct (GPUTracing (req (app w))); [|done].
    by rewrite Getenv_preload // !decide_False.
Qed.

(** ** Managing processes that exist *)

Lemma wp_process_Manage o a :
  wp (process_Manage os) o a (λ r a', jobs a' = jobs a ∧ req a' = req a ∧ started a' = started a ∧
    (r = Ok () → ∃ p, process_of (req a) = Some p ∧ PID a' = pPID p ∧ Action (req a) ≠ MANAGE_UPCOMING ∧
      (Action (req a) = MANAGE_EXISTING → PidExists os (pPID p) = true))).
Proof.
  intros ctx w Hw. cbn [process_Manage run]. rewrite Hw.
  destruct (process_of (req a)) as [p|]; [|by wp_returns Hw]. case_decide; [by wp_returns Hw|].
  destruct (Action (req a)) eqn:Ha; [| |by wp_returns Hw].
  - wp_returns Hw. split_and!; try done. intros _. by exists p.
  - destruct (PidExists os (pPID p)) eqn:He; wp_returns Hw; [|done]. split_and!; try done. intros _. by exists p.
Qed.

(** What the chain below the job does. *)
Definition found (a : App) (d : Details) (r : gores unit) (a' : App) : Prop :=
  jobs a' = jobs (with_job a d) ∧ (∃ l, req a' = add_Env l (run_req (req a))) ∧ started a' = started a ∧
  (r = Ok () → ∃ p, dProcess d = Some p ∧ PID a' = pPID p ∧ Action (req a) ≠ MANAGE_UPCOMING ∧
    (Action (req a) = MANAGE_EXISTING → PidExists os (pPID p) = true)).

Lemma found_fails a d e : found a d (Err e) (with_job a d).
Proof. split_and!; try done. exists []. by rewrite add_Env_nil. Qed.

Lemma wp_manage_handler o a d x :
  RType (req a) = "process" → RDetails (req a) = Some d →
  wp (With profiling (pluginManageHandler os pluginHandler) [pluginRunMiddleware profiling pluginMiddleware])
    o (with_job a d) (λ r a1, match attach_post x r a1 with None => False | Some (r', a2) => found a d r' a2 end).
Proof.
  intros Ht Hd. apply wp_With_cons, wp_choosing. rewrite /= Ht. destruct (decide _) as [_|Hn]; [|by destruct Hn].
  apply wp_With_nil, wp_With_nil. intros ctx1 w1 Hw1. cbn [pluginManageHandler run]. rewrite Hw1 /= Ht.
  destruct (decide _) as [_|Hn]; [|by destruct Hn].
  set (w2 := if _ || _ then _ else w1).
  assert (jobs (app w2) = jobs (with_job a d) ∧ req (app w2) = run_req (req a) ∧ started (app w2) = started a)
    as (H1 & H2 & H3) by (rewrite /w2; destruct (_ || _); by rewrite /= ?Hw1). clearbody w2.
  destruct (wp_process_Manage o (app w2) ctx1 w2 eq_refl) as (r & w3 & -> & Hj & Hr & Hs & Hok).
  eexists _, _. split; [done|]. rewrite H1 in Hj. rewrite H2 in Hr Hok. rewrite H3 in Hs.
  rewrite /process_of /= Hd in Hok.
  destruct x as [id|]; [destruct r as [[]|e]|]; (split_and!; [done|exists []; by rewrite /= Hr add_Env_nil|done..]).
Qed.

Lemma wp_manage_middleware o a d :
  RType (req a) = "process" → RDetails (req a) = Some d →
  wp (With profiling (pluginManageHandler os pluginHandler) (run_middleware os profiling pluginMiddleware))
    o (with_job a d) (found a d).
Proof using os profiling pluginMiddleware pluginHandler.
  clear Hlib Htracer. intros Ht Hd. apply wp_With_cons, wp_before, wp_With_cons, wp_before.
  rewrite /validate_run /= Ht Hd. do 2 (case_decide; [done|]).
  apply wp_With_cons, wp_around. apply (wp_mono _ _ _ (found a d)).
  { intros r a1 HQ. rewrite /write_pid_file. destruct r as [[]|e]; [|done]. case_decide; [done|].
    by destruct (createFile os _). }
  apply wp_With_cons, wp_around. rewrite /attach_pre.
  destruct (GPUEnabled _); [|by apply wp_manage_handler]. destruct (gpuLib os); [|apply found_fails].
  destruct (gpuSync os); [apply found_fails|]. case_decide; [|by apply wp_manage_handler].
  destruct (gpuAttach os); [by apply wp_manage_handler|apply found_fails].
Qed.

(** Managing a process through the daemon starts nothing.  When it succeeds,
    the process of the request is registered under a name that was free and
    under a PID no other job has, and it existed when the request was to manage
    an existing one; when it fails the jobs are as they were. *)
Theorem Manage_registers_existing ctx w d :
  RType (req (app w)) = "process" → RDetails (req (app w)) = Some d →
  ∃ r w', Manage os profiling pluginMiddleware pluginHandler ctx w = Some (r, w') ∧
    let a := app w in let a' := app w' in
    started a' = started a ∧
    match r with
    | Err _ => jobs a' = jobs a
    | Ok _ => ∃ p, dProcess d = Some p ∧ pPID p ≠ 0%Z ∧ Action (req a) ≠ MANAGE_UPCOMING ∧
        (Action (req a) = MANAGE_EXISTING → PidExists os (pPID p) = true) ∧
        jobs a !! run_jid (req a) = None ∧ (∀ jid j, jobs a !! jid = Some j → jPID j ≠ pPID p) ∧
        jobs a' = <[run_jid (req a) := run_job (req a) d (pPID p)]> (jobs a)
    end.
Proof using os profiling pluginMiddleware pluginHandler.
  intros Ht Hd. rewrite /Manage /manage_chain.
  edestruct (wp_With_cons profiling (pluginManageHandler os pluginHandler) (job_Manage os)
    (run_middleware os profiling pluginMiddleware)) as (r & w' & -> & H);
    [apply (wp_job_Manage _ _ (app w) d (found (app w) d)); [done|]|done|].
  { eapply wp_mono; [|by apply wp_manage_middleware]. intros r a' Hf. split; [apply Hf|]. split; [apply Hf|done]. }
  destruct H as [(Hr & Hj & Hs)|(Hjid & r2 & a2 & (_ & _ & Hs & Hok) & Hm)].
  { destruct r as [[]|e]; [done|]. eexists _, _. by split. }
  destruct r2 as [[]|e].
  2:{ destruct Hm as [-> Ha]. eexists _, _. split; [done|]. by rewrite /= Ha. }
  destruct (Hok eq_refl) as (p & Hp & Hpid & Hup & Hex).
  destruct Hm as [(-> & Ha & Hp0 & Hun)|(e & c & -> & Hc & Ha & _)]; eexists _, _; (split; [done|]); simpl; rewrite Ha.
  - split; [done|]. exists p. rewrite -Hpid. split_and!; try done. by rewrite Hpid.
  - by destruct Hc as [-> | ->].
Qed.

(** A run request without details crashes the daemon.  The adapter that
    manages the job comes before the validation of the request and sets the
    details of the new job, which dereferences nil; without the daemon the same
    request is refused as invalid. *)
Theorem missing_details_crash_daemon ctx w :
  RDetails (req (app w)) = None → RType (req (app w)) ≠ "" →
  run_jid (req (app w)) ≠ "" → jobs (app w) !! run_jid (req (app w)) = None →
  Run os profiling pluginMiddleware pluginHandler pluginLate serverlessSupport
    pluginInterception pluginTracing ctx w = None ∧
  ∃ w', Run_serverless os profiling pluginMiddleware pluginHandler pluginLate serverlessSupport
          pluginInterception pluginTracing ctx w = Some (Err (Status InvalidArgument "Details are required"), w').
Proof.
  intros Hd Ht Hjid Hj. split.
  - rewrite /Run /run_chain. set (l := run_middleware os profiling pluginMiddleware ++ [SetupIO os]).
    assert (∀ ctx w1, app w1 = app w →
      run (job_Manage os (With profiling handler l)) ctx (mkOpts false StdNone None None) w1 = None) as H.
    { intros ctx1 w1 Hw1. cbn [job_Manage around run]. rewrite Hw1 /manage_pre -/(run_jid (req (app w))).
      rewrite /jobs_New decide_False // Hj. by destruct (_ && _); rewrite /= Hd. }
    rewrite (_ : run (With profiling handler ([job_Manage os] ++ l)) ctx _ w = None) //.
    rewrite /With /=. destruct profiling; [|by rewrite adapted_cons; apply H].
    rewrite adaptedWithProfiler_cons. cbn [Timer run]. case_bool_decide; [by apply H|].
    destruct (StartTimingComponent _ _ _) as [[c e] st]. by rewrite H.
  - edestruct (wp_With_cons profiling handler FillMissingRunDefaults
      ([ValidateRunRequest; WritePIDFile os; gpu_Attach os; pluginRunMiddleware profiling pluginMiddleware] ++ [SetupIO os])
      (mkOpts true StdNone None None) (app w)
      (λ r _, r = Err (Status InvalidArgument "Details are required"))) as (r & w' & Hr & ->); [|reflexivity|by exists w'].
    apply wp_before, wp_With_cons, wp_before. rewrite /validate_run Hd. case_decide; [done|].
    by case_decide.
Qed.
End process.

(** ** Witnesses *)

Definition sample_os : OS := {|
  GetName := "brave-otter"; slaveID := 9; newUUID := "u-1"; gpuLib := Some ["/lib/gpu.so"];
  tracerLib := Some ["/lib/tracer.so"]; gpuSync := None; gpuAttach := Ok "gpu-1";
  EnsureLogDir := λ id, Ok ("/var/log/cedana-gpu." +:+ id); openLog := λ _, None; chownLog := λ _, None;
  createFile := λ _, None; nil_write := Errorf "invalid argument"; Start := λ _ _ _, Ok 77%Z;
  PidExists := λ pid, bool_decide (pid = 50%Z) |}.

Definition sample_details : Details := mkDetails "" (Some (mkProcess "/bin/train" [] 50)).
Definition sample_request (action : RunAction) (d : option Details) : World App :=
  mkWorld ∅ 0 (mkApp (mkRunReq "" "process" d "" false "/run/pid" true true "" ["LD_PRELOAD=a.so"; "HOME=/root"] action)
    0 [] ∅ [] [] [] ∅ false).

Abbreviation no_middleware := (λ _ : string, @Err (Middleware Opts App unit) (Errorf "none")).
Abbreviation no_handler := (λ _ : string, @Err (Handler Opts App unit) (Errorf "none")).
Abbreviation no_adapter := (λ _ : string, @Err (Adapter Opts App unit) (Errorf "none")).
Abbreviation sample_run :=
  (Run sample_os true no_middleware no_handler no_middleware (λ _, false) no_adapter no_adapter None).


Definition run_world : World App :=
  match sample_run (sample_request START_NEW (Some sample_details)) with
  | Some (_, w) => w
  | None => sample_request START_NEW None
  end.

Lemma GPU_run_environment_witness :
  ∃ p env io dir, started (app run_world) = [(p, env, io)] ∧
    Gpu.Getenv env "LD_PRELOAD" = dir +:+ "/libcuda.so.1:" +:+ "/lib/tracer.so:" +:+ "a.so".
Proof.
  destruct (GPU_run_environment sample_os true no_middleware no_handler no_middleware (λ _, false) no_adapter
    no_adapter ltac:(done) ltac:(done) None (sample_request START_NEW (Some sample_details)) sample_details run_world
    eq_refl eq_refl eq_refl) as (p & env & io & id & dir & Hs & _ & _ & Hl & _); [vm_compute; reflexivity|].
  exists p, env, io, dir. split; [exact Hs|exact Hl].
Defined.

Lemma Manage_registers_existing_witness :
  ∃ r w', Manage sample_os false no_middleware no_handler None (sample_request MANAGE_EXISTING (Some sample_details)) =
            Some (r, w') ∧ started (app w') = [].
Proof.
  destruct (Manage_registers_existing sample_os false no_middleware no_handler None
    (sample_request MANAGE_EXISTING (Some sample_details)) sample_details eq_refl eq_refl)
    as (r & w' & Hr & Hs & _).
  exists r, w'. split; [exact Hr|exact Hs].
Defined.

Lemma missing_details_crash_daemon_witness :
  sample_run (sample_request START_NEW None) = None.
Proof.
  destruct (missing_details_crash_daemon sample_os true no_middleware no_handler no_middleware (λ _, false) no_adapter
    no_adapter None (sample_request START_NEW None)) as [H _]; [reflexivity|by_decide|by_decide|reflexivity|exact H].
Defined.
End RunSpec.
