(* ===== verification/RestoreChain.v ===== *)
(** * Restoring processes (restore.go)

    [Server.Restore] and [Cedana.Restore] with the adapters they compose:
    job/restore_adapters.go, process/restore_adapters.go, network/restore_adapters.go,
    gpu/restore_adapters.go, defaults, validation and the handler of
    criu/restore_handlers.go.  The walks over the open files are those of
    [Inherit]; the adapters of the file system are parameters that wrap the rest
    of the chain, as in [Pipeline]; jobs are the table of [RunChain], with whether
    they run and the path of their latest checkpoint. *)

From Stdlib Require Import Ascii.
From S2P Require Import Prelude GoLib Profiling Types Adapters ProcessTree MountSources Inherit Pipeline RunChain.
Import GoLib Profiling Types Adapters ProcessTree.

Module RestoreChain.

#[local] Arguments String.append : simpl never.

(** ** Data *)

(** [criu.CriuOpts], as far as the chain sets it. *)
Record COpts := mkCOpts {
  NotifyScripts : option bool;
  EvasiveDevices : option bool;
  RstSibling : option bool;
  ManageCgroupsMode : option Z;
  ManageCgroups : option bool;
  ShellJob : option bool;
  TcpEstablished : option bool;
  ExtUnixSk : option bool;
  InheritFd : list (Z * string);
  External : list string;
  AutoExtMnt : option bool;
  ExtMasters : option bool;
  ImagesDir : string;
  LsmProfile : option string;
  LsmMountContext : option string;
}.

Definition empty_opts : COpts :=
  mkCOpts None None None None None None None None [] [] None None "" None None.

Definition with_defaults (mode : Z) (c : COpts) : COpts :=
  mkCOpts (Some true) (Some true) (Some true)
    (match ManageCgroupsMode c with Some m => Some m | None => Some mode end)
    (match ManageCgroupsMode c with Some _ => ManageCgroups c | None => Some true end)
    (ShellJob c) (TcpEstablished c) (ExtUnixSk c) (InheritFd c) (External c) (AutoExtMnt c) (ExtMasters c)
    (ImagesDir c) (LsmProfile c) (LsmMountContext c).
Definition with_shell_job (b : bool) (c : COpts) : COpts :=
  mkCOpts (NotifyScripts c) (EvasiveDevices c) (RstSibling c) (ManageCgroupsMode c) (ManageCgroups c)
    (Some b) (TcpEstablished c) (ExtUnixSk c) (InheritFd c) (External c) (AutoExtMnt c) (ExtMasters c)
    (ImagesDir c) (LsmProfile c) (LsmMountContext c).
Definition with_network (tcp unix : bool) (c : COpts) : COpts :=
  mkCOpts (NotifyScripts c) (EvasiveDevices c) (RstSibling c) (ManageCgroupsMode c) (ManageCgroups c)
    (ShellJob c) (Some (tcp || default false (TcpEstablished c))) (Some (unix || default false (ExtUnixSk c)))
    (InheritFd c) (External c) (AutoExtMnt c) (ExtMasters c) (ImagesDir c) (LsmProfile c) (LsmMountContext c).
Definition with_InheritFd (l : list (Z * string)) (c : COpts) : COpts :=
  mkCOpts (NotifyScripts c) (EvasiveDevices c) (RstSibling c) (ManageCgroupsMode c) (ManageCgroups c)
    (ShellJob c) (TcpEstablished c) (ExtUnixSk c) l (External c) (AutoExtMnt c) (ExtMasters c)
    (ImagesDir c) (LsmProfile c) (LsmMountContext c).
Definition add_external (l : list string) (c : COpts) : COpts :=
  mkCOpts (NotifyScripts c) (EvasiveDevices c) (RstSibling c) (ManageCgroupsMode c) (ManageCgroups c)
    (ShellJob c) (TcpEstablished c) (ExtUnixSk c) (InheritFd c) (External c ++ l) (AutoExtMnt c) (ExtMasters c)
    (ImagesDir c) (LsmProfile c) (LsmMountContext c).
Definition with_ext_mounts (c : COpts) : COpts :=
  mkCOpts (NotifyScripts c) (EvasiveDevices c) (RstSibling c) (ManageCgroupsMode c) (ManageCgroups c)
    (ShellJob c) (TcpEstablished c) (ExtUnixSk c) (InheritFd c) (External c) (Some true) (Some true)
    (ImagesDir c) (LsmProfile c) (LsmMountContext c).
Definition with_images (dir : string) (c : COpts) : COpts :=
  mkCOpts (NotifyScripts c) (EvasiveDevices c) (RstSibling c) (ManageCgroupsMode c) (ManageCgroups c)
    (ShellJob c) (TcpEstablished c) (ExtUnixSk c) (InheritFd c) (External c) (AutoExtMnt c) (ExtMasters c)
    dir (LsmProfile c) (LsmMountContext c).

(** [daemon.RestoreReq] *)
Record RestoreReq := mkReq {
  Path : string;
  RType : string;
  RDetails : option RunChain.Details;
  Log : string;
  Attachable : bool;
  PidFile : string;
  rGPUID : string;
  Criu : option COpts;
}.
Definition set_Criu (c : option COpts) (r : RestoreReq) : RestoreReq :=
  mkReq (Path r) (RType r) (RDetails r) (Log r) (Attachable r) (PidFile r) (rGPUID r) c.

(** A job: also whether it runs. *)
Record Job := mkJob {
  jType : string;
  jLog : string;
  jDetails : option RunChain.Details;
  jPID : Z;
  jRunning : bool;
}.

(** Request, response, and what the chain does outside: the jobs, the calls of
    CRIU with the extra files and the streams it gets, the callbacks, the PID
    files, what GPU attachments are told and whether the lifetime made for the
    process was cancelled. *)
Record App := mkApp {
  req : RestoreReq;
  PID : Z;
  RState : option State;
  Messages : list string;
  jobs : gmap string Job;
  criuCalls : list (COpts * list (option string) * RunChain.Stdio);
  Callbacks : list string;
  pidFiles : list (string * Z);
  gpuTold : list (string * option Z);
  cancelled : bool;
}.
Definition set_req (r : RestoreReq) (a : App) : App :=
  mkApp r (PID a) (RState a) (Messages a) (jobs a) (criuCalls a) (Callbacks a) (pidFiles a) (gpuTold a) (cancelled a).
Definition on_Criu (f : COpts → COpts) (a : App) : App :=
  set_req (set_Criu (Some (f (default empty_opts (Criu (req a))))) (req a)) a.
Definition set_PID (pid : Z) (a : App) : App :=
  mkApp (req a) pid (RState a) (Messages a) (jobs a) (criuCalls a) (Callbacks a) (pidFiles a) (gpuTold a) (cancelled a).
Definition set_RState (s : State) (a : App) : App :=
  mkApp (req a) (PID a) (Some s) (Messages a) (jobs a) (criuCalls a) (Callbacks a) (pidFiles a) (gpuTold a) (cancelled a).
Definition add_Messages (l : list string) (a : App) : App :=
  mkApp (req a) (PID a) (RState a) (Messages a ++ l) (jobs a) (criuCalls a) (Callbacks a) (pidFiles a) (gpuTold a) (cancelled a).
Definition set_jobs (t : gmap string Job) (a : App) : App :=
  mkApp (req a) (PID a) (RState a) (Messages a) t (criuCalls a) (Callbacks a) (pidFiles a) (gpuTold a) (cancelled a).
Definition called c (a : App) : App :=
  mkApp (req a) (PID a) (RState a) (Messages a) (jobs a) (criuCalls a ++ [c]) (Callbacks a) (pidFiles a) (gpuTold a) (cancelled a).
Definition Include (name : string) (a : App) : App :=
  mkApp (req a) (PID a) (RState a) (Messages a) (jobs a) (criuCalls a) (Callbacks a ++ [name]) (pidFiles a) (gpuTold a) (cancelled a).
Definition add_pidFile (p : string * Z) (a : App) : App :=
  mkApp (req a) (PID a) (RState a) (Messages a) (jobs a) (criuCalls a) (Callbacks a) (pidFiles a ++ [p]) (gpuTold a) (cancelled a).
Definition tell_gpu (p : string * option Z) (a : App) : App :=
  mkApp (req a) (PID a) (RState a) (Messages a) (jobs a) (criuCalls a) (Callbacks a) (pidFiles a) (gpuTold a ++ [p]) (cancelled a).
Definition cancel (a : App) : App :=
  mkApp (req a) (PID a) (RState a) (Messages a) (jobs a) (criuCalls a) (Callbacks a) (pidFiles a) (gpuTold a) true.

(** [types.Opts] and the values of the context. *)
Record Opts (St : Type) := mkOpts {
  oCRIU : option string;
  oStorage : option St;
  Serverless : bool;
  oIO : RunChain.Stdio;
  ExtraFiles : list (option string);
  InheritFdMap : gmap string Z;
  GPU_ID : option string;
}.
Arguments mkOpts {_} _ _ _ _ _ _ _.
Arguments oCRIU {_}. Arguments oStorage {_}. Arguments Serverless {_}. Arguments oIO {_}.
Arguments ExtraFiles {_}. Arguments InheritFdMap {_}. Arguments GPU_ID {_}.

(** What is outside. *)
Record Env (St : Type) := mkEnv {
  cfgCgroupsMode : Z;
  criuAnswers : Pipeline.Env St;                    (** what [criu.New] and [CheckOpts] ask *)
  IsStreamable : St → string → gores Z;
  LoadState : string → gores State;                 (** process_state.json of the images *)
  openFile : string → option error;
  gpuFiles : Inherit.GpuEnv;
  hostMounts : gores (list MountSources.Info);      (** [mountinfo.GetMounts] *)
  Lstat : string → bool;                            (** whether the host has the path *)
  gpuInstalled : bool;
  gpuSync : option error;
  gpuAttach : gores string;
  EnsureLogDir : string → gores string;
  ChownAll : string → Z → Z → option error;
  criuRestore : COpts → list (option string) → RunChain.Stdio → gores Z;
  GetName : string;
  slaveID : Z;
  openLog : string → option error;
  chownLog : string → option error;
  createFile : string → option error;
  nil_write : error;
  latestCheckpoint : string → string;               (** its path, or nothing *)
  IsRunning : Z → bool;                             (** when the job is synced *)
}.
Arguments mkEnv {_}.
Arguments cfgCgroupsMode {_}. Arguments criuAnswers {_}. Arguments IsStreamable {_}. Arguments LoadState {_}.
Arguments openFile {_}. Arguments gpuFiles {_}. Arguments hostMounts {_}. Arguments Lstat {_}. Arguments gpuInstalled {_}.
Arguments gpuSync {_}. Arguments gpuAttach {_}. Arguments EnsureLogDir {_}. Arguments ChownAll {_}.
Arguments criuRestore {_}. Arguments GetName {_}. Arguments slaveID {_}. Arguments openLog {_}.
Arguments chownLog {_}. Arguments createFile {_}. Arguments nil_write {_}. Arguments latestCheckpoint {_}.
Arguments IsRunning {_}.

Section restore.
Context {St : Type} (env : Env St) (profiling : bool).

Abbreviation Opts := (Opts St).
Abbreviation Handler := (Handler Opts App unit).
Abbreviation Adapter := (Adapter Opts App unit).
Abbreviation Middleware := (Middleware Opts App unit).

(** ** defaults, validation *)

Definition fill_restore_defaults (o : Opts) (a : App) : gores Opts * App :=
  (Ok (mkOpts (oCRIU o) (oStorage o) (Serverless o) (oIO o) (ExtraFiles o) ∅ (GPU_ID o)),
   on_Criu (with_defaults (cfgCgroupsMode env)) a).
Definition FillMissingRestoreDefaults : Adapter :=
  before "defaults.FillMissingRestoreDefaults" fill_restore_defaults.

Definition validate_restore (o : Opts) (a : App) : gores Opts * App :=
  if decide (Path (req a) = "") then (Err (Status InvalidArgument "no path provided"), a)
  else if decide (RType (req a) = "") then (Err (Status InvalidArgument "missing type"), a)
  else (Ok o, a).
Definition ValidateRestoreRequest : Adapter := before "validation.ValidateRestoreRequest" validate_restore.

(** ** process *)

Definition write_pid_file (_ : unit) (res : gores unit) (a : App) : option (gores unit * App) :=
  match res with
  | Err e => Some (Err e, a)
  | Ok _ =>
      let f := PidFile (req a) in
      if decide (f = "") then Some (Ok (), a)
      else match createFile env f with
           | Some e => Some (Ok (), add_Messages
               ["Failed to create PID file " +:+ f +:+ ": " +:+ Error e;
                "Failed to write PID to file " +:+ f +:+ ": " +:+ Error (nil_write env)] a)
           | None => Some (Ok (), add_pidFile (f, PID a) a)
           end
  end.
Definition WritePIDFileForRestore : Adapter :=
  around "process.WritePIDFileForRestore" (λ o a, Some (Ok ((), o), a)) write_pid_file.

Definition reload_state (o : Opts) (a : App) : gores Opts * App :=
  let path := match Criu (req a) with Some c => ImagesDir c | None => "" end in
  if decide (path = "") then (Err (Status InvalidArgument "missing path. should have been set by an adapter"), a)
  else match LoadState env path with
       | Err e => (Err (Status Internal ("failed to load process state from dump: " +:+ Error e)), a)
       | Ok s => (Ok o, set_RState s a)
       end.
Definition ReloadProcessStateForRestore : Adapter := before "process.ReloadProcessStateForRestore" reload_state.

Definition detect_shell_job (o : Opts) (a : App) : gores Opts * App :=
  let isShellJob := match RState a with Some s => negb (bool_decide (SID s = ProcessTree.PID s)) | None => false end in
  (Ok o, on_Criu (with_shell_job isShellJob) a).
Definition DetectShellJobForRestore : Adapter := before "process.DetectShellJobForRestore" detect_shell_job.

(** The state of the walk over the files, from options and request. *)
Definition walk_start (o : Opts) (a : App) : Inherit.IState :=
  Inherit.mkI (ExtraFiles o) (InheritFdMap o) (InheritFd (default empty_opts (Criu (req a)))) ∅ [] None.
Definition with_walk (s : Inherit.IState) (o : Opts) : Opts :=
  mkOpts (oCRIU o) (oStorage o) (Serverless o) (oIO o) (Inherit.ExtraFiles s) (Inherit.InheritFdMap s) (GPU_ID o).

Definition inherit_files (o : Opts) (a : App) : gores Opts * App :=
  match RState a with
  | None => (Ok o, a)
  | Some s =>
      match Inherit.InheritFilesForRestore (openFile env)
              (Inherit.mkRequest (Serverless o) (Attachable (req a)) (Log (req a))) (Some s) (walk_start o a) with
      | Err e => (Err e, on_Criu (λ c, c) a)
      | Ok i => (Ok (with_walk i o), on_Criu (with_InheritFd (Inherit.InheritFd i)) a)
      end
  end.
Definition InheritFilesForRestore : Adapter := before "process.InheritFilesForRestore" inherit_files.

Definition add_external_mounts (o : Opts) (a : App) : option (gores Opts * App) :=
  _ ← Criu (req a);
  Some (Ok o, on_Criu (λ c, with_ext_mounts (add_external ["mnt[]:ms"] c)) a).
Definition AddExternalMountsForRestore : Adapter :=
  before_opt "process.AddExternalMountsForRestore" add_external_mounts.

Definition with_IO (io : RunChain.Stdio) (o : Opts) : Opts :=
  mkOpts (oCRIU o) (oStorage o) (Serverless o) io (ExtraFiles o) (InheritFdMap o) (GPU_ID o).
Definition setup_io (o : Opts) (a : App) : gores Opts * App :=
  let r := req a in
  if Serverless o then (Ok (with_IO RunChain.StdOwn o), a)
  else if Attachable r then (Ok (with_IO (RunChain.StdSlave (slaveID env)) o), a)
  else if decide (Log r = "") then (Ok (with_IO RunChain.StdNone o), a)
  else match openLog env (Log r), chownLog env (Log r) with
       | Some e, _ => (Err (Status Internal ("failed to open log file: " +:+ Error e)), a)
       | None, Some e => (Err (Status Internal ("failed to change log file owner: " +:+ Error e)), a)
       | None, None => (Ok (with_IO (RunChain.StdLog (Log r)) o), a)
       end.
Definition SetupIO : Adapter := before "process.SetupIO" setup_io.

(** ** network *)

Definition detect_network (o : Opts) (a : App) : gores Opts * App :=
  let '(tcp, unix) := match RState a with Some s => Pipeline.connection_flags s | None => (false, false) end in
  (Ok o, on_Criu (with_network tcp unix) a).
Definition DetectNetworkOptionsForRestore : Adapter := before "network.DetectNetworkOptionsForRestore" detect_network.

(** ** gpu *)

(** The first adapter [gpu.Restore] inserts. *)
Definition gpu_inherit_files (o : Opts) (a : App) : gores Opts * App :=
  match Inherit.gpu_InheritFilesForRestore (gpuFiles env) (GPU_ID o) (RState a) (walk_start o a) with
  | Err e => (Err e, a)
  | Ok (i, _) => (Ok (with_walk i o), on_Criu (with_InheritFd (Inherit.InheritFd i)) a)
  end.
Definition gpu_InheritFilesForRestore : Adapter := before "gpu.InheritFilesForRestore" gpu_inherit_files.

Definition restore_mount_key (s : State) (m : Mount) : string :=
  "mnt[" +:+ MountPoint m +:+ "]:" +:+ MountSources.mountSource (hostMounts env) (Lstat env) s m.
Definition gpu_mount_keys (s : State) : list string :=
  snd (WalkTree Mounts (λ m keys, (true, if nvidia_mount (Root m) then keys ++ [restore_mount_key s m] else keys)) s []).
Definition gpu_mounts (o : Opts) (a : App) : option (gores Opts * App) :=
  match RState a with
  | None => Some (Err (Status InvalidArgument "missing state. at least PID is required in resp.state"), a)
  | Some s => _ ← Criu (req a); Some (Ok o, on_Criu (add_external (gpu_mount_keys s)) a)
  end.
Definition gpu_AddMountsForRestore : Adapter := before_opt "gpu.AddMountsForRestore" gpu_mounts.

Definition with_GPU_ID (id : string) (o : Opts) : Opts :=
  mkOpts (oCRIU o) (oStorage o) (Serverless o) (oIO o) (ExtraFiles o) (InheritFdMap o) (Some id).

(** The attachment made for the request, and the identifier. *)
Definition gpu_id (a : App) : gores (option string * string) :=
  if decide (rGPUID (req a) = "") then
    match gpuAttach env with
    | Ok id => Ok (Some id, id)
    | Err e => Err (Status Internal ("failed to attach GPU: " +:+ Error e))
    end
  else Ok (None, rGPUID (req a)).

Definition gpu_post (attached : option string) (res : gores unit) (a : App) : gores unit * App :=
  match attached, res with
  | None, r => (r, a)
  | Some id, Ok _ => (Ok (), tell_gpu (id, Some (PID a)) a)
  | Some id, Err e => (Err e, tell_gpu (id, None) a)
  end.

(** Reads the flag through the state, which may not be nil. *)
Definition gpu_Restore : Adapter := λ next, mkHandler "gpu.Restore" (λ ctx o w,
  let a := app w in
  s ← RState a;
  if GPUEnabled s then
    if gpuInstalled env then
      match gpuSync env with
      | Some e => Some (Err (Status Internal ("failed to sync GPU manager: " +:+ Error e)), w)
      | None =>
          match gpu_id a with
          | Err e => Some (Err e, w)
          | Ok (attached, id) =>
              _ ← oCRIU o;
              match run (With profiling next [gpu_InheritFilesForRestore; gpu_AddMountsForRestore]) ctx
                      (with_GPU_ID id o) (set_app (Include "gpu" a) w) with
              | None => None
              | Some (r, w') => let '(r', a') := gpu_post attached r (app w') in Some (r', set_app a' w')
              end
          end
      end
    else Some (Err (Status FailedPrecondition "Please install the GPU plugin to restore GPU support"), w)
  else run next ctx o w).

(** What plugins export for a type. *)
Context (pluginMiddleware : string → gores Middleware) (pluginHandler : string → gores Handler).
Context (pluginLate : string → gores Middleware) (pluginInterception : string → gores Adapter).
Context (reaper : string → bool) (exitChannel : bool).
(** The adapters of the file system for a storage: plain, and streaming. *)
Context (RestoreFilesystem : St → Adapter) (StreamRestoreFilesystem : Z → St → Adapter).

(** A plugin that does not export an adapter is not an error. *)
Definition InterceptionRestore : Adapter := choosing "gpu.InterceptionRestore" (λ next o a,
  match GPU_ID o with
  | None => Err (Status Internal "failed to get GPU ID from context")
  | Some id =>
      if gpuInstalled env then
        match EnsureLogDir env id with
        | Err e => Err (Status Internal ("failed to ensure GPU log dir: " +:+ Error e))
        | Ok _ =>
            if decide (RType (req a) = "process") then Ok (o, next)
            else match pluginInterception (RType (req a)) with
                 | Ok A => Ok (o, With profiling next [A])
                 | Err _ => Ok (o, next)
                 end
        end
      else Err (Status FailedPrecondition "Please install the GPU plugin for GPU C/R support")
  end).

(** Uses the identifier of the context, or a new one. *)
Context (tracerInstalled : bool) (NewUUID : string) (pluginTracing : string → gores Adapter).
Definition TracingRestore : Adapter := choosing "gpu.TracingRestore" (λ next o a,
  let id := default NewUUID (GPU_ID o) in
  if tracerInstalled then
    match EnsureLogDir env id with
    | Err e => Err (Status Internal ("failed to ensure GPU log dir: " +:+ Error e))
    | Ok _ =>
        let o := with_GPU_ID id o in
        if decide (RType (req a) = "process") then Ok (o, next)
        else match pluginTracing (RType (req a)) with
             | Ok A => Ok (o, With profiling next [A])
             | Err _ => Ok (o, next)
             end
    end
  else Err (Status FailedPrecondition "Please install the GPU/tracer plugin for GPU tracing support")).

(** ** criu *)

Definition criu_new (o : Opts) (a : App) : gores Opts * App :=
  match Pipeline.criu_path (criuAnswers env) with
  | None => (Err (Status FailedPrecondition
               "Please install CRIU plugin, or specify path in config or env var."), a)
  | Some path =>
      match Pipeline.first_error (Pipeline.CheckFeatures (criuAnswers env)) with
      | Some e => (Err (Status Unavailable ("CRIU is not functional: " +:+ e)), a)
      | None => (Ok (mkOpts (Some path) (oStorage o) (Serverless o) (oIO o) (ExtraFiles o) (InheritFdMap o) (GPU_ID o)), a)
      end
  end.
Definition criu_New : Adapter := before "criu.New" criu_new.

(** The options [CheckOpts] looks at. *)
Definition checked (c : COpts) : Pipeline.COpts :=
  Pipeline.mkCOpts None None None None None None None [] None None None (LsmProfile c) (LsmMountContext c) "" 0.
Definition check_opts (o : Opts) (a : App) : option (gores Opts * App) :=
  c ← Criu (req a);
  Some match Pipeline.CheckOpts (criuAnswers env) (checked c) with
       | Some e => (Err (Status FailedPrecondition ("CRIU compatibility check failed: " +:+ Error e)), a)
       | None => (Ok o, a)
       end.
Definition CheckOptsForRestore : Adapter := before_opt "criu.CheckOptsForRestore" check_opts.

(** The handler [criu.Restore]: log options and profiling are left out, and so is
    waiting for a zombie after a failure. *)
Definition criu_Restore : Handler := mkHandler "criu.Restore" (λ _ o w,
  let a := app w in
  match Criu (req a) with
  | None => Some (Err (Status InvalidArgument "criu options is nil"), w)
  | Some c =>
      match Pipeline.criuVersion (criuAnswers env) with
      | Err e => Some (Err (Status Internal ("failed to get CRIU version: " +:+ Error e)), w)
      | Ok _ =>
          let s := default Pipeline.empty_State (RState a) in
          match UIDs s, GIDs s with
          | uid :: _, gid :: _ =>
              match ChownAll env (ImagesDir c) uid gid with
              | Some e => Some (Err (Status Internal ("failed to change ownership of dump directory: " +:+ Error e)), w)
              | None =>
                  if reaper (RType (req a)) && negb (bool_decide (RType (req a) = "process")) && negb exitChannel then
                    Some (Err (Status Internal ("exit code channel must be set by now since plugin '" +:+
                                 RType (req a) +:+ "' is a reaper")), w)
                  else
                    let w := set_app (called (c, ExtraFiles o, oIO o) a) w in
                    match criuRestore env c (ExtraFiles o) (oIO o) with
                    | Err e => Some (Err (Status Internal ("failed CRIU restore: " +:+ Error e)), w)
                    | Ok pid => Some (Ok (), set_app (set_PID (uint32 pid) (app w)) w)
                    end
              end
          | _, _ => Some (Err (Status Internal "missing UIDs/GIDs in process state"), w)
          end
      end
  end).

(** ** job *)

Definition Merge_process (p q : option RunChain.Process) : option RunChain.Process :=
  match p, q with
  | Some p, Some q => Some (RunChain.mkProcess
      (if decide (RunChain.pPath q = "") then RunChain.pPath p else RunChain.pPath q)
      (RunChain.pArgs p ++ RunChain.pArgs q)
      (if decide (RunChain.pPID q = 0)%Z then RunChain.pPID p else RunChain.pPID q))
  | Some p, None => Some p
  | None, q => q
  end.
(** [proto.Merge] *)
Definition Merge (d : RunChain.Details) (s : option RunChain.Details) : RunChain.Details :=
  match s with
  | None => d
  | Some s => RunChain.mkDetails (if decide (RunChain.dJID s = "") then RunChain.dJID d else RunChain.dJID s)
                (Merge_process (RunChain.dProcess d) (RunChain.dProcess s))
  end.

(** The name of the job: that of the request, or a new job for an attachable
    restore, for which the details may not be nil. *)
Definition restore_job (a : App) : option (gores string * App) :=
  let r := req a in
  match match RDetails r with Some d => RunChain.dJID d | None => "" end with
  | EmptyString =>
      if Attachable r then
        d ← RDetails r;
        let jid := GetName env in
        let a := set_req (mkReq (Path r) (RType r) (Some (RunChain.mkDetails jid (RunChain.dProcess d))) (Log r)
                            (Attachable r) (PidFile r) (rGPUID r) (Criu r)) a in
        if decide (jid = "") then Some (Err (Status Internal "failed to create new job: missing JID"), a)
        else if jobs a !! jid is Some _ then
          Some (Err (Status Internal ("failed to create new job: job " +:+ jid +:+ " already exists")), a)
        else Some (Ok jid, set_jobs (<[jid := mkJob (RType r) "" None 0 false]> (jobs a)) a)
      else Some (Err (Status InvalidArgument "missing JID in managed restore"), a)
  | jid => Some (Ok jid, a)
  end.

Definition manage_pre (o : Opts) (a : App) : option (gores (string * Opts) * App) :=
  match restore_job a with
  | None => None
  | Some (Err e, a) => Some (Err e, a)
  | Some (Ok jid, a) =>
      match jobs a !! jid with
      | None => Some (Err (Status NotFound ("job " +:+ jid +:+ " not found")), a)
      | Some j =>
          if jRunning j then Some (Err (Status FailedPrecondition ("job " +:+ jid +:+ " is already running")), a)
          else
            let r := req a in
            let log := if Attachable r then Log r
                       else if decide (Log r = "") then
                         if decide (jLog j = "") then RunChain.log_path jid else jLog j
                       else Log r in
            let d := match jDetails j with Some d => Some (Merge d (RDetails r)) | None => RDetails r end in
            let path := if decide (Path r = "") then latestCheckpoint env jid else Path r in
            let r := mkReq path (jType j) d log (Attachable r) (PidFile r) (rGPUID r)
                       (if decide (path = "") then Criu r else Some (default empty_opts (Criu r))) in
            let a := set_req r a in
            if decide (path = "") then
              Some (Err (Status FailedPrecondition ("job " +:+ jid +:+ " has no saved checkpoint. pass in path to override")), a)
            else Some (Ok (jid, o), a)
      end
  end.

Definition SetDetails (jid : string) (d : RunChain.Details) : Job → Job := λ j,
  mkJob (jType j) (jLog j) (Some (RunChain.mkDetails jid (RunChain.dProcess d))) (jPID j) (jRunning j).
Definition SetLog (l : string) : Job → Job := λ j, mkJob (jType j) l (jDetails j) (jPID j) (jRunning j).
Definition SetPID (pid : Z) : Job → Job := λ j, mkJob (jType j) (jLog j) (jDetails j) pid (IsRunning env pid).

Definition jobs_Find (pid : Z) (table : gmap string Job) : option string :=
  head (omap (λ kv, if decide (jPID kv.2 = pid) then Some kv.1 else None) (map_to_list table)).
Definition jobs_Manage (jid : string) (pid : Z) (table : gmap string Job) : gores (gmap string Job) :=
  if table !! jid is None then Err (Errorf ("job " +:+ jid +:+ " does not exist. was it initialized?"))
  else if decide (pid = 0)%Z then Err (Errorf ("invalid PID 0 for job " +:+ jid))
  else match jobs_Find pid table with
       | Some other =>
           if decide (other = jid) then Ok (alter (SetPID pid) jid table)
           else Err (Errorf ("PID " +:+ itoaZ pid +:+ " is already being managed under job " +:+ jid))
       | None => Ok (alter (SetPID pid) jid table)
       end.

Definition manage_post (jid : string) (res : gores unit) (a : App) : option (gores unit * App) :=
  match res with
  | Err e => Some (Err e, cancel a)
  | Ok _ =>
      d ← RDetails (req a);
      let table := alter (SetLog (Log (req a)) ∘ SetDetails jid d) jid (jobs a) in
      Some match jobs_Manage jid (PID a) table with
           | Ok table => (Ok (), set_jobs table a)
           | Err e => (Err (Status Internal ("failed to manage restored job: " +:+ Error e)), cancel (set_jobs table a))
           end
  end.
Definition ManageRestore : Adapter := around "job.ManageRestore" manage_pre manage_post.

(** ** The chain *)

Definition pluginRestoreMiddleware : Adapter := choosing "cedana.pluginRestoreMiddleware" (λ next o a,
  if decide (RType (req a) = "process") then Ok (o, With profiling next [DetectShellJobForRestore])
  else match pluginMiddleware (RType (req a)) with
       | Err e => Err (Status Unimplemented (Error e))
       | Ok m => Ok (o, With profiling next m)
       end).

Definition with_storage (st : St) (o : Opts) : Opts :=
  mkOpts (oCRIU o) (Some st) (Serverless o) (oIO o) (ExtraFiles o) (InheritFdMap o) (GPU_ID o).

Definition pluginRestoreStorage : Adapter := choosing "cedana.pluginRestoreStorage" (λ next o a,
  match Pipeline.choose_storage (criuAnswers env) (Path (req a)) with
  | Err e => Err (Status Unavailable (Error e))
  | Ok st =>
      match IsStreamable env st (Path (req a)) with
      | Err e => Err (Status Internal ("failed to detect restore filesystem to use: " +:+ Error e))
      | Ok streams =>
          if decide (streams = 1)%Z then Err (Status Internal "A minimum of 2 streams is required by streaming.")
          else Ok (with_storage st o,
                   With profiling next [if decide (1 < streams)%Z then StreamRestoreFilesystem streams st
                                        else RestoreFilesystem st])
      end
  end).

Definition pluginRestoreHandler : Handler := mkHandler "cedana.pluginRestoreHandler" (λ ctx o w,
  let a := app w in
  let t := RType (req a) in
  let h := if decide (t = "process") then criu_Restore
           else let h := match pluginHandler t with Ok h => h | Err _ => criu_Restore end in
                match pluginLate t with Ok m => With profiling h m | Err _ => h end in
  let h := if (match RState a with Some s => GPUEnabled s | None => false end)
           then With profiling h [InterceptionRestore] else h in
  run h ctx o w).

Definition restore_middleware : Middleware := [
  FillMissingRestoreDefaults; ValidateRestoreRequest; WritePIDFileForRestore;
  pluginRestoreStorage;
  ReloadProcessStateForRestore; DetectNetworkOptionsForRestore; gpu_Restore;
  pluginRestoreMiddleware;
  InheritFilesForRestore; AddExternalMountsForRestore; SetupIO; CheckOptsForRestore
].

Definition restore_chain (managed : bool) : Handler :=
  let restore := With profiling pluginRestoreHandler restore_middleware in
  let restore := if managed then With profiling restore [ManageRestore] else restore in
  With profiling restore [criu_New].

Definition is_managed (a : App) : bool :=
  negb (bool_decide (match RDetails (req a) with Some d => RunChain.dJID d | None => "" end = "")) || Attachable (req a).

(** [Server.Restore] and [Cedana.Restore]. *)
Definition Restore (ctx : Ctx) (w : World App) : option (gores unit * World App) :=
  match run (restore_chain (is_managed (app w))) ctx (mkOpts None None false RunChain.StdNone [] ∅ None) w with
  | Some (Ok _, w') =>
      Some (Ok (), set_app (add_Messages ["Restored successfully, PID: " +:+ itoaZ (PID (app w'))] (app w')) w')
  | r => r
  end.
Definition Restore_serverless (ctx : Ctx) (w : World App) : option (gores unit * World App) :=
  run (restore_chain false) ctx (mkOpts None None true RunChain.StdNone [] ∅ None) w.
End restore.
End RestoreChain.
