(* ===== verification/RestoreSpec.v ===== *)
(** * What a restore request does

    Theorems about the chain of [RestoreChain]: the one call of CRIU and its
    options, what happens to the job, and that a restore finds what the dump of
    [DumpSpec] put aside. *)

From Stdlib Require Import Ascii.
From S2P Require Import Prelude GoLib Profiling Types Adapters ProcessTree Inherit Pipeline RunChain DumpSpec RestoreChain.
Import GoLib Profiling Types Adapters ProcessTree RestoreChain.

Module RestoreSpec.

#[local] Arguments String.append : simpl never.
#[local] Arguments Inherit.InheritFilesForRestore : simpl never.

(** What the chain relies on of an adapter of the file system: it fails, or calls
    the next handler once with the images directory filled in. *)
Class RestoreFs {St} (A : Adapter (Opts St) App unit) : Prop :=
  restore_fs next ctx o w :
    (∃ e w', run (A next) ctx o w = Some (Err e, w') ∧ app w' = app w) ∨
    ∃ dir w1, app w1 = on_Criu (with_images dir) (app w) ∧
      ∀ r w2, run next ctx o w1 = Some (r, w2) →
        ∃ r' w3, run (A next) ctx o w = Some (r', w3) ∧ app w3 = app w2 ∧ (r' = Ok () → r = Ok ()).

Lemma wp_restore_fs {St} (A : Adapter (Opts St) App unit) `{!RestoreFs A} next o a (Post : gores unit → App → Prop) :
  (∀ e, Post (Err e) a) →
  (∀ dir, wp next o (on_Criu (with_images dir) a) (λ r a', (r = Ok () → Post (Ok ()) a') ∧ ∀ e, Post (Err e) a')) →
  wp (A next) o a Post.
Proof.
  intros He Hok ctx w Hw. destruct (restore_fs next ctx o w) as [(e & w' & -> & Ha)|H].
  - eexists _, _. split; [done|]. rewrite Ha Hw. apply He.
  - destruct H as (dir & w1 & Hw1 & H). rewrite Hw in Hw1.
    destruct (Hok dir ctx w1 Hw1) as (r & w2 & Hr & H1 & H2).
    destruct (H r w2 Hr) as (r' & w3 & -> & Ha & Hr'). eexists _, _. split; [done|]. rewrite Ha.
    destruct r' as [[]|e]; [by apply H1, Hr'|apply H2].
Qed.

Section process.
Context {St : Type} (env : Env St) (profiling : bool).
Context (pluginMiddleware : string → gores (Middleware (Opts St) App unit)).
Context (pluginHandler : string → gores (Handler (Opts St) App unit)).
Context (pluginLate : string → gores (Middleware (Opts St) App unit)).
Context (pluginInterception : string → gores (Adapter (Opts St) App unit)).
Context (reaper : string → bool) (exitChannel : bool).
Context (RestoreFilesystem : St → Adapter (Opts St) App unit).
Context (StreamRestoreFilesystem : Z → St → Adapter (Opts St) App unit).
Context {fs_ok : ∀ st, RestoreFs (RestoreFilesystem st)} {stream_ok : ∀ n st, RestoreFs (StreamRestoreFilesystem n st)}.

Abbreviation handler :=
  (pluginRestoreHandler env profiling pluginHandler pluginLate pluginInterception reaper exitChannel).

(** ** The handler *)

(** What the adapters leave alone. *)
Definition frame (a : App) : RestoreReq * gmap string Job * bool * list string :=
  (set_Criu None (req a), jobs a, cancelled a, Messages a).

(** The end of the chain calls CRIU at most once, with the options it gets. *)
Definition handled (a0 : App) (c : COpts) (extra : list (option string)) (io : RunChain.Stdio)
    (r : gores unit) (a : App) : Prop :=
  frame a = frame a0 ∧ gpuTold a = gpuTold a0 ∧
  ((r ≠ Ok () ∧ criuCalls a = criuCalls a0) ∨
   (criuCalls a = criuCalls a0 ++ [(c, extra, io)] ∧
    (r = Ok () → ∃ pid, criuRestore env c extra io = Ok pid ∧ PID a = uint32 pid))).

Lemma wp_criu_Restore o a c :
  Criu (req a) = Some c → wp (criu_Restore env reaper exitChannel) o a (handled a c (ExtraFiles o) (oIO o)).
Proof.
  intros Hc ctx w Hw. cbn [criu_Restore run]. rewrite Hw Hc.
  destruct (Pipeline.criuVersion _); [|wp_returns Hw; split_and!; try done; by left].
  set (s := default _ _). destruct (UIDs s) as [|uid us], (GIDs s) as [|gid gs];
    [wp_returns Hw; split_and!; try done; by left..|].
  destruct (ChownAll env _ uid gid); [wp_returns Hw; split_and!; try done; by left|].
  destruct (_ && _); [wp_returns Hw; split_and!; try done; by left|].
  destruct (criuRestore env _ _ _) as [pid|e] eqn:Hr; eexists _, _; (split; [reflexivity|]); (split_and!; try done);
    right; (split; [done|]); [|done]. intros _. by exists pid.
Qed.

Lemma handled_fails a c extra io e : handled a c extra io (Err e) a.
Proof. split_and!; try done. by left. Qed.

Lemma wp_restore_handler o a c :
  RType (req a) = "process" → Criu (req a) = Some c → wp handler o a (handled a c (ExtraFiles o) (oIO o)).
Proof.
  intros Ht Hc ctx w Hw. cbn [pluginRestoreHandler run]. rewrite Hw Ht.
  destruct (decide _) as [_|Hn]; [|by destruct Hn].
  set (gpu := match RState a with Some s => GPUEnabled s | None => false end).
  destruct gpu; [|by apply (wp_criu_Restore o a c)]. revert ctx w Hw.
  apply wp_With_cons, wp_choosing. destruct (GPU_ID o) as [id|]; [|apply handled_fails].
  destruct (gpuInstalled env); [|apply handled_fails]. destruct (EnsureLogDir env id); [|apply handled_fails].
  rewrite Ht. destruct (decide _) as [_|Hn]; [|by destruct Hn]. by apply wp_With_nil, wp_criu_Restore.
Qed.

(** ** The adapters after the GPU *)

(** The request of the walk over the files. *)
Definition walk_req (o : Opts St) (a : App) : Inherit.Request :=
  Inherit.mkRequest (Serverless o) (Attachable (req a)) (Log (req a)).

(** CRIU is called at most once, for options that were [c] when the state [s]
    was inspected, with the files of a walk that started at [start]. *)
Definition inherited (a0 : App) (wr : Inherit.Request) (s : State) (start : Inherit.IState) (c : COpts)
    (r : gores unit) (a : App) : Prop :=
  frame a = frame a0 ∧ gpuTold a = gpuTold a0 ∧
  ((r ≠ Ok () ∧ criuCalls a = criuCalls a0) ∨
   ∃ i io, Inherit.InheritFilesForRestore (openFile env) wr (Some s) start = Ok i ∧
     let c' := with_ext_mounts (add_external ["mnt[]:ms"]
       (with_InheritFd (Inherit.InheritFd i) (with_shell_job (negb (bool_decide (SID s = ProcessTree.PID s))) c))) in
     criuCalls a = criuCalls a0 ++ [(c', Inherit.ExtraFiles i, io)] ∧
     (r = Ok () → ∃ pid, criuRestore env c' (Inherit.ExtraFiles i) io = Ok pid ∧ PID a = uint32 pid)).

Lemma inherited_fails a wr s start c e a' :
  frame a' = frame a → gpuTold a' = gpuTold a → criuCalls a' = criuCalls a → inherited a wr s start c (Err e) a'.
Proof. intros. split_and!; try done. by left. Qed.

Lemma wp_after_gpu o a s c :
  RType (req a) = "process" → Criu (req a) = Some c → RState a = Some s →
  wp (With profiling handler
       [pluginRestoreMiddleware profiling pluginMiddleware; InheritFilesForRestore env; AddExternalMountsForRestore;
        SetupIO env; CheckOptsForRestore env]) o a
     (inherited a (walk_req o a) s (Inherit.mkI (ExtraFiles o) (InheritFdMap o) (InheritFd c) ∅ [] None) c).
Proof.
  intros Ht Hc Hs. apply wp_With_cons, wp_choosing. rewrite Ht. destruct (decide _) as [_|Hn]; [|by destruct Hn].
  apply wp_With_cons, wp_before. rewrite /detect_shell_job Hs. set (b := negb _).
  apply wp_With_nil, wp_With_cons, wp_before. rewrite /inherit_files /= Hs /walk_start /= Hc /=.
  destruct (Inherit.InheritFilesForRestore _ _ _ _) as [i|e] eqn:Hi; [|by apply inherited_fails].
  apply wp_With_cons, wp_before_opt. rewrite /add_external_mounts /=. set (a1 := on_Criu _ _).
  set (c' := with_ext_mounts (add_external ["mnt[]:ms"] (with_InheritFd (Inherit.InheritFd i) (with_shell_job b c)))).
  assert (Criu (req a1) = Some c') as Hc' by by rewrite /= Hc.
  assert (∀ io, wp (With profiling handler [CheckOptsForRestore env]) (with_IO io (with_walk i o)) a1
    (inherited a (walk_req o a) s (Inherit.mkI (ExtraFiles o) (InheritFdMap o) (InheritFd c) ∅ [] None) c)) as H.
  { intros io. apply wp_With_cons, wp_before_opt. rewrite /check_opts Hc' /=.
    destruct (Pipeline.CheckOpts _ _); [by apply inherited_fails|].
    eapply wp_mono; [|by apply wp_With_nil, (wp_restore_handler _ _ c')].
    intros r a' (Hf & Hg & H). split; [by rewrite Hf|]. split; [by rewrite Hg|].
    destruct H as [?|[? ?]]; [by left|]. right. by exists i, io. }
  apply wp_With_cons, wp_before. rewrite /setup_io. destruct (Serverless _); [apply H|].
  destruct (Attachable _); [apply H|]. case_decide; [apply H|].
  destruct (openLog env _); [by apply inherited_fails|]. destruct (chownLog env _); [by apply inherited_fails|apply H].
Qed.

(** ** The GPU *)

(** How the walk over the files and the options start, after the adapters the GPU
    inserts: a process without a GPU starts with what the request has. *)
Definition gpu_start (s : State) (start0 : Inherit.IState) (c0 : COpts) (start : Inherit.IState) (c : COpts) : Prop :=
  if GPUEnabled s then
    ∃ id g dir, Inherit.gpu_InheritFilesForRestore (gpuFiles env) (Some id) (Some s) start0 = Ok (g, dir) ∧
      start = Inherit.mkI (Inherit.ExtraFiles g) (Inherit.InheritFdMap g) (Inherit.InheritFd g) ∅ [] None ∧
      c = add_external (gpu_mount_keys env s) (with_InheritFd (Inherit.InheritFd g) c0)
  else start = start0 ∧ c = c0.

(** What the GPU attached for the restore is told. *)
Definition told (s : State) (a0 : App) (r : gores unit) (a : App) : Prop :=
  if GPUEnabled s && bool_decide (rGPUID (req a0) = "") then
    match r with
    | Ok _ => ∃ id, gpuAttach env = Ok id ∧ gpuTold a = gpuTold a0 ++ [(id, Some (PID a))]
    | Err _ => gpuTold a = gpuTold a0 ∨ ∃ id, gpuAttach env = Ok id ∧ gpuTold a = gpuTold a0 ++ [(id, None)]
    end
  else gpuTold a = gpuTold a0.

(** CRIU is called at most once, after the adapters of the GPU. *)
Definition calls_CRIU (a0 : App) (wr : Inherit.Request) (s : State) (start0 : Inherit.IState) (c0 : COpts)
    (r : gores unit) (a : App) : Prop :=
  (r ≠ Ok () ∧ criuCalls a = criuCalls a0) ∨
  ∃ start c i io, gpu_start s start0 c0 start c ∧
    Inherit.InheritFilesForRestore (openFile env) wr (Some s) start = Ok i ∧
    let c' := with_ext_mounts (add_external ["mnt[]:ms"]
      (with_InheritFd (Inherit.InheritFd i) (with_shell_job (negb (bool_decide (SID s = ProcessTree.PID s))) c))) in
    criuCalls a = criuCalls a0 ++ [(c', Inherit.ExtraFiles i, io)] ∧
    (r = Ok () → ∃ pid, criuRestore env c' (Inherit.ExtraFiles i) io = Ok pid ∧ PID a = uint32 pid).

Lemma inherited_calls a0 a1 wr s start0 c0 start c r a :
  criuCalls a1 = criuCalls a0 → gpu_start s start0 c0 start c → inherited a1 wr s start c r a →
  calls_CRIU a0 wr s start0 c0 r a.
Proof.
  intros Hc Hstart (_ & _ & H). rewrite /calls_CRIU -Hc.
  destruct H as [?|(i & io & H)]; [by left|]. right. by exists start, c, i, io.
Qed.

Abbreviation tail_adapters :=
  [pluginRestoreMiddleware profiling pluginMiddleware; InheritFilesForRestore env; AddExternalMountsForRestore;
   SetupIO env; CheckOptsForRestore env].

Lemma wp_gpu_adapters o a s c0 id :
  RType (req a) = "process" → Criu (req a) = Some c0 → RState a = Some s → GPUEnabled s = true → GPU_ID o = Some id →
  let start0 := Inherit.mkI (ExtraFiles o) (InheritFdMap o) (InheritFd c0) ∅ [] None in
  wp (With profiling (With profiling handler tail_adapters) [gpu_InheritFilesForRestore env; gpu_AddMountsForRestore env]) o a
     (λ r a', frame a' = frame a ∧ gpuTold a' = gpuTold a ∧ calls_CRIU a (walk_req o a) s start0 c0 r a').
Proof.
  intros Ht Hc Hs Hg Hid start0. apply wp_With_cons, wp_before. rewrite /gpu_inherit_files /walk_start Hid Hs Hc.
  change (default empty_opts (Some c0)) with c0. fold start0.
  destruct (Inherit.gpu_InheritFilesForRestore _ _ _ _) as [[g dir]|e] eqn:Hgi; [|by split_and!; try done; left].
  apply wp_With_cons, wp_before_opt. rewrite /gpu_mounts /= Hs.
  set (o1 := with_walk g o). set (a1 := on_Criu (add_external _) _).
  set (c1 := add_external (gpu_mount_keys env s) (with_InheritFd (Inherit.InheritFd g) c0)).
  assert (Criu (req a1) = Some c1) as Hc1 by by rewrite /= Hc.
  eapply wp_mono; [|by apply wp_With_nil, (wp_after_gpu o1 a1 s c1)].
  intros r a' H. split; [apply H|]. split; [apply H|]. eapply inherited_calls; [|..|exact H]; [done|].
  rewrite /gpu_start Hg. exists id, g, dir. by split_and!.
Qed.

(** From the adapter of the GPU on. *)
Definition restored_from (a0 : App) (wr : Inherit.Request) (s : State) (start0 : Inherit.IState) (c0 : COpts)
    (r : gores unit) (a : App) : Prop :=
  frame a = frame a0 ∧ told s a0 r a ∧ calls_CRIU a0 wr s start0 c0 r a.

Lemma restored_fails a wr s start0 c0 e : restored_from a wr s start0 c0 (Err e) a.
Proof.
  split; [done|]. split; [|by left]. rewrite /told. destruct (_ && _); [by left|done].
Qed.

Lemma wp_from_gpu o a s c0 :
  RType (req a) = "process" → Criu (req a) = Some c0 → RState a = Some s → oCRIU o ≠ None →
  wp (With profiling handler (gpu_Restore env profiling :: tail_adapters)) o a
     (restored_from a (walk_req o a) s (Inherit.mkI (ExtraFiles o) (InheritFdMap o) (InheritFd c0) ∅ [] None) c0).
Proof.
  intros Ht Hc Hs Ho. set (start0 := Inherit.mkI _ _ _ _ _ _). apply wp_With_cons. intros ctx w Hw.
  cbn [gpu_Restore run]. rewrite Hw Hs /=. destruct (GPUEnabled s) eqn:Hg; cycle 1.
  { revert ctx w Hw. eapply wp_mono; [|by apply wp_after_gpu]. intros r a' H.
    split; [apply H|]. split; [rewrite /told Hg; apply H|].
    eapply inherited_calls; [|..|exact H]; [done|]. by rewrite /gpu_start Hg. }
  destruct (gpuInstalled env); [|wp_returns Hw; apply restored_fails].
  destruct (gpuSync env); [wp_returns Hw; apply restored_fails|].
  destruct (gpu_id env a) as [[att id]|e] eqn:Hid; [|wp_returns Hw; apply restored_fails].
  destruct (oCRIU o) as [p|] eqn:HO; [|done]. simpl.
  set (o1 := with_GPU_ID id o). set (a1 := Include "gpu" a).
  destruct (wp_gpu_adapters o1 a1 s c0 id Ht Hc Hs Hg eq_refl ctx (set_app a1 w) eq_refl) as (r & w' & -> & Hf & Ht' & H).
  destruct (gpu_post att r (app w')) as [r' a'] eqn:Hp. eexists _, _. split; [done|]. simpl.
  move: Hid. rewrite /gpu_id. case_decide as Hi.
  - destruct (gpuAttach env) as [id'|e] eqn:Ha; [|done]. intros [= <- <-].
    destruct r as [[]|e]; injection Hp as <- <-; (split; [done|]); (split; [|exact H]);
      rewrite /told Hg bool_decide_true //= Ht'; [by exists id'|]. right. by exists id'.
  - intros [= <- _]. injection Hp as <- <-. split; [done|]. split; [|exact H].
    by rewrite /told Hg bool_decide_false.
Qed.

(** ** The whole middleware *)

Definition job_frame (a : App) : RestoreReq * gmap string Job * bool := (set_Criu None (req a), jobs a, cancelled a).

(** The options before the GPU and the files are looked at. *)
Definition base_opts (a : App) (s : State) (dir : string) : COpts :=
  with_network (DumpSpec.has_type_1 s) (DumpSpec.has_type_1 s)
    (with_images dir (with_defaults (cfgCgroupsMode env) (default empty_opts (Criu (req a))))).

Definition restored (a0 : App) (wr : Inherit.Request) (r : gores unit) (a : App) : Prop :=
  job_frame a = job_frame a0 ∧
  ((r ≠ Ok () ∧ criuCalls a = criuCalls a0) ∨
   ∃ s dir, let c0 := base_opts a0 s dir in
     LoadState env dir = Ok s ∧ (r = Ok () → told s a0 (Ok ()) a) ∧
     calls_CRIU a0 wr s (Inherit.mkI [] ∅ (InheritFd c0) ∅ [] None) c0 r a).

Lemma restored_early a0 a wr e :
  job_frame a = job_frame a0 → criuCalls a = criuCalls a0 → restored a0 wr (Err e) a.
Proof. intros Hf Hc. split; [done|by left]. Qed.

(** An error of the file system after the restore. *)
Lemma restored_late a0 wr r a :
  restored a0 wr r a → (r = Ok () → restored a0 wr (Ok ()) a) ∧ ∀ e, restored a0 wr (Err e) a.
Proof.
  intros [Hf H]. split; [by intros ->|]. intros e. split; [done|].
  destruct H as [[_ ?]|(s & dir & Hl & _ & H)]; [by left|].
  destruct H as [[_ ?]|(start & c & i & io & ? & ? & ? & _)]; [by left|].
  right. exists s, dir. split; [done|]. split; [done|]. right. exists start, c, i, io. by split_and!.
Qed.

Lemma wp_after_restore_storage o a a0 dir :
  RType (req a) = "process" → oCRIU o ≠ None → ExtraFiles o = [] → InheritFdMap o = ∅ →
  job_frame a = job_frame a0 → criuCalls a = criuCalls a0 → gpuTold a = gpuTold a0 →
  Criu (req a) = Some (with_images dir (with_defaults (cfgCgroupsMode env) (default empty_opts (Criu (req a0))))) →
  wp (With profiling handler ([ReloadProcessStateForRestore env; DetectNetworkOptionsForRestore; gpu_Restore env profiling] ++
        tail_adapters)) o a (restored a0 (walk_req o a0)).
Proof.
  intros Ht Ho Hx Hm Hf Hcalls Htold Hc. apply wp_With_cons, wp_before. rewrite /reload_state Hc /=.
  case_decide; [by apply restored_early|]. destruct (LoadState env dir) as [s|e] eqn:Hl; [|by apply restored_early].
  apply wp_With_cons, wp_before. rewrite /detect_network /= DumpSpec.connection_flags_eq. set (a1 := on_Criu _ _).
  assert (Criu (req a1) = Some (base_opts a0 s dir)) as Hc1 by by rewrite /= Hc.
  eapply wp_mono; [|by apply (wp_from_gpu o a1 s _ Ht Hc1)]. rewrite Hx Hm.
  intros r a' (Hf' & Ht' & H').
  pose proof (f_equal (λ t, t.1.1) Hf : set_Criu None (req a) = set_Criu None (req a0)) as Hr.
  assert (walk_req o a1 = walk_req o a0 ∧ rGPUID (req a1) = rGPUID (req a0)) as [Hwr Hid].
  { rewrite /walk_req /=. by injection Hr as _ _ _ -> -> _ ->. }
  split.
  - rewrite -Hf. exact (f_equal fst Hf').
  - right. exists s, dir. split; [done|]. rewrite Hwr in H'. split.
    + intros ->. move: Ht'. rewrite /told Hid /= Htold. done.
    + move: H'. by rewrite /calls_CRIU /= Hcalls.
Qed.

Lemma wp_restore_middleware o a :
  RType (req a) = "process" → oCRIU o ≠ None → ExtraFiles o = [] →
  wp (With profiling handler (restore_middleware env profiling pluginMiddleware RestoreFilesystem StreamRestoreFilesystem))
    o a (restored a (walk_req o a)).
Proof.
  intros Ht Ho Hx. apply wp_With_cons, wp_before. rewrite /fill_restore_defaults. set (o1 := mkOpts _ _ _ _ _ _ _).
  set (a1 := on_Criu _ a). apply wp_With_cons, wp_before. rewrite /validate_restore.
  do 2 (case_decide; [by apply restored_early|]).
  apply wp_With_cons, wp_around. apply (wp_mono _ _ _ (restored a (walk_req o a))).
  { intros r a' HR. rewrite /write_pid_file. destruct r as [[]|e]; [|done]. case_decide; [done|].
    by destruct (createFile env _). }
  apply wp_With_cons, wp_choosing. destruct (Pipeline.choose_storage _ _) as [st|e]; [|by apply restored_early].
  destruct (IsStreamable env st _) as [streams|e]; [|by apply restored_early].
  case_decide; [by apply restored_early|]. set (A := if decide (1 < streams)%Z then _ else _).
  assert (RestoreFs A) as HA by (rewrite /A; case_decide; apply _). clearbody A.
  apply wp_With_cons, wp_restore_fs; [done|by intros e; apply restored_early|]. intros dir.
  change (walk_req o a) with (walk_req (with_storage st o1) a).
  eapply wp_mono; [apply restored_late|]. by apply wp_With_nil, (wp_after_restore_storage _ _ _ dir).
Qed.

Lemma wp_restore_criu_New next o a Post :
  (∀ e, Post (Err e) a) →
  (∀ p, wp next (mkOpts (Some p) (oStorage o) (Serverless o) (oIO o) (ExtraFiles o) (InheritFdMap o) (GPU_ID o)) a Post) →
  wp (criu_New env next) o a Post.
Proof.
  intros He Hok. apply wp_before. rewrite /criu_new. destruct (Pipeline.criu_path _) as [p|]; [|apply He].
  destruct (Pipeline.first_error _); [apply He|apply Hok].
Qed.


(** ** Restores of jobs *)

(** The request [ManageRestore] makes for a job. *)
Definition job_request (r : RestoreReq) (jid : string) (j : Job) : RestoreReq :=
  mkReq (if decide (Path r = "") then latestCheckpoint env jid else Path r) (jType j)
    (match jDetails j with Some d => Some (Merge d (RDetails r)) | None => RDetails r end)
    (if Attachable r then Log r
     else if decide (Log r = "") then if decide (jLog j = "") then RunChain.log_path jid else jLog j else Log r)
    (Attachable r) (PidFile r) (rGPUID r) (Some (default empty_opts (Criu r))).

(** The job after its restore with a PID. *)
Definition restored_job (r : RestoreReq) (jid : string) (j : Job) (pid : Z) : Job :=
  let r := job_request r jid j in
  mkJob (jType j) (Log r) (RunChain.mkDetails jid <$> (RunChain.dProcess <$> RDetails r)) pid (IsRunning env pid).

Lemma manage_post_cases jid r a0 a d j :
  RDetails (req a) = Some d → jobs a = jobs a0 → jobs a0 !! jid = Some j →
  ∃ r' a', manage_post env jid r a = Some (r', a') ∧
    (criuCalls a' = criuCalls a ∧ PID a' = PID a ∧ is_Some (jobs a' !! jid) ∧
     match r with
     | Err e => r' = Err e ∧ jobs a' = jobs a0
     | Ok _ =>
         match r' with
         | Ok _ => PID a ≠ 0%Z ∧ jobs a' = <[jid := SetPID env (PID a) (SetLog (Log (req a)) (SetDetails jid d j))]> (jobs a0)
         | Err _ => PID a = 0%Z ∨ ∃ jid' j', jid' ≠ jid ∧ jobs a0 !! jid' = Some j' ∧ jPID j' = PID a
         end
     end).
Proof using.
  intros Hd Hj Hjid. rewrite /manage_post. destruct r as [[]|e]; [|by eexists _, _; split; [done|]; rewrite /= Hj Hjid].
  rewrite Hd Hj /=. set (j1 := SetLog (Log (req a)) (SetDetails jid d j)).
  assert (alter (SetLog (Log (req a)) ∘ SetDetails jid d) jid (jobs a0) = <[jid := j1]> (jobs a0)) as ->.
  { apply map_eq. intros k. destruct (decide (k = jid)) as [->|Hne].
    - by rewrite lookup_alter_eq lookup_insert_eq Hjid.
    - by rewrite lookup_alter_ne // lookup_insert_ne. }
  rewrite /jobs_Manage lookup_insert_eq. case_decide as H0; [eexists _, _; split; [done|]; split_and!; [done..|by rewrite /= lookup_insert_eq|by left]|].
  assert (alter (SetPID env (PID a)) jid (<[jid := j1]> (jobs a0)) = <[jid := SetPID env (PID a) j1]> (jobs a0)) as Ha
    by by rewrite alter_insert_eq.
  destruct (jobs_Find _ _) as [other|] eqn:Hf; [case_decide as Ho|].
  - eexists _, _. split; [done|]. by rewrite /= Ha lookup_insert_eq.
  - eexists _, _. split; [done|]. split_and!; [done..|by rewrite /= lookup_insert_eq|]. right. apply map_find_Some in Hf.
    destruct Hf as (j' & Hj' & Hp). rewrite lookup_insert_ne // in Hj'. by exists other, j'.
  - eexists _, _. split; [done|]. by rewrite /= Ha lookup_insert_eq.
Qed.

Lemma job_frame_req a a0 :
  job_frame a = job_frame a0 → RDetails (req a) = RDetails (req a0) ∧ Log (req a) = Log (req a0) ∧ jobs a = jobs a0.
Proof using.
  intros Hf. pose proof (f_equal (λ t, RDetails t.1.1) Hf : RDetails (req a) = RDetails (req a0)).
  pose proof (f_equal (λ t, Log t.1.1) Hf : Log (req a) = Log (req a0)).
  by pose proof (f_equal (λ t, t.1.2) Hf : jobs a = jobs a0).
Qed.

Lemma is_Some_details r jid j : RDetails r ≠ None → ∃ d, RDetails (job_request r jid j) = Some d.
Proof using.
  intros Hd. rewrite /job_request /=. destruct (jDetails j) as [d|]; [by eexists|].
  destruct (RDetails r) as [d|]; [by eexists|done].
Qed.

(** How a managed restore ends, that starts from [a] for the job [j]. *)
Definition managed_restore (a : App) (jid : string) (j : Job) (r : gores unit) (a' : App) : Prop :=
  match r with
  | Ok _ => jRunning j = false ∧ Path (job_request (req a) jid j) ≠ "" ∧ length (criuCalls a') = S (length (criuCalls a)) ∧
      PID a' ≠ 0%Z ∧ jobs a' = <[jid := restored_job (req a) jid j (PID a')]> (jobs a)
  | Err _ => jobs a' = jobs a ∨
      length (criuCalls a') = S (length (criuCalls a)) ∧
      (PID a' = 0%Z ∨ ∃ jid' j', jid' ≠ jid ∧ jobs a !! jid' = Some j' ∧ jPID j' = PID a')
  end.

Lemma wp_ManageRestore o a d j :
  RDetails (req a) = Some d → RunChain.dJID d ≠ "" → jobs a !! RunChain.dJID d = Some j → jType j = "process" →
  oCRIU o ≠ None → ExtraFiles o = [] →
  wp (With profiling (With profiling handler
        (restore_middleware env profiling pluginMiddleware RestoreFilesystem StreamRestoreFilesystem))
        [ManageRestore env]) o a (managed_restore a (RunChain.dJID d) j).
Proof.
  set (jid := RunChain.dJID d). intros Hd Hjid Hj Ht Ho Hx. apply wp_With_cons, wp_around. rewrite /manage_pre.
  assert (restore_job env a = Some (Ok jid, a)) as ->.
  { rewrite /restore_job Hd -/jid. by destruct jid. }
  rewrite Hj. destruct (jRunning j) eqn:Hrun; [by left|].
  case_decide as Hpath; [by left|]. fold (job_request (req a) jid j). set (r1 := job_request (req a) jid j).
  destruct (is_Some_details (req a) jid j) as [d1 Hd1]; [by rewrite Hd|].
  eapply wp_mono; [|apply wp_With_nil, (wp_restore_middleware o (set_req r1 a)); done].
  intros r a2 [Hf H]. apply job_frame_req in Hf as (Hd2 & Hl2 & Hj2).
  change (RDetails (req a2) = RDetails (job_request (req a) jid j)) in Hd2. rewrite Hd1 in Hd2.
  assert (r = Ok () → length (criuCalls a2) = S (length (criuCalls a))) as Hlen.
  { intros ->. destruct H as [[? _]|(s & dir & _ & _ & [[? _]|(? & ? & ? & ? & _ & _ & -> & _)])]; [done..|].
    by rewrite length_app /= Nat.add_1_r. }
  destruct (manage_post_cases jid r a a2 d1 j Hd2 Hj2 Hj) as (r' & a' & -> & Hc' & Hp' & _ & HM).
  destruct r as [[]|e]; [|destruct HM as [-> HM]; by left]. specialize (Hlen eq_refl).
  destruct r' as [[]|e]; [|right; rewrite Hc' Hp'; by split].
  destruct HM as [Hp HM]. rewrite /managed_restore Hc' Hp' HM. split_and!; try done.
  rewrite /restored_job Hd1 /=. by rewrite /SetPID /SetLog /SetDetails /= Hl2.
Qed.


(** An attachable restore without a JID makes a job under a new name, and
    never removes it: whether the restore succeeds or fails, the job is there
    afterwards, although a failed one has neither a process nor a checkpoint. *)
Theorem attachable_restore_leaves_job ctx w d p :
  RDetails (req (app w)) = Some d → RunChain.dJID d = "" → Attachable (req (app w)) = true →
  RType (req (app w)) = "process" → GetName env ≠ "" → jobs (app w) !! GetName env = None →
  Pipeline.criu_path (criuAnswers env) = Some p →
  Pipeline.first_error (Pipeline.CheckFeatures (criuAnswers env)) = None →
  ∃ r w', Restore env profiling pluginMiddleware pluginHandler pluginLate pluginInterception reaper exitChannel
            RestoreFilesystem StreamRestoreFilesystem ctx w = Some (r, w') ∧
    is_Some (jobs (app w') !! GetName env).
Proof.
  intros Hd Hjid Hat Ht Hname Hfree Hcriu Hcheck. rewrite /Restore.
  assert (is_managed (app w) = true) as -> by by rewrite /is_managed Hat orb_true_r.
  set (jid := GetName env) in *. set (Post := λ (_ : gores unit) a, is_Some (jobs a !! jid)).
  assert (wp (restore_chain env profiling pluginMiddleware pluginHandler pluginLate pluginInterception reaper exitChannel
    RestoreFilesystem StreamRestoreFilesystem true) (mkOpts None None false RunChain.StdNone [] ∅ None) (app w) Post) as Hwp.
  { apply wp_With_cons, wp_before. rewrite /criu_new Hcriu Hcheck. apply wp_With_nil, wp_With_cons, wp_around.
    rewrite /manage_pre /restore_job Hd Hjid Hat. cbn [mbind option_bind]. rewrite -/jid.
    case_decide; [done|]. cbn [jobs set_req]. rewrite Hfree. set (t := <[jid := _]> (jobs (app w))).
    assert (t !! jid = Some (mkJob "process" "" None 0 false)) as Htj by by rewrite /t lookup_insert_eq Ht.
    cbn [jobs set_jobs]. rewrite Htj. cbn [jRunning].
    case_decide; [by rewrite /Post /= Htj|]. set (a1 := set_req _ _).
    eapply wp_mono; [|apply wp_With_nil, (wp_restore_middleware _ a1); done].
    intros r a2 [Hf _]. apply job_frame_req in Hf as (Hd2 & _ & Hj2).
    destruct (manage_post_cases jid r a1 a2 (RunChain.mkDetails jid (RunChain.dProcess d))
      (mkJob "process" "" None 0 false)) as (r' & a' & -> & _ & _ & Hin & _); [done..|exact Hin]. }
  destruct (Hwp ctx w eq_refl) as (r & w' & -> & H). destruct r as [[]|e]; by eexists _, _.
Qed.

(** The call of CRIU behind a restore, not of a job, that succeeded. *)
Lemma restore_call ctx w w' :
  RType (req (app w)) = "process" → is_managed (app w) = false → criuCalls (app w) = [] →
  Restore env profiling pluginMiddleware pluginHandler pluginLate pluginInterception reaper exitChannel
    RestoreFilesystem StreamRestoreFilesystem ctx w = Some (Ok (), w') →
  ∃ s dir start c i io, LoadState env dir = Ok s ∧
    gpu_start s (Inherit.mkI [] ∅ (InheritFd (base_opts (app w) s dir)) ∅ [] None) (base_opts (app w) s dir) start c ∧
    Inherit.InheritFilesForRestore (openFile env)
      (Inherit.mkRequest false (Attachable (req (app w))) (Log (req (app w)))) (Some s) start = Ok i ∧
    criuCalls (app w') = [(with_ext_mounts (add_external ["mnt[]:ms"] (with_InheritFd (Inherit.InheritFd i)
      (with_shell_job (negb (bool_decide (SID s = ProcessTree.PID s))) c))), Inherit.ExtraFiles i, io)].
Proof.
  intros Ht Hm Hc. rewrite /Restore Hm. set (o := mkOpts _ _ _ _ _ _ _).
  destruct (wp_With_cons profiling _ (criu_New env) [] o (app w) (restored (app w) (walk_req o (app w)))
    ltac:(apply wp_restore_criu_New; [by intros e; apply restored_early|]; intros p; apply wp_With_nil;
      by apply (wp_restore_middleware (mkOpts (Some p) None false RunChain.StdNone [] ∅ None))) ctx w eq_refl)
    as (r & w1 & Hr & Hf & H).
  rewrite /restore_chain Hr. destruct r as [[]|e]; [|done]. intros [= <-]. rewrite /calls_CRIU Hc in H.
  destruct H as [[? _]|(s & dir & Hl & _ & [[? _]|(start & c & i & io & Hg & Hi & Hcalls & _)])]; [done..|].
  by exists s, dir, start, c, i, io.
Qed.
End process.

(** ** Dump and restore *)

Section composed.
Context {St : Type} (denv : Pipeline.Env St) (env : Env St) (profiling : bool).
Context (dumpMiddleware : string → gores (Middleware (Pipeline.Opts St) Pipeline.App unit)).
Context (dumpHandler : string → gores (Handler (Pipeline.Opts St) Pipeline.App unit)).
Context (DumpFilesystem : St → Adapter (Pipeline.Opts St) Pipeline.App unit).
Context (StreamDumpFilesystem : Z → St → Adapter (Pipeline.Opts St) Pipeline.App unit).
Context {dfs_ok : ∀ st, DumpSpec.DumpFs (DumpFilesystem st)} {dstream_ok : ∀ n st, DumpSpec.DumpFs (StreamDumpFilesystem n st)}.
Context (pluginMiddleware : string → gores (Middleware (Opts St) App unit)).
Context (pluginHandler : string → gores (Handler (Opts St) App unit)).
Context (pluginLate : string → gores (Middleware (Opts St) App unit)).
Context (pluginInterception : string → gores (Adapter (Opts St) App unit)).
Context (reaper : string → bool) (exitChannel : bool).
Context (RestoreFilesystem : St → Adapter (Opts St) App unit).
Context (StreamRestoreFilesystem : Z → St → Adapter (Opts St) App unit).
Context {fs_ok : ∀ st, RestoreFs (RestoreFilesystem st)} {stream_ok : ∀ n st, RestoreFs (StreamRestoreFilesystem n st)}.

End composed.

(** ** Witnesses *)

(** A file system that finds the images, and an outside that restores PID 77 from
    the process state of [DumpSpec]. *)
Definition sample_fs (_ : unit) : Adapter (Opts unit) App unit :=
  before "fs" (λ o a, (Ok o, on_Criu (with_images "/dumps/images") a)).

#[export] Instance sample_fs_ok st : RestoreFs (sample_fs st).
Proof.
  intros next ctx o w. right. exists "/dumps/images", (set_app (on_Criu (with_images "/dumps/images") (app w)) w).
  split; [done|]. intros r w2 Hr. exists r, w2. split; [exact Hr|done].
Qed.

Definition sample_env : Env unit := {|
  cfgCgroupsMode := 2; criuAnswers := DumpSpec.sample_env; IsStreamable := λ _ _, Ok 0%Z;
  LoadState := λ _, Ok (DumpSpec.sample_State 42); openFile := λ _, None;
  gpuFiles := Inherit.mkGpuEnv (λ _, None) (λ _, None) (λ _, Ok "") "";
  hostMounts := Ok []; Lstat := λ _, true; gpuInstalled := true; gpuSync := None; gpuAttach := Ok "gpu-1";
  EnsureLogDir := λ _, Ok "/log"; ChownAll := λ _ _ _, None; criuRestore := λ _ _ _, Ok 77%Z;
  GetName := "brave-otter"; slaveID := 9; openLog := λ _, None; chownLog := λ _, None; createFile := λ _, None;
  nil_write := Errorf "invalid argument"; latestCheckpoint := λ _, "/dumps/latest"; IsRunning := λ _, true |}.

Definition sample_request (path : string) (d : option RunChain.Details) (attachable : bool) (jobs : gmap string Job) : World App :=
  mkWorld ∅ 0 (mkApp (mkReq path "process" d "" attachable "" "" None) 0 None [] jobs [] [] [] [] false).

Abbreviation no_middleware := (λ _ : string, @Err (Middleware (Opts unit) App unit) (Errorf "none")).
Abbreviation no_handler := (λ _ : string, @Err (Handler (Opts unit) App unit) (Errorf "none")).
Abbreviation no_adapter := (λ _ : string, @Err (Adapter (Opts unit) App unit) (Errorf "none")).
Abbreviation sample_restore :=
  (Restore sample_env false no_middleware no_handler no_middleware no_adapter (λ _, false) false
     sample_fs (λ _, sample_fs) None).


Definition sample_job : Job :=
  mkJob "process" "/log/job" (Some (RunChain.mkDetails "job-1" (Some (RunChain.mkProcess "/bin/train" [] 40)))) 40 false.


Lemma attachable_restore_leaves_job_witness :
  ∃ r w', sample_restore (sample_request "" (Some (RunChain.mkDetails "" None)) true ∅) = Some (r, w') ∧
    is_Some (jobs (app w') !! "brave-otter").
Proof.
  apply (attachable_restore_leaves_job sample_env false no_middleware no_handler no_middleware no_adapter (λ _, false)
    false sample_fs (λ _, sample_fs) None (sample_request "" (Some (RunChain.mkDetails "" None)) true ∅)
    (RunChain.mkDetails "" None) "/usr/local/bin/criu"); (reflexivity || by_decide).
Defined.

#[local] Existing Instance DumpSpec.sample_fs_ok.

(** The worlds after the sample dump and the sample restore. *)
Definition dumped_world : World Pipeline.App :=
  match Pipeline.Dump DumpSpec.sample_env false DumpSpec.sample_middleware DumpSpec.sample_handler
          DumpSpec.sample_fs (λ _, DumpSpec.sample_fs) false None (DumpSpec.sample_request "process" "" 42) with
  | Some (_, w) => w
  | None => DumpSpec.sample_request "" "" 0
  end.
Definition restored_world : World App :=
  match sample_restore (sample_request "/dumps/a" None false ∅) with
  | Some (_, w) => w
  | None => sample_request "" None false ∅
  end.

End RestoreSpec.
