(* ===== verification/Server.v ===== *)
(** * The daemon's server (internal/cedana/server.go, attach.go, pkg/utils/host.go)

    Creating the server ([NewServer]): what it is made of, in the order of the
    code, and the listener of its protocol; describing the host ([FillHost]);
    the attach endpoint; and its life ([Launch], [Stop]) as a transition system of
    the main function, the goroutine that serves, the calls in progress and the
    routines of the managers.  The database, the managers, sockets and what
    gopsutil reads are parameters.  [None] is a panic.

    A server that was launched returns only after its calls and the routines of
    its managers have ended ([launch_drains]), and after an interrupt it can
    always return ([interrupted_can_return]).  The routines end with the context
    that the server was created with, not with the one that [Launch] cancels
    when serving fails: then the daemon never ends ([serve_failure_hangs]).  That
    listening on vsock failed is not reported, and the launch panics
    ([vsock_failure_lost]). *)

From Stdlib Require Import Ascii.
From S2P Require Import Prelude GoLib.

Module Server.
Import GoLib.
#[local] Arguments String.append : simpl never.

(** ** Strings *)

Definition lower (c : ascii) : ascii :=
  let n := nat_of_ascii c in if decide (65 ≤ n ≤ 90) then ascii_of_nat (n + 32) else c.
(** [strings.ToLower] of ASCII. *)
Fixpoint ToLower (s : string) : string :=
  match s with EmptyString => EmptyString | String c s => String (lower c) (ToLower s) end.

Definition colon : ascii := ":"%char.
Definition quote : ascii := ascii_of_nat 34.
Definition quoted (s : string) : string := String quote EmptyString +:+ s +:+ String quote EmptyString.

Fixpoint digits (s : string) (acc : Z) : option Z :=
  match s with
  | EmptyString => Some acc
  | String c s =>
      let n := nat_of_ascii c in
      if decide (48 ≤ n ≤ 57) then digits s (acc * 10 + Z.of_nat (n - 48)) else None
  end.
(** [strconv.Atoi] *)
Definition Atoi (s : string) : gores Z :=
  let parsed := match s with
                | String c s' => if decide (c = "-"%char) then Z.opp <$> (if decide (s' = "") then None else digits s' 0)
                                 else if decide (c = "+"%char) then (if decide (s' = "") then None else digits s' 0)
                                 else digits s 0
                | EmptyString => None
                end in
  match parsed with
  | None => Err (Errorf ("strconv.Atoi: parsing " +:+ quoted s +:+ ": invalid syntax"))
  | Some z =>
      if decide (- 2 ^ 63 ≤ z < 2 ^ 63)%Z then Ok z
      else Err (Errorf ("strconv.Atoi: parsing " +:+ quoted s +:+ ": value out of range"))
  end.

(** ** The host *)

Record CPUInfo := mkCPUInfo { cCPU : Z; VendorID : string; Family : string; PhysicalID : string }.
Record CPU := mkCPU { Count : Z; cpu : CPUInfo }.
Record Memory := mkMemory { Total : Z; Available : Z; Used : Z }.
Record HostInfo := mkHostInfo {
  HostID : string; Hostname : string; OS : string; Platform : string; KernelVersion : string; KernelArch : string;
  VirtualizationSystem : string; VirtualizationRole : string;
}.
Record Host := mkHost { hCPU : option CPU; hMemory : option Memory; hInfo : option HostInfo; MAC : string }.
Record Interface := mkInterface { loopback : bool; HardwareAddr : option string }.

(** What is read about the host. *)
Record HostEnv := mkHostEnv {
  cpu_Info : gores (list CPUInfo);
  cpu_Counts : gores Z;
  VirtualMemory : gores Memory;
  host_Info : gores HostInfo;
  Interfaces : gores (list Interface);
}.

Fixpoint first_address (l : list Interface) : string :=
  match l with
  | [] => ""
  | i :: l =>
      match HardwareAddr i with
      | Some a => if negb (loopback i) then a else first_address l
      | None => first_address l
      end
  end.
Definition GetMACAddress (E : HostEnv) : gores string :=
  match Interfaces E with Err e => Err e | Ok l => Ok (first_address l) end.

(** Whether the CPUs could be read is tested by the error of counting them. *)
Definition FillHost (E : HostEnv) (h : Host) : option (option error * Host) :=
  hcpu ← match cpu_Counts E with
         | Err _ => Some (hCPU h)
         | Ok vcpus =>
             first ← (match cpu_Info E with Ok l => head l | Err _ => None end);
             Some (Some (mkCPU (int32 vcpus) first))
         end;
  Some (errors_Join [err_of (cpu_Info E); err_of (cpu_Counts E); err_of (VirtualMemory E); err_of (host_Info E); err_of (GetMACAddress E)],
        mkHost hcpu
          (match VirtualMemory E with Ok m => Some m | Err _ => hMemory h end)
          (match host_Info E with Ok i => Some i | Err _ => hInfo h end)
          (match GetMACAddress E with Ok a => a | Err _ => MAC h end)).

Definition GetHost (E : HostEnv) : option (gores Host) :=
  '(err, h) ← FillHost E (mkHost None None None "");
  Some (match err with Some e => Err e | None => Ok h end).

(** ** Creating the server *)

Definition DEFAULT_TCP_ADDR : string := "0.0.0.0:8080".
Definition DEFAULT_SOCK_ADDR : string := "/run/cedana.sock".

(** A listener; the one that failed to listen on vsock is a nil pointer. *)
Inductive Listener := Listening (network address : string) | NilListener.

Record ServeOpts := mkOpts { Address : string; Protocol : string; Version : string }.

(** What the constructors and sockets answer. *)
Record Env := mkEnv {
  hostEnv : HostEnv;
  NewSqliteDB : option error;
  PutHost : Host → option error;
  NewPoolManager : option error;
  NewManagerLazy : option error;
  Listen : string → string → option error;
  Chmod : string → option error;
}.

Definition or_default (s dflt : string) : string := if decide (s = "") then dflt else s.
Definition tcp_or_unix (E : Env) (network address : string) : gores Listener :=
  match Listen E network address with Some e => Err e | None => Ok (Listening network address) end.

(** The switch over the protocol.  In the case of vsock the error of listening
    is assigned to the variable of the case. *)
Definition listen (E : Env) (opts : ServeOpts) : option (gores Listener) :=
  let protocol := ToLower (Protocol opts) in
  let address := Address opts in
  if decide (protocol = "tcp") then Some (tcp_or_unix E "tcp" (or_default address DEFAULT_TCP_ADDR))
  else if decide (protocol = "unix") then
    let address := or_default address DEFAULT_SOCK_ADDR in
    Some (match tcp_or_unix E "unix" address with
          | Err e => Err e
          | Ok l => match Chmod E address with Some e => Err e | None => Ok l end
          end)
  else if decide (protocol = "vsock") then
    if decide (address = "") then Some (Err (Errorf "vsock address is required"))
    else if negb (Contains address ":") then Some (Err (Errorf "vsock address must be in the format cid:port"))
    else
      portStr ← Split address colon !! 1;
      Some (match Atoi portStr with
            | Err e => Err (Errorf ("failed to parse vsock port: " +:+ Error e))
            | Ok port =>
                match Listen E "vsock" (itoaZ (uint32 port)) with
                | Some _ => Ok NilListener
                | None => Ok (Listening "vsock" (itoaZ (uint32 port)))
                end
            end)
  else Some (Err (Errorf ("invalid protocol: " +:+ protocol))).

Record Server := mkServer { host : Host; listener : Listener; version : string }.

Definition failing (msg : string) (e : option error) (k : option (gores Server)) : option (gores Server) :=
  match e with Some e => Some (Err (Errorf (msg +:+ ": " +:+ Error e))) | None => k end.

Definition NewServer (E : Env) (opts : ServeOpts) : option (gores Server) :=
  h ← GetHost (hostEnv E);
  match h with
  | Err e => Some (Err (Errorf ("failed to get host info: " +:+ Error e)))
  | Ok h =>
      failing "failed to create local sqlite db" (NewSqliteDB E) (
      failing "failed to put host info" (PutHost E h) (
      failing "failed to create GPU manager" (NewPoolManager E) (
      failing "failed to create job manager" (NewManagerLazy E) (
      l ← listen E opts;
      Some (match l with Err e => Err e | Ok l => Ok (mkServer h l (Version opts)) end)))))
  end.

(** ** Attaching *)

(** [lookup] finds the slave of a process, and [attach] is its [Attach];
    [is_deadline] tells the error of a context that has timed out. *)
Definition Attach {W} (recv : gores Z) (lookup : Z → W → bool) (attach : Z → Go W (option error)) (is_deadline : error → bool)
    : Go W (option error) := λ w,
  match recv with
  | Err e => Some (Some e, w)
  | Ok pid =>
      if decide (pid = 0%Z) then Some (Some (Status InvalidArgument "missing PID"), w)
      else if negb (lookup pid w) then Some (Some (Status NotFound ("process " +:+ itoaZ pid +:+ " has no IO slave")), w)
      else
        '(err, w) ← attach pid w;
        Some (match err with
              | Some e => if is_deadline e then Some (Status DeadlineExceeded "likely another master IO attached") else Some e
              | None => None
              end, w)
  end.

(** ** The life of the server *)

(** [Launch] before it logs the address, waiting for the end of its lifetime,
    and in [Stop]: in [GracefulStop] and in [wg.Wait]. *)
Inductive Main := Starting | Waiting | Stopping | Draining | Returned.

Record Life := mkLife {
  on : Listener;
  main : Main;
  interrupted : bool;         (** the context of the command line, with which the managers were created *)
  lifetime : bool;            (** whether the context of [Launch], derived from it, has ended *)
  serving : bool;
  calls : nat;                (** in progress *)
  routines : nat;             (** of the managers, on the server's wait group *)
  panicked : bool;
}.
Definition set_main (m : Main) (s : Life) : Life :=
  mkLife (on s) m (interrupted s) (lifetime s) (serving s) (calls s) (routines s) (panicked s).
Definition set_calls (n : nat) (s : Life) : Life :=
  mkLife (on s) (main s) (interrupted s) (lifetime s) (serving s) n (routines s) (panicked s).
Definition set_routines (n : nat) (s : Life) : Life :=
  mkLife (on s) (main s) (interrupted s) (lifetime s) (serving s) (calls s) n (panicked s).
Definition interrupt (s : Life) : Life :=
  mkLife (on s) (main s) true true (serving s) (calls s) (routines s) (panicked s).
Definition serve_failed (s : Life) : Life :=
  mkLife (on s) (main s) (interrupted s) true false (calls s) (routines s) (panicked s).
Definition stopped (s : Life) : Life :=
  mkLife (on s) Draining (interrupted s) (lifetime s) false (calls s) (routines s) (panicked s).
Definition panic (s : Life) : Life :=
  mkLife (on s) (main s) (interrupted s) (lifetime s) (serving s) (calls s) (routines s) true.

Inductive step (s : Life) : Life → Prop :=
| the_interrupt : step s (interrupt s)
(** The goroutine: [Serve] fails, and cancels the lifetime. *)
| serve_fails : serving s = true → step s (serve_failed s)
(** Calls: none is accepted any more once the server stops. *)
| call_begins : serving s = true → main s = Starting ∨ main s = Waiting → step s (set_calls (S (calls s)) s)
| call_ends n : calls s = S n → step s (set_calls n s)
(** The routines of the managers end with their context. *)
| routine_ends n : interrupted s = true → routines s = S n → step s (set_routines n s)
(** [Launch] and [Stop]. *)
| main_starts n a : main s = Starting → on s = Listening n a → step s (set_main Waiting s)
| main_panics : main s = Starting → on s = NilListener → step s (panic s)
| main_stops : main s = Waiting → lifetime s = true → step s (set_main Stopping s)
| graceful : main s = Stopping → calls s = 0 → step s (stopped s)
| main_returns : main s = Draining → routines s = 0 → step s (set_main Returned s).

Definition run (s s' : Life) : Prop := panicked s = false ∧ step s s'.
Definition launched (l : Listener) (n : nat) : Life := mkLife l Starting false false true 0 n false.
Definition reachable (l : Listener) (n : nat) (s : Life) : Prop := rtc run (launched l n) s.

Record life_ok (l : Listener) (n : nat) (s : Life) : Prop := {
  life_on : on s = l;
  life_interrupted : interrupted s = true → lifetime s = true;
  life_routines : interrupted s = false → routines s = n;
  life_main : match main s with
              | Starting | Waiting => True
              | Stopping => lifetime s = true
              | Draining => lifetime s = true ∧ calls s = 0
              | Returned => lifetime s = true ∧ calls s = 0 ∧ routines s = 0
              end;
  life_nil : l = NilListener → main s = Starting;
}.

Lemma reachable_ok l n s : reachable l n s → life_ok l n s.
Proof.
  apply (rtc_ind_r (life_ok l n)); [by constructor|]. intros x y _ [_ H] [Hl Hi Hr Hm Hn].
  destruct H as [|Hs|Hs Hmain|k Hk|k Hit Hk|net a Hmain Hon|Hmain Hon|Hmain Hlt|Hmain Hk|Hmain Hk];
    constructor; cbn in *; try done; try (by auto); try congruence.
  all: rewrite ?Hmain in Hm Hn; try (intros Hnil; by specialize (Hn Hnil)).
  - by destruct (main x); naive_solver.
  - by destruct (main x); naive_solver.
  - by destruct Hmain as [-> | ->].
  - rewrite Hk in Hm. destruct (main x); naive_solver.
  - rewrite Hk in Hm. destruct (main x); naive_solver.
  - done.
  - naive_solver.
Qed.

(** When [Launch] returns its lifetime has ended, no call is in progress, and the
    routines of the managers have ended. *)
Theorem launch_drains l n s :
  reachable l n s → main s = Returned → lifetime s = true ∧ calls s = 0 ∧ routines s = 0.
Proof. intros [_ _ _ Hm _]%reachable_ok Hr. by rewrite Hr in Hm. Qed.

Definition can_return (s : Life) : Prop := ∃ s', rtc run s s' ∧ main s' = Returned.

Lemma can_return_step s s' : panicked s = false → step s s' → can_return s' → can_return s.
Proof. intros Hp Hs (s'' & Hr & Hm). exists s''. split; [|done]. by eapply rtc_l. Qed.

Lemma draining_returns n s :
  routines s = n → main s = Draining → panicked s = false → interrupted s = true → can_return s.
Proof.
  revert s. induction n as [|n IH]; intros s Hn Hm Hp Hi.
  - eapply can_return_step; [done|by apply main_returns|]. eexists. by split; [apply rtc_refl|].
  - eapply can_return_step; [done|by apply (routine_ends s n)|]. by apply IH.
Qed.

Lemma stopping_returns n s :
  calls s = n → main s = Stopping → panicked s = false → interrupted s = true → can_return s.
Proof.
  revert s. induction n as [|n IH]; intros s Hn Hm Hp Hi.
  - eapply can_return_step; [done|by apply graceful|]. by eapply draining_returns.
  - eapply can_return_step; [done|by apply (call_ends s n)|]. by apply IH.
Qed.

(** After an interrupt the server can always come to an end. *)
Theorem interrupted_can_return net a n s :
  reachable (Listening net a) n s → panicked s = false → interrupted s = true →
  ∃ s', rtc run s s' ∧ main s' = Returned.
Proof.
  intros [Hon Hlt _ Hm _]%reachable_ok Hp Hi.
  assert (∀ s, lifetime s = true → main s = Waiting → panicked s = false → interrupted s = true → can_return s) as Hw.
  { intros s1 Hl1 Hm1 Hp1 Hi1. eapply can_return_step; [done|by apply main_stops|]. by eapply stopping_returns. }
  destruct (main s) eqn:Hmain.
  - eapply can_return_step; [done|by eapply main_starts|]. apply Hw; auto.
  - apply Hw; auto.
  - by eapply stopping_returns.
  - by eapply draining_returns.
  - exists s. by split; [apply rtc_refl|].
Qed.

(** As long as nobody interrupts the daemon, it does not return, as the routines
    of its managers go on; when serving fails it comes to a state in which it
    waits for them and nothing but an interrupt is left to happen. *)
Theorem serve_failure_hangs net a n :
  (∀ s, reachable (Listening net a) (S n) s → interrupted s = false → main s ≠ Returned) ∧
  ∃ s, reachable (Listening net a) (S n) s ∧ serving s = false ∧ interrupted s = false ∧ ∀ s', step s s' → s' = interrupt s.
Proof.
  split.
  - intros s [_ _ Hr Hm _]%reachable_ok Hi Hret. rewrite Hret in Hm. rewrite Hr // in Hm. by destruct Hm as (_ & _ & ?).
  - eexists. split; [|split; [|split]].
    + eapply rtc_l; [by split; [|by eapply main_starts]|]. cbn. eapply rtc_l; [by split; [|by apply serve_fails]|]. cbn.
      eapply rtc_l; [by split; [|by apply main_stops]|]. cbn. eapply rtc_l; [by split; [|by apply graceful]|]. apply rtc_refl.
    + done.
    + done.
    + intros s' H. by inversion H.
Qed.

(** A server for vsock whose listener could not listen is created all the same;
    it never gets to wait for the end of its life, as its launch panics. *)
Theorem vsock_failure_lost E opts h portStr port e :
  GetHost (hostEnv E) = Some (Ok h) → NewSqliteDB E = None → PutHost E h = None → NewPoolManager E = None → NewManagerLazy E = None →
  ToLower (Protocol opts) = "vsock" → Contains (Address opts) ":" = true →
  Split (Address opts) colon !! 1 = Some portStr → Atoi portStr = Ok port → Listen E "vsock" (itoaZ (uint32 port)) = Some e →
  NewServer E opts = Some (Ok (mkServer h NilListener (Version opts))) ∧
  ∀ n s, reachable NilListener n s → main s = Starting.
Proof.
  intros Hh H1 H2 H3 H4 Hp Hc Hs Ha Hl. split.
  - unfold NewServer. rewrite Hh. cbn [mbind option_bind]. rewrite H1 H2 H3 H4. unfold failing, listen. rewrite Hp.
    rewrite Hc Hs. cbn [mbind option_bind]. rewrite Ha Hl. simpl.
    destruct (decide (Address opts = "")) as [He|]; [by rewrite He in Hc|done].
  - intros n s Hr. destruct (reachable_ok _ _ _ Hr) as [_ _ _ _ Hn]. by apply Hn.
Qed.

(** Otherwise a server that is created listens: with TCP, a socket file or vsock,
    whatever case the protocol is written in. *)
Theorem NewServer_listens E opts srv :
  NewServer E opts = Some (Ok srv) → ToLower (Protocol opts) ≠ "vsock" →
  ∃ net a, listener srv = Listening net a ∧ Listen E net a = None ∧ net = ToLower (Protocol opts) ∧
    a = or_default (Address opts) (if decide (net = "tcp") then DEFAULT_TCP_ADDR else DEFAULT_SOCK_ADDR).
Proof.
  unfold NewServer. intros H Hp. destruct (GetHost (hostEnv E)) as [[h|]|]; [|done..]. cbn [mbind option_bind] in H.
  unfold failing in H. repeat (case_match; [done|]). unfold listen, tcp_or_unix in H.
  destruct (decide (ToLower (Protocol opts) = "tcp")) as [Ht|Ht].
  { destruct (Listen E "tcp" _) eqn:Hl; [done|]. injection H as <-. eexists _, _. split; [done|]. by rewrite Hl Ht. }
  destruct (decide (ToLower (Protocol opts) = "unix")) as [Hu|Hu].
  { destruct (Listen E "unix" _) eqn:Hl; [done|]. destruct (Chmod E _); [done|]. injection H as <-.
    eexists _, _. split; [done|]. by rewrite Hl Hu. }
  by destruct (decide (ToLower (Protocol opts) = "vsock")).
Qed.

(** ** The host *)

Lemma Forall_five {A} (P : A → Prop) a b c d e : Forall P [a; b; c; d; e] → P a ∧ P b ∧ P c ∧ P d ∧ P e.
Proof. intros H. repeat (apply Forall_cons_1 in H as [? H]). by split_and!. Qed.

(** Describing the host panics exactly when the CPUs can be counted but not
    listed; otherwise it reports every part that could not be read, and a host
    that is described without error is complete. *)
Theorem FillHost_spec E h :
  match FillHost E h with
  | None => is_ok (cpu_Counts E) = true ∧ (cpu_Info E = Ok [] ∨ is_ok (cpu_Info E) = false)
  | Some (err, h') =>
      err = None → is_Some (hMemory h') ∧ is_Some (hInfo h') ∧ GetMACAddress E = Ok (MAC h') ∧
        ∃ l c n, cpu_Info E = Ok l ∧ head l = Some c ∧ cpu_Counts E = Ok n ∧ hCPU h' = Some (mkCPU (int32 n) c)
  end.
Proof.
  unfold FillHost. destruct (cpu_Counts E) as [n|e] eqn:Hn; cbn [mbind option_bind].
  - destruct (cpu_Info E) as [[|c l]|e] eqn:Hc; cbn [head mbind option_bind]; [by split; [|left]| |by split; [|right]].
    intros (_ & _ & Hm & Hi & Ha)%errors_Join_None%Forall_five. cbn [hMemory hInfo MAC hCPU].
    destruct (VirtualMemory E); [|done]. destruct (host_Info E); [|done]. destruct (GetMACAddress E); [|done].
    split_and!; [done..|]. by exists (c :: l), c, n.
  - by intros (_ & He & _)%errors_Join_None%Forall_five.
Qed.

(** ** The theorems at work *)

Definition cpu0 : CPUInfo := mkCPUInfo 0 "GenuineIntel" "6" "0".
Definition host_env (cpus : gores (list CPUInfo)) : HostEnv :=
  mkHostEnv cpus (Ok 8%Z) (Ok (mkMemory 16 8 8)) (Ok (mkHostInfo "id" "node" "linux" "debian" "6.1" "x86_64" "" ""))
    (Ok [mkInterface true (Some "00:00"); mkInterface false (Some "aa:bb")]).
Definition env0 : Env := mkEnv (host_env (Ok [cpu0])) None (λ _, None) None None
  (λ net _, if decide (net = "vsock") then Some (Errorf "no such device") else None) (λ _, None).
Definition host0 : Host := mkHost (Some (mkCPU 8 cpu0)) (Some (mkMemory 16 8 8))
  (Some (mkHostInfo "id" "node" "linux" "debian" "6.1" "x86_64" "" "")) "aa:bb".

Lemma vsock_failure_lost_witness :
  NewServer env0 (mkOpts "3:8080" "VSOCK" "1.0") = Some (Ok (mkServer host0 NilListener "1.0")) ∧
  ∀ n s, reachable NilListener n s → main s = Starting.
Proof.
  apply (vsock_failure_lost env0 (mkOpts "3:8080" "VSOCK" "1.0") host0 "8080" 8080 (Errorf "no such device")); reflexivity.
Defined.

Lemma NewServer_listens_witness :
  ∃ net a, Listen env0 net a = None ∧ net = "tcp" ∧ a = "0.0.0.0:8080".
Proof.
  destruct (NewServer_listens env0 (mkOpts "" "TCP" "1.0") (mkServer host0 (Listening "tcp" "0.0.0.0:8080") "1.0") eq_refl
    ltac:(done)) as (net & a & [= -> ->] & Hl & Hn & Ha). exists net, a. split_and!; done.
Defined.

Lemma launch_drains_witness :
  ∃ s, reachable (Listening "tcp" "0.0.0.0:8080") 2 s ∧ main s = Returned ∧ routines s = 0.
Proof.
  assert (reachable (Listening "tcp" "0.0.0.0:8080") 2 (interrupt (launched (Listening "tcp" "0.0.0.0:8080") 2))) as Hr.
  { apply rtc_once. split; [done|apply the_interrupt]. }
  destruct (interrupted_can_return _ _ _ _ Hr eq_refl eq_refl) as (s & Hs & Hm). exists s.
  assert (reachable (Listening "tcp" "0.0.0.0:8080") 2 s) as Hrs by (unfold reachable in *; transitivity (interrupt (launched (Listening "tcp" "0.0.0.0:8080") 2)); eassumption). split; [exact Hrs|]. split; [exact Hm|].
  exact (proj2 (proj2 (launch_drains _ _ s Hrs Hm))).
Defined.

(** Counting the CPUs succeeds where listing them fails. *)
Example unreadable_cpus_panic : GetHost (host_env (Err (Errorf "no /proc/cpuinfo"))) = None.
Proof. reflexivity. Qed.
End Server.
