(* ===== verification/Config.v ===== *)
(** * Configuration (pkg/config, pkg/utils/reflect.go)

    The settings are the leaves of a struct; their keys, defaults and
    environment variables come from its type and tags by reflection.  A type is
    a tree of fields with tags, a value a tree of the same shape; [None] is a
    panic of the reflection, or of the program that starts with a wrong
    configuration.  Viper, which holds the settings, is the class [Viper].

    Every setting has its own key, a default ([settings_have_defaults]) and its
    own variables ([variables_distinct]); [GetTag] and [ListLeaves] give it the
    same key ([leaves_tags]).
    The arguments are searched for the flags before they are parsed; as
    [--config] is a prefix of [--config-dir], a configuration directory given as
    an argument stops the program ([config_dir_panics]), and so does
    [--config=...] ([config_equals_panics]). *)

From Stdlib Require Import Ascii.
From S2P Require Import Prelude GoLib.

Module Config.
Import GoLib.
#[local] Arguments String.append : simpl never.

(** ** Reflection *)

Inductive Ty := Scalar | Struct (fields : list (string * list (string * string) * Ty)).
Abbreviation Field := (string * list (string * string) * Ty)%type.
Inductive scalar := SBool (b : bool) | SInt (z : Z) | SStr (s : string).
Inductive Val := VScalar (x : scalar) | VStruct (fields : list (string * Val)).

Definition dotted (a b : string) : string := a +:+ "." +:+ b.

(** [f.Tag.Get(tag)]; a tag that is missing is empty. *)
Definition tag_of (tags : list (string * string)) (tag : string) : string :=
  match list_find (λ x, x.1 = tag) tags with Some (_, x) => x.2 | None => "" end.
(** [t.FieldByName(name)] *)
Definition field_of (name : string) (fields : list Field) : option Field :=
  snd <$> list_find (λ f, f.1.1 = name) fields.

(** The tags along a path, those that are not empty; no tag when there is no
    such field.  Only structs have fields. *)
Fixpoint tags_along (t : Ty) (path : list string) (tag : string) : option (option (list string)) :=
  match path with
  | [] => Some (Some [])
  | name :: path =>
      match t with
      | Scalar => None
      | Struct fields =>
          match field_of name fields with
          | None => Some None
          | Some (_, tags, t) =>
              vals ← tags_along t path tag;
              Some (option_map (λ vals, if decide (tag_of tags tag = "") then vals else tag_of tags tag :: vals) vals)
          end
      end
  end.

Definition GetTag (t : Ty) (field tag : string) : option string :=
  match t with
  | Scalar => Some ""
  | Struct _ =>
      vals ← tags_along t (Split field dot) tag;
      Some (match vals with None => "" | Some vals => StrJoin vals "." end)
  end.

(** The value at a path; nil when there is none. *)
Fixpoint value_along (v : Val) (path : list string) : option (option Val) :=
  match path with
  | [] => Some (Some v)
  | name :: path =>
      match v with
      | VScalar _ => None
      | VStruct fields =>
          match list_find (λ f, f.1 = name) fields with
          | None => Some None
          | Some (_, f) => value_along f.2 path
          end
      end
  end.

Definition GetValue (v : Val) (field : string) : option (option Val) :=
  match v with
  | VScalar _ => Some None
  | VStruct _ => value_along v (Split field dot)
  end.

(** The leaves by their names, or by a tag. *)
Fixpoint ListLeaves (t : Ty) (tag : option string) {struct t} : list string :=
  match t with
  | Scalar => []
  | Struct fields =>
      (fix leaves (fields : list Field) : list string :=
         match fields with
         | [] => []
         | (fname, tags, ft) :: fields =>
             let name := match tag with Some tag => tag_of tags tag | None => fname end in
             (match ft with
              | Scalar => [name]
              | Struct _ => dotted name <$> ListLeaves ft tag
              end) ++ leaves fields
         end) fields
  end.

(** ** The settings *)

Definition json_only (key : string) : list (string * string) := [("json", key)].
Definition with_alias (key alias : string) : list (string * string) := [("json", key); ("env_aliases", alias)].
Definition leaf (name key : string) : Field := (name, json_only key, Scalar).
Definition aliased (name key alias : string) : Field := (name, with_alias key alias, Scalar).
Definition group (name key : string) (fields : list Field) : Field := (name, json_only key, Struct fields).

(** The tags besides these repeat the json ones. *)
Definition Slurm : list Field :=
  [leaf "Unprivileged" "unprivileged"; leaf "DBHost" "db_host"; leaf "DBSocket" "db_socket"; leaf "DBPort" "db_port";
   leaf "DBName" "db_name"].
Definition Connection : list Field :=
  [aliased "URL" "url" "CEDANA_URL"; aliased "AuthToken" "auth_token" "CEDANA_AUTH_TOKEN";
   aliased "ClusterID" "cluster_id" "CEDANA_CLUSTER_ID"].
Definition Checkpoint : list Field :=
  [leaf "Dir" "dir"; leaf "Compression" "compression"; leaf "Streams" "streams"; leaf "StreamMemoryLimit" "stream_memory_limit";
   leaf "Async" "async"].
Definition DB : list Field := [aliased "Remote" "remote" "CEDANA_REMOTE"; leaf "Path" "path"].
Definition Profiling : list Field :=
  [leaf "Enabled" "enabled"; leaf "Detailed" "detailed"; leaf "Precision" "precision"; leaf "Path" "path"].
Definition Client : list Field := [aliased "WaitForReady" "wait_for_ready" "CEDANA_WAIT_FOR_READY"].
Definition CRIU : list Field :=
  [leaf "BinaryPath" "binary_path"; leaf "LeaveRunning" "leave_running"; leaf "ManageCgroups" "manage_cgroups";
   leaf "LogLevel" "log_level"].
Definition GPU : list Field :=
  [leaf "PoolSize" "pool_size"; leaf "LogDir" "log_dir"; leaf "SockDir" "sock_dir"; leaf "ShmSize" "shm_size";
   leaf "DedupEnabled" "dedup_enabled"; leaf "TemplatesEnabled" "templates_enabled"; leaf "Debug" "debug"].
Definition Plugins : list Field :=
  [leaf "BinDir" "bin_dir"; aliased "LibDir" "lib_dir" "CEDANA_PLUGINS_LIB_DIR"; aliased "Builds" "builds" "CEDANA_PLUGINS_BUILD";
   leaf "LocalSearchPath" "local_search_path"].
Definition AWS : list Field :=
  [aliased "AccessKeyID" "access_key_id" "AWS_ACCESS_KEY_ID"; aliased "SecretAccessKey" "secret_access_key" "AWS_SECRET_ACCESS_KEY";
   aliased "Region" "region" "AWS_REGION"; aliased "Endpoint" "endpoint" "AWS_ENDPOINT"].
Definition Config : Ty := Struct
  [leaf "Address" "address"; leaf "Protocol" "protocol"; leaf "LogLevel" "log_level"; leaf "LogLevelNoServer" "log_level_no_server";
   aliased "Metrics" "metrics" "CEDANA_METRICS_ENABLED"; group "Connection" "connection" Connection;
   group "Checkpoint" "checkpoint" Checkpoint; group "DB" "db" DB; group "Profiling" "profiling" Profiling;
   group "Client" "client" Client; group "CRIU" "criu" CRIU; group "GPU" "gpu" GPU; group "Plugins" "plugins" Plugins;
   group "Slurm" "slurm" Slurm; group "AWS" "aws" AWS].

Definition str (name s : string) : string * Val := (name, VScalar (SStr s)).
Definition int (name : string) (z : Z) : string * Val := (name, VScalar (SInt z)).
Definition bool_ (name : string) (b : bool) : string * Val := (name, VScalar (SBool b)).
(** The defaults; a field that is not given is zero. *)
Definition Global : Val := VStruct
  [str "Address" ""; str "Protocol" "unix"; str "LogLevel" "info"; str "LogLevelNoServer" "warn"; bool_ "Metrics" false;
   ("Connection", VStruct [str "URL" "https://sandbox.cedana.ai/v1"; str "AuthToken" ""; str "ClusterID" ""]);
   ("Checkpoint", VStruct [str "Dir" "/tmp"; str "Compression" "none"; int "Streams" 0; int "StreamMemoryLimit" 4000; bool_ "Async" false]);
   ("DB", VStruct [bool_ "Remote" false; str "Path" "/tmp/cedana.db"]);
   ("Profiling", VStruct [bool_ "Enabled" true; bool_ "Detailed" true; str "Precision" "auto"; str "Path" ""]);
   ("Client", VStruct [bool_ "WaitForReady" false]);
   ("CRIU", VStruct [str "BinaryPath" ""; bool_ "LeaveRunning" false; str "ManageCgroups" "ignore"; int "LogLevel" 2]);
   ("GPU", VStruct [int "PoolSize" 0; str "LogDir" "/tmp"; str "SockDir" "/tmp"; int "ShmSize" (8 * 2 ^ 30); bool_ "DedupEnabled" false;
      bool_ "TemplatesEnabled" false; bool_ "Debug" false]);
   ("Plugins", VStruct [str "BinDir" "/usr/local/bin"; str "LibDir" "/usr/local/lib"; str "Builds" "release"; str "LocalSearchPath" ""]);
   ("Slurm", VStruct [bool_ "Unprivileged" false; str "DBHost" ""; str "DBSocket" ""; int "DBPort" 3306; str "DBName" "slurm_acct_db"]);
   ("AWS", VStruct [str "AccessKeyID" ""; str "SecretAccessKey" ""; str "Region" ""; str "Endpoint" ""])].

(** ** Defaults and environment variables *)

Definition FILE_TYPE : string := "json".
Definition ENV_PREFIX : string := "CEDANA".

Definition upper (c : ascii) : ascii :=
  let n := nat_of_ascii c in if decide (97 ≤ n ≤ 122) then ascii_of_nat (n - 32) else c.
(** [strings.ToUpper] of ASCII, and [strings.ReplaceAll] of a character. *)
Fixpoint ToUpper (s : string) : string :=
  match s with EmptyString => EmptyString | String c s => String (upper c) (ToUpper s) end.
Fixpoint ReplaceAll (a b : ascii) (s : string) : string :=
  match s with EmptyString => EmptyString | String c s => String (if decide (c = a) then b else c) (ReplaceAll a b s) end.

Definition env_var (tag : string) : string := ENV_PREFIX +:+ "_" +:+ ToUpper (ReplaceAll dot "_"%char tag).

(** What [viper.SetDefault] and [viper.MustBindEnv] are called with. *)
Definition default_of (field : string) : option (string * option Val) :=
  tag ← GetTag Config field FILE_TYPE; v ← GetValue Global field; Some (tag, v).
Definition setDefaults : option (list (string * option Val)) := mapM default_of (ListLeaves Config None).

Definition binding_of (field : string) : option (list string) :=
  tag ← GetTag Config field FILE_TYPE; aliases ← GetTag Config field "env_aliases";
  Some ([tag; env_var tag] ++ Split aliases comma).
Definition bindEnvVars : option (list (list string)) := mapM binding_of (ListLeaves Config None).

(** ** Loading *)

Record Args := mkArgs { aConfig : string; ConfigDir : string; Merge : bool }.

Inductive ReadResult := ReadOk | ConfigFileNotFound | ReadError (e : error).

(** Viper with the configuration files it reads; the type of the settings [C].
    [existing] says whether a directory exists. *)
Class Viper := {
  V : Type;
  C : Type;
  SetDefault : string → option Val → V → V;
  BindEnv : list string → V → V;
  AutomaticEnv : V → V;
  AddConfigPath : string → V → V;
  ReadInConfig : V → ReadResult * V;
  MergeConfig : string → V → option error * V;
  UnmarshalExact : V → gores C;
  Unmarshal : V → gores C;
  SafeWriteConfig : V → option error * V;
  WriteConfig : V → option error * V;
  ConfigFileUsed : V → string;
  existing : string → bool;
  MkdirAll : string → option error;
}.

Section viper.
Context `{VP : Viper} (DIR_PATH_USER : string).

Definition DIR_PATH : string := "/etc/cedana".

Definition outdated (v : V) (e : error) : error :=
  Errorf ("Config file " +:+ ConfigFileUsed v +:+ " is either outdated or invalid. Please delete or update it: " +:+ Error e).

Definition set_paths (a : Args) (v : V) : V :=
  AddConfigPath DIR_PATH (AddConfigPath (if decide (ConfigDir a = "") then DIR_PATH_USER else ConfigDir a) v).

Definition read_config (v : V) : gores V :=
  match ReadInConfig v with
  | (ReadError e, v) => Err (outdated v e)
  | (_, v) => Ok v
  end.
Definition merge_config (a : Args) (v : V) : gores V :=
  if decide (aConfig a = "") then Ok v
  else match MergeConfig (aConfig a) v with
       | (Some e, _) => Err (Errorf ("Provided config string is invalid: " +:+ Error e))
       | (None, v) => Ok v
       end.
Definition unmarshal (v : V) : gores (C * V) :=
  match UnmarshalExact v with Err e => Err (outdated v e) | Ok c => Ok (c, v) end.

Definition Load (a : Args) (v : V) : gores (C * V) :=
  v ← read_config (set_paths a v); v ← merge_config a v; unmarshal v.

Definition write_config (v : V) : gores V :=
  match SafeWriteConfig v with
  | (None, v) => Ok v
  | (Some _, v) =>
      match WriteConfig v with
      | (None, v) => Ok v
      | (Some e, _) => Err (Errorf ("Failed to write config file: " +:+ Error e))
      end
  end.

Definition Init (a : Args) (v : V) : gores (C * V) :=
  let dir := if decide (ConfigDir a = "") then DIR_PATH_USER else ConfigDir a in
  match (if existing dir then None else MkdirAll dir) with
  | Some e => Err e
  | None =>
      v ← (if Merge a then read_config (set_paths a v) else Ok (set_paths a v));
      v ← merge_config a v;
      v ← write_config v;
      unmarshal v
  end.

(** ** The arguments *)

Record Parsed := mkParsed { configStr : string; configDir : string; initConfig : bool; mergeConfig : bool }.

(** The loop, which looks at every argument twice, and may move on in between;
    [None] is an index out of range. *)
Fixpoint parse_args (fuel : nat) (args : list string) (i : nat) (p : Parsed) : option Parsed :=
  match fuel with
  | O => Some p
  | S fuel =>
      if decide (i < length args) then
        arg ← args !! i;
        let '(str, i) :=
          if decide (arg = "--config" ∧ i + 1 < length args) then (nth (i + 1) args "", i + 1)
          else match CutPrefix arg "--config" with Some after => (after, i) | None => (configStr p, i) end in
        let '(dir, i) :=
          if decide (arg = "--config-dir" ∧ i + 1 < length args) then (nth (i + 1) args "", i + 1)
          else match CutPrefix arg "--config-dir" with Some after => (after, i) | None => (configDir p, i) end in
        parse_args fuel args (S i)
          (mkParsed str dir (initConfig p || bool_decide (arg = "--init-config")) (mergeConfig p || bool_decide (arg = "--merge-config")))
      else Some p
  end.

Definition parse (args : list string) : option Parsed := parse_args (length args) args 0 (mkParsed "" "" false false).

(** The package's [init]: whatever goes wrong stops the program. *)
Definition init (args : list string) (CEDANA_CONFIG_DIR : string) (v : V) : option (C * V) :=
  defaults ← setDefaults;
  bindings ← bindEnvVars;
  let v := AutomaticEnv (foldl (λ v b, BindEnv b v) (foldl (λ v d, SetDefault d.1 d.2 v) v defaults) bindings) in
  match Unmarshal v with
  | Err _ => None
  | Ok _ =>
      p ← parse args;
      let dir := if decide (configDir p = "") then CEDANA_CONFIG_DIR else configDir p in
      match (if initConfig p || mergeConfig p then Init (mkArgs (configStr p) dir (mergeConfig p)) v
             else Load (mkArgs (configStr p) dir false) v) with
      | Err _ => None
      | Ok r => Some r
      end
  end.
End viper.

(** ** Keys *)

Fixpoint Ty_ind' (P : Ty → Prop) (Hs : P Scalar) (Hf : ∀ fields, Forall (λ f : Field, P f.2) fields → P (Struct fields)) (t : Ty) : P t :=
  match t with
  | Scalar => Hs
  | Struct fields =>
      Hf fields ((fix go (fields : list Field) : Forall (λ f : Field, P f.2) fields :=
        match fields with
        | [] => Forall_nil_2 _
        | f :: fields => Forall_cons_2 _ f fields (Ty_ind' P Hs Hf f.2) (go fields)
        end) fields)
  end.

(** The fields of every struct have different names without dots, and the tag. *)
Inductive well_tagged (tag : string) : Ty → Prop :=
| tagged_scalar : well_tagged tag Scalar
| tagged_struct fields :
    NoDup ((λ f : Field, f.1.1) <$> fields) →
    Forall (λ f : Field, has_byte dot f.1.1 = false ∧ tag_of f.1.2 tag ≠ "" ∧ well_tagged tag f.2) fields →
    well_tagged tag (Struct fields).

Definition leaves_of (tag : option string) (f : Field) : list string :=
  let name := match tag with Some tag => tag_of f.1.2 tag | None => f.1.1 end in
  match f.2 with Scalar => [name] | Struct _ => dotted name <$> ListLeaves f.2 tag end.

Lemma ListLeaves_struct fields tag : ListLeaves (Struct fields) tag = concat (leaves_of tag <$> fields).
Proof.
  cbn [ListLeaves]. induction fields as [|[[name tags] t] fields IH]; [done|]. cbn [fmap list_fmap concat]. rewrite -IH.
  unfold leaves_of. cbn [fst snd]. by destruct tag.
Qed.

Lemma field_of_elem (f : Field) fields :
  NoDup ((λ f : Field, f.1.1) <$> fields) → f ∈ fields → field_of f.1.1 fields = Some f.
Proof.
  unfold field_of. induction fields as [|g fields IH]; intros Hnd Hin; [by apply not_elem_of_nil in Hin|].
  rewrite fmap_cons in Hnd. apply list.NoDup_cons in Hnd as [Hn Hnd]. cbn [list_find]. apply elem_of_cons in Hin as [<-|Hin]; [by rewrite decide_True|].
  case_decide as Hg.
  - contradict Hn. rewrite Hg. by apply (list_elem_of_fmap_2 (λ f : Field, f.1.1)).
  - specialize (IH Hnd Hin). by destruct (list_find _ fields) as [[i x]|].
Qed.

Lemma StrJoin_cons x l : l ≠ [] → StrJoin (x :: l) "." = dotted x (StrJoin l ".").
Proof. by destruct l. Qed.

Lemma Forall2_concat_map {A B} (R : A → A → Prop) (f g : B → list A) l :
  (∀ x, x ∈ l → Forall2 R (f x) (g x)) → Forall2 R (concat (f <$> l)) (concat (g <$> l)).
Proof.
  induction l as [|x l IH]; intros H; [constructor|]. cbn. apply Forall2_app; [apply H; by left|].
  apply IH. intros y Hy. apply H. by right.
Qed.

(** A leaf, its path and the tags along it. *)
Definition keyed (t : Ty) (tag f g : string) : Prop :=
  ∃ vals, tags_along t (Split f dot) tag = Some (Some vals) ∧ vals ≠ [] ∧ StrJoin vals "." = g.

Lemma leaves_keyed tag t : well_tagged tag t → Forall2 (keyed t tag) (ListLeaves t None) (ListLeaves t (Some tag)).
Proof.
  induction t as [|fields IH] using Ty_ind'; intros Hwt; [constructor|]. inversion Hwt as [|? Hnd Hall]; subst.
  rewrite !ListLeaves_struct. apply Forall2_concat_map. intros f Hin.
  rewrite list.Forall_forall in IH. specialize (IH f Hin). rewrite list.Forall_forall in Hall. destruct (Hall f Hin) as (Hdot & Htag & Hsub).
  pose proof (field_of_elem f fields Hnd Hin) as Hf. destruct f as [[name tags] t]. cbn [fst snd] in *.
  unfold leaves_of. cbn [fst snd]. destruct t as [|fields'].
  - constructor; [|constructor]. exists [tag_of tags tag]. rewrite Split_nosep //. cbn [tags_along]. rewrite Hf. cbn [mbind option_bind option_map].
    by rewrite decide_False.
  - specialize (IH Hsub). apply Forall2_fmap. eapply list.Forall2_impl; [exact IH|]. intros f g (vals & Hv & Hne & <-).
    exists (tag_of tags tag :: vals). unfold dotted. change ("." +:+ f) with (String dot f). rewrite Split_app Split_nosep //.
    cbn [app tags_along]. rewrite Hf. cbn [mbind option_bind]. rewrite Hv. cbn [mbind option_bind option_map]. rewrite decide_False //.
    split; [done|]. split; [done|]. by rewrite StrJoin_cons.
Qed.

(** Looking up the tags along the path of each leaf gives the leaves listed by
    the tag. *)
Theorem leaves_tags tag t :
  well_tagged tag t → (λ f, GetTag t f tag) <$> ListLeaves t None = Some <$> ListLeaves t (Some tag).
Proof.
  intros Hwt. destruct t as [|fields]; [done|]. pose proof (leaves_keyed tag _ Hwt) as H. apply list_eq_Forall2, Forall2_fmap. eapply list.Forall2_impl; [exact H|].
  intros f g (vals & Hv & Hne & <-). unfold GetTag. by rewrite Hv.
Qed.

(** ** The settings *)

Lemma Config_tagged : well_tagged FILE_TYPE Config.
Proof. repeat (constructor || set_solver || (split; [done|split; [done|]]) || discriminate). Qed.

(** Every setting has a default under a key of its own. *)
Theorem settings_have_defaults :
  ∃ defaults, setDefaults = Some defaults ∧ defaults.*1 = ListLeaves Config (Some FILE_TYPE) ∧ NoDup defaults.*1 ∧
    Forall (λ d, ∃ x, d.2 = Some (VScalar x)) defaults.
Proof.
  eexists. split; [vm_compute; reflexivity|]. split; [reflexivity|].
  split; [apply (bool_decide_unpack _); vm_compute; exact I|]. repeat constructor; eexists; reflexivity.
Qed.

(** The variables of a binding. *)
Definition variables (binding : list string) : list string := filter (λ x, x ≠ "") (drop 1 binding).

(** Every setting is bound to a variable, and no variable to two settings; a
    variable may be bound to the same setting twice. *)
Theorem variables_distinct :
  ∃ bindings, bindEnvVars = Some bindings ∧ Forall (λ b, variables b ≠ []) bindings ∧
    ∀ i j b c, bindings !! i = Some b → bindings !! j = Some c → i ≠ j → variables b ## variables c.
Proof.
  destruct bindEnvVars as [bindings|] eqn:H; [|by vm_compute in H]. exists bindings. split; [done|].
  assert (Forall (λ b, variables b ≠ []) bindings ∧
    NoDup (concat ((λ b, remove_dups (variables b)) <$> bindings))) as [Hne Hnd].
  { vm_compute in H. injection H as <-. by apply (bool_decide_unpack _); vm_compute. }
  split; [done|]. clear H Hne. intros i j b c Hi Hj Hij x Hb Hc.
  revert i j Hi Hj Hij. induction bindings as [|d bs IH]; intros i j Hi Hj Hij; [done|].
  cbn in Hnd. apply list.NoDup_app in Hnd as (_ & Hdis & Hnd).
  assert (∀ k e, bs !! k = Some e → x ∈ variables e → x ∈ concat ((λ b, remove_dups (variables b)) <$> bs)) as Hin.
  { intros k e Hk He. apply list_elem_of_In, in_concat. exists (remove_dups (variables e)).
    rewrite -!list_elem_of_In elem_of_remove_dups. split; [|done].
    apply (list_elem_of_fmap_2 (λ b, remove_dups (variables b))). by eapply list_elem_of_lookup_2. }
  destruct i as [|i], j as [|j]; [done| | |].
  - injection Hi as ->. apply (Hdis x); [by apply elem_of_remove_dups|]. by eapply Hin.
  - injection Hj as ->. apply (Hdis x); [by apply elem_of_remove_dups|]. by eapply Hin.
  - eapply (IH Hnd i j); [exact Hi|exact Hj|congruence].
Qed.

(** ** The arguments *)

(** An argument that is none of the flags. *)
Definition plain (arg : string) : Prop := HasPrefix arg "--config" = false ∧ arg ≠ "--init-config" ∧ arg ≠ "--merge-config".

Lemma plain_CutPrefix arg : plain arg → CutPrefix arg "--config" = None ∧ CutPrefix arg "--config-dir" = None.
Proof.
  intros (H & _). split; [by rewrite /CutPrefix H|]. destruct (CutPrefix arg "--config-dir") as [s|] eqn:Hc; [|done].
  apply CutPrefix_Some in Hc as ->. change ("--config-dir" +:+ s) with ("--config" +:+ ("-dir" +:+ s)) in H.
  unfold HasPrefix in H. by rewrite prefix_append in H.
Qed.
Lemma plain_ne arg : plain arg → arg ≠ "--config" ∧ arg ≠ "--config-dir".
Proof. intros (H & _). split; intros ->; by vm_compute in H. Qed.

Section args.
Context {VP : Viper}.

Lemma parse_plain pre post fuel args i p :
  Forall plain pre → drop i args = pre ++ post →
  parse_args (length pre + fuel) args i p = parse_args fuel args (i + length pre) p.
Proof.
  revert i p. induction pre as [|arg pre IH]; intros i p Hpl Hd; [by rewrite Nat.add_0_r|].
  apply Forall_cons_1 in Hpl as [Ha Hpl]. pose proof (plain_CutPrefix arg Ha) as [Hc1 Hc2]. pose proof (plain_ne arg Ha) as [Hn1 Hn2].
  destruct Ha as (_ & Hi & Hm).
  assert (args !! i = Some arg) as Hl by by rewrite -(Nat.add_0_r i) -lookup_drop Hd.
  cbn [length Nat.add parse_args]. rewrite decide_True; [by eapply lookup_lt_Some|]. rewrite Hl. cbn [mbind option_bind].
  rewrite (decide_False (P := arg = "--config" ∧ _)); [by intros []|]. rewrite Hc1.
  rewrite decide_False; [by intros []|]. rewrite Hc2 (bool_decide_false _ Hi) (bool_decide_false _ Hm) !orb_false_r.
  rewrite IH //; [by rewrite -Nat.add_1_r -drop_drop Hd|]. destruct p; cbn [configStr configDir initConfig mergeConfig]. f_equal; lia.
Qed.

Lemma parse_end fuel args i p : length args ≤ i → parse_args fuel args i p = Some p.
Proof. intros H. destruct fuel; [done|]. cbn [parse_args]. by rewrite decide_False; [lia|]. Qed.

(** The number of arguments is fuel enough, and no index is out of range. *)
Theorem parse_args_enough n fuel args i p :
  length args ≤ i + n → n ≤ fuel → ∃ p', parse_args n args i p = Some p' ∧ parse_args fuel args i p = Some p'.
Proof.
  revert fuel i p. induction n as [|n IH]; intros fuel i p Hl Hf; [exists p; by rewrite !parse_end; [lia..|]|].
  destruct fuel as [|fuel]; [lia|]. cbn [parse_args]. case_decide as Hi; [|by exists p].
  destruct (lookup_lt_is_Some_2 args i Hi) as [arg ->]. cbn [mbind option_bind].
  repeat case_match; simplify_eq; apply IH; lia.
Qed.

(** One of the flags among plain arguments. *)
Lemma parse_flag pre flag d post str dir :
  Forall plain pre → Forall plain post → flag ≠ "--init-config" → flag ≠ "--merge-config" →
  (if decide (flag = "--config") then Some d else CutPrefix flag "--config") = Some str →
  (if decide (flag = "--config-dir") then d else "") = dir → (flag = "--config" ∨ flag = "--config-dir") →
  parse (pre ++ [flag; d] ++ post) = Some (mkParsed str dir false false).
Proof.
  intros Hpre Hpost Hi Hm Hstr Hdir Hflag. unfold parse. set (args := pre ++ [flag; d] ++ post).
  assert (length args = length pre + S (S (length post))) as Hlen by by rewrite /args length_app.
  rewrite {1}Hlen (parse_plain pre ([flag; d] ++ post)) //. cbn [Nat.add parse_args].
  rewrite decide_True; [lia|].
  assert (args !! length pre = Some flag) as Hf by by apply list_lookup_middle.
  assert (args !! (length pre + 1) = Some d) as Hd by by rewrite /args lookup_app_r ?Nat.add_sub'; [lia|].
  rewrite Hf. cbn [mbind option_bind]. rewrite (nth_lookup_Some _ _ _ _ Hd).
  rewrite (bool_decide_false _ Hi) (bool_decide_false _ Hm). cbn [orb initConfig mergeConfig configStr configDir].
  assert (∀ fuel, parse_args (length post + fuel) args (length pre + 2) (mkParsed str dir false false) =
    Some (mkParsed str dir false false)) as Hend.
  { intros fuel. rewrite (parse_plain post []); [done| |].
    - rewrite app_nil_r /args. by rewrite -drop_drop drop_app_length.
    - apply parse_end. rewrite Hlen. lia. }
  specialize (Hend 1). rewrite Nat.add_1_r in Hend. replace (length pre + 2) with (S (length pre + 1)) in Hend by lia.
  destruct Hflag as [->| ->].
  - rewrite decide_True; [split; [done|lia]|]. cbn in Hstr. injection Hstr as ->. cbn in Hdir. subst dir. exact Hend.
  - destruct (decide ("--config-dir" = "--config" ∧ length pre + 1 < length args)) as [[Hx _]|_]; [done|]. vm_compute in Hstr. injection Hstr as <-.
    change (CutPrefix "--config-dir" "--config") with (Some "-dir"). cbn iota beta.
    rewrite decide_True; [split; [done|lia]|]. rewrite (nth_lookup_Some _ _ _ _ Hd). cbn in Hdir. subst dir. exact Hend.
Qed.

(** The configuration given as an argument is the one that is merged. *)
Theorem parse_config pre s post :
  Forall plain pre → Forall plain post → parse (pre ++ ["--config"; s] ++ post) = Some (mkParsed s "" false false).
Proof. intros. apply parse_flag; try done. by left. Qed.

(** A directory given as an argument also sets the configuration. *)
Theorem parse_config_dir pre dir post :
  Forall plain pre → Forall plain post → parse (pre ++ ["--config-dir"; dir] ++ post) = Some (mkParsed "-dir" dir false false).
Proof. intros. apply parse_flag; try done. by right. Qed.

Lemma parse_plain_only args : Forall plain args → parse args = Some (mkParsed "" "" false false).
Proof.
  intros H. unfold parse. rewrite -{1}(Nat.add_0_r (length args)) (parse_plain args []) ?app_nil_r //.
Qed.

(** A flag with its value after an equals sign. *)
Lemma parse_prefixed pre flag post str :
  Forall plain pre → Forall plain post → flag ≠ "--config" → flag ≠ "--config-dir" → flag ≠ "--init-config" →
  flag ≠ "--merge-config" → CutPrefix flag "--config" = Some str → CutPrefix flag "--config-dir" = None →
  parse (pre ++ [flag] ++ post) = Some (mkParsed str "" false false).
Proof.
  intros Hpre Hpost Hn1 Hn2 Hi Hm Hc1 Hc2. unfold parse. set (args := pre ++ [flag] ++ post).
  assert (length args = length pre + S (length post)) as Hlen by by rewrite /args length_app.
  rewrite {1}Hlen (parse_plain pre ([flag] ++ post)) //. cbn [Nat.add parse_args].
  rewrite decide_True; [lia|].
  assert (args !! length pre = Some flag) as -> by by apply list_lookup_middle.
  cbn [mbind option_bind]. rewrite (decide_False (P := flag = "--config" ∧ _)); [by intros []|]. rewrite Hc1.
  rewrite decide_False; [by intros []|]. rewrite Hc2 (bool_decide_false _ Hi) (bool_decide_false _ Hm).
  cbn [orb configDir initConfig mergeConfig].
  pose proof (parse_plain post [] 0 args (S (length pre)) (mkParsed str "" false false) Hpost) as Hp.
  rewrite Nat.add_0_r in Hp. rewrite Hp //. by rewrite app_nil_r /args -Nat.add_1_r -drop_drop drop_app_length.
Qed.

Lemma parse_config_equals pre s post :
  Forall plain pre → Forall plain post → parse (pre ++ ["--config=" +:+ s] ++ post) = Some (mkParsed ("=" +:+ s) "" false false).
Proof.
  intros Hpre Hpost. by apply parse_prefixed.
Qed.

(** What is not a configuration stops the program. *)
Lemma init_invalid DIR_PATH_USER args env v p e :
  parse args = Some p → initConfig p = false → mergeConfig p = false → configStr p ≠ "" →
  (∀ v, fst (MergeConfig (configStr p) v) = Some e) → init DIR_PATH_USER args env v = None.
Proof.
  intros Hp Hi Hm Hs He. unfold init. destruct setDefaults as [ds|]; [|done]. destruct bindEnvVars as [bs|]; [|done].
  cbn [mbind option_bind]. destruct (Unmarshal _); [|done]. rewrite Hp. cbn [mbind option_bind]. rewrite Hi Hm. cbn [orb].
  unfold Load. destruct (read_config _) as [v'|]; [|done]. cbn [mbind gores_bind]. unfold merge_config. cbn [aConfig].
  rewrite decide_False //. pose proof (He v') as H. by destruct (MergeConfig (configStr p) v') as [[]].
Qed.

(** A configuration directory given as an argument stops the program, when
    "-dir" is no configuration. *)
Theorem config_dir_panics DIR_PATH_USER pre dir post env v e :
  Forall plain pre → Forall plain post → (∀ v, fst (MergeConfig "-dir" v) = Some e) →
  init DIR_PATH_USER (pre ++ ["--config-dir"; dir] ++ post) env v = None.
Proof. intros Hpre Hpost He. by eapply init_invalid; [apply parse_config_dir|..]. Qed.

(** So does a configuration after an equals sign, which the flag's own parser
    accepts. *)
Theorem config_equals_panics DIR_PATH_USER pre s post env v e :
  Forall plain pre → Forall plain post → (∀ v, fst (MergeConfig ("=" +:+ s) v) = Some e) →
  init DIR_PATH_USER (pre ++ ["--config=" +:+ s] ++ post) env v = None.
Proof. intros Hpre Hpost He. by eapply init_invalid; [apply parse_config_equals|..]. Qed.

(** The settings are loaded from the directory in the environment, or of the
    user. *)
Theorem init_loads DIR_PATH_USER pre s post env v :
  Forall plain pre → Forall plain post →
  (∀ v, ∃ c, Unmarshal v = Ok c) →
  ∃ v', init DIR_PATH_USER (pre ++ ["--config"; s] ++ post) env v =
    match Load DIR_PATH_USER (mkArgs s env false) v' with Ok r => Some r | Err _ => None end.
Proof.
  intros Hpre Hpost Hu. unfold init. destruct variables_distinct as (bs & -> & _). destruct settings_have_defaults as (ds & -> & _).
  cbn [mbind option_bind]. eexists. edestruct Hu as [c ->]. by rewrite parse_config.
Qed.
End args.

(** A setting of a group is bound to the variable of both names. *)
Example checkpoint_dir_variable :
  GetTag Config "Checkpoint.Dir" FILE_TYPE = Some "checkpoint.dir" ∧
  binding_of "Checkpoint.Dir" = Some ["checkpoint.dir"; "CEDANA_CHECKPOINT_DIR"; ""] ∧
  binding_of "Connection.AuthToken" = Some ["connection.auth_token"; "CEDANA_CONNECTION_AUTH_TOKEN"; "CEDANA_AUTH_TOKEN"].
Proof. done. Qed.

(** Viper without files, whose state is the configuration merged last. *)
Definition objects : Viper := {|
  V := string; C := string; SetDefault := λ _ _ v, v; BindEnv := λ _ v, v; AutomaticEnv := λ v, v; AddConfigPath := λ _ v, v;
  ReadInConfig := λ v, (ConfigFileNotFound, v);
  MergeConfig := λ s v, if HasPrefix s "{" then (None, s) else (Some (Errorf "While parsing config"), v);
  UnmarshalExact := Ok; Unmarshal := Ok; SafeWriteConfig := λ v, (None, v); WriteConfig := λ v, (None, v);
  ConfigFileUsed := λ _, ""; existing := λ _, true; MkdirAll := λ _, None |}.

Example config_dir_panics_witness : init (VP := objects) "/etc/cedana" ["daemon"; "--config-dir"; "/tmp"; "start"] "" "" = None.
Proof.
  apply (config_dir_panics (VP := objects) "/etc/cedana" ["daemon"] "/tmp" ["start"] "" "" (Errorf "While parsing config")); repeat constructor;
    discriminate.
Defined.

Example init_examples :
  init (VP := objects) "/etc/cedana" ["--config"; "{}"; "version"] "" "" = Some ("{}", "{}") ∧
  init (VP := objects) "/etc/cedana" ["--config={}"; "version"] "" "" = None ∧
  init (VP := objects) "/etc/cedana" ["version"] "/tmp" "" = Some ("", "").
Proof. done. Qed.
End Config.
