(* ===== verification/Client.v ===== *)
(** * The client of the daemon (pkg/client/client.go)

    Connecting by protocol and address, and the methods, which call the daemon
    and make of the answer what the commands print.  gRPC and the daemon behind
    it are the class [Daemon], over a state [W]; the result [None] is a use of the
    nil connection, which panics.

    With the same configuration the client connects where the server listens
    ([client_reaches_server]).  With vsock a context ID that does not parse goes
    unnoticed, and so does a connection that was not created ([vsock_lost]). *)

From Stdlib Require Import Ascii DecimalString.
From S2P Require Import Prelude GoLib ProcState Server.
From S2P Require Containerd.

Module Client.
Import GoLib.
#[local] Arguments String.append : simpl never.

(** ** Messages *)

Record Process := mkProcess { pPath : string; pArgs : list string; pWorkingDir : string; pPID : Z }.
(** [daemon.Details]; of the plugins only containerd's. *)
Record Details := mkDetails { dJID : option string; dProcess : option Process; dContainerd : option Containerd.Containerd.Containerd }.
Definition empty_Details : Details := mkDetails None None None.

(** [criu.CriuOpts], as far as the commands set it. *)
Record CriuOpts := mkCriuOpts {
  TcpEstablished : option bool; TcpSkipInFlight : option bool; TcpClose : option bool; LeaveRunning : option bool;
  LeaveStopped : option bool; FileLocks : option bool; ShellJob : option bool; LinkRemap : option bool;
  External : list string;
}.

Inductive DumpAction := DUMP | FREEZE_ONLY | UNFREEZE_ONLY.
Record DumpReq := mkDumpReq {
  Dir : string; Name : string; Compression : string; Streams : Z; Criu : option CriuOpts; Action : DumpAction;
  Type' : string; details : option Details;
}.
Definition set_Action (x : DumpAction) (r : DumpReq) : DumpReq :=
  mkDumpReq (Dir r) (Name r) (Compression r) (Streams r) (Criu r) x (Type' r) (details r).

Record Credential := mkCredential { Uid : Z; Gid : Z; Groups : list Z }.
Record RestoreReq := mkRestoreReq {
  rPath : string; rPidFile : string; rLog : string; rAttachable : bool; rWaitFirstMaster : bool; rCriu : CriuOpts;
  rEnv : list string; rGPUID : string; rUser : Credential; rType : string; rDetails : option Details;
}.
Inductive RunAction := START_NEW | MANAGE_EXISTING | MANAGE_UPCOMING.
Record RunReq := mkRunReq {
  JID : string; Log : string; PidFile : string; GPUEnabled : bool; GPUTracing : bool; GPUID : string; Attachable : bool;
  WaitFirstMaster : bool; RAction : RunAction; Env : list string; User : Credential; RType : string;
  RDetails : option Details;
}.
(** The responses, as far as the commands use them: the PID of a restore or a
    run, and the messages. *)
Record Resp := mkResp { PID : Z; Messages : list string }.

(** ** Connecting *)

(** [strconv.ParseUint(s, 10, 32)]: the value is also set when it fails. *)
Definition ParseUint32 (s : string) : Z * option error :=
  match ProcState.ParseUint s 32 with
  | Some z => (z, None)
  | None =>
      match NilEmpty.uint_of_string s with
      | None | Some Decimal.Nil => (0%Z, Some (Errorf ("strconv.ParseUint: parsing " +:+ Server.quoted s +:+ ": invalid syntax")))
      | Some _ => ((2 ^ 32 - 1)%Z, Some (Errorf ("strconv.ParseUint: parsing " +:+ Server.quoted s +:+ ": value out of range")))
      end
  end.

(** A connection by its target, with what the dialer of vsock dials; or the nil
    pointer. *)
Inductive Conn := Connected (target : string) (vsock : option (Z * Z)) | NilConn.

Section new.
(** [grpc.NewClient] *)
Context (NewClient : string → option error).

Definition connect (target : string) (vsock : option (Z * Z)) : gores Conn :=
  match NewClient target with Some e => Err e | None => Ok (Connected target vsock) end.

(** In the case of vsock the errors are assigned to the variable of the case,
    which is looked at once, after the second number. *)
Definition New (address protocol : string) : option (gores Conn) :=
  let protocol := Server.ToLower protocol in
  if decide (protocol = "tcp") then Some (connect (Server.or_default address Server.DEFAULT_TCP_ADDR) None)
  else if decide (protocol = "unix") then Some (connect ("unix://" +:+ Server.or_default address Server.DEFAULT_SOCK_ADDR) None)
  else if decide (protocol = "vsock") then
    if decide (address = "") then Some (Err (Errorf "address must be provided for vsock"))
    else if negb (Contains address ":") then Some (Err (Errorf "address must be in the format 'contextId:port'"))
    else
      cid ← Split address Server.colon !! 0; port ← Split address Server.colon !! 1;
      let '(contextId, _) := ParseUint32 cid in
      let '(port, err) := ParseUint32 port in
      Some (match err with
            | Some e => Err (Errorf ("failed to parse vsock address: " +:+ Error e))
            | None =>
                match connect ("vsock://" +:+ itoaZ contextId +:+ ":" +:+ itoaZ port) (Some (contextId, port)) with
                | Err _ => Ok NilConn
                | Ok conn => Ok conn
                end
            end)
  else Some (Err (Errorf ("invalid protocol: " +:+ protocol))).
End new.


(** ** Calls *)

(** [utils.GRPCErrorColored] without more to say; colours are a parameter. *)
Definition GRPCErrorColored (color : string → string) (err : error) : error :=
  match err with Status c msg => Errorf (color (code_String c) +:+ ": " +:+ msg) | _ => err end.

(** The daemon behind a connection: each call gives the response or the error of
    gRPC; those that are profiled also a trailer. *)
Class Daemon (W : Type) := {
  Trailer : Type;
  Data : Type;
  color : string → string;
  FromTrailer : Trailer → gores (option Data);
  dDump : DumpReq → Go W (gores Resp * Trailer);
  dFreeze : DumpReq → Go W (gores Resp * Trailer);
  dUnfreeze : DumpReq → Go W (gores Resp * Trailer);
  dRestore : RestoreReq → Go W (gores Resp * Trailer);
  dRun : RunReq → Go W (gores Resp * Trailer);
  dManage : RunReq → Go W (gores Resp * Trailer);
  dGet : string → Go W (gores (string * Z));        (** type and PID of a job *)
  dKill : list string → Go W (gores (list string));
  dDelete : list string → Go W (gores (list string));
  openAttach : Go W (option error);
  sendAttach : Z → Go W (option error);
  attached : Go W (gores Z);                        (** the session, to its exit code *)
}.

Section calls.
Context {W : Type} {D : Daemon W}.

Definition nonnil {A} (c : Conn) (m : Go W A) : Go W A := match c with NilConn => block | Connected _ _ => m end.

(** A profiled call: the response and the data of its trailer. *)
Definition profiled {Req} (call : Req → Go W (gores Resp * Trailer)) (c : Conn) (args : Req) : Go W (gores (Resp * option Data)) :=
  '(r, trailer) ← nonnil c (call args);
  mret (match r with
        | Err e => Err (GRPCErrorColored color e)
        | Ok resp => match FromTrailer trailer with Err e => Err e | Ok data => Ok (resp, data) end
        end).
Definition plain {Req A} (call : Req → Go W (gores A)) (c : Conn) (args : Req) : Go W (gores A) :=
  r ← nonnil c (call args); mret (match r with Err e => Err (GRPCErrorColored color e) | Ok resp => Ok resp end).

Definition Dump (c : Conn) (args : DumpReq) := profiled dDump c (set_Action DUMP args).
Definition Freeze (c : Conn) (args : DumpReq) := profiled dFreeze c (set_Action FREEZE_ONLY args).
Definition Unfreeze (c : Conn) (args : DumpReq) := profiled dUnfreeze c (set_Action UNFREEZE_ONLY args).
Definition Restore := profiled dRestore.
Definition Run := profiled dRun.
Definition Manage := profiled dManage.
Definition Get := plain dGet.
Definition Kill := plain dKill.
Definition Delete := plain dDelete.

(** The program exits with the code, unless there is an error. *)
Definition Attach (c : Conn) (pid : Z) : Go W (gores Z) :=
  let colored e := mret (Err (GRPCErrorColored color e)) in
  e ← nonnil c openAttach;
  match e with
  | Some e => colored e
  | None =>
      e ← sendAttach pid;
      match e with
      | Some e => colored e
      | None => r ← attached; match r with Err e => colored e | Ok code => mret (Ok code) end
      end
  end.

(** ** Theorems about calls *)

(** A response that the daemon gave is lost when its profiling data cannot be
    read, and otherwise every call gives what the daemon gave. *)
Theorem profiled_spec {Req} (call : Req → Go W (gores Resp * Trailer)) target v args w r trailer w' :
  call args w = Some ((r, trailer), w') →
  profiled call (Connected target v) args w =
    Some (match r, FromTrailer trailer with
          | Err e, _ => Err (GRPCErrorColored color e)
          | Ok _, Err e => Err e
          | Ok resp, Ok data => Ok (resp, data)
          end, w').
Proof. intros H. unfold profiled, nonnil. rewrite /mbind /Go_bind H. by destruct r, (FromTrailer trailer). Qed.
End calls.

(** ** Theorems about connecting *)

(** The client and the server agree: where a server listens with the protocol
    and the address of the configuration, a client connects. *)
Theorem client_reaches_server NewClient E opts srv :
  Server.NewServer E opts = Some (Ok srv) → Server.ToLower (Server.Protocol opts) ≠ "vsock" →
  (∀ target, NewClient target = None) →
  ∃ net a, Server.listener srv = Server.Listening net a ∧
    New NewClient (Server.Address opts) (Server.Protocol opts) =
      Some (Ok (Connected (if decide (net = "unix") then "unix://" +:+ a else a) None)).
Proof.
  intros Hs Hp HN. destruct (Server.NewServer_listens E opts srv Hs Hp) as (net & a & Hl & _ & -> & ->).
  eexists _, _. split; [exact Hl|]. unfold New, connect. rewrite !HN.
  destruct (decide (Server.ToLower (Server.Protocol opts) = "tcp")) as [Ht|Ht]; [by rewrite Ht|].
  destruct (decide (Server.ToLower (Server.Protocol opts) = "unix")) as [Hu|Hu]; [done|].
  exfalso. unfold Server.NewServer in Hs. destruct (Server.GetHost _) as [[]|]; [|done..]. cbn [mbind option_bind] in Hs.
  unfold Server.failing in Hs. repeat (case_match; [done|]). unfold Server.listen in Hs.
  rewrite !decide_False // in Hs.
Qed.

(** ** Numbers *)

Lemma digits_acc u p : Server.digits (NilEmpty.string_of_uint u) (Zpos p) = Some (Zpos (Pos.of_uint_acc u p)).
Proof.
  revert p. induction u; intros p; [done|..]; cbn [NilEmpty.string_of_uint Server.digits Pos.of_uint_acc];
    (case_decide as Hx; [|by contradict Hx; vm_compute; lia]); rewrite -IHu; apply (f_equal (Server.digits _));
    match goal with |- context [Z.of_nat ?n] => let k := eval vm_compute in (Z.of_nat n) in change (Z.of_nat n) with k end; lia.
Qed.
Lemma digits_string u : Server.digits (NilEmpty.string_of_uint u) 0 = Some (Z.of_N (N.of_uint u)).
Proof.
  unfold N.of_uint. induction u; [done|..]; cbn [NilEmpty.string_of_uint Server.digits Pos.of_uint];
    (case_decide as Hx; [|by contradict Hx; vm_compute; lia]); [exact IHu|..]; apply digits_acc.
Qed.

Lemma Atoi_itoaZ z : (0 ≤ z < 2 ^ 63)%Z → Server.Atoi (itoaZ z) = Ok z.
Proof.
  intros Hz. unfold itoaZ. rewrite decide_False; [lia|]. unfold itoa.
  pose proof (digits_string (N.to_uint (Z.to_N z))) as Hd. rewrite DecimalN.Unsigned.of_to Z2N.id in Hd; [lia|].
  assert (N.to_uint (Z.to_N z) ≠ Decimal.Nil) as Hnil.
  { destruct (Z.to_N z); [done|]. apply DecimalPos.Unsigned.to_uint_nonnil. }
  destruct (N.to_uint (Z.to_N z)) eqn:Hu; [done|..]; cbn [NilEmpty.string_of_uint] in *; unfold Server.Atoi;
    (destruct (decide (_ = "-"%char)) as [Hx|_]; [discriminate Hx|]); (destruct (decide (_ = "+"%char)) as [Hx|_]; [discriminate Hx|]);
    rewrite Hd; (rewrite decide_True; [lia|done]).
Qed.

Lemma vsock_address cid port :
  has_byte Server.colon cid = false →
  let address := cid +:+ ":" +:+ itoaZ port in
  Split address Server.colon = [cid; itoaZ port] ∧ address ≠ "" ∧ Contains address ":" = true.
Proof.
  intros Hb address.
  assert (Split address Server.colon = [cid; itoaZ port]) as Hs.
  { unfold address. change (":" +:+ itoaZ port) with (String Server.colon (itoaZ port)).
    rewrite Split_append ?Split_nosep //. by apply has_byte_itoaZ. }
  split_and!; [done|by intros He; rewrite He in Hs|]. unfold address. clear. induction cid as [|x s IH].
  - change (Contains (String Server.colon (itoaZ port)) ":" = true). generalize (itoaZ port). intros t. by destruct t.
  - change (String x s +:+ ":" +:+ itoaZ port) with (String x (s +:+ ":" +:+ itoaZ port)).
    cbn [Contains]. by rewrite IH orb_true_r.
Qed.

Lemma New_vsock NewClient cid port protocol :
  Server.ToLower protocol = "vsock" → has_byte Server.colon cid = false → (0 ≤ port < 2 ^ 32)%Z →
  let target := "vsock://" +:+ itoaZ (ParseUint32 cid).1 +:+ ":" +:+ itoaZ port in
  New NewClient (cid +:+ ":" +:+ itoaZ port) protocol =
    Some (Ok (match NewClient target with Some _ => NilConn | None => Connected target (Some ((ParseUint32 cid).1, port)) end)).
Proof.
  intros Hp Hb Hport target. destruct (vsock_address cid port Hb) as (Hs & Hne & Hc). unfold New. rewrite Hp Hc Hs. cbn.
  rewrite (decide_False (P := cid +:+ ":" +:+ itoaZ port = "")) //. destruct (ParseUint32 cid) as [c e]. cbn.
  unfold ParseUint32. rewrite ProcState.ParseUint_itoaZ; [lia|]. unfold connect. by destruct (NewClient _).
Qed.

(** With vsock the same holds for a context ID and a port that are numbers. *)
Theorem client_reaches_vsock NewClient E cid port protocol version :
  Server.ToLower protocol = "vsock" → (0 ≤ cid < 2 ^ 32)%Z → (0 ≤ port < 2 ^ 32)%Z →
  Server.Listen E "vsock" (itoaZ port) = None → (∀ target, NewClient target = None) →
  let address := itoaZ cid +:+ ":" +:+ itoaZ port in
  Server.listen E (Server.mkOpts address protocol version) = Some (Ok (Server.Listening "vsock" (itoaZ port))) ∧
  New NewClient address protocol = Some (Ok (Connected ("vsock://" +:+ address) (Some (cid, port)))).
Proof.
  intros Hp Hcid Hport Hl HN address. assert (has_byte Server.colon (itoaZ cid) = false) as Hb by by apply has_byte_itoaZ.
  destruct (vsock_address (itoaZ cid) port Hb) as (Hs & Hne & Hc). split.
  - unfold Server.listen. cbn [Server.Protocol Server.Address]. rewrite Hp Hc Hs. cbn.
    rewrite (decide_False (P := address = "")) // Atoi_itoaZ; [lia|]. by rewrite uint32_id // Hl.
  - unfold address. rewrite New_vsock // HN. unfold ParseUint32. by rewrite ProcState.ParseUint_itoaZ.
Qed.

(** A context ID that is not a number counts as 0, and a connection that could
    not be created is a nil pointer that is taken for a client: its first call
    panics. *)
Theorem vsock_lost {W} {D : Daemon W} NewClient cid port e :
  has_byte Server.colon cid = false → (ParseUint32 cid).1 = 0%Z → (ParseUint32 cid).2 = Some e → (0 ≤ port < 2 ^ 32)%Z →
  let target := "vsock://0:" +:+ itoaZ port in
  New NewClient (cid +:+ ":" +:+ itoaZ port) "vsock" =
    Some (Ok (match NewClient target with Some _ => NilConn | None => Connected target (Some (0%Z, port)) end)) ∧
  ∀ args w, Dump NilConn args w = None.
Proof. intros Hb H0 _ Hport target. split; [|done]. by rewrite New_vsock // H0. Qed.
End Client.
