(* ===== verification/Command.v ===== *)
(** * The commands (cmd/dump.go, restore.go, run.go, manage.go, freeze.go, unfreeze.go, job.go)

    A command runs three hooks, which share a context: the parent builds a
    request from the flags and connects, the subcommand (of a plugin, too) adds
    its details, and the parent sends the request.  A hook is a program over the
    context, the daemon and the output ([M]); it returns, fails or exits.

    The theorems are in [CommandSpec]. *)

From S2P Require Import Prelude GoLib ProcState Client.
From S2P Require Containerd.

Module Command.
Import GoLib Client.
#[local] Arguments String.append : simpl never.

Section commands.
Context {W : Type} {D : Daemon W} {Req : Type}.

(** ** Hooks *)

Inductive Out :=
| Println (line : string) | Profile (data : Data) | WriteJSON (path : string) (data : Data)
| WriteFile (path content : string) | Close.

(** The context of a command holds the request and the client; [world] is the
    daemon, or what runs in its place without a server. *)
Record State := mkState { request : option Req; client : option Conn; world : W; out : list Out }.

Inductive res (A : Type) := Val (a : A) | Fail (e : error) | Exit (code : Z).
#[global] Arguments Val {_} _. #[global] Arguments Fail {_} _. #[global] Arguments Exit {_} _.

Definition M (A : Type) : Type := State → option (res A * State).
#[global] Instance M_ret : MRet M := λ _ a s, Some (Val a, s).
#[global] Instance M_bind : MBind M := λ _ _ f m s,
  match m s with
  | Some (Val a, s) => f a s
  | Some (Fail e, s) => Some (Fail e, s)
  | Some (Exit code, s) => Some (Exit code, s)
  | None => None
  end.

Definition panic {A} : M A := λ s, None.
Definition fails {A} (e : error) : M A := λ s, Some (Fail e, s).
Definition exits {A} (code : Z) : M A := λ s, Some (Exit code, s).
Definition print (o : Out) : M unit := λ s, Some (Val (), mkState (request s) (client s) (world s) (out s ++ [o])).
Definition set_request (r : Req) : M unit := λ s, Some (Val (), mkState (Some r) (client s) (world s) (out s)).
Definition set_client (c : Conn) : M unit := λ s, Some (Val (), mkState (request s) (Some c) (world s) (out s)).
Definition get_request (msg : string) : M Req := λ s,
  Some (match request s with Some r => Val r | None => Fail (Errorf msg) end, s).
Definition get_client (msg : string) : M Conn := λ s,
  Some (match client s with Some c => Val c | None => Fail (Errorf msg) end, s).
Definition checked {A} (r : gores A) : M A := λ s, Some (match r with Ok a => Val a | Err e => Fail e end, s).
Definition lift {A} (m : Go W A) : M A := λ s,
  match m (world s) with Some (a, w) => Some (Val a, mkState (request s) (client s) w (out s)) | None => None end.
(** [if err != nil { return err }] *)
Definition call {A} (m : Go W (gores A)) : M A := r ← lift m; checked r.
(** [fmt.Errorf(msg + ": %v", err)] *)
Definition wrapping {A} (msg : string) (r : gores A) : M A :=
  checked (match r with Ok a => Ok a | Err e => Err (Errorf (msg +:+ ": " +:+ Error e)) end).

(** [defer client.Close()], which is not run when the program exits, and panics
    with the nil connection. *)
Definition deferring_close {A} (c : Conn) (m : M A) : M A := λ s,
  match m s with
  | Some (Exit code, s) => Some (Exit code, s)
  | Some (r, s) => match c with NilConn => None | Connected _ _ => Some (r, mkState (request s) (client s) (world s) (out s ++ [Close])) end
  | None => None
  end.

Record Command := mkCommand {
  Args : list string → option error;
  PersistentPreRunE : M unit;
  RunE : list string → M unit;
  PersistentPostRunE : M unit;
}.

(** The command line library checks the arguments and then runs the hooks until
    one fails. *)
Definition execute (c : Command) (args : list string) : M unit :=
  match Args c args with
  | Some e => fails e
  | None => _ ← PersistentPreRunE c; _ ← RunE c args; PersistentPostRunE c
  end.

Definition ExactArgs (n : nat) (args : list string) : option error :=
  if decide (length args = n) then None
  else Some (Errorf ("accepts " +:+ itoa (N.of_nat n) +:+ " arg(s), received " +:+ itoa (N.of_nat (length args)))).
Definition MinimumNArgs (n : nat) (args : list string) : option error :=
  if decide (n ≤ length args) then None
  else Some (Errorf ("requires at least " +:+ itoa (N.of_nat n) +:+ " arg(s), only received " +:+ itoa (N.of_nat (length args)))).

(** The configuration and grpc.NewClient. *)
Record Config := mkConfig {
  cAddress : string; cProtocol : string; ProfilingEnabled : bool; ProfilingPath : string; NewClient : string → option error;
}.
Context (cfg : Config).

Definition connecting : M Conn :=
  match New (NewClient cfg) (cAddress cfg) (cProtocol cfg) with
  | None => panic
  | Some r => wrapping "Error creating client" r
  end.

(** Profiling data are shown when there are any. *)
Definition show_profile (data : option Data) : M unit :=
  match data with
  | Some data =>
      if ProfilingEnabled cfg then
        _ ← print (Profile data);
        if decide (ProfilingPath cfg = "") then mret () else print (WriteJSON (ProfilingPath cfg) data)
      else mret ()
  | None => mret ()
  end.
Fixpoint print_messages (l : list string) : M unit :=
  match l with [] => mret () | m :: l => _ ← print (Println m); print_messages l end.

(** What runs in place of the daemon without a server: [cedana.New], the handler,
    which gives a response or, for a restore and a run, also the exit code of the process, and
    [Finalize]. *)
Record Root (R : Type) := mkRoot {
  rootNew : Go W (option error);
  handle : Req → Go W (gores R);
  Finalize : Go W (option Data);
}.
#[global] Arguments rootNew {_}. #[global] Arguments handle {_}. #[global] Arguments Finalize {_}.

Definition serverless {R} (msg : string) (root : Root R) (req : Req) : M (R * option Data) :=
  err ← lift (rootNew root);
  match err with
  | Some e => fails (Errorf (msg +:+ ": " +:+ Error e))
  | None =>
      r ← lift (handle root req);
      data ← lift (Finalize root);
      match r with Err e => fails (GRPCErrorColored color e) | Ok resp => mret (resp, data) end
  end.

(** [client.Attach], which exits. *)
Definition attaching {A} (c : Conn) (pid : Z) : M A := code ← call (Attach c pid); exits code.

(** ** Subcommands *)

Definition with_details (d : option Details) (f : Details → Details) : option Details := Some (f (default empty_Details d)).
Definition set_JID (jid : string) (d : Details) : Details := mkDetails (Some jid) (dProcess d) (dContainerd d).

(** The PID of the argument. *)
Definition parse_pid (arg : string) : M Z :=
  match ParseUint32 arg with
  | (_, Some e) => fails (Errorf ("invalid pid: " +:+ Error e))
  | (pid, None) => mret pid
  end.

(** The job subcommands: the plugin for the type of the job, when it is not a
    process, changes the request, without arguments. *)
Definition job_RunE (invalid : string) (plugin : string → Req → gores Req) (jid_of : string → Req → Req) (args : list string) : M unit :=
  c ← get_client "invalid client in context";
  match args with
  | jid :: _ =>
      '(jobType, _) ← call (Get c jid);
      _ ← (if decide (jobType = "process") then mret () else
             req ← get_request invalid; req ← checked (plugin jobType req); set_request req);
      req ← get_request invalid;
      set_request (jid_of jid req)
  | [] => panic
  end.
End commands.
Arguments Command : clear implicits.
Arguments Root : clear implicits.
Arguments M : clear implicits.
Arguments mkRoot {_ _ _ _} _ _ _.

(** [proto.Bool]: a flag that was not given is set, too. *)
Abbreviation set b := (Some (b : bool)).

Section dump.
Context {W : Type} {D : Daemon W} (cfg : Config) (json : string → CriuOpts → gores CriuOpts) (ProtoJSON : Resp → gores string)
        (WriteFileErr : string → option error) (plugin_dump : string → DumpReq → gores DumpReq)
        (plugin_freeze plugin_unfreeze : string → DumpReq → gores DumpReq) (root : Root W D DumpReq Resp).
Abbreviation M := (M W D DumpReq).

(** ** dump.go *)

Record DumpFlags := mkDumpFlags {
  dir : string; name : string; compression : string; streams : Z; external : list string; shellJob : bool;
  linkRemap : bool; leaveRunning : bool; tcpEstablished : bool; tcpSkipInFlight : bool; fileLocks : bool;
  criuOptsJSON : string; noServer : bool; resultFile : string;
}.

Definition criu_flags (f : DumpFlags) : CriuOpts :=
  mkCriuOpts (set (tcpEstablished f)) (set (tcpSkipInFlight f)) None (set (leaveRunning f)) None (set (fileLocks f))
    (set (shellJob f)) (set (linkRemap f)) (external f).
(** JSON overrides the flags. *)
Definition with_json (opts : string) (c : CriuOpts) : gores CriuOpts := if decide (opts = "") then Ok c else json opts c.

Definition dump_PreRunE (f : DumpFlags) : M unit :=
  c ← wrapping "Error parsing CRIU options JSON" (with_json (criuOptsJSON f) (criu_flags f));
  _ ← set_request (mkDumpReq (dir f) (name f) (compression f) (streams f) (Some c) DUMP "" None);
  c ← connecting cfg;
  set_client c.

Definition write_result (path : string) (resp : Resp) : M unit :=
  if decide (path = "") then mret ()
  else
    match ProtoJSON resp with
    | Err e => fails (Errorf ("failed to marshal dump result: " +:+ Error e))
    | Ok data =>
        match WriteFileErr path with
        | Some e => fails (Errorf ("failed to write dump result to " +:+ path +:+ ": " +:+ Error e))
        | None => print (WriteFile path data)
        end
    end.

Definition show_dump (path : string) (r : Resp * option Data) : M unit :=
  _ ← show_profile cfg r.2; _ ← print_messages (Messages r.1); write_result path r.1.

Definition dump_PostRunE (f : DumpFlags) : M unit :=
  req ← get_request "invalid request in context";
  if noServer f then r ← serverless "Error creating root" root req; show_dump (resultFile f) r
  else
    c ← get_client "invalid client in context";
    deferring_close c (r ← call (Client.Dump c req); show_dump (resultFile f) r).

(** A process by its PID. *)
Definition process_req (pid : Z) (r : DumpReq) : DumpReq :=
  mkDumpReq (Dir r) (Name r) (Compression r) (Streams r) (Criu r) (Action r) "process"
    (Some (mkDetails None (Some (mkProcess "" [] "" pid)) None)).
Definition process_RunE (args : list string) : M unit :=
  req ← get_request "invalid request in context";
  match args with
  | arg :: _ => pid ← parse_pid arg; set_request (process_req pid req)
  | [] => panic
  end.

Definition job_req (jid : string) (r : DumpReq) : DumpReq :=
  mkDumpReq (Dir r) (Name r) (Compression r) (Streams r) (Criu r) (Action r) (Type' r)
    (with_details (details r) (set_JID jid)).

Definition processDumpCmd (f : DumpFlags) : Command W D DumpReq :=
  mkCommand (ExactArgs 1) (dump_PreRunE f) process_RunE (dump_PostRunE f).
Definition jobDumpCmd (f : DumpFlags) : Command W D DumpReq :=
  mkCommand (ExactArgs 1) (dump_PreRunE f) (job_RunE "invalid dump request in context" plugin_dump job_req) (dump_PostRunE f).

(** ** freeze.go and unfreeze.go *)

Definition freeze_PreRunE (action : DumpAction) : M unit :=
  _ ← set_request (mkDumpReq "" "" "" 0 None action "" None);
  c ← connecting cfg;
  set_client c.
Definition freeze_PostRunE (send : Conn → DumpReq → Go W (gores (Resp * option Data))) : M unit :=
  c ← get_client "invalid client in context";
  deferring_close c (
    req ← get_request "invalid request in context";
    r ← call (send c req);
    _ ← show_profile cfg r.2; print_messages (Messages r.1)).

Definition processFreezeCmd : Command W D DumpReq :=
  mkCommand (ExactArgs 1) (freeze_PreRunE FREEZE_ONLY) process_RunE (freeze_PostRunE Client.Freeze).
Definition jobFreezeCmd : Command W D DumpReq :=
  mkCommand (ExactArgs 1) (freeze_PreRunE FREEZE_ONLY) (job_RunE "invalid freeze request in context" plugin_freeze job_req)
    (freeze_PostRunE Client.Freeze).
Definition processUnfreezeCmd : Command W D DumpReq :=
  mkCommand (ExactArgs 1) (freeze_PreRunE UNFREEZE_ONLY) process_RunE (freeze_PostRunE Client.Unfreeze).
Definition jobUnfreezeCmd : Command W D DumpReq :=
  mkCommand (ExactArgs 1) (freeze_PreRunE UNFREEZE_ONLY) (job_RunE "invalid unfreeze request in context" plugin_unfreeze job_req)
    (freeze_PostRunE Client.Unfreeze).
End dump.

(** The warning when streams are asked for without a server. *)
Definition stream_warning (color : string → string) : string :=
  color "When using `--no-server`, flags `--out`, `--attach`, and `--attachable` are ignored as the standard output is copied to the caller.".

Section restore.
Context {W : Type} {D : Daemon W} (cfg : Config) (json : string → CriuOpts → gores CriuOpts) (warning : string → string)
        (Environ : list string) (GetCredentials : gores Credential) {R : Type} (exit_code : R → Go W Z).
Abbreviation M := (M W D RestoreReq).
Context (plugin_restore : string → RestoreReq → gores RestoreReq) (root : Root W D RestoreReq R).

(** ** restore.go *)

Record RestoreFlags := mkRestoreFlags {
  fPath : string; fLog : string; fAttach : bool; fAttachable : bool; fPidFile : string; fNoServer : bool; fGPUID : string;
  fExternal : list string; fLinkRemap : bool; fShellJob : bool; fTcpEstablished : bool; fTcpClose : bool;
  fLeaveStopped : bool; fFileLocks : bool; fCriuOptsJSON : string;
}.

Definition restore_criu_flags (f : RestoreFlags) : CriuOpts :=
  mkCriuOpts (set (fTcpEstablished f)) None (set (fTcpClose f)) None (set (fLeaveStopped f)) (set (fFileLocks f))
    (set (fShellJob f)) (set (fLinkRemap f)) (fExternal f).

Definition restore_PreRunE (f : RestoreFlags) : M unit :=
  c ← wrapping "Error parsing CRIU options JSON" (with_json json (fCriuOptsJSON f) (restore_criu_flags f));
  _ ← (if fNoServer f && (negb (bool_decide (fLog f = "")) || fAttach f || fAttachable f)
       then print (Println (stream_warning warning)) else mret ());
  user ← wrapping "Error getting user credentials" GetCredentials;
  _ ← set_request (mkRestoreReq (fPath f) (fPidFile f) (fLog f) (fAttach f || fAttachable f) (fAttach f) c Environ (fGPUID f)
                     user "" (Some empty_Details));
  if fNoServer f then mret () else c ← connecting cfg; set_client c.

Definition restore_PostRunE (f : RestoreFlags) : M unit :=
  req ← get_request "invalid restore request in context";
  if fNoServer f then
    '(r, data) ← serverless "Error creating root" root req;
    _ ← show_profile cfg data;
    code ← lift (exit_code r); exits code
  else
    c ← get_client "invalids client in context";
    deferring_close c (
      '(resp, data) ← call (Client.Restore c req);
      _ ← show_profile cfg data;
      if fAttach f then attaching c (PID resp) else print_messages (Messages resp)).

Definition set_rType (t : string) (r : RestoreReq) : RestoreReq :=
  mkRestoreReq (rPath r) (rPidFile r) (rLog r) (rAttachable r) (rWaitFirstMaster r) (rCriu r) (rEnv r) (rGPUID r) (rUser r) t (rDetails r).
Definition restore_job_req (jid : string) (r : RestoreReq) : RestoreReq :=
  mkRestoreReq (rPath r) (rPidFile r) (rLog r) (rAttachable r) (rWaitFirstMaster r) (rCriu r) (rEnv r) (rGPUID r) (rUser r) (rType r)
    (with_details (rDetails r) (set_JID jid)).

Definition process_restore_RunE (args : list string) : M unit :=
  req ← get_request "invalid restore request in context"; set_request (set_rType "process" req).
Definition job_restore_RunE (f : RestoreFlags) (args : list string) : M unit :=
  if fNoServer f then fails (Errorf "restore job is not supported when using `--no-server`")
  else job_RunE "invalid restore request in context" plugin_restore restore_job_req args.

Definition processRestoreCmd (f : RestoreFlags) : Command W D RestoreReq :=
  mkCommand (ExactArgs 0) (restore_PreRunE f) process_restore_RunE (restore_PostRunE f).
Definition jobRestoreCmd (f : RestoreFlags) : Command W D RestoreReq :=
  mkCommand (ExactArgs 1) (restore_PreRunE f) (job_restore_RunE f) (restore_PostRunE f).
End restore.

Section run.
Context {W : Type} {D : Daemon W} (cfg : Config) (warning : string → string)
        (Environ : list string) (GetCredentials : gores Credential) (LookPath : string → gores string) (Getwd : gores string)
        {R : Type} (exit_code : R → Go W Z) (root : Root W D RunReq R).
Abbreviation M := (M W D RunReq).

(** ** run.go and manage.go *)

Record RunFlags := mkRunFlags {
  gJID : string; gGPUEnabled : bool; gGPUTracing : bool; gGPUID : string; gOut : string; gAttach : bool; gAttachable : bool;
  gPidFile : string; gNoServer : bool; gAsRoot : bool;
}.

Definition run_PreRunE (f : RunFlags) : M unit :=
  _ ← (if gNoServer f && (negb (bool_decide (gOut f = "")) || gAttach f || gAttachable f)
       then print (Println (stream_warning warning)) else mret ());
  user ← wrapping "Error getting user credentials" GetCredentials;
  _ ← set_request (mkRunReq (gJID f) (gOut f) (gPidFile f) (gGPUEnabled f) (gGPUTracing f) (gGPUID f)
                     (gAttach f || gAttachable f) (gAttach f) START_NEW Environ user "" (Some empty_Details));
  if gNoServer f then mret () else c ← connecting cfg; set_client c.

Definition run_PostRunE (f : RunFlags) : M unit :=
  req ← get_request "invalid request in context";
  if gNoServer f then
    '(r, data) ← serverless "Error: failed to create cedana root" root req;
    _ ← show_profile cfg data;
    code ← lift (exit_code r); exits code
  else
    c ← get_client "invalid client in context";
    deferring_close c (
      '(resp, data) ← call (Client.Run c req);
      _ ← show_profile cfg data;
      if gAttach f then attaching c (PID resp) else print_messages (Messages resp)).

Definition RootCredentials : Credential := mkCredential 0 0 [0%Z].
Definition process_run_req (path : string) (args : list string) (wd : string) (user : Credential) (r : RunReq) : RunReq :=
  mkRunReq (JID r) (Log r) (PidFile r) (GPUEnabled r) (GPUTracing r) (GPUID r) (Attachable r) (WaitFirstMaster r) (RAction r)
    (Env r) user "process" (Some (mkDetails None (Some (mkProcess path args wd 0)) None)).

Definition process_run_RunE (f : RunFlags) (args : list string) : M unit :=
  req ← get_request "invalid request in context";
  match args with
  | path :: args =>
      path ← checked (LookPath path);
      wd ← wrapping "Error getting working directory" Getwd;
      set_request (process_run_req path args wd (if gAsRoot f then RootCredentials else User req) req)
  | [] => panic
  end.

Definition processRunCmd (f : RunFlags) : Command W D RunReq :=
  mkCommand (MinimumNArgs 1) (run_PreRunE f) (process_run_RunE f) (run_PostRunE f).

Definition no_user : Credential := mkCredential 0 0 [].
Definition manage_PreRunE (f : RunFlags) (upcoming : bool) : M unit :=
  set_request (mkRunReq (gJID f) "" (gPidFile f) (gGPUEnabled f) (gGPUTracing f) "" false false
                 (if upcoming then MANAGE_UPCOMING else MANAGE_EXISTING) [] no_user "" None).
Definition manage_PostRunE : M unit :=
  c ← connecting cfg;
  deferring_close c (
    req ← get_request "invalid request in context";
    '(resp, data) ← call (Client.Manage c req);
    _ ← show_profile cfg data; print_messages (Messages resp)).
Definition process_manage_req (pid : Z) (r : RunReq) : RunReq :=
  mkRunReq (JID r) (Log r) (PidFile r) (GPUEnabled r) (GPUTracing r) (GPUID r) (Attachable r) (WaitFirstMaster r) (RAction r)
    (Env r) (User r) "process" (Some (mkDetails None (Some (mkProcess "" [] "" pid)) None)).
Definition process_manage_RunE (args : list string) : M unit :=
  req ← get_request "invalid request in context";
  match args with
  | arg :: _ => pid ← parse_pid arg; set_request (process_manage_req pid req)
  | [] => panic
  end.
Definition processManageCmd (f : RunFlags) (upcoming : bool) : Command W D RunReq :=
  mkCommand (MinimumNArgs 1) (manage_PreRunE f upcoming) process_manage_RunE manage_PostRunE.
End run.

Section job.
Context {W : Type} {D : Daemon W} (cfg : Config).
Abbreviation M := (M W D unit).

(** ** job.go and attach.go *)

(** [utils.Confirm] of the lines of the standard input: it asks until there is
    an answer, and the end of the input is no. *)
Fixpoint Confirm (input : list string) : bool :=
  match input with
  | [] => false
  | line :: input =>
      let response := Server.Server.ToLower (TrimSpace line) in
      if decide (response = "y" ∨ response = "yes") then true
      else if decide (response = "n" ∨ response = "no" ∨ response = "") then false
      else Confirm input
  end.

Definition job_PreRunE : M unit := c ← connecting cfg; set_client c.
Definition job_PostRunE : M unit := c ← get_client "invalid client in context"; deferring_close c (mret ()).

(** Kill and delete: all jobs when there are no arguments, after a confirmation. *)
Definition jobs_RunE (send : Conn → list string → Go W (gores (list string))) (missing : string) (all : bool) (input jids : list string) : M unit :=
  c ← get_client "invalid client in context";
  let sending := messages ← call (send c jids); print_messages messages in
  if decide (jids = []) then
    if negb all then fails (Errorf missing)
    else if Confirm input then sending else mret ()
  else sending.

Definition ArbitraryArgs (args : list string) : option error := None.
Definition killJobCmd (all : bool) (input : list string) : Command W D unit :=
  mkCommand ArbitraryArgs job_PreRunE
    (jobs_RunE Client.Kill "Please provide at least one JID or use the --all flag" all input) job_PostRunE.
Definition deleteJobCmd (all : bool) (input : list string) : Command W D unit :=
  mkCommand ArbitraryArgs job_PreRunE
    (jobs_RunE Client.Delete "Please provide a job ID or use the --all flag" all input) job_PostRunE.

Definition attach_job_RunE (args : list string) : M unit :=
  c ← get_client "invalid client in context";
  match args with
  | jid :: _ => '(_, pid) ← call (Get c jid); attaching c pid
  | [] => panic
  end.
Definition attachJobCmd : Command W D unit := mkCommand (ExactArgs 1) job_PreRunE attach_job_RunE job_PostRunE.

Definition attach_RunE (args : list string) : M unit :=
  c ← connecting cfg;
  match args with
  | arg :: _ => pid ← parse_pid arg; attaching c pid
  | [] => panic
  end.
Definition attachCmd : Command W D unit := mkCommand (ExactArgs 1) (mret ()) attach_RunE (mret ()).
End job.
End Command.
