(* ===== verification/CommandSpec.v ===== *)
(** * What the commands do

    Theorems about [Command]: alone, and over the chain of [Pipeline] as the
    daemon behind the client or as the program that runs without a server.

    [cedana dump process] calls CRIU at most once and, when it succeeds, exactly
    once with what the flags asked for ([dump_process_command]).  The same command for a
    job, without a server, always fails, as nothing gives the request a type
    ([dump_job_without_server]).  Killing and deleting everything needs the flag
    and a yes ([all_needs_confirmation]).  A command that attaches ends with the
    exit code of the process ([run_attached_exits]). *)

From S2P Require Import Prelude GoLib Profiling Types Adapters ProcessTree Pipeline DumpSpec Client Command.
Import GoLib Profiling Types Adapters Client Command.

Module CommandSpec.
#[local] Arguments String.append : simpl never.

(** ** Hooks *)

Section hooks.
Context {W : Type} {D : Daemon W} {Req : Type}.

Lemma M_bind_Val {A B} (m : M W D Req A) (f : A → M W D Req B) s a s' :
  m s = Some (Val a, s') → (a ← m; f a) s = f a s'.
Proof. intros H. by rewrite /mbind /M_bind H. Qed.
Lemma M_bind_Fail {A B} (m : M W D Req A) (f : A → M W D Req B) s e s' :
  m s = Some (Fail e, s') → (a ← m; f a) s = Some (Fail e, s').
Proof. intros H. by rewrite /mbind /M_bind H. Qed.

(** Output only: nothing is sent, and the context stays. *)
Definition quiet {A} (m : M W D Req A) : Prop :=
  ∀ s, ∃ r l, m s = Some (r, mkState (request s) (client s) (world s) (out s ++ l)).

Lemma quiet_ret {A} (a : A) : quiet (mret a).
Proof. intros []. exists (Val a), []. cbn. by rewrite app_nil_r. Qed.
Lemma quiet_fails {A} e : quiet (fails e : M W D Req A).
Proof. intros []. exists (Fail e), []. cbn. by rewrite app_nil_r. Qed.
Lemma quiet_print o : quiet (print o).
Proof. intros s. by exists (Val ()), [o]. Qed.
Lemma quiet_bind {A B} (m : M W D Req A) (f : A → M W D Req B) : quiet m → (∀ a, quiet (f a)) → quiet (a ← m; f a).
Proof.
  intros Hm Hf s. destruct (Hm s) as ([a|e|c] & l & H); rewrite /mbind /M_bind H; [|by eexists _, l..].
  destruct (Hf a (mkState (request s) (client s) (world s) (out s ++ l))) as (r & l' & ->). exists r, (l ++ l'). cbn. by rewrite -app_assoc.
Qed.
Lemma quiet_print_messages l : quiet (print_messages l).
Proof. induction l as [|m l IH]; [apply quiet_ret|]. apply quiet_bind; [apply quiet_print|by intros []]. Qed.
Lemma quiet_show_profile cfg data : quiet (show_profile cfg data).
Proof.
  unfold show_profile. destruct data as [d|]; [|apply quiet_ret]. case_match; [|apply quiet_ret].
  apply quiet_bind; [apply quiet_print|]. intros []. case_decide; [apply quiet_ret|apply quiet_print].
Qed.
End hooks.

(** ** cedana dump *)

(** The options of CRIU that the chain looks at. *)
Definition to_COpts (c : CriuOpts) : Pipeline.COpts :=
  Pipeline.mkCOpts (LeaveRunning c) None None None None None (ShellJob c) (External c) None (TcpEstablished c) None None None "" 0.
Definition to_Details (d : Details) : Pipeline.Details :=
  Pipeline.mkDetails (default "" (dJID d)) (match dProcess d with Some p => pPID p | None => 0%Z end).
(** A request arrives with an empty response. *)
Definition load (r : DumpReq) (a : Pipeline.App) : Pipeline.App :=
  Pipeline.mkApp (Dir r) (Name r) (Type' r) (to_Details <$> details r) (Streams r) (to_COpts <$> Criu r) None [] [] []
    (Pipeline.criuCalls a) (Pipeline.gpuFrozen a) (Pipeline.jobCalls a).

Section dump.
Context {St : Type} (env : Pipeline.Env St) (profiling : bool).
Abbreviation Middleware := (Types.Middleware (Pipeline.Opts St) Pipeline.App unit).
Abbreviation Handler := (Types.Handler (Pipeline.Opts St) Pipeline.App unit).
Abbreviation Adapter := (Types.Adapter (Pipeline.Opts St) Pipeline.App unit).
Abbreviation World := (Types.World Pipeline.App).
Context (pluginMiddleware : string → gores Middleware) (pluginHandler : string → gores Handler).
Context (DumpFilesystem : St → Adapter) (StreamDumpFilesystem : Z → St → Adapter).
Context {fs_ok : ∀ st, DumpSpec.DumpFs (DumpFilesystem st)} {stream_ok : ∀ n st, DumpSpec.DumpFs (StreamDumpFilesystem n st)}.

(** The handler behind a request, with a server or without. *)
Definition handle_dump (serverless : bool) (ctx : Ctx) (req : DumpReq) : Go World (gores Resp) := λ w,
  match Pipeline.Dump env profiling pluginMiddleware pluginHandler DumpFilesystem StreamDumpFilesystem serverless ctx
          (set_app (load req (app w)) w) with
  | Some (Ok _, w) => Some (Ok (mkResp 0 (Pipeline.Messages (app w))), w)
  | Some (Err e, w) => Some (Err e, w)
  | None => None
  end.

(** What a dump of a process may do to the world. *)
Definition dumped_once (a : Pipeline.App) (ok : bool) (w : World) : Prop :=
  length (Pipeline.criuCalls (app w)) ≤ 1 ∧
  (ok = true → ∃ s dir, Pipeline.criuCalls (app w) = [DumpSpec.criu_opts env a s dir]).

Lemma handle_dump_process serverless ctx req d w :
  Type' req = "process" → details req = Some d → dJID d = None → Pipeline.criuCalls (app w) = [] →
  ∃ r w', handle_dump serverless ctx req w = Some (r, w') ∧ dumped_once (load req (app w)) (is_ok r) w'.
Proof.
  intros Ht Hd Hj Hc. unfold handle_dump, Pipeline.Dump. set (w0 := set_app _ w).
  assert (Pipeline.has_JID (app w0) = false) as ->.
  { unfold Pipeline.has_JID. cbn. by rewrite Hd /= Hj. }
  rewrite andb_false_r.
  destruct (DumpSpec.wp_dump_chain env profiling pluginMiddleware pluginHandler DumpFilesystem StreamDumpFilesystem
              (Pipeline.mkOpts None None serverless) (load req (app w)) Ht Hc ctx w0 eq_refl) as (r & w' & -> & _ & H).
  destruct r as [[]|e]; eexists _, _; (split; [reflexivity|]); split; cbn; try done.
  - destruct H as [[? _]|(s & dir & _ & _ & _ & -> & _)]; [done|]. cbn. lia.
  - intros _. destruct H as [[? _]|(s & dir & _ & _ & _ & -> & _)]; [done|]. by exists s, dir.
  - destruct H as [[_ ->]|(s & dir & _ & _ & _ & -> & _)]; cbn; lia.
Qed.

(** A dump without type fails before CRIU is called. *)
Lemma handle_dump_untyped ctx req w :
  Type' req = "" → ∃ e w', handle_dump true ctx req w = Some (Err e, w') ∧
    Pipeline.criuCalls (app w') = Pipeline.criuCalls (app w).
Proof.
  intros Ht. unfold handle_dump, Pipeline.Dump. set (w0 := set_app _ w). cbn [negb andb].
  assert (wp (Pipeline.dump_chain env profiling pluginMiddleware pluginHandler DumpFilesystem StreamDumpFilesystem false)
    (Pipeline.mkOpts None None true) (load req (app w))
    (λ r a, is_ok r = false ∧ Pipeline.criuCalls a = Pipeline.criuCalls (app w))) as Hwp.
  { unfold Pipeline.dump_chain. apply wp_With_cons, DumpSpec.wp_dump_criu_New; [done|]. intros p.
    apply wp_With_nil. unfold Pipeline.dump_middleware. apply wp_With_cons, wp_before. unfold Pipeline.fill_dump_defaults. cbn -[Pipeline.pluginDumpHandler].
    apply wp_With_cons, wp_before. unfold Pipeline.validate_dump. cbn. rewrite Ht.
    repeat case_decide; done. }
  destruct (Hwp ctx w0 eq_refl) as (r & w' & -> & Hr & Hc). destruct r as [[]|e]; [done|]. by exists e, w'.
Qed.

(** ** The command line *)

Context {D : Daemon World} (cfg : Config) (json : string → CriuOpts → gores CriuOpts) (ProtoJSON : Resp → gores string)
        (WriteFileErr : string → option error) (plugin_dump : string → DumpReq → gores DumpReq).
Context (ctx : Ctx) (trailer : World → Trailer) (rootErr : option error) (data : option Data).

(** The program without a server. *)
Definition dump_root : Root World D DumpReq Resp :=
  mkRoot (λ w, Some (rootErr, w)) (handle_dump true ctx) (λ w, Some (data, w)).
(** The daemon serves dumps with the chain. *)
Definition serves_dump : Prop :=
  ∀ req w, dDump req w = match handle_dump false ctx req w with Some (r, w) => Some ((r, trailer w), w) | None => None end.

Definition process_request (f : DumpFlags) (pid : Z) : DumpReq :=
  process_req pid (mkDumpReq (dir f) (name f) (compression f) (streams f) (Some (criu_flags f)) DUMP "" None).

Definition is_val {A} (r : res A) : bool := match r with Val _ => true | _ => false end.

Lemma quiet_show_dump path r : quiet (show_dump cfg ProtoJSON WriteFileErr path r : M World D DumpReq unit).
Proof.
  unfold show_dump. apply quiet_bind; [apply quiet_show_profile|]. intros _. apply quiet_bind; [apply quiet_print_messages|].
  intros _. unfold write_result. case_decide; [apply quiet_ret|]. case_match; [|apply quiet_fails].
  case_match; [apply quiet_fails|apply quiet_print].
Qed.

Abbreviation State := (@State World D DumpReq).
Definition in_world (w : World) (s : State) : State := mkState (request s) (client s) w (out s).

Lemma serverless_dump msg req s :
  serverless msg dump_root req (s : State) =
    match rootErr with
    | Some e => Some (Fail (Errorf (msg +:+ ": " +:+ Error e)), s)
    | None =>
        match handle_dump true ctx req (world s) with
        | Some (Ok resp, w) => Some (Val (resp, data), in_world w s)
        | Some (Err e, w) => Some (Fail (GRPCErrorColored color e), in_world w s)
        | None => None
        end
    end.
Proof.
  destruct s as [rq cl w o]. unfold serverless. rewrite /mbind /M_bind. cbn. destruct rootErr; [done|]. unfold lift. cbn.
  destruct (handle_dump true ctx req w) as [[[resp|e] w']|]; done.
Qed.

Lemma call_dump c req (s : State) :
  serves_dump →
  call (Client.Dump c req) s =
    match c with
    | NilConn => None
    | Connected _ _ =>
        match handle_dump false ctx (set_Action DUMP req) (world s) with
        | Some (Ok resp, w) =>
            Some (match FromTrailer (trailer w) with Ok data => Val (resp, data) | Err e => Fail e end, in_world w s)
        | Some (Err e, w) => Some (Fail (GRPCErrorColored color e), in_world w s)
        | None => None
        end
    end.
Proof.
  intros HD. destruct s as [rq cl w o]. unfold call, lift, Client.Dump, profiled, nonnil. rewrite /mbind /M_bind /Go_bind. cbn.
  destruct c as [t v|]; [|done]. rewrite HD. destruct (handle_dump false ctx _ w) as [[[resp|e] w']|]; [|done..].
  cbn. by destruct (FromTrailer (trailer w')).
Qed.

(** The last hook of a dump whose request names a process. *)
Lemma dump_PostRunE_process f req d target v (s : State) :
  serves_dump → request s = Some req → client s = Some (Connected target v) →
  Type' req = "process" → details req = Some d → dJID d = None → Pipeline.criuCalls (app (world s)) = [] → Action req = DUMP →
  ∃ r s', dump_PostRunE cfg ProtoJSON WriteFileErr dump_root f s = Some (r, s') ∧
    dumped_once (load req (app (world s))) (is_val r) (world s').
Proof.
  intros HD Hr Hcl Ht Hd Hj Hc Ha. assert (set_Action DUMP req = req) as Hset by by (destruct req; cbn in *; rewrite Ha).
  assert (∀ ok w, dumped_once (load req (app (world s))) ok w → dumped_once (load req (app (world s))) false w) as Hweak.
  { intros ok w [? _]. by split. }
  assert (dumped_once (load req (app (world s))) false (world s)) as Hnot by (split; [rewrite Hc; cbn; lia|done]).
  unfold dump_PostRunE. rewrite (M_bind_Val _ _ s req s); [by rewrite /get_request Hr|].
  destruct (noServer f).
  - destruct (handle_dump_process true ctx req d (world s) Ht Hd Hj Hc) as (r & w' & Hh & Ho).
    rewrite {1}/mbind {1}/M_bind serverless_dump Hh. destruct rootErr as [e|]; [by eexists _, _|].
    destruct r as [resp|e]; [|by eexists _, _; split; [reflexivity|]].
    destruct (quiet_show_dump (resultFile f) (resp, data) (in_world w' s)) as (r & l & ->). eexists _, _. split; [reflexivity|].
    cbn. destruct (is_val r); [done|by eapply Hweak].
  - rewrite (M_bind_Val _ _ s (Connected target v) s); [by rewrite /get_client Hcl|].
    destruct (handle_dump_process false ctx req d (world s) Ht Hd Hj Hc) as (r & w' & Hh & Ho).
    unfold deferring_close. rewrite {1}/mbind {1}/M_bind call_dump // Hset Hh.
    destruct r as [resp|e]; [|by eexists _, _; split; [reflexivity|]].
    destruct (FromTrailer (trailer w')) as [dt|e]; [|by eexists _, _; split; [reflexivity|]; eapply Hweak].
    destruct (quiet_show_dump (resultFile f) (resp, dt) (in_world w' s)) as (r & l & ->).
    destruct r as [[]|e|code]; (eexists _, _; split; [reflexivity|]); [done|by eapply Hweak..].
Qed.

(** Dumping a process: the command ends, and has called CRIU at most once; when it
    ends without error it has called it exactly once, for the PID of the argument, and
    the flags are among the options of the call. *)
Theorem dump_process_command f arg pid target v (s : State) :
  serves_dump → New (NewClient cfg) (cAddress cfg) (cProtocol cfg) = Some (Ok (Connected target v)) →
  criuOptsJSON f = "" → ParseUint32 arg = (pid, None) → Pipeline.criuCalls (app (world s)) = [] →
  ∃ r s', execute (processDumpCmd cfg json ProtoJSON WriteFileErr dump_root f) [arg] s = Some (r, s') ∧
    dumped_once (load (process_request f pid) (app (world s))) (is_val r) (world s').
Proof.
  intros HD Hnew Hjson Harg Hc. unfold execute, processDumpCmd. cbn [Args PersistentPreRunE RunE PersistentPostRunE].
  change (ExactArgs 1 _) with (@None error). cbn iota.
  rewrite (M_bind_Val _ _ s () (mkState (Some (mkDumpReq (dir f) (name f) (compression f) (streams f) (Some (criu_flags f)) DUMP "" None))
    (Some (Connected target v)) (world s) (out s))).
  { unfold dump_PreRunE, with_json, connecting. by rewrite Hjson Hnew. }
  rewrite (M_bind_Val _ _ _ () (mkState (Some (process_request f pid)) (Some (Connected target v)) (world s) (out s))).
  { unfold process_RunE, parse_pid. by rewrite Harg. }
  by apply (dump_PostRunE_process f (process_request f pid) (mkDetails None (Some (mkProcess "" [] "" pid)) None) target v
    (mkState (Some _) (Some _) (world s) (out s))).
Qed.

(** What the flags ask for is among the options of the call. *)
Theorem process_request_options f pid a s images :
  let o := DumpSpec.criu_opts env (load (process_request f pid) a) s images in
  (tcpEstablished f = true → Pipeline.TcpEstablished o = Some true) ∧
  (leaveRunning f = true → Pipeline.LeaveRunning o = Some true) ∧
  external f `prefix_of` Pipeline.External o ∧ Pipeline.coPid o = int32 (ProcessTree.PID s) ∧
  DumpSpec.dump_pid (load (process_request f pid) a) = pid.
Proof.
  split_and!; [intros H; cbn; by rewrite H orb_true_r|intros H; cbn; by rewrite H|by eexists|done|done].
Qed.

(** Dumping a job that is a process without a server: there is a connection all the
    same, the job is looked up, and then the dump always fails, since the
    request has no type. *)
Theorem dump_job_without_server f jid pid target v (s : State) :
  noServer f = true → New (NewClient cfg) (cAddress cfg) (cProtocol cfg) = Some (Ok (Connected target v)) →
  with_json json (criuOptsJSON f) (criu_flags f) = Ok (criu_flags f) → dGet jid (world s) = Some (Ok ("process", pid), world s) →
  ∃ e s', execute (jobDumpCmd cfg json ProtoJSON WriteFileErr plugin_dump dump_root f) [jid] s = Some (Fail e, s') ∧
    Pipeline.criuCalls (app (world s')) = Pipeline.criuCalls (app (world s)).
Proof.
  intros Hn Hnew Hjson Hget. unfold execute, jobDumpCmd. cbn [Args PersistentPreRunE RunE PersistentPostRunE].
  change (ExactArgs 1 _) with (@None error). cbn iota.
  rewrite (M_bind_Val _ _ s () (mkState (Some (mkDumpReq (dir f) (name f) (compression f) (streams f) (Some (criu_flags f)) DUMP "" None))
    (Some (Connected target v)) (world s) (out s))).
  { unfold dump_PreRunE, connecting. by rewrite Hjson Hnew. }
  set (req := mkDumpReq _ _ _ _ _ _ _ _).
  rewrite (M_bind_Val _ _ _ () (mkState (Some (job_req jid req)) (Some (Connected target v)) (world s) (out s))).
  { unfold job_RunE, call, lift, Client.Get, plain, nonnil. rewrite /mbind /M_bind /Go_bind. cbn. by rewrite Hget. }
  unfold dump_PostRunE, get_request. rewrite {1}/mbind {1}/M_bind. cbn [request]. rewrite Hn. rewrite {1}/mbind {1}/M_bind serverless_dump.
  cbn [world]. destruct rootErr as [e|]; [by eexists _, _|].
  destruct (handle_dump_untyped ctx (job_req jid req) (world s) eq_refl) as (e & w' & -> & Hc). by eexists _, _.
Qed.
End dump.

(** ** cedana run and restore, attached *)

Section attached.
Context {W : Type} {D : Daemon W} (cfg : Config) (json : string → CriuOpts → gores CriuOpts) (warning : string → string)
        (Environ : list string) (GetCredentials : gores Credential) (LookPath : string → gores string) (Getwd : gores string)
        {R : Type} (exit_code : R → Go W Z).

(** The command failed, or ended with the exit code of a session. *)
Definition ends_with_session {A} (r : res A) : Prop :=
  (∃ e, r = Fail e) ∨ ∃ code w w', r = Exit code ∧ attached w = Some (Ok code, w').

(** What follows does not return. *)
Definition never_returns {Req A} (m : M W D Req A) : Prop := ∀ s r s', m s = Some (r, s') → ends_with_session r.

Lemma never_returns_bind {Req A B} (m : M W D Req A) (f : A → M W D Req B) :
  (∀ s r s', m s = Some (r, s') → ∀ code, r ≠ Exit code) → (∀ a, never_returns (f a)) → never_returns (a ← m; f a).
Proof.
  intros Hm Hf s r s'. rewrite /mbind /M_bind. destruct (m s) as [[[a|e|code] s1]|] eqn:H; [by apply Hf|..|done].
  - intros [= <- <-]. left. by exists e.
  - by destruct (Hm s _ s1 H code).
Qed.

Lemma never_returns_attaching {Req A} c pid : never_returns (attaching c pid : M W D Req A).
Proof.
  intros s r s'. unfold attaching, call, lift, Client.Attach. rewrite /mbind /M_bind /Go_bind. unfold nonnil.
  destruct c as [t v|]; [|done]. destruct (openAttach (world s)) as [[[e|] w1]|]; [|destruct (sendAttach pid w1) as [[[e|] w2]|]|done].
  - intros [= <- <-]. left. by eexists.
  - intros [= <- <-]. left. by eexists.
  - destruct (attached w2) as [[[code|e] w3]|] eqn:Ha; [|intros [= <- <-]; left; by eexists|done].
    intros [= <- <-]. right. by exists code, w2, w3.
  - done.
Qed.

Lemma never_returns_deferring {Req A} c (m : M W D Req A) : never_returns m → never_returns (deferring_close c m).
Proof.
  intros Hm s r s'. unfold deferring_close. destruct (m s) as [[r1 s1]|] eqn:H; [|done]. pose proof (Hm s r1 s1 H) as Hr.
  destruct r1 as [a|e|code], c; intros [= <- <-]; done.
Qed.

(** Programs without an exit. *)
Definition no_exit {Req A} (m : M W D Req A) : Prop := ∀ s r s', m s = Some (r, s') → ∀ code, r ≠ Exit code.
Lemma no_exit_bind {Req A B} (m : M W D Req A) (f : A → M W D Req B) : no_exit m → (∀ a, no_exit (f a)) → no_exit (a ← m; f a).
Proof.
  intros Hm Hf s r s'. rewrite /mbind /M_bind. destruct (m s) as [[[a|e|code] s1]|] eqn:H; [by apply Hf|..|done].
  - by intros [= <- <-].
  - by destruct (Hm s _ s1 H code).
Qed.
Lemma no_exit_call {Req A} (m : Go W (gores A)) : no_exit (call m : M W D Req A).
Proof.
  intros s r s'. unfold call, lift, checked. rewrite /mbind /M_bind. destruct (m (world s)) as [[[a|e] w]|]; [..|done]; by intros [= <- <-].
Qed.
Lemma no_exit_checked {Req A} (x : gores A) : no_exit (checked x : M W D Req A).
Proof. intros s r s'. unfold checked. destruct x; by intros [= <- <-]. Qed.
Lemma no_exit_show_profile {Req} data : no_exit (show_profile cfg data : M W D Req unit).
Proof.
  unfold show_profile. destruct data; [|by intros ??? [= <- <-]]. case_match; [|by intros ??? [= <- <-]].
  apply no_exit_bind; [by intros ??? [= <- <-]|]. intros _. case_decide; by intros ??? [= <- <-].
Qed.
Lemma no_exit_connecting {Req} : no_exit (connecting cfg : M W D Req Conn).
Proof. unfold connecting. destruct (New _ _ _) as [x|]; [apply no_exit_checked|by intros ???]. Qed.
Lemma no_exit_run_PreRunE f : no_exit (run_PreRunE cfg warning Environ GetCredentials f).
Proof.
  unfold run_PreRunE. apply no_exit_bind; [case_match; by intros ??? [= <- <-]|]. intros _.
  apply no_exit_bind; [apply no_exit_checked|]. intros user. apply no_exit_bind; [by intros ??? [= <- <-]|]. intros _.
  case_match; [by intros ??? [= <- <-]|]. apply no_exit_bind; [apply no_exit_connecting|]. intros c. by intros ??? [= <- <-].
Qed.

Lemma no_exit_process_run_RunE f args : no_exit (process_run_RunE LookPath Getwd f args).
Proof.
  unfold process_run_RunE. apply no_exit_bind; [intros s ??; unfold get_request; destruct (request s); by intros [= <- <-]|].
  intros req. destruct args as [|path args]; [done|]. apply no_exit_bind; [apply no_exit_checked|]. intros p.
  apply no_exit_bind; [apply no_exit_checked|]. intros wd. by intros ??? [= <- <-].
Qed.

(** The last hook, when it attaches: what comes before does not exit. *)
Lemma never_returns_attached {Req} (send : Conn → Req → Go W (gores (Resp * option Data))) c req :
  never_returns (deferring_close c ('(resp, data) ← call (send c req); _ ← show_profile cfg data;
    attaching c (PID resp)) : M W D Req unit).
Proof.
  apply never_returns_deferring, never_returns_bind; [apply no_exit_call|]. intros [resp data].
  apply never_returns_bind; [apply no_exit_show_profile|]. intros _. apply never_returns_attaching.
Qed.

(** A command that runs a process and attaches does not return: it fails, or exits
    with the exit code of the process. *)
Theorem run_attached_exits f args root :
  gNoServer f = false → gAttach f = true →
  never_returns (execute (processRunCmd cfg warning Environ GetCredentials LookPath Getwd exit_code root f) args).
Proof.
  intros Hn Ha. unfold execute, processRunCmd. cbn [Args PersistentPreRunE RunE PersistentPostRunE].
  destruct (MinimumNArgs 1 args) as [e|]; [intros s r s' [= <- <-]; left; by exists e|].
  apply never_returns_bind; [apply no_exit_run_PreRunE|]. intros _. apply never_returns_bind; [apply no_exit_process_run_RunE|].
  intros _. unfold run_PostRunE. rewrite Hn Ha.
  apply never_returns_bind; [intros s ??; unfold get_request; destruct (request s); by intros [= <- <-]|]. intros req.
  apply never_returns_bind; [intros s ??; unfold get_client; destruct (client s); by intros [= <- <-]|]. intros c.
  apply never_returns_attached.
Qed.

Lemma no_exit_restore_PreRunE f : no_exit (restore_PreRunE cfg json warning Environ GetCredentials f).
Proof.
  unfold restore_PreRunE. apply no_exit_bind; [apply no_exit_checked|]. intros c.
  apply no_exit_bind; [case_match; by intros ??? [= <- <-]|]. intros _.
  apply no_exit_bind; [apply no_exit_checked|]. intros user. apply no_exit_bind; [by intros ??? [= <- <-]|]. intros _.
  case_match; [by intros ??? [= <- <-]|]. apply no_exit_bind; [apply no_exit_connecting|]. intros conn. by intros ??? [= <- <-].
Qed.

(** The same for a restore. *)
Theorem restore_attached_exits f args root :
  fNoServer f = false → fAttach f = true →
  never_returns (execute (processRestoreCmd cfg json warning Environ GetCredentials exit_code root f) args).
Proof.
  intros Hn Ha. unfold execute, processRestoreCmd. cbn [Args PersistentPreRunE RunE PersistentPostRunE].
  destruct (ExactArgs 0 args) as [e|]; [intros s r s' [= <- <-]; left; by exists e|].
  assert (∀ msg, no_exit (get_request msg : M W D RestoreReq RestoreReq)) as Hreq.
  { intros msg s ??. unfold get_request. destruct (request s); by intros [= <- <-]. }
  apply never_returns_bind; [apply no_exit_restore_PreRunE|]. intros _.
  apply never_returns_bind; [apply no_exit_bind; [apply Hreq|]; intros req; by intros ??? [= <- <-]|].
  intros _. unfold restore_PostRunE. rewrite Hn Ha. apply never_returns_bind; [apply Hreq|]. intros req.
  apply never_returns_bind; [intros s ??; unfold get_client; destruct (client s); by intros [= <- <-]|]. intros c.
  apply never_returns_attached.
Qed.
End attached.

(** ** cedana kill and delete *)

Section job.
Context {W : Type} {D : Daemon W} (cfg : Config).

(** An answer that makes [Confirm] ask again. *)
Definition unclear (line : string) : Prop :=
  Server.Server.ToLower (TrimSpace line) ∉ ["y"; "yes"; "n"; "no"; ""].

Lemma Confirm_spec input :
  Confirm input = true ↔
  ∃ pre line post, input = pre ++ line :: post ∧ Forall unclear pre ∧ Server.Server.ToLower (TrimSpace line) ∈ ["y"; "yes"].
Proof.
  induction input as [|line input IH]; cbn [Confirm].
  { split; [done|]. by intros ([] & ? & ? & ? & _). }
  case_decide as Hy; [|case_decide as Hn].
  - split; [|done]. intros _. exists [], line, input. split_and!; [done|constructor|set_solver].
  - split; [done|]. intros (pre & l & post & Heq & Hpre & Hl). destruct pre as [|p pre]; injection Heq as <- ->; [set_solver|].
    apply Forall_cons_1 in Hpre as [Hp _]. unfold unclear in Hp. set_solver.
  - rewrite IH. split.
    + intros (pre & l & post & -> & Hpre & Hl). exists (line :: pre), l, post. split_and!; [done|constructor; [unfold unclear; set_solver|done]|done].
    + intros (pre & l & post & Heq & Hpre & Hl). destruct pre as [|p pre]; injection Heq as <- ->; [set_solver|].
      apply Forall_cons_1 in Hpre as [_ Hpre]. by exists pre, l, post.
Qed.

(** Killing and deleting all jobs needs the flag and a confirmation: otherwise
    nothing is sent. *)
Theorem all_needs_confirmation all input s r s' :
  all && Confirm input = false →
  execute (killJobCmd cfg all input) [] s = Some (r, s') ∨ execute (deleteJobCmd cfg all input) [] s = Some (r, s') →
  world s' = world s.
Proof.
  intros Hno.
  assert (∀ send missing, (jobs_RunE send missing all input []) =
    (c ← get_client "invalid client in context"; if negb all then fails (Errorf missing) else mret ())) as Hjobs.
  { intros send missing. unfold jobs_RunE. case_decide; [|done]. destruct all; cbn in Hno; [by rewrite Hno|done]. }
  unfold execute, killJobCmd, deleteJobCmd. cbn [Args PersistentPreRunE RunE PersistentPostRunE ArbitraryArgs]. rewrite !Hjobs. clear Hjobs.
  unfold job_PreRunE, job_PostRunE, connecting. intros [H|H]; revert H; rewrite /mbind /M_bind;
    (destruct (New _ _ _) as [[c|e]|]; [|by intros [= <- <-]|done]); cbn; destruct all; cbn; [|by intros [= <- <-]|..];
    (destruct c as [t v|]; [by intros [= <- <-]|done]) || by intros [= <- <-].
Qed.
End job.

(** ** An example *)

Definition sample_world : Types.World Pipeline.App :=
  mkWorld ∅ 0 (Pipeline.mkApp "" "" "" None 0 None None [] [] [] [] false []).
Definition sample_handle := handle_dump DumpSpec.sample_env false DumpSpec.sample_middleware DumpSpec.sample_handler DumpSpec.sample_fs (λ _, DumpSpec.sample_fs).
(** A daemon that serves dumps and knows one job. *)
Definition sample_daemon : Daemon (Types.World Pipeline.App) :=
  let none {A} := λ w, Some (Err (Status Unimplemented "not served") : gores A, w) in
  {| Trailer := unit; Data := unit; color := id; FromTrailer := λ _, Ok None;
     dDump := λ req w, match sample_handle false None req w with Some (r, w) => Some ((r, ()), w) | None => None end;
     dFreeze := λ _ w, Some ((Err (Status Unimplemented "not served"), ()), w);
     dUnfreeze := λ _ w, Some ((Err (Status Unimplemented "not served"), ()), w);
     dRestore := λ _ w, Some ((Err (Status Unimplemented "not served"), ()), w);
     dRun := λ _ w, Some ((Err (Status Unimplemented "not served"), ()), w);
     dManage := λ _ w, Some ((Err (Status Unimplemented "not served"), ()), w);
     dGet := λ jid w, Some (if decide (jid = "job-1") then Ok ("process", 41%Z) else Err (Status NotFound "job not found"), w);
     dKill := λ _, none; dDelete := λ _, none;
     openAttach := mret None; sendAttach := λ _, mret None; attached := mret (Ok 7%Z) |}.
Definition sample_config : Config := mkConfig "" "UNIX" false "" (λ _, None).
Definition sample_root := dump_root DumpSpec.sample_env false DumpSpec.sample_middleware DumpSpec.sample_handler DumpSpec.sample_fs
  (λ _, DumpSpec.sample_fs) (D := sample_daemon) None None None.
Definition sample_flags (serverless : bool) : DumpFlags :=
  mkDumpFlags "/ckpt" "" "" 0 ["mnt[x]:y"] false false true true false false "" serverless "".
Definition sample_state : @Command.State _ sample_daemon DumpReq := mkState None None sample_world [].

Definition sample_dump (serverless : bool) (arg : string) :=
  execute (processDumpCmd sample_config (λ _ c, Ok c) (λ _, Ok "{}") (λ _, None) sample_root (sample_flags serverless)) [arg] sample_state.

(** Whether it succeeded, the PIDs CRIU was called for, and the output. *)
Definition observe (serverless : bool) (arg : string) : option (bool * list Z * list string) :=
  match sample_dump serverless arg with
  | Some (r, s) =>
      Some (is_val r, Pipeline.coPid <$> Pipeline.criuCalls (app (world s)),
        (λ o, match o with Println l => l | Close => "(closed)" | _ => "?" end) <$> out s)
  | None => None
  end.

(** With and without a server CRIU is called once. *)
Example dump_examples :
  observe false "41" = Some (true, [41%Z], ["Dumped to /dumps/dump-process-7"; "(closed)"]) ∧
  observe true "41" = Some (true, [41%Z], ["Dumped to /dumps/dump-process-7"]) ∧
  observe false "4x" = Some (false, [], []).
Proof. split_and!; vm_compute; reflexivity. Qed.
End CommandSpec.
